(** * subd: session lifecycle, store, allowlist, bridge and agent loop

    A shallow embedding of the orchestration core of the subd daemon
    (JavaScript, Bun) and the proofs of the properties its specification
    states about it.

    Conventions of the embedding.
    - A JavaScript string is a [string] that holds the text in UTF-8: an
      ASCII character is one character of the Rocq string, any other
      character is the two to four bytes of its encoding. The modelled
      code compares characters of the ASCII range only, except for the
      white space of [trim] and of the class [\s] and for the line
      terminators that the dot of a regular expression leaves out, which
      are spelled out below as byte sequences. A text that is not
      well-formed (a lone surrogate) has no counterpart.
    - A [Map] keyed by strings whose iteration order is irrelevant to the
      modelled code is a [gmap string _]; a [Map], [Set] or object whose
      iteration order is observable is an association list or a list
      without duplicates, in insertion order.
    - Code that throws returns a [throws]; code that mutates process state
      passes that state explicitly.
    - [undefined] for a missing field of a typed record is [None].
    - A [throw] statement takes any value, and a template literal
      converts the values it holds to texts, which may throw. *)

From Stdlib Require Import String Ascii List ZArith Lia Bool DecimalString.
From stdpp Require Import gmap strings.
Import ListNotations.
Open Scope string_scope.

(** ** JavaScript strings *)

Module Js.

(** [String.prototype.startsWith], [endsWith]. *)
Fixpoint startsWith (s p : string) : bool :=
  match p, s with
  | EmptyString, _ => true
  | String _ _, EmptyString => false
  | String b p', String a s' => if Ascii.eqb a b then startsWith s' p' else false
  end.

Fixpoint rev_string (acc s : string) : string :=
  match s with
  | EmptyString => acc
  | String c s' => rev_string (String c acc) s'
  end.

Definition endsWith (s p : string) : bool :=
  startsWith (rev_string "" s) (rev_string "" p).

(** White space of [trim] and of the regular expression class [\s]. In
    one byte: TAB, LF, VT, FF, CR and SPACE. *)
Definition is_space (c : ascii) : bool :=
  let n := nat_of_ascii c in
  ((9 <=? n)%nat && (n <=? 13)%nat) || (n =? 32)%nat.

(** In two bytes: U+00A0, the no-break space (C2 A0). *)
Definition is_space2 (a b : ascii) : bool :=
  (nat_of_ascii a =? 194)%nat && (nat_of_ascii b =? 160)%nat.

(** In three bytes: U+1680 (E1 9A 80), U+2000 to U+200A (E2 80 80 to
    E2 80 8A), the line and paragraph separators U+2028 and U+2029
    (E2 80 A8, E2 80 A9), U+202F (E2 80 AF), U+205F (E2 81 9F), U+3000
    (E3 80 80) and the byte order mark U+FEFF (EF BB BF). *)
Definition is_space3 (a b c : ascii) : bool :=
  let a := nat_of_ascii a in
  let b := nat_of_ascii b in
  let c := nat_of_ascii c in
  ((a =? 225) && (b =? 154) && (c =? 128))%nat
  || ((a =? 226) && (b =? 128)
      && (((128 <=? c) && (c <=? 138)) || (c =? 168) || (c =? 169) || (c =? 175)))%nat
  || ((a =? 226) && (b =? 129) && (c =? 159))%nat
  || ((a =? 227) && (b =? 128) && (c =? 128))%nat
  || ((a =? 239) && (b =? 187) && (c =? 191))%nat.

(** The text that follows the white space character at the head of a
    text, when the text starts with one. *)
Definition after_space (s : string) : option string :=
  match s with
  | String a s1 =>
      if is_space a then Some s1
      else
        match s1 with
        | String b s2 =>
            if is_space2 a b then Some s2
            else
              match s2 with
              | String c s3 => if is_space3 a b c then Some s3 else None
              | EmptyString => None
              end
        | EmptyString => None
        end
  | EmptyString => None
  end.

Definition space_at (s : string) : bool :=
  match after_space s with Some _ => true | None => false end.

Fixpoint trimStart (s : string) : string :=
  match s with
  | EmptyString => EmptyString
  | String a s1 =>
      if is_space a then trimStart s1
      else
        match s1 with
        | String b s2 =>
            if is_space2 a b then trimStart s2
            else
              match s2 with
              | String c s3 => if is_space3 a b c then trimStart s3 else s
              | EmptyString => s
              end
        | EmptyString => s
        end
  end.

(** The text is white space from its first to its last character. *)
Fixpoint blank (s : string) : bool :=
  match s with
  | EmptyString => true
  | String a s1 =>
      if is_space a then blank s1
      else
        match s1 with
        | String b s2 =>
            if is_space2 a b then blank s2
            else
              match s2 with
              | String c s3 => if is_space3 a b c then blank s3 else false
              | EmptyString => false
              end
        | EmptyString => false
        end
  end.

(** [trimEnd] drops the longest end of the text that is white space. *)
Fixpoint trimEnd (s : string) : string :=
  match s with
  | EmptyString => EmptyString
  | String c s' => if blank s then EmptyString else String c (trimEnd s')
  end.

Definition trim (s : string) : string := trimEnd (trimStart s).

(** [s.split(sep)] for a non-empty string separator: [skip] counts the
    characters of a separator that was just matched and are still to be
    dropped, [cur] is the piece being collected. *)
Fixpoint split_go (sep : string) (skip : nat) (cur : string) (s : string)
  : list string :=
  match s with
  | EmptyString => [cur]
  | String c s' =>
      match skip with
      | S k => split_go sep k cur s'
      | O =>
          if startsWith s sep
          then cur :: split_go sep (String.length sep - 1) "" s'
          else split_go sep 0 (cur ++ String c "") s'
      end
  end.

Definition split (s sep : string) : list string := split_go sep 0 "" s.

(** [arr.join(sep)]. *)
Fixpoint join (sep : string) (l : list string) : string :=
  match l with
  | [] => ""
  | [x] => x
  | x :: rest => x ++ sep ++ join sep rest
  end.

(** [arr.includes(x)] on an array of strings. *)
Definition includes (l : list string) (x : string) : bool :=
  existsb (String.eqb x) l.

(** [s.split(/\s+/)[0]]: the characters before the first white space. *)
Fixpoint first_word (s : string) : string :=
  match s with
  | EmptyString => EmptyString
  | String c s' => if space_at s then EmptyString else String c (first_word s')
  end.

(** [s.indexOf(c, 1)] for a one-character [c]: the position of the first
    occurrence at index 1 or later. *)
Fixpoint indexOf_from (c : ascii) (i : nat) (s : string) : option nat :=
  match s with
  | EmptyString => None
  | String a s' => if Ascii.eqb a c then Some i else indexOf_from c (S i) s'
  end.

Definition indexOf1 (s : string) (c : ascii) : option nat :=
  match s with
  | EmptyString => None
  | String _ s' => indexOf_from c 1 s'
  end.

(** A string is falsy exactly when it is empty. *)
Definition nonempty (s : string) : bool :=
  match s with EmptyString => false | _ => true end.

End Js.

(** ** The FSM primitive (common/fsm.mjs) *)

Module FSM.

Record rule := { from : list string; to : option string }.

(** [this.transitions]: a [Map] from action to rule, in insertion order. *)
Definition t := list (string * rule).

Fixpoint map_set (m : t) (action : string) (r : rule) : t :=
  match m with
  | [] => [(action, r)]
  | (a, r0) :: m' =>
      if String.eqb a action then (a, r) :: m' else (a, r0) :: map_set m' action r
  end.

Fixpoint map_get (m : t) (action : string) : option rule :=
  match m with
  | [] => None
  | (a, r) :: m' => if String.eqb a action then Some r else map_get m' action
  end.

(** One step of the constructor's loop: [rule.split('->').map(trim)],
    the first piece split again at the commas. *)
Definition parse_rule (r : string) : rule :=
  let parts := map Js.trim (Js.split r "->") in
  let fromStr := nth 0 parts "" in
  {| from := map Js.trim (Js.split fromStr ",");
     to := nth_error parts 1 |}.

(** [new FSM(transitions)], from the entries of the object literal. *)
Definition new (transitions : list (string * string)) : t :=
  fold_left (fun m '(action, r) => map_set m action (parse_rule r)) transitions [].

Record result :=
  { success : bool; res_from : string; res_to : option string; error : option string }.

Definition transition (fsm : t) (currentState action : string) : result :=
  match map_get fsm action with
  | None =>
      {| success := false; res_from := currentState; res_to := None;
         error := Some ("Unknown action: " ++ action) |}
  | Some r =>
      if negb (Js.includes (from r) currentState)
      then {| success := false; res_from := currentState; res_to := None;
              error := Some ("Cannot " ++ action ++ " from '" ++ currentState
                             ++ "'. Valid: " ++ Js.join ", " (from r)) |}
      else {| success := true; res_from := currentState; res_to := to r;
              error := None |}
  end.

Definition validActions (fsm : t) (currentState : string) : list string :=
  map fst (List.filter (fun '(_, r) => Js.includes (from r) currentState) fsm).

End FSM.

(** ** Session states and the session FSM (plugins/agent/models/session.mjs) *)

Module SessionState.
Definition PENDING := "pending".
Definition RUNNING := "running".
Definition SUCCESS := "success".
Definition ERROR := "error".
Definition PAUSED := "paused".
Definition STOPPED := "stopped".
End SessionState.

Definition sessionFSM : FSM.t :=
  FSM.new
    [ ("pause", "pending,running -> paused");
      ("resume", "paused -> pending");
      ("retry", "success,error -> pending");
      ("stop", "pending,running,paused -> stopped");
      ("run", "stopped -> running");
      ("start", "pending -> running");
      ("complete", "running -> success");
      ("fail", "running -> error") ].

(** ** Results of code that may throw *)

Inductive throws (A : Type) : Type :=
| Ok (a : A)
| Throw (name message : string).
Arguments Ok {A} a.
Arguments Throw {A} name message.

(** Truthiness of a stored document, as tested by [if (data)]. *)
Class Truthy (V : Type) := truthy : V -> bool.

(** ** The durable collection store (common/yaml-db.mjs)

    A collection is rooted at a directory that is not a glob pattern. The
    directory is modelled by the files it holds, by name; it exists (the
    code creates it on demand). The names are the entries of the
    directory, and the path [path.join(dir, name)] of the code is the
    entry [name]: this holds of file names, texts without a [/] that are
    not [.] or [..]; an id such as [./a], whose path [path.join]
    normalises to that of [a], is outside the model. A file holds the
    document its YAML text
    parses to, or nothing when the text does not parse or cannot be read.
    [fromYaml (toYaml v) = v] is taken for granted. Names in [locked] are
    files the process may neither write nor unlink: the file system call
    throws. *)

Module YamlCollection.

Section Store.
Context {V : Type} `{Truthy V}.

Record file := { content : option V; mtimeMs : Z }.

Record disk := { files : gmap string file; locked : gset string }.

Inductive fs_op :=
| Unlink (name : string)
| WriteFile (name : string) (data : V).

(** [dirty] and [deleted] are [Set]s: no duplicates, insertion order. *)
Record collection :=
  { items : gmap string V;
    filePaths : gmap string string;
    lastReadTs : gmap string Z;
    dirty : list string;
    deleted : list string;
    hasChanges : bool }.

Definition new : collection :=
  {| items := ∅; filePaths := ∅; lastReadTs := ∅;
     dirty := []; deleted := []; hasChanges := false |}.

Definition set_add (x : string) (l : list string) : list string :=
  if Js.includes l x then l else (l ++ [x])%list.

Definition set_delete (x : string) (l : list string) : list string :=
  List.filter (fun y => negb (String.eqb x y)) l.

(** [_getFilePath(id)] *)
Definition _getFilePath (c : collection) (id : string) : string :=
  match filePaths c !! id with
  | Some p => p
  | None => id ++ ".yml"
  end.

(** [path.basename(f, path.extname(f))] for a name that ends in [.yml]
    or [.yaml]; a name that is nothing but the extension has no
    extension for [path.extname]. *)
Definition strip_last (n : nat) (s : string) : string :=
  String.substring 0 (String.length s - n) s.

Definition id_of_file (name : string) : string :=
  if Js.endsWith name ".yml" && (4 <? String.length name)%nat then strip_last 4 name
  else if Js.endsWith name ".yaml" && (5 <? String.length name)%nat then strip_last 5 name
  else name.

(** [_scanFiles()]: the names that end in [.yml] or [.yaml]. *)
Definition _scanFiles (d : disk) : list string :=
  List.filter (fun f => Js.endsWith f ".yml" || Js.endsWith f ".yaml")
         (map fst (map_to_list (files d))).

(** [_loadFile(id, filePath)]: a failing [statSync], read or parse is
    caught and leaves the cache as it is. *)
Definition _loadFile (c : collection) (d : disk) (id name : string) : collection :=
  match files d !! name with
  | None => c
  | Some f =>
      let lastRead := default 0%Z (lastReadTs c !! id) in
      if (mtimeMs f >? lastRead)%Z then
        match content f with
        | None => c
        | Some v =>
            {| items := <[id := v]> (items c);
               filePaths := <[id := name]> (filePaths c);
               lastReadTs := <[id := mtimeMs f]> (lastReadTs c);
               dirty := dirty c; deleted := deleted c;
               hasChanges := hasChanges c |}
        end
      else
        {| items := items c;
           filePaths := <[id := name]> (filePaths c);
           lastReadTs := lastReadTs c;
           dirty := dirty c; deleted := deleted c;
           hasChanges := hasChanges c |}
  end.

(** The second loop of [loadAll]: forget a cached id with no file. *)
Definition forget (c : collection) (id : string) : collection :=
  {| items := base.delete id (items c);
     filePaths := base.delete id (filePaths c);
     lastReadTs := base.delete id (lastReadTs c);
     dirty := dirty c; deleted := deleted c; hasChanges := hasChanges c |}.

Definition loadAll (c : collection) (d : disk) : collection :=
  let c0 := {| items := items c; filePaths := filePaths c;
               lastReadTs := lastReadTs c;
               dirty := []; deleted := []; hasChanges := false |} in
  let scanned := _scanFiles d in
  let currentFiles := map id_of_file scanned in
  let c1 := fold_left (fun acc f => _loadFile acc d (id_of_file f) f) scanned c0 in
  fold_left
    (fun acc id => if Js.includes currentFiles id then acc else forget acc id)
    (map fst (map_to_list (items c1))) c1.

Definition exists_file (d : disk) (name : string) : bool :=
  bool_decide (is_Some (files d !! name)).

(** [get(id)]: the refreshed cache and the document, if any. *)
Definition get (c : collection) (d : disk) (id : string) : collection * option V :=
  match filePaths c !! id with
  | Some cachedPath =>
      if Js.nonempty cachedPath then
        let c' := _loadFile c d id cachedPath in (c', items c' !! id)
      else if exists_file d (id ++ ".yml") then
        let c' := _loadFile c d id (id ++ ".yml") in (c', items c' !! id)
      else if exists_file d (id ++ ".yaml") then
        let c' := _loadFile c d id (id ++ ".yaml") in (c', items c' !! id)
      else (c, None)
  | None =>
      if exists_file d (id ++ ".yml") then
        let c' := _loadFile c d id (id ++ ".yml") in (c', items c' !! id)
      else if exists_file d (id ++ ".yaml") then
        let c' := _loadFile c d id (id ++ ".yaml") in (c', items c' !! id)
      else (c, None)
  end.

Definition set (c : collection) (id : string) (data : V) : collection :=
  {| items := <[id := data]> (items c);
     filePaths := filePaths c; lastReadTs := lastReadTs c;
     dirty := set_add id (dirty c);
     deleted := set_delete id (deleted c);
     hasChanges := true |}.

Definition delete (c : collection) (id : string) : collection * bool :=
  if bool_decide (is_Some (items c !! id)) || bool_decide (is_Some (filePaths c !! id))
  then ({| items := base.delete id (items c);
           filePaths := filePaths c; lastReadTs := lastReadTs c;
           dirty := set_delete id (dirty c);
           deleted := set_add id (deleted c);
           hasChanges := true |}, true)
  else (c, false).

Definition getAll (c : collection) (d : disk) : collection * list V :=
  fold_left
    (fun '(acc, results) f =>
       let id := id_of_file f in
       let acc' := _loadFile acc d id f in
       match items acc' !! id with
       | Some v => (acc', (results ++ [v])%list)
       | None => (acc', results)
       end)
    (_scanFiles d) (c, []).

(** The state of a [save] in progress: the collection, the directory and
    the file system calls made so far. *)
Record saving := { sv_col : collection; sv_disk : disk; sv_ops : list fs_op }.

(** [fs.unlinkSync] and [writeYaml] at time [now]. *)
Definition unlinkSync (d : disk) (name : string) : throws disk :=
  if bool_decide (name ∈ locked d)
  then Throw "Error" ("EACCES: permission denied, unlink '" ++ name ++ "'")
  else Ok {| files := base.delete name (files d); locked := locked d |}.

Definition writeYaml (d : disk) (now : Z) (name : string) (data : V) : throws disk :=
  if bool_decide (name ∈ locked d)
  then Throw "Error" ("EACCES: permission denied, open '" ++ name ++ "'")
  else Ok {| files := <[name := {| content := Some data; mtimeMs := now |}]> (files d);
             locked := locked d |}.

(** The first loop of [save], over the ids left in [deleted]. *)
Fixpoint save_deleted (ids : list string) (s : saving) : throws saving * saving :=
  match ids with
  | [] => (Ok s, s)
  | id :: rest =>
      let c := sv_col s in
      let filePath := _getFilePath c id in
      let unlinked :=
        if exists_file (sv_disk s) filePath
        then match unlinkSync (sv_disk s) filePath with
             | Ok d' => Ok (d', (sv_ops s ++ [Unlink filePath])%list)
             | Throw n m => Throw n m
             end
        else Ok (sv_disk s, sv_ops s) in
      match unlinked with
      | Throw n m => (Throw n m, s)
      | Ok (d', ops') =>
          save_deleted rest
            {| sv_col := {| items := items c;
                            filePaths := base.delete id (filePaths c);
                            lastReadTs := lastReadTs c;
                            dirty := dirty c; deleted := deleted c;
                            hasChanges := hasChanges c |};
               sv_disk := d'; sv_ops := ops' |}
      end
  end.

(** The second loop of [save], over the ids in [dirty]. *)
Fixpoint save_dirty (now : Z) (ids : list string) (s : saving) : throws saving * saving :=
  match ids with
  | [] => (Ok s, s)
  | id :: rest =>
      let c := sv_col s in
      match items c !! id with
      | Some data =>
          if truthy data then
            let filePath := _getFilePath c id in
            match writeYaml (sv_disk s) now filePath data with
            | Throw n m => (Throw n m, s)
            | Ok d' =>
                save_dirty now rest
                  {| sv_col := {| items := items c;
                                  filePaths := <[id := filePath]> (filePaths c);
                                  lastReadTs := lastReadTs c;
                                  dirty := dirty c; deleted := deleted c;
                                  hasChanges := hasChanges c |};
                     sv_disk := d'; sv_ops := (sv_ops s ++ [WriteFile filePath data])%list |}
            end
          else save_dirty now rest s
      | None => save_dirty now rest s
      end
  end.

Definition with_deleted (c : collection) (l : list string) : collection :=
  {| items := items c; filePaths := filePaths c; lastReadTs := lastReadTs c;
     dirty := dirty c; deleted := l; hasChanges := hasChanges c |}.

Definition saved (c : collection) : collection :=
  {| items := items c; filePaths := filePaths c; lastReadTs := lastReadTs c;
     dirty := []; deleted := deleted c; hasChanges := false |}.

(** [save()] at time [now]: whether it returned or threw, and the
    collection, the directory and the file system calls it made. *)
Definition save (c : collection) (d : disk) (now : Z) : throws unit * saving :=
  if negb (hasChanges c) then (Ok tt, {| sv_col := c; sv_disk := d; sv_ops := [] |})
  else
    match save_deleted (deleted c) {| sv_col := c; sv_disk := d; sv_ops := [] |} with
    | (Throw n m, s) => (Throw n m, s)
    | (Ok _, s1) =>
        let s2 := {| sv_col := with_deleted (sv_col s1) [];
                     sv_disk := sv_disk s1; sv_ops := sv_ops s1 |} in
        match save_dirty now (dirty (sv_col s2)) s2 with
        | (Throw n m, s) => (Throw n m, s)
        | (Ok _, s3) =>
            (Ok tt, {| sv_col := saved (sv_col s3);
                       sv_disk := sv_disk s3; sv_ops := sv_ops s3 |})
        end
    end.

(** [list()] *)
Definition list (d : disk) : Datatypes.list string :=
  map id_of_file (_scanFiles d).

End Store.

Arguments file : clear implicits.
Arguments disk : clear implicits.
Arguments fs_op : clear implicits.
Arguments collection : clear implicits.
Arguments saving : clear implicits.

End YamlCollection.

(** ** The core tools ([CoreTools.clean])

    What [clean()] does with one collection that is not a collection of
    templates: [delete] every id that [list()] gives, then [save()]. *)

Module CoreTools.

Definition clean_collection {V : Type} `{Truthy V} (c : YamlCollection.collection V)
           (d : YamlCollection.disk V) (now : Z)
  : throws unit * YamlCollection.saving V :=
  let c' := fold_left (fun acc id => fst (YamlCollection.delete acc id))
                      (YamlCollection.list d) c in
  YamlCollection.save c' d now.

End CoreTools.

(** ** The terminal allowlist (plugins/shell/terminal-allowlist.mjs) *)

Module Allowlist.

(** The value of an allowlist entry: [true], [false], [null], an object
    with its [approve] (when it is a boolean) and the truthiness of its
    [matchCommandLine], or any other value. *)
Inductive RuleValue :=
| RBool (b : bool)
| RNull
| RObj (approve : option bool) (matchCommandLine : bool)
| ROther.

(** [Object.entries(allowlist)], in the order of the object. *)
Definition t := list (string * RuleValue).

(** *** parseRegexPattern: a slash, a non-empty body without line
    terminators, a slash, and lower-case flags up to the end. *)

Definition is_lower (c : ascii) : bool :=
  let n := nat_of_ascii c in (97 <=? n)%nat && (n <=? 122)%nat.

Definition is_line_terminator (c : ascii) : bool :=
  let n := nat_of_ascii c in (n =? 10)%nat || (n =? 13)%nat.

(** The text holds no line terminator: neither LF nor CR nor, in three
    bytes, U+2028 or U+2029 (E2 80 A8, E2 80 A9). The dot of a regular
    expression matches every other character. *)
Fixpoint no_line_terminator (s : string) : bool :=
  match s with
  | EmptyString => true
  | String a s1 =>
      negb (is_line_terminator a)
      && negb match s1 with
              | String b (String c _) =>
                  ((nat_of_ascii a =? 226) && (nat_of_ascii b =? 128)
                   && ((nat_of_ascii c =? 168) || (nat_of_ascii c =? 169)))%nat
              | _ => false
              end
      && no_line_terminator s1
  end.

Fixpoint all_chars (p : ascii -> bool) (s : string) : bool :=
  match s with
  | EmptyString => true
  | String c s' => p c && all_chars p s'
  end.

(** Split at the last [/]: the text before it and the text after it. *)
Fixpoint split_last_slash (s : string) : option (string * string) :=
  match s with
  | EmptyString => None
  | String c s' =>
      match split_last_slash s' with
      | Some (body, flags) => Some (String c body, flags)
      | None => if Ascii.eqb c "/" then Some (EmptyString, s') else None
      end
  end.

(** The two groups of the match, or [None] when the pattern is not of the
    [/regex/flags] form. *)
Definition regex_form (str : string) : option (string * string) :=
  match str with
  | String "/" rest =>
      match split_last_slash rest with
      | Some (body, flags) =>
          if Js.nonempty body
             && no_line_terminator body
             && all_chars is_lower flags
          then Some (body, flags) else None
      | None => None
      end
  | _ => None
  end.

(** *** parseCommandLine *)

(** One match of [open [^close]+ close] at the head of [s], [s] being what
    follows the opening: the matched inner text and what follows the
    match. [run] collects the characters other than [close]. *)
Fixpoint inline_body (close : ascii) (run : string) (s : string)
  : option (string * string) :=
  match s with
  | EmptyString => None
  | String c s' =>
      if Ascii.eqb c close
      then (if Js.nonempty run then Some (run, s') else None)
      else inline_body close (run ++ String c "") s'
  end.

Fixpoint drop (n : nat) (s : string) : string :=
  match n, s with
  | O, _ => s
  | S k, String _ s' => drop k s'
  | S _, EmptyString => EmptyString
  end.

(** All the matches of one inline pattern, left to right and without
    overlap, each stripped of its opening and of its closing character.
    [skip] counts the characters of the last match still to be passed
    over. *)
Fixpoint inline_matches (open : string) (close : ascii) (skip : nat) (s : string)
  : list string :=
  match s with
  | EmptyString => []
  | String _ s' =>
      match skip with
      | S k => inline_matches open close k s'
      | O =>
          if Js.startsWith s open then
            match inline_body close "" (drop (String.length open) s) with
            | Some (inner, _) =>
                inner :: inline_matches open close
                           (String.length open + String.length inner) s'
            | None => inline_matches open close 0 s'
            end
          else inline_matches open close 0 s'
      end
  end.

(** [commandLine.split(/(\|\||&&|;|\|)/)] without the captured
    separators, which the loop over the parts skips. *)
Fixpoint split_operators (skip : nat) (cur : string) (s : string) : list string :=
  match s with
  | EmptyString => [cur]
  | String c s' =>
      match skip with
      | S k => split_operators k cur s'
      | O =>
          if Js.startsWith s "||" || Js.startsWith s "&&"
          then cur :: split_operators 1 "" s'
          else if Js.startsWith s ";" || Js.startsWith s "|"
          then cur :: split_operators 0 "" s'
          else split_operators 0 (cur ++ String c "") s'
      end
  end.

Definition parseCommandLine (commandLine : string) : list string :=
  let inline :=
    (inline_matches "$(" ")" 0 commandLine
     ++ inline_matches "`" "`" 0 commandLine
     ++ inline_matches "<(" ")" 0 commandLine
     ++ inline_matches ">(" ")" 0 commandLine)%list in
  (map Js.trim inline
   ++ List.filter Js.nonempty (map Js.trim (split_operators 0 "" commandLine)))%list.

(** *** getBaseCommand *)

Definition is_quote (c : ascii) : bool :=
  (nat_of_ascii c =? 34)%nat || Ascii.eqb c "'".

Definition unquote (cmd : string) : string :=
  match cmd with
  | String q _ =>
      if is_quote q then
        match Js.indexOf1 cmd q with
        | Some endQuote => String.substring 1 (endQuote - 1) cmd
        | None => cmd
        end
      else cmd
  | EmptyString => cmd
  end.

Definition strip_prefix (p s : string) : string :=
  if Js.startsWith s p then drop (String.length p) s else s.

Fixpoint backslashes_to_slashes (s : string) : string :=
  match s with
  | EmptyString => EmptyString
  | String c s' =>
      String (if Ascii.eqb c "\" then "/"%char else c) (backslashes_to_slashes s')
  end.

Definition getBaseCommand (command : string) : string :=
  let cmd := unquote (Js.trim command) in
  let baseCmd := Js.first_word cmd in
  backslashes_to_slashes (strip_prefix ".\" (strip_prefix "./" baseCmd)).

Section Engine.
(** [new RegExp(body, flags)]: the predicate [test] of the compiled
    expression, or [None] when the constructor throws. *)
Variable RegExp : string -> string -> option (string -> bool).

Definition parseRegexPattern (str : string) : option (string -> bool) :=
  match regex_form str with
  | Some (body, flags) => RegExp body flags
  | None => None
  end.

Definition matchesPattern (command pattern : string) : bool :=
  match parseRegexPattern pattern with
  | Some test => test command
  | None =>
      let baseCmd := getBaseCommand command in
      let patternBase := getBaseCommand pattern in
      Js.startsWith command pattern
      || String.eqb baseCmd patternBase
      || Js.endsWith baseCmd ("/" ++ patternBase)
      || Js.endsWith baseCmd ("\" ++ patternBase)
  end.

(** *** checkSingleCommand *)

Record check :=
  { approved : bool; denied : bool; matchedRule : option string; reason : string }.

(** The loop over the entries; [approved] is [Some b] when the variable
    holds the boolean [b] and [None] for [null] or any other value. *)
Fixpoint check_loop (command : string) (checkFullCommand : bool)
         (entries : t) (approved : option bool) (matchedRule : option string)
  : option bool * option string :=
  match entries with
  | [] => (approved, matchedRule)
  | (pattern, value) :: rest =>
      let skip :=
        match value with
        | RObj _ matchCommandLine =>
            (checkFullCommand && negb matchCommandLine)
            || (negb checkFullCommand && matchCommandLine)
        | _ => false
        end in
      if skip then check_loop command checkFullCommand rest approved matchedRule
      else if matchesPattern command pattern then
        match value with
        | RNull => check_loop command checkFullCommand rest approved (Some pattern)
        | _ =>
            let approved' :=
              match value with
              | RObj approve _ => approve
              | RBool b => Some b
              | _ => None
              end in
            match approved' with
            | Some false => (approved', Some pattern)
            | _ => check_loop command checkFullCommand rest approved' (Some pattern)
            end
        end
      else check_loop command checkFullCommand rest approved matchedRule
  end.

Definition show_rule (r : option string) : string :=
  match r with Some p => p | None => "null" end.

Definition checkSingleCommand (command : string) (allowlist : t)
           (checkFullCommand : bool) : check :=
  let '(approved, matchedRule) :=
    check_loop command checkFullCommand allowlist None None in
  {| approved := match approved with Some true => true | _ => false end;
     denied := match approved with Some false => true | _ => false end;
     matchedRule := matchedRule;
     reason := match approved with
               | Some true => "Approved by rule: " ++ show_rule matchedRule
               | Some false => "Denied by rule: " ++ show_rule matchedRule
               | None => "No matching rule found"
               end |}.

(** *** checkCommand *)

Record command_check :=
  { cc_approved : bool;
    cc_reason : string;
    cc_commandLine : string;
    cc_subCommands : list string;
    cc_fullLineCheck : check;
    cc_subCommandChecks : list (string * check) }.

Definition checkCommand (commandLine : string) (allowlist : t) : command_check :=
  let subCommands := parseCommandLine commandLine in
  let fullLineCheck := checkSingleCommand commandLine allowlist true in
  let subCommandChecks :=
    map (fun cmd => (cmd, checkSingleCommand cmd allowlist false)) subCommands in
  let anyDenied :=
    denied fullLineCheck || existsb (fun c => denied (snd c)) subCommandChecks in
  let allSubCommandsApproved :=
    (0 <? length subCommandChecks)%nat
    && forallb (fun c => approved (snd c)) subCommandChecks in
  let fullLineApproved := approved fullLineCheck in
  let approved := negb anyDenied && (allSubCommandsApproved || fullLineApproved) in
  let reason :=
    if anyDenied then
      let deniedCheck :=
        if denied fullLineCheck then Some fullLineCheck
        else option_map snd (find (fun c => denied (snd c)) subCommandChecks) in
      "Command denied: " ++ match deniedCheck with Some c => reason c | None => "" end
    else if approved then
      (if fullLineApproved
       then "Full command line approved: " ++ show_rule (matchedRule fullLineCheck)
       else "All sub-commands approved")
    else "No matching approval rule found - requires explicit approval" in
  {| cc_approved := approved;
     cc_reason := reason;
     cc_commandLine := commandLine;
     cc_subCommands := subCommands;
     cc_fullLineCheck := fullLineCheck;
     cc_subCommandChecks := subCommandChecks |}.

End Engine.

End Allowlist.

(** ** JavaScript values

    The values tool handlers exchange with the bridge: tool arguments, tool
    results and tool-private state are arbitrary JSON-like values. The
    numbers among them are the integers: [Num n] is the number that holds
    the integer [n], which is [n] itself when 53 significant bits hold it
    (every integer up to 2^53 in magnitude). A value is a finite tree: a
    cyclic object has no counterpart. An object is the list of its own
    properties, each key once, and its prototype is [Object.prototype];
    no value is a function or a symbol. *)

Module JsVal.

#[warnings="-register-all"] Inductive value :=
| Undefined
| Null
| Bool (b : bool)
| Num (n : Z)
| BigInt (n : Z)
| Str (s : string)
| Arr (elements : list value)
| Obj (fields : list (string * value)).

(** [Boolean(v)] *)
Definition truthy_value (v : value) : bool :=
  match v with
  | Undefined | Null => false
  | Bool b => b
  | Num n | BigInt n => negb (n =? 0)%Z
  | Str s => Js.nonempty s
  | Arr _ | Obj _ => true
  end.

Fixpoint field (fields : list (string * value)) (k : string) : value :=
  match fields with
  | [] => Undefined
  | (k', v) :: rest => if String.eqb k' k then v else field rest k
  end.

(** [v.k] for a property name that no primitive wrapper defines. The text
    of the engine's TypeError message is not modelled. *)
Definition get (v : value) (k : string) : throws value :=
  match v with
  | Undefined => Throw "TypeError" ("undefined has no property " ++ k)
  | Null => Throw "TypeError" ("null has no property " ++ k)
  | Obj fields => Ok (field fields k)
  | _ => Ok Undefined
  end.

(** [v?.k] *)
Definition get_opt (v : value) (k : string) : value :=
  match v with
  | Obj fields => field fields k
  | _ => Undefined
  end.

(** [a || b] *)
Definition or (a b : value) : value := if truthy_value a then a else b.

(** [v === 'text'] *)
Definition is_str (v : value) (s : string) : bool :=
  match v with
  | Str s' => String.eqb s' s
  | _ => false
  end.

(** [v === true] *)
Definition is_true (v : value) : bool :=
  match v with
  | Bool true => true
  | _ => false
  end.

(** The value is a BigInt, or holds one in an element or a property at
    any depth. *)
Fixpoint holds_BigInt (v : value) : bool :=
  match v with
  | BigInt _ => true
  | Arr elements => existsb holds_BigInt elements
  | Obj fields => existsb (fun f => holds_BigInt (snd f)) fields
  | _ => false
  end.

End JsVal.

#[global] Instance value_truthy : Truthy JsVal.value := JsVal.truthy_value.

(** ** Text of values and numbers *)

Module Text.

(** [String(n)] for a natural number. *)
Definition of_nat (n : nat) : string := NilEmpty.string_of_uint (Nat.to_uint n).

(** The decimal digits of a natural integer. *)
Definition digits (n : Z) : string := NilEmpty.string_of_uint (N.to_uint (Z.to_N n)).

(** The number that holds a natural integer: the integer itself when 53
    significant bits hold it, the nearest such integer otherwise, the one
    with the even significand when two are as near. *)
Definition to_double (n : Z) : Z :=
  let bits := (Z.log2 n + 1)%Z in
  if (bits <=? 53)%Z then n
  else
    let shift := (bits - 53)%Z in
    let q := Z.shiftr n shift in
    let r := (n - Z.shiftl q shift)%Z in
    let half := Z.shiftl 1 (shift - 1) in
    let q' := if (half <? r)%Z || ((r =? half)%Z && Z.odd q) then (q + 1)%Z else q in
    Z.shiftl q' shift.

(** The decimal with the fewest significant digits that the number [x]
    holds, the nearest to [x] among those, the one with the even last
    digit when two are as near. [j] counts the trailing zeros tried. *)
Fixpoint shortest (j : nat) (x : Z) : Z :=
  let p := (10 ^ Z.of_nat j)%Z in
  let lo := (x / p * p)%Z in
  let hi := (lo + p)%Z in
  let holds v := (to_double v =? x)%Z in
  let found :=
    match holds lo, holds hi with
    | true, true =>
        if (x - lo <? hi - x)%Z then Some lo
        else if (hi - x <? x - lo)%Z then Some hi
        else if Z.even (x / p) then Some lo else Some hi
    | true, false => Some lo
    | false, true => Some hi
    | false, false => None
    end in
  match found, j with
  | Some v, _ => v
  | None, S j' => shortest j' x
  | None, O => x
  end.

Fixpoint strip_zeros (reversed : string) : string :=
  match reversed with
  | String "0" rest => strip_zeros rest
  | _ => reversed
  end.

(** [Number::toString] for a number that is a positive integer: all its
    digits up to 21 of them, and beyond that the significant digits, a
    point after the first when there are more, and the exponent. *)
Definition of_double (x : Z) : string :=
  if (2 ^ 1024 <=? x)%Z then "Infinity"
  else
    let v := shortest (String.length (digits x) - 1) x in
    let n := String.length (digits v) in
    if (n <=? 21)%nat then digits v
    else
      match Js.rev_string "" (strip_zeros (Js.rev_string "" (digits v))) with
      | String d rest =>
          String d (match rest with EmptyString => "" | _ => "." ++ rest end)
          ++ "e+" ++ of_nat (n - 1)
      | EmptyString => ""
      end.

(** The text of a number that is an integer, as a template literal shows
    it. *)
Definition of_Z (z : Z) : string :=
  match z with
  | Z0 => "0"
  | Zpos _ => of_double (to_double z)
  | Zneg p => "-" ++ of_double (to_double (Zpos p))
  end.

(** The text of a value inside a template literal. An array shows its
    elements separated by commas, [null] and [undefined] elements as the
    empty text. *)
Fixpoint of_value (v : JsVal.value) : string :=
  match v with
  | JsVal.Undefined => "undefined"
  | JsVal.Null => "null"
  | JsVal.Bool true => "true"
  | JsVal.Bool false => "false"
  | JsVal.Num n => of_Z n
  | JsVal.BigInt n => if (n <? 0)%Z then "-" ++ digits (- n) else digits n
  | JsVal.Str s => s
  | JsVal.Arr elements =>
      Js.join ","
        (map (fun e => match e with
                       | JsVal.Undefined | JsVal.Null => ""
                       | _ => of_value e
                       end) elements)
  | JsVal.Obj _ => "[object Object]"
  end.

(** The conversion to a text has a result. An object with a property
    [toString] of its own has none: the property is not a function, so
    the conversion goes on to [valueOf], which is no function either or
    is that of [Object.prototype] and returns the object, and ends with
    a [TypeError]. So does the conversion of an array that holds such an
    object. *)
Fixpoint printable (v : JsVal.value) : bool :=
  match v with
  | JsVal.Arr elements => forallb printable elements
  | JsVal.Obj fields => negb (existsb (fun f => String.eqb (fst f) "toString") fields)
  | _ => true
  end.

(** [`${v}`]: the text of the value, or the [TypeError] of the
    conversion. The text of the message of the error is the engine's. *)
Definition template (v : JsVal.value) : throws string :=
  if printable v then Ok (of_value v)
  else Throw "TypeError" "Cannot convert object to primitive value".

End Text.

(** [ToolExecutionStatus] (host-container-bridge.mjs) *)
Module ToolExecutionStatus.
Definition IDLE := "idle".
Definition RUNNING := "running".
Definition SUCCESS := "success".
Definition FAILURE := "failure".
End ToolExecutionStatus.

(** ** Sessions (plugins/agent/models/session.mjs) *)

Record ToolCall :=
  { tc_id : string; tc_name : string; tc_arguments : string }.

Record Message :=
  { msg_role : string;
    msg_content : string;
    msg_tool_call_id : option string;
    msg_name : option string;
    msg_tool_calls : option (list ToolCall);
    msg_timestamp : option string;
    msg_finish_reason : option string }.

Record Transition :=
  { tr_action : string; tr_from : string; tr_to : option string; tr_timestamp : string }.

(** An entry of [metadata.tools]: a tool name, or an object whose first key
    is the tool name and whose value holds the per-session options. *)
Inductive ToolOptions :=
| OptNull
| OptArray
| OptPrimitive
| OptObject (exec_on : option string) (allowlist : option Allowlist.t).

Inductive ToolItem :=
| ToolName (name : string)
| ToolWithOptions (name : string) (options : ToolOptions).

Record Usage :=
  { us_counters : JsVal.value; us_timestamp : string; us_model : string }.

Record Metadata :=
  { md_status : option string;
    md_lastTransition : option Transition;
    md_model : option string;
    md_tools : list ToolItem;
    md_usage : option Usage;
    md_deletedAt : option string }.

Record Spec :=
  { system_prompt : option string; messages : list Message }.

Record Session := { metadata : Metadata; spec : Spec }.

(** A session document is an object. *)
#[global] Instance session_truthy : Truthy Session := fun _ => true.

Definition set_status (s : Session) (st : option string) (tr : Transition) : Session :=
  {| metadata :=
       {| md_status := st;
          md_lastTransition := Some tr;
          md_model := md_model (metadata s);
          md_tools := md_tools (metadata s);
          md_usage := md_usage (metadata s);
          md_deletedAt := md_deletedAt (metadata s) |};
     spec := spec s |}.

Definition push_message (s : Session) (m : Message) : Session :=
  {| metadata := metadata s;
     spec := {| system_prompt := system_prompt (spec s);
                messages := (messages (spec s) ++ [m])%list |} |}.

Definition with_metadata (s : Session) (md : Metadata) : Session :=
  {| metadata := md; spec := spec s |}.

Definition set_deletedAt (s : Session) (timestamp : string) : Session :=
  {| metadata :=
       {| md_status := md_status (metadata s);
          md_lastTransition := md_lastTransition (metadata s);
          md_model := md_model (metadata s);
          md_tools := md_tools (metadata s);
          md_usage := md_usage (metadata s);
          md_deletedAt := Some timestamp |};
     spec := spec s |}.

Module SessionModel.

(** The sessions collection, its directory and the clock of the process:
    [now] is the time in milliseconds that stamps file writes and
    [isoNow] the text of [new Date().toISOString()]. *)
Record store :=
  { col : YamlCollection.collection Session;
    dsk : YamlCollection.disk Session;
    now : Z;
    isoNow : string }.

Definition with_col (s : store) (c : YamlCollection.collection Session) : store :=
  {| col := c; dsk := dsk s; now := now s; isoNow := isoNow s |}.

(** [SessionModel.collection.loadAll()] *)
Definition loadAll (s : store) : store :=
  with_col s (YamlCollection.loadAll (col s) (dsk s)).

(** [SessionModel.collection.save()] *)
Definition collection_save (s : store) : throws unit * store :=
  let '(r, sv) := YamlCollection.save (col s) (dsk s) (now s) in
  (r, {| col := YamlCollection.sv_col sv; dsk := YamlCollection.sv_disk sv;
         now := now s; isoNow := isoNow s |}).

Definition load (s : store) (id : string) : store * option Session :=
  let '(c, v) := YamlCollection.get (col s) (dsk s) id in (with_col s c, v).

Definition save (s : store) (id : string) (data : Session) : throws unit * store :=
  collection_save (with_col s (YamlCollection.set (col s) id data)).

Record result :=
  { success : bool;
    oldState : option string;
    newState : option string;
    error : option string }.

Definition status_or_pending (session : Session) : string :=
  match md_status (metadata session) with
  | Some st => if Js.nonempty st then st else SessionState.PENDING
  | None => SessionState.PENDING
  end.

Definition transition (s : store) (id action : string) : throws result * store :=
  let s1 := loadAll s in
  let '(s2, found) := load s1 id in
  match found with
  | None =>
      (Ok {| success := false; oldState := None; newState := None;
             error := Some ("Session " ++ id ++ " not found") |}, s2)
  | Some session =>
      let currentState := status_or_pending session in
      let r := FSM.transition sessionFSM currentState action in
      if negb (FSM.success r) then
        (Ok {| success := false; oldState := Some currentState; newState := None;
               error := FSM.error r |}, s2)
      else
        let session' :=
          set_status session (FSM.res_to r)
            {| tr_action := action; tr_from := FSM.res_from r;
               tr_to := FSM.res_to r; tr_timestamp := isoNow s2 |} in
        match save s2 id session' with
        | (Throw n m, s3) => (Throw n m, s3)
        | (Ok _, s3) =>
            match collection_save s3 with
            | (Throw n m, s4) => (Throw n m, s4)
            | (Ok _, s4) =>
                (Ok {| success := true; oldState := Some (FSM.res_from r);
                       newState := FSM.res_to r; error := None |}, s4)
            end
        end
  end.

(** [SessionModel.delete(id)]: the session is marked as deleted and its
    file stays. *)
Definition delete (s : store) (id : string) : throws bool * store :=
  let '(s1, found) := load s id in
  match found with
  | None => (Ok false, s1)
  | Some session =>
      match save s1 id (set_deletedAt session (isoNow s1)) with
      | (Throw n m, s2) => (Throw n m, s2)
      | (Ok _, s2) =>
          match collection_save s2 with
          | (Throw n m, s3) => (Throw n m, s3)
          | (Ok _, s3) => (Ok true, s3)
          end
      end
  end.

(** [session?.metadata?.deletedAt] is truthy. *)
Definition is_deleted (session : option Session) : bool :=
  match session with
  | Some s =>
      match md_deletedAt (metadata s) with
      | Some timestamp => Js.nonempty timestamp
      | None => false
      end
  | None => false
  end.

(** The filter of [list]: each id is read with [collection.get]. *)
Fixpoint list_filter (s : store) (ids : Datatypes.list string)
  : store * Datatypes.list string :=
  match ids with
  | [] => (s, [])
  | id :: rest =>
      let '(s1, session) := load s id in
      let '(s2, kept) := list_filter s1 rest in
      (s2, if is_deleted session then kept else id :: kept)
  end.

(** [SessionModel.list(options)] *)
Definition list (s : store) (includeDeleted : bool) : store * Datatypes.list string :=
  let allIds := YamlCollection.list (dsk s) in
  if includeDeleted then (s, allIds) else list_filter s allIds.

End SessionModel.

(** ** Tool definitions and the process-wide registries (common/globals.mjs) *)

(** The arguments of a resolved command: the array of argv tokens, or
    whatever else an alias returned as [args]. *)
Inductive CmdArgs :=
| ArgsArray (tokens : list string)
| ArgsOther (v : JsVal.value).

Definition args_value (a : CmdArgs) : JsVal.value :=
  match a with
  | ArgsArray tokens => JsVal.Arr (map JsVal.Str tokens)
  | ArgsOther v => v
  end.

(** What an alias function returns when it returns an object: its [name]
    and its [args]. [None] stands for [false] and for any other value that
    is not an object. [resolveCommand] traces the [args] with
    [JSON.stringify] when they are no array: the model is of aliases
    whose [args] hold no BigInt. *)
Record AliasResult := { al_name : string; al_args : CmdArgs }.

Record ToolMetadata :=
  { tm_help : option string;
    tm_alias : option (list string -> option AliasResult);
    tm_humanOnly : option bool;
    tm_requiresHostExecution : option bool;
    tm_localCommand : option bool }.

Definition no_metadata : ToolMetadata :=
  {| tm_help := None; tm_alias := None; tm_humanOnly := None;
     tm_requiresHostExecution := None; tm_localCommand := None |}.

(** [Object.keys(metadata).length] *)
Definition present {A : Type} (o : option A) : nat :=
  match o with Some _ => 1 | None => 0 end.

Definition metadata_keys (m : ToolMetadata) : nat :=
  present (tm_help m) + present (tm_alias m) + present (tm_humanOnly m)
  + present (tm_requiresHostExecution m) + present (tm_localCommand m).

Record ToolFunction :=
  { fn_name : string; fn_description : string; fn_parameters : JsVal.value }.

Record Tool :=
  { tool_type : string; tool_function : ToolFunction; tool_metadata : option ToolMetadata }.

(** A plugin; [definition] is [None] when [plugin.definition] is not an
    array. *)
Record Plugin := { definition : option (list Tool) }.

(** [globals.pluginsRegistry]: a [Map] iterated in insertion order. *)
Definition PluginsRegistry := list (string * Plugin).

Definition requiresHostExecution (toolDef : option Tool) : bool :=
  match toolDef with
  | Some t =>
      match tool_metadata t with
      | Some m => match tm_requiresHostExecution m with Some true => true | _ => false end
      | None => false
      end
  | None => false
  end.

Definition localCommand (toolDef : option Tool) : bool :=
  match toolDef with
  | Some t =>
      match tool_metadata t with
      | Some m => match tm_localCommand m with Some true => true | _ => false end
      | None => false
      end
  | None => false
  end.

(** ** The host-container bridge (plugins/agent/controllers/host-container-bridge.mjs) *)

Module Bridge.

(** [findToolDefinition(toolName)] *)
Fixpoint findToolDefinition (plugins : PluginsRegistry) (toolName : string) : option Tool :=
  match plugins with
  | [] => None
  | (_, plugin) :: rest =>
      match definition plugin with
      | Some def =>
          match find (fun t => String.eqb (fn_name (tool_function t)) toolName) def with
          | Some toolDef => Some toolDef
          | None => findToolDefinition rest toolName
          end
      | None => findToolDefinition rest toolName
      end
  end.

(** *** resolveCommand *)

(** The inner loop of step 1 over the tools of one plugin: the first alias
    whose result is an object with a truthy name. *)
Fixpoint first_alias (def : list Tool) (allParts : list string) : option AliasResult :=
  match def with
  | [] => None
  | tool :: rest =>
      match tool_metadata tool with
      | Some m =>
          match tm_alias m with
          | Some alias =>
              match alias allParts with
              | Some result =>
                  if Js.nonempty (al_name result) then Some result
                  else first_alias rest allParts
              | None => first_alias rest allParts
              end
          | None => first_alias rest allParts
          end
      | None => first_alias rest allParts
      end
  end.

(** The outer loop of step 1: a plugin whose definition is not an array is
    skipped; after any other plugin the loop ends when an alias was found
    or when [cmd] is a registered name. *)
Fixpoint alias_loop (plugins : PluginsRegistry) (registered : string -> bool)
         (allParts : list string) (cmd : string) (args : CmdArgs) : string * CmdArgs :=
  match plugins with
  | [] => (cmd, args)
  | (_, plugin) :: rest =>
      match definition plugin with
      | None => alias_loop rest registered allParts cmd args
      | Some def =>
          match first_alias def allParts with
          | Some result => (al_name result, al_args result)
          | None =>
              if registered cmd then (cmd, args)
              else alias_loop rest registered allParts cmd args
          end
      end
  end.

(** The loop of step 2: glue the next token to the name with [__] until the
    name is registered or the tokens run out. *)
Fixpoint underscore_loop (registered : string -> bool) (currentCmd : string)
         (currentArgs : list string) : option (string * list string) :=
  match currentArgs with
  | [] => None
  | nextPart :: rest =>
      let currentCmd' := currentCmd ++ "__" ++ nextPart in
      if registered currentCmd' then Some (currentCmd', rest)
      else underscore_loop registered currentCmd' rest
  end.

Section Resolve.
Context {H : Type}.
Variable pluginsRegistry : PluginsRegistry.
Variable dslRegistry : gmap string H.

Definition has (cmd : string) : bool := bool_decide (is_Some (dslRegistry !! cmd)).

Record resolved :=
  { r_cmd : string;
    r_args : CmdArgs;
    r_handler : option H;
    r_toolDef : option Tool;
    r_error : option string }.

(** [resolveCommand] after the command string is parsed into [cmd] and
    [args]. *)
Definition resolveParsed (cmd : string) (args : list string) : resolved :=
  let allParts := cmd :: args in
  let '(cmd1, args1) := alias_loop pluginsRegistry has allParts cmd (ArgsArray args) in
  let '(cmd2, args2) :=
    match args1 with
    | ArgsArray tokens =>
        if negb (has cmd1) && (0 <? length tokens)%nat then
          match underscore_loop has cmd1 tokens with
          | Some (c, rest) => (c, ArgsArray rest)
          | None => (cmd1, args1)
          end
        else (cmd1, args1)
    | ArgsOther _ => (cmd1, args1)
    end in
  let handler := dslRegistry !! cmd2 in
  {| r_cmd := cmd2;
     r_args := args2;
     r_handler := handler;
     r_toolDef := findToolDefinition pluginsRegistry cmd2;
     r_error := match handler with
                | Some _ => None
                | None => Some ("Command not found: " ++ cmd2)
                end |}.

End Resolve.

(** *** Tool call state and command execution *)

Record ToolCallContext := { tcc_sessionId : JsVal.value; tcc_toolCallId : string }.

Record ToolCallEntry :=
  { e_status : string;
    e_state : JsVal.value;
    e_context : ToolCallContext;
    e_externalData : JsVal.value }.

(** The context object a handler receives. *)
Record context :=
  { ctx_sessionId : JsVal.value;
    ctx_toolCallId : option string;
    ctx_state : JsVal.value;
    ctx_externalData : JsVal.value;
    ctx_procId : JsVal.value }.

Record tool_call := (* a message of type [tool_call] *)
  { m_toolCallId : string;
    m_toolName : string;
    m_args : JsVal.value;
    m_sessionId : JsVal.value }.

Record command_response :=
  { cr_messageId : JsVal.value;
    cr_success : bool;
    cr_result : JsVal.value;
    cr_error : JsVal.value;
    cr_type : string }.

(** [Utils.LOG_LEVELS] and [Utils.shouldLog]; a comparison with the
    [undefined] rank of an unknown level is false. *)
Definition LOG_LEVELS (level : string) : option nat :=
  if String.eqb level "debug" then Some 0
  else if String.eqb level "info" then Some 1
  else if String.eqb level "warn" then Some 2
  else if String.eqb level "error" then Some 3
  else None.

Definition shouldLog (currentLogLevel level : string) : bool :=
  match LOG_LEVELS level, LOG_LEVELS currentLogLevel with
  | Some l, Some c => (c <=? l)%nat
  | _, _ => false
  end.

Section Process.
(** [W] is the rest of the state of the process, on which handlers and the
    collaborators of the bridge act. *)
Context {W : Type}.

(** [containerSocket] holds the responses written to the socket to the
    host, when the process is connected. *)
Record state :=
  { toolCallStates : gmap string ToolCallEntry;
    containerSocket : option (list command_response);
    currentLogLevel : string;
    world : W }.

Definition with_toolCallStates (s : state) (m : gmap string ToolCallEntry) : state :=
  {| toolCallStates := m;
     containerSocket := containerSocket s; currentLogLevel := currentLogLevel s;
     world := world s |}.

(** What a call of a handler comes to: the value it returns or the value
    it throws. The [throw] statement takes any value; an [Error] is the
    object with its [message]. *)
Inductive completion :=
| Returned (result : JsVal.value)
| Thrown (e : JsVal.value).

(** What a handler does: how its call ends, the state it leaves, and the
    log events the logger handed to its listeners while the handler ran,
    as (level, message): the calls to the logger that the log level of
    the moment let through. *)
Record outcome :=
  { o_result : completion; o_state : state; o_logs : list (string * string) }.

Definition handler := JsVal.value -> context -> state -> outcome.

Definition failure (error : string) : JsVal.value :=
  JsVal.Obj [("status", JsVal.Str ToolExecutionStatus.FAILURE); ("error", JsVal.Str error)].

Definition delete_entry (s : state) (toolCallId : option string) : state :=
  match toolCallId with
  | Some id => with_toolCallStates s (base.delete id (toolCallStates s))
  | None => s
  end.

(** [this.isContainer]: the process was started with [--session]. *)
Variable isContainer : bool.
Variable pluginsRegistry : PluginsRegistry.
Variable dslRegistry : gmap string handler.

(** The engine: the message of the [TypeError] it throws when the
    property [k] of [v], which is [undefined] or [null], is read. *)
Variable TypeError_message : JsVal.value -> string -> string.

(** [executeToolLocally] once the handler has returned or thrown. A
    result of status [running] is recorded in the entry of the tool call;
    any other result removes the entry. A result that is [undefined] or
    [null] makes [result.status] throw inside the [try]. The [catch]
    removes the entry and then reads [e.message], which throws in its turn
    when the thrown value is [undefined] or [null], and puts the message
    in a template literal, which throws when the message has no text: the
    call is then rejected with that [TypeError]. *)
Definition complete_tool_call (ctx : context) (o : outcome) : throws JsVal.value * state :=
  let s1 := o_state o in
  let cleaned := delete_entry s1 (ctx_toolCallId ctx) in
  let caught (message : JsVal.value) :=
    match Text.template message with
    | Ok text => (Ok (failure ("Tool execution error: " ++ text)), cleaned)
    | Throw n m => (Throw n m, cleaned)
    end in
  match o_result o with
  | Thrown e =>
      match e with
      | JsVal.Undefined | JsVal.Null =>
          (Throw "TypeError" (TypeError_message e "message"), cleaned)
      | _ => caught (JsVal.get_opt e "message")
      end
  | Returned result =>
      match result with
      | JsVal.Undefined | JsVal.Null =>
          caught (JsVal.Str (TypeError_message result "status"))
      | _ =>
          if JsVal.is_str (JsVal.get_opt result "status") ToolExecutionStatus.RUNNING then
            match ctx_toolCallId ctx with
            | Some id =>
                match toolCallStates s1 !! id with
                | Some entry =>
                    let entry' :=
                      {| e_status := ToolExecutionStatus.RUNNING;
                         e_state := JsVal.or (JsVal.get_opt result "state") (e_state entry);
                         e_context := e_context entry;
                         e_externalData := e_externalData entry |} in
                    (Ok result, with_toolCallStates s1 (<[id := entry']> (toolCallStates s1)))
                | None => (Ok result, s1)
                end
            | None => (Ok result, s1)
            end
          else (Ok result, cleaned)
      end
  end.

(** [executeToolLocally(toolName, args, context)] *)
Definition executeToolLocally (toolName : string) (args : JsVal.value) (ctx : context)
           (s : state) : throws JsVal.value * state :=
  match dslRegistry !! toolName with
  | None => (Ok (failure ("Tool " ++ toolName ++ " not found")), s)
  | Some h => complete_tool_call ctx (h args ctx s)
  end.

(** [sendToHost(message)]: the round trip to the host is a collaborator. *)
Variable sendToHost : tool_call -> state -> throws JsVal.value * state.

(** The first lines of [handleToolCall]: the entry of the tool call, made
    and stored when there is none. *)
Definition get_or_create (message : tool_call) (s : state) : ToolCallEntry * state :=
  let toolCallId := m_toolCallId message in
  match toolCallStates s !! toolCallId with
  | Some entry => (entry, s)
  | None =>
      let entry :=
        {| e_status := ToolExecutionStatus.IDLE;
           e_state := JsVal.Obj [];
           e_context := {| tcc_sessionId := m_sessionId message;
                           tcc_toolCallId := toolCallId |};
           e_externalData := JsVal.Undefined |} in
      (entry, with_toolCallStates s (<[toolCallId := entry]> (toolCallStates s)))
  end.

(** The context of a local execution. *)
Definition tool_context (message : tool_call) (ctx : context) (toolCallEntry : ToolCallEntry)
  : context :=
  {| ctx_sessionId := m_sessionId message;
     ctx_toolCallId := Some (m_toolCallId message);
     ctx_state := e_state toolCallEntry;
     ctx_externalData := e_externalData toolCallEntry;
     ctx_procId := ctx_procId ctx |}.

(** [handleToolCall(message, context)] *)
Definition handleToolCall (message : tool_call) (ctx : context) (s : state)
  : throws JsVal.value * state :=
  let '(toolCallEntry, s1) := get_or_create message s in
  let toolDef := findToolDefinition pluginsRegistry (m_toolName message) in
  let requiresHost := requiresHostExecution toolDef in
  if isContainer && requiresHost then sendToHost message s1
  else
    executeToolLocally (m_toolName message) (m_args message)
                       (tool_context message ctx toolCallEntry) s1.

(** [SessionModel.transition(sessionId, action)] as it acts on the rest of
    the process state. *)
Variable session_transition : JsVal.value -> string -> W -> W.

(** [handleApprovalResponse(message)]: the host forwards the message to
    the child with [sendToContainer], a collaborator, and its own state is
    as before; the child puts the response in the entry of the tool call
    and resumes the session. *)
Definition handleApprovalResponse (toolCallId : string) (choice explanation : JsVal.value)
           (s : state) : state :=
  if negb isContainer then s
  else
    match toolCallStates s !! toolCallId with
    | None => s
    | Some entry =>
        let entry' :=
          {| e_status := e_status entry;
             e_state := e_state entry;
             e_context := e_context entry;
             e_externalData :=
               JsVal.Obj [("approvalReceived", JsVal.Bool true);
                          ("choice", choice); ("explanation", explanation)] |} in
        {| toolCallStates := <[toolCallId := entry']> (toolCallStates s);
           containerSocket := containerSocket s;
           currentLogLevel := currentLogLevel s;
           world := session_transition (tcc_sessionId (e_context entry)) "resume" (world s) |}
    end.

(** *** handleCommand *)

Record command :=
  { c_command : string;
    c_waitForResponse : bool;
    c_procId : JsVal.value;
    c_fromHost : bool;
    c_messageId : JsVal.value }.

(** What [handleCommand] answers: an error object, the response of the
    child the command was forwarded to, the response it built itself, or
    the acknowledgement of a command put on the local queue. In the
    [fromHost] branch the answer is the value of a promise that the
    branch resolves itself; [CmdUnanswered] is that promise left pending
    for ever, when the branch ends without resolving it. [CmdRejected] is
    the error [handleCommand] throws. *)
Inductive handled :=
| CmdError (error : string)
| CmdForwarded (sessionId : Z)
| CmdResponse (r : command_response)
| CmdEnqueued
| CmdUnanswered
| CmdRejected (name message : string).

(** [Utils.parseDSL] *)
Variable parseDSL : string -> option (string * list string).

(** [JSON.stringify(v)]: it returns, or throws a [TypeError] (for a
    BigInt), of which the message is kept. *)
Variable JSON_stringify : JsVal.value -> throws string.

Definition resolveCommand (cmdString : string) : option (resolved (H := handler)) :=
  match parseDSL cmdString with
  | None => None
  | Some (cmd, args) => Some (resolveParsed pluginsRegistry dslRegistry cmd args)
  end.

Definition write_socket (s : state) (r : command_response) : state :=
  match containerSocket s with
  | Some written =>
      {| toolCallStates := toolCallStates s;
         containerSocket := Some (written ++ [r])%list;
         currentLogLevel := currentLogLevel s; world := world s |}
  | None => s
  end.

Definition quoted (s : string) : string :=
  String (ascii_of_nat 34) (s ++ String (ascii_of_nat 34) "").

(** [if (this.containerSocket) this.containerSocket.write(JSON.stringify(response) + '\n')]
    for the response object [object]. *)
Definition send (s : state) (r : command_response) (object : JsVal.value) : throws state :=
  match containerSocket s with
  | None => Ok s
  | Some _ =>
      match JSON_stringify object with
      | Ok _ => Ok (write_socket s r)
      | Throw n m => Throw n m
      end
  end.

(** The [catch] of the [fromHost] branch for a caught value whose
    [message] is [message_of_e]: it logs the message in a template
    literal, builds the response and sends it. When the template or
    [JSON.stringify] throws, the [catch] ends there and the branch gives
    no answer. *)
Definition answer_caught (message : command) (s1 : state) (message_of_e : JsVal.value)
  : option command_response * state :=
  if Text.printable message_of_e then
    let response :=
      {| cr_messageId := c_messageId message; cr_success := false;
         cr_result := JsVal.Undefined; cr_error := message_of_e;
         cr_type := "command_response" |} in
    match send s1 response
               (JsVal.Obj [("messageId", c_messageId message);
                           ("success", JsVal.Bool false);
                           ("error", message_of_e);
                           ("type", JsVal.Str "command_response")]) with
    | Ok s' => (Some response, s')
    | Throw _ _ => (None, s1)
    end
  else (None, s1).

(** The [fromHost] branch of [handleCommand]: run the handler in the child
    and answer the host. The listener of the branch collects the
    messages of the log events from the trace that announces the handler
    up to the return of the handler. The trace written when the handler
    has returned
    holds [JSON.stringify(result)], which is evaluated before the status
    is looked at; when it throws, or when [JSON.stringify(response)]
    does, the [catch] answers as for a handler that throws. The [catch]
    reads [e.message]: for a thrown [undefined] or [null] this throws in
    its turn, and the branch ends without an answer. *)
Definition execute_fromHost (message : command) (cmd : string) (args : CmdArgs)
           (currentSessionId : Z) (procId : JsVal.value) (s : state)
  : option command_response * state :=
  match dslRegistry !! cmd with
  | None =>
      let response :=
        {| cr_messageId := c_messageId message; cr_success := false;
           cr_result := JsVal.Undefined;
           cr_error := JsVal.Str ("Tool " ++ cmd ++ " not found");
           cr_type := "command_response" |} in
      match send s response
                 (JsVal.Obj [("messageId", c_messageId message);
                             ("success", JsVal.Bool false);
                             ("error", JsVal.Str ("Tool " ++ cmd ++ " not found"));
                             ("type", JsVal.Str "command_response")]) with
      | Ok s' => (Some response, s')
      | Throw _ message_text => answer_caught message s (JsVal.Str message_text)
      end
  | Some h =>
      let before :=
        if shouldLog (currentLogLevel s) "debug"
        then ["[handleCommand] Executing handler for " ++ quoted cmd]
        else [] in
      let handlerContext :=
        {| ctx_sessionId := JsVal.Num currentSessionId; ctx_toolCallId := None;
           ctx_state := JsVal.Undefined; ctx_externalData := JsVal.Undefined;
           ctx_procId := procId |} in
      let o := h (args_value args) handlerContext s in
      let s1 := o_state o in
      match o_result o with
      | Thrown e =>
          match e with
          | JsVal.Undefined | JsVal.Null => (None, s1)
          | _ => answer_caught message s1 (JsVal.get_opt e "message")
          end
      | Returned result =>
          let outputBuffer := (before ++ map snd (o_logs o))%list in
          let output := JsVal.Str (Js.join (String (ascii_of_nat 10) "") outputBuffer) in
          match JSON_stringify result with
          | Throw _ message_text => answer_caught message s1 (JsVal.Str message_text)
          | Ok _ =>
              let status := JsVal.get_opt result "status" in
              let '(success, resultContent) :=
                if JsVal.is_str status ToolExecutionStatus.SUCCESS || JsVal.is_str status "success"
                then (true, JsVal.or (JsVal.get_opt result "result") output)
                else if JsVal.is_str status ToolExecutionStatus.FAILURE
                        || JsVal.is_str status "error"
                then (false, JsVal.or (JsVal.get_opt result "result")
                               (JsVal.or (JsVal.get_opt result "error") output))
                else (false,
                      JsVal.or output (JsVal.Str "Tool execution failed: No status returned")) in
              let response :=
                {| cr_messageId := c_messageId message; cr_success := success;
                   cr_result := resultContent; cr_error := JsVal.get_opt result "error";
                   cr_type := "command_response" |} in
              match send s1 response
                         (JsVal.Obj [("messageId", c_messageId message);
                                     ("success", JsVal.Bool success);
                                     ("result", resultContent);
                                     ("error", JsVal.get_opt result "error");
                                     ("type", JsVal.Str "command_response")]) with
              | Ok s' => (Some response, s')
              | Throw _ message_text => answer_caught message s1 (JsVal.Str message_text)
              end
          end
      end
  end.

(** [handleCommand(message, context)], [sessionId] being
    [parseInt(context.sessionId || 0, 10)] for a session id that is a
    number or a text. The first trace holds [context.procId] in a
    template literal. *)
Definition handleCommand (message : command) (sessionId : Z) (ctx_procId0 : JsVal.value)
           (s : state) : handled * state :=
  let procId := if JsVal.truthy_value (c_procId message) then c_procId message else ctx_procId0 in
  match Text.template procId with
  | Throw n m => (CmdRejected n m, s)
  | Ok _ =>
  match parseDSL (c_command message) with
  | None => (CmdError "Invalid command", s)
  | Some _ =>
      match resolveCommand (c_command message) with
      | None => (CmdError "Invalid command syntax", s)
      | Some resolved =>
          match r_error resolved with
          | Some e => (CmdError e, s)
          | None =>
              let isLocalCmd := localCommand (r_toolDef resolved) in
              let currentSessionId := if isLocalCmd then 0%Z else sessionId in
              let requiresHost := requiresHostExecution (r_toolDef resolved) in
              if negb (currentSessionId =? 0)%Z && negb requiresHost && negb (c_fromHost message)
              then (CmdForwarded currentSessionId, s)
              else if c_fromHost message then
                match execute_fromHost message (r_cmd resolved) (r_args resolved)
                                       currentSessionId procId s with
                | (Some response, s') => (CmdResponse response, s')
                | (None, s') => (CmdUnanswered, s')
                end
              else (CmdEnqueued, s)
          end
      end
  end
  end.

End Process.

Arguments state : clear implicits.
Arguments outcome : clear implicits.
Arguments handler : clear implicits.

End Bridge.

(** ** The shell tool (plugins/shell/index.mjs) *)

Module Shell.

(** The arguments of [shell__execute]: the argv tokens of a CLI call, or
    the object of the tool schema with its [command]. *)
Inductive shell_args :=
| ShellArgv (tokens : list string)
| ShellObject (command : string).

Record Approval :=
  { a_toolCallId : JsVal.value;
    a_sessionId : JsVal.value;
    a_status : string;
    a_response : JsVal.value }.

(** [a === b] on values that are not objects. *)
Definition strict_eq (a b : JsVal.value) : bool :=
  match a, b with
  | JsVal.Undefined, JsVal.Undefined => true
  | JsVal.Null, JsVal.Null => true
  | JsVal.Bool x, JsVal.Bool y => Bool.eqb x y
  | JsVal.Num x, JsVal.Num y => (x =? y)%Z
  | JsVal.BigInt x, JsVal.BigInt y => (x =? y)%Z
  | JsVal.Str x, JsVal.Str y => String.eqb x y
  | _, _ => false
  end.

(** A message of type [approval_request]. *)
Record approval_request :=
  { ar_sessionId : JsVal.value;
    ar_toolCallId : option string;
    ar_description : string;
    ar_approvalType : string }.

Definition running (state : JsVal.value) : JsVal.value :=
  JsVal.Obj [("status", JsVal.Str ToolExecutionStatus.RUNNING); ("state", state)].

Definition failure (error : string) : JsVal.value :=
  JsVal.Obj [("status", JsVal.Str ToolExecutionStatus.FAILURE); ("error", JsVal.Str error)].

(** The keys of the session allowlist whose value is [true]. *)
Definition allowedCommands (sessionAllowlist : Allowlist.t) : list string :=
  map fst (List.filter (fun e => match snd e with Allowlist.RBool true => true | _ => false end)
                  sessionAllowlist).

Definition newline : string := String (ascii_of_nat 10) "".

Section ExecuteShell.
(** [S] is the state of the process the collaborators act on. *)
Context {S : Type}.
Variable RegExp : string -> string -> option (string -> bool).
(** [loadAllowlist()]: the allowlist of the user. *)
Variable loadAllowlist : Allowlist.t.
(** [globals.sessionToolOptions?.get('shell__execute')?.allowlist] *)
Variable sessionAllowlist : option Allowlist.t.
(** [globals.getConfig('unattended')] *)
Variable unattended : JsVal.value.
(** [this.executeCommand(command)] runs the command; it catches what the
    child process throws. *)
Variable executeCommand : JsVal.value -> S -> JsVal.value * S.
(** [ApprovalModel.list()] *)
Variable approvals : S -> list Approval.
(** [bridge.route] on an [approval_request]. *)
Variable route : approval_request -> Bridge.context -> S -> throws JsVal.value * S.

Definition executeShell (args : shell_args) (ctx : Bridge.context) (s : S)
  : throws JsVal.value * S :=
  let command :=
    match args with
    | ShellArgv tokens => Js.join " " tokens
    | ShellObject c => c
    end in
  let state := JsVal.or (Bridge.ctx_state ctx) (JsVal.Obj []) in
  let phase := JsVal.or (JsVal.get_opt state "phase") (JsVal.Str "initial") in
  let externalData := JsVal.or (Bridge.ctx_externalData ctx) (JsVal.Obj []) in
  let toolCallId :=
    match Bridge.ctx_toolCallId ctx with
    | Some id => JsVal.Str id
    | None => JsVal.Undefined
    end in
  if JsVal.is_str phase "initial" then
    let allowlist :=
      match sessionAllowlist with
      | Some al => al
      | None => loadAllowlist
      end in
    let check := Allowlist.checkCommand RegExp command allowlist in
    if Allowlist.cc_approved check || negb (JsVal.truthy_value (Bridge.ctx_sessionId ctx))
    then let '(r, s') := executeCommand (JsVal.Str command) s in (Ok r, s')
    else if JsVal.is_true unattended then
      let errorMsg :=
        "Command execution rejected by unattended mode security policy. Reason: "
        ++ Allowlist.cc_reason check ++ "." in
      let errorMsg :=
        match sessionAllowlist with
        | Some al =>
            if (0 <? length (allowedCommands al))%nat
            then errorMsg ++ " Allowed commands: " ++ Js.join ", " (allowedCommands al) ++ "."
            else errorMsg
        | None => errorMsg
        end in
      (Ok (failure (errorMsg ++ " Enable human approval by setting unattended to false.")), s)
    else
      let existing :=
        if JsVal.truthy_value toolCallId then
          find (fun a => strict_eq (a_toolCallId a) toolCallId
                         && strict_eq (a_sessionId a) (Bridge.ctx_sessionId ctx)
                         && (String.eqb (a_status a) "approve"
                             || String.eqb (a_status a) "modify"))
               (approvals s)
        else None in
      match existing with
      | Some a =>
          if String.eqb (a_status a) "modify"
          then match Text.template (a_response a) with
               | Ok guidance =>
                   (Ok (failure ("Command rejected. Human guidance: " ++ guidance)), s)
               | Throw n m => (Throw n m, s)
               end
          else let '(r, s') := executeCommand (JsVal.Str command) s in (Ok r, s')
      | None =>
          match route {| ar_sessionId := Bridge.ctx_sessionId ctx;
                         ar_toolCallId := Bridge.ctx_toolCallId ctx;
                         ar_description := "Execute shell command: " ++ command ++ newline
                                           ++ "Reason: " ++ Allowlist.cc_reason check;
                         ar_approvalType := "shell_execution" |} ctx s with
          | (Throw n m, s') => (Throw n m, s')
          | (Ok _, s') =>
              (Ok (running (JsVal.Obj [("phase", JsVal.Str "awaiting_approval");
                                       ("command", JsVal.Str command)])), s')
          end
      end
  else if JsVal.is_str phase "awaiting_approval" then
    if negb (JsVal.truthy_value (JsVal.get_opt externalData "approvalReceived")) then
      (Ok (running (JsVal.Obj [("phase", JsVal.Str "awaiting_approval");
                               ("command", JsVal.get_opt state "command")])), s)
    else
      match Text.template (JsVal.get_opt state "command") with
      | Throw n m => (Throw n m, s)
      | Ok _ =>
          if JsVal.is_str (JsVal.get_opt externalData "choice") "APPROVE" then
            let '(r, s') := executeCommand (JsVal.get_opt state "command") s in (Ok r, s')
          else
            match Text.template (JsVal.or (JsVal.get_opt externalData "explanation")
                                          (JsVal.Str "Human denied request.")) with
            | Ok guidance =>
                (Ok (failure ("Command rejected. Human guidance: " ++ guidance)), s)
            | Throw n m => (Throw n m, s)
            end
      end
  else
    match Text.template (JsVal.get_opt state "phase") with
    | Ok phase_text => (Ok (failure ("Unknown FSM phase: " ++ phase_text)), s)
    | Throw n m => (Throw n m, s)
    end.

End ExecuteShell.

End Shell.

(** ** The agent loop (plugins/agent/controllers/agent-loop.mjs) *)

Module AgentLoop.

(** A choice of a provider response. *)
Record Choice :=
  { ch_content : option string;
    ch_tool_calls : option (list ToolCall);
    ch_finish_reason : option string }.

Record Response := { choices : list Choice; usage : JsVal.value }.

Record CleanTool := { ct_type : string; ct_function : ToolFunction }.

Record Request :=
  { rq_model : string; rq_messages : list Message; rq_tools : option (list CleanTool) }.

(** The instance: its fields that [tick] reads or writes. *)
Record loop :=
  { sessionId : string;
    isRunning : bool;
    provider : option string;
    toolMetadata : list (string * ToolMetadata);
    attemptedPrompts : list string;
    systemPromptEvaluated : bool }.

Definition with_isRunning (l : loop) (b : bool) : loop :=
  {| sessionId := sessionId l; isRunning := b; provider := provider l;
     toolMetadata := toolMetadata l; attemptedPrompts := attemptedPrompts l;
     systemPromptEvaluated := systemPromptEvaluated l |}.

Definition with_provider (l : loop) (p : option string) : loop :=
  {| sessionId := sessionId l; isRunning := isRunning l; provider := p;
     toolMetadata := toolMetadata l; attemptedPrompts := attemptedPrompts l;
     systemPromptEvaluated := systemPromptEvaluated l |}.

Definition with_toolMetadata (l : loop) (m : list (string * ToolMetadata)) : loop :=
  {| sessionId := sessionId l; isRunning := isRunning l; provider := provider l;
     toolMetadata := m; attemptedPrompts := attemptedPrompts l;
     systemPromptEvaluated := systemPromptEvaluated l |}.

Definition with_attemptedPrompts (l : loop) (a : list string) : loop :=
  {| sessionId := sessionId l; isRunning := isRunning l; provider := provider l;
     toolMetadata := toolMetadata l; attemptedPrompts := a;
     systemPromptEvaluated := systemPromptEvaluated l |}.

(** *** The merge of the choices (lines 328-347) *)

Definition merge_step (acc : string * list ToolCall * string) (choice : Choice)
  : string * list ToolCall * string :=
  let '(content, tool_calls, finishReason) := acc in
  let content' :=
    match ch_content choice with
    | Some c => if Js.nonempty c then content ++ c else content
    | None => content
    end in
  let tool_calls' :=
    match ch_tool_calls choice with
    | Some tcs => if (0 <? length tcs)%nat then (tool_calls ++ tcs)%list else tool_calls
    | None => tool_calls
    end in
  let finishReason' :=
    match ch_finish_reason choice with
    | Some r => if String.eqb r "tool_calls" then "tool_calls" else finishReason
    | None => finishReason
    end in
  (content', tool_calls', finishReason').

(** The merged content, tool calls and [finishReason] after the loop over
    [response.choices]. *)
Definition merge (choices : list Choice) : string * list ToolCall * string :=
  fold_left merge_step choices ("", [], "stop").

Definition combinedMessage (choices : list Choice) (timestamp : string) : Message :=
  let '(content, tool_calls, finishReason) := merge choices in
  {| msg_role := "assistant";
     msg_content := content;
     msg_tool_call_id := None;
     msg_name := None;
     msg_tool_calls := Some tool_calls;
     msg_timestamp := Some timestamp;
     msg_finish_reason := Some finishReason |}.

(** *** The tools offered to the model (lines 212-274) *)

Definition allowedTools (sessionTools : list ToolItem) : list string :=
  map (fun item => match item with
                   | ToolName name => name
                   | ToolWithOptions name _ => name
                   end) sessionTools.

(** [toolOverrides.get(name)]: the options of the last entry for [name]. *)
Fixpoint toolOverrides (sessionTools : list ToolItem) (name : string) : option ToolOptions :=
  match sessionTools with
  | [] => None
  | ToolWithOptions n o :: rest =>
      match toolOverrides rest name with
      | Some o' => Some o'
      | None => if String.eqb n name then Some o else None
      end
  | ToolName _ :: rest => toolOverrides rest name
  end.

Fixpoint assoc_set {A : Type} (m : list (string * A)) (k : string) (v : A) : list (string * A) :=
  match m with
  | [] => [(k, v)]
  | (k', v') :: rest =>
      if String.eqb k' k then (k', v) :: rest else (k', v') :: assoc_set rest k v
  end.

Definition effectiveMetadata (tool : Tool) (overrides : option ToolOptions) : ToolMetadata :=
  let base := match tool_metadata tool with Some m => m | None => no_metadata end in
  match overrides with
  | Some (OptObject (Some exec_on) _) =>
      if String.eqb exec_on "host_danger"
      then {| tm_help := tm_help base; tm_alias := tm_alias base;
              tm_humanOnly := tm_humanOnly base;
              tm_requiresHostExecution := Some true;
              tm_localCommand := tm_localCommand base |}
      else base
  | _ => base
  end.

Definition is_humanOnly (tool : Tool) : bool :=
  match tool_metadata tool with
  | Some m => match tm_humanOnly m with Some b => b | None => false end
  | None => false
  end.

(** One step of the loop over the tools of a plugin. *)
Definition gather_tool (sessionTools : list ToolItem) (humanOnlyTools : list string)
           (acc : list CleanTool * list (string * ToolMetadata)) (tool : Tool)
  : list CleanTool * list (string * ToolMetadata) :=
  let '(tools, metadata) := acc in
  let toolName := fn_name (tool_function tool) in
  let allowed := allowedTools sessionTools in
  if (0 <? length allowed)%nat && negb (Js.includes allowed toolName) then acc
  else if is_humanOnly tool || Js.includes humanOnlyTools toolName then acc
  else
    let effective := effectiveMetadata tool (toolOverrides sessionTools toolName) in
    let metadata' :=
      if (0 <? metadata_keys effective)%nat then assoc_set metadata toolName effective
      else metadata in
    ((tools ++ [{| ct_type := tool_type tool; ct_function := tool_function tool |}])%list,
     metadata').

Definition gather_tools (plugins : PluginsRegistry) (sessionTools : list ToolItem)
           (humanOnlyTools : list string)
  : list CleanTool * list (string * ToolMetadata) :=
  fold_left
    (fun acc p =>
       match definition (snd p) with
       | Some def => fold_left (gather_tool sessionTools humanOnlyTools) def acc
       | None => acc
       end)
    plugins ([], []).

(** *** Lexical scopes of [tick]

    The identifiers each block of [tick] declares, and those the module
    imports. The final branch (lines 451-464) lies in the block of the
    test on the last message; the block of the provider call (the [else]
    of lines 289-352) is closed before it. *)

Definition module_scope : list string :=
  ["globals"; "Utils"; "SessionModel"; "SessionState"; "RemoteProvider"; "bridge";
   "ToolExecutionStatus"; "net"; "fs"; "ejs"; "os"; "AgentLoop"].

Definition tick_scope : list string :=
  ["session"; "status"; "messages"; "lastMessage"; "pendingToolCalls"].

Definition respond_block_scope : list string :=
  ["modelStr"; "providerName"; "modelName"; "allowedTools"; "toolOverrides";
   "sessionTools"; "tools"; "chatMessages"; "combinedMessage"].

Definition prompt_block_scope : list string :=
  ["promptKey"; "response"; "finishReason"].

Definition final_branch_scope : list string :=
  (respond_block_scope ++ tick_scope ++ module_scope)%list.

(** The evaluation of the identifier [x], bound to [binding] where it is
    declared, in a scope chain. *)
Definition evaluate {A : Type} (scope : list string) (x : string) (binding : A) : throws A :=
  if Js.includes scope x then Ok binding
  else Throw "ReferenceError" (x ++ " is not defined").

(** *** tick *)

Section Tick.
(** [E] is the state of the process outside the sessions collection, on
    which the bridge acts. *)
Context {E : Type}.

Record world := { store : SessionModel.store; ext : E }.

Definition with_store (w : world) (s : SessionModel.store) : world :=
  {| store := s; ext := ext w |}.

Variable pluginsRegistry : PluginsRegistry.
Variable humanOnlyTools : list string.
(** [this.provider.createChatCompletion(request)] of the provider named at
    the first call. *)
Variable createChatCompletion : string -> Request -> throws Response.
(** [bridge.route] on a [tool_call] message. *)
Variable route : Bridge.tool_call -> world -> throws JsVal.value * world.
(** [JSON.parse], [None] when it throws, and [JSON.stringify], [None] when
    it returns [undefined]. *)
Variable JSON_parse : string -> option JsVal.value.
Variable JSON_stringify : JsVal.value -> option string.

Definition outcome := (throws unit * (loop * world))%type.

Definition transition (w : world) (id action : string)
  : throws SessionModel.result * world :=
  let '(r, s) := SessionModel.transition (store w) id action in (r, with_store w s).

(** [stop()] *)
Definition stop (l : loop) (w : world) : outcome :=
  let l' := with_isRunning l false in
  match transition w (sessionId l) "stop" with
  | (Throw n m, w') => (Throw n m, (l', w'))
  | (Ok _, w') => (Ok tt, (l', w'))
  end.

(** [SessionModel.save(id, session); SessionModel.collection.save()] *)
Definition save_session (w : world) (id : string) (session : Session) : throws unit * world :=
  match SessionModel.save (store w) id session with
  | (Throw n m, s) => (Throw n m, with_store w s)
  | (Ok _, s) =>
      let '(r, s') := SessionModel.collection_save s in (r, with_store w s')
  end.

(** [loadAll()] and [load(id)], then the metadata of the fresh session
    replaces that of [session]. *)
Definition refresh_metadata (w : world) (id : string) (session : Session) : world * Session :=
  let '(s, fresh) := SessionModel.load (SessionModel.loadAll (store w)) id in
  (with_store w s,
   match fresh with
   | Some freshSession => with_metadata session (metadata freshSession)
   | None => session
   end).

(** The body of the loop over the tool calls (lines 364-438). *)
Definition run_tool_call (id : string) (toolCall : ToolCall) (w : world) (session : Session)
  : throws unit * (world * Session) :=
  let cmdArgs :=
    match JSON_parse (tc_arguments toolCall) with
    | Some v => v
    | None => JsVal.Obj []
    end in
  let '(routed, w1) :=
    route {| Bridge.m_toolCallId := tc_id toolCall;
             Bridge.m_toolName := tc_name toolCall;
             Bridge.m_args := cmdArgs;
             Bridge.m_sessionId := JsVal.Str id |} w in
  let toolResult :=
    match routed with
    | Ok r => r
    | Throw _ message => Bridge.failure ("Error: " ++ message)
    end in
  match JsVal.get toolResult "status" with
  | Throw n m => (Throw n m, (w1, session))
  | Ok status =>
      if JsVal.is_str status ToolExecutionStatus.RUNNING then (Ok tt, (w1, session))
      else
        let resultContent :=
          if JsVal.is_str status ToolExecutionStatus.SUCCESS then
            match JsVal.get_opt toolResult "result" with
            | JsVal.Str s => Some s
            | other => JSON_stringify other
            end
          else
            Some (Text.of_value (JsVal.or (JsVal.get_opt toolResult "error")
                                          (JsVal.Str "Tool execution failed"))) in
        match resultContent with
        | None => (Throw "TypeError" "undefined has no property length", (w1, session))
        | Some content =>
            let '(w2, session') := refresh_metadata w1 id session in
            (Ok tt,
             (w2, push_message session'
                    {| msg_role := "tool";
                       msg_tool_call_id := Some (tc_id toolCall);
                       msg_name := Some (tc_name toolCall);
                       msg_content := content;
                       msg_tool_calls := None;
                       msg_timestamp := Some (SessionModel.isoNow (store w2));
                       msg_finish_reason := None |}))
        end
  end.

Fixpoint run_tool_calls (id : string) (toolCalls : list ToolCall) (w : world)
         (session : Session) : throws unit * (world * Session) :=
  match toolCalls with
  | [] => (Ok tt, (w, session))
  | toolCall :: rest =>
      match run_tool_call id toolCall w session with
      | (Throw n m, ws) => (Throw n m, ws)
      | (Ok _, (w', session')) => run_tool_calls id rest w' session'
      end
  end.

(** [modelStr] split at its first colon. *)
Definition parse_model (modelStr : string) : option (string * string) :=
  match Js.split modelStr ":" with
  | providerName :: (_ :: _) as rest => Some (providerName, Js.join ":" rest)
  | _ => None
  end.

Definition last_message (messages : list Message) : option Message :=
  List.last (map Some messages) None.

Definition set_usage (session : Session) (u : Usage) : Session :=
  {| metadata :=
       {| md_status := md_status (metadata session);
          md_lastTransition := md_lastTransition (metadata session);
          md_model := md_model (metadata session);
          md_tools := md_tools (metadata session);
          md_usage := Some u;
          md_deletedAt := md_deletedAt (metadata session) |};
     spec := spec session |}.

(** What the block of the provider call (lines 289-352) leaves behind: the
    tick returns at once, the call threw, or [combinedMessage] is assigned
    and [session.metadata.usage] may be set. The bindings the block
    declares itself, [finishReason] among them, end with it; the merged
    reason survives in [combinedMessage.finish_reason]. *)
Inductive prompted :=
| Skipped
| Failed (name message : string)
| Merged (combined : Message) (session : Session).

Definition prompt_block (l : loop) (w : world) (session : Session) (providerName modelName : string)
           (tools : list CleanTool) (chatMessages : list Message) : prompted * loop :=
  let promptKey :=
    sessionId l ++ ":" ++ Text.of_nat (length (messages (spec session))) in
  if Js.includes (attemptedPrompts l) promptKey then (Skipped, l)
  else
    match createChatCompletion providerName
            {| rq_model := modelName; rq_messages := chatMessages;
               rq_tools := if (0 <? length tools)%nat then Some tools else None |} with
    | Throw n m =>
        (Failed n m,
         with_attemptedPrompts l (YamlCollection.set_add promptKey (attemptedPrompts l)))
    | Ok response =>
        let isoNow := SessionModel.isoNow (store w) in
        let session' :=
          if JsVal.truthy_value (usage response)
          then set_usage session {| us_counters := usage response;
                                    us_timestamp := isoNow; us_model := modelName |}
          else session in
        (Merged (combinedMessage (choices response) isoNow) session',
         with_attemptedPrompts l [])
    end.

(** The branch without tool calls (lines 451-464). *)
Definition final_branch (l : loop) (w : world) (session : Session) (combined : Message)
  : outcome :=
  let id := sessionId l in
  match save_session w id (push_message session combined) with
  | (Throw n m, w1) => (Throw n m, (l, w1))
  | (Ok _, w1) =>
      let declared :=
        match msg_finish_reason combined with Some r => r | None => "stop" end in
      match evaluate final_branch_scope "finishReason" declared with
      | Throw n m => (Throw n m, (l, w1))
      | Ok finishReason =>
          if String.eqb finishReason "stop" || String.eqb finishReason "end_turn" then
            match transition w1 id "complete" with
            | (Throw n m, w2) => (Throw n m, (l, w2))
            | (Ok _, w2) => (Ok tt, (with_isRunning l false, w2))
            end
          else (Ok tt, (l, w1))
      end
  end.

(** The branch with tool calls (lines 355-450). *)
Definition tool_calls_branch (l : loop) (w : world) (session : Session) (combined : Message)
           (toolCalls pendingToolCalls : list ToolCall) : outcome :=
  let id := sessionId l in
  let appended :=
    if (length pendingToolCalls =? 0)%nat then
      let session1 := push_message session combined in
      match save_session w id session1 with
      | (Throw n m, w1) => (Throw n m, (w1, session1))
      | (Ok _, w1) => (Ok tt, (w1, session1))
      end
    else (Ok tt, (w, session)) in
  match appended with
  | (Throw n m, (w1, _)) => (Throw n m, (l, w1))
  | (Ok _, (w1, session1)) =>
      match run_tool_calls id toolCalls w1 session1 with
      | (Throw n m, (w2, _)) => (Throw n m, (l, w2))
      | (Ok _, (w2, session2)) =>
          let '(w3, session3) := refresh_metadata w2 id session2 in
          match save_session w3 id session3 with
          | (Throw n m, w4) => (Throw n m, (l, w4))
          | (Ok _, w4) => (Ok tt, (l, w4))
          end
      end
  end.

(** [tick] from the test on the model onwards (lines 189-465). *)
Definition respond (l : loop) (w : world) (session : Session) (lastMessage : Message)
           (pendingToolCalls : list ToolCall) : outcome :=
  match md_model (metadata session) with
  | None => (Ok tt, (l, w))
  | Some modelStr =>
      if negb (Js.nonempty modelStr) then (Ok tt, (l, w))
      else
        match parse_model modelStr with
        | None => (Ok tt, (l, w))
        | Some (providerName, modelName) =>
            let l :=
              match provider l with
              | Some _ => l
              | None => with_provider l (Some providerName)
              end in
            let '(tools, metadata_map) :=
              gather_tools pluginsRegistry (md_tools (metadata session)) humanOnlyTools in
            let l := with_toolMetadata l metadata_map in
            let chatMessages :=
              match system_prompt (spec session) with
              | Some p =>
                  if Js.nonempty p
                  then {| msg_role := "system"; msg_content := p;
                          msg_tool_call_id := None; msg_name := None;
                          msg_tool_calls := None; msg_timestamp := None;
                          msg_finish_reason := None |}
                       :: messages (spec session)
                  else messages (spec session)
              | None => messages (spec session)
              end in
            let '(p, l) :=
              if (0 <? length pendingToolCalls)%nat then (Merged lastMessage session, l)
              else prompt_block l w session
                     (match provider l with Some n => n | None => providerName end)
                     modelName tools chatMessages in
            match p with
            | Skipped => (Ok tt, (l, w))
            | Failed n m => (Throw n m, (l, w))
            | Merged combined session' =>
                match msg_tool_calls combined with
                | Some (tc :: tcs) =>
                    tool_calls_branch l w session' combined (tc :: tcs) pendingToolCalls
                | _ => final_branch l w session' combined
                end
            end
        end
  end.

Definition tick (l : loop) (w : world) : outcome :=
  let id := sessionId l in
  let '(s, loaded) := SessionModel.load (SessionModel.loadAll (store w)) id in
  let w := with_store w s in
  match loaded with
  | None => stop l w
  | Some session =>
      let status := md_status (metadata session) in
      if bool_decide (status = Some SessionState.PAUSED) then (Ok tt, (l, w))
      else if bool_decide (status = Some SessionState.PENDING) then
        match transition w id "start" with
        | (Throw n m, w') => (Throw n m, (l, w'))
        | (Ok _, w') => (Ok tt, (l, w'))
        end
      else if bool_decide (status = Some SessionState.STOPPED) then
        (Ok tt, (with_isRunning l false, w))
      else if bool_decide (status = Some SessionState.SUCCESS)
              || bool_decide (status = Some SessionState.ERROR) then
        (Ok tt, (with_isRunning l false, w))
      else
        match last_message (messages (spec session)) with
        | None => (Ok tt, (l, w))
        | Some lastMessage =>
            let pendingToolCalls :=
              if String.eqb (msg_role lastMessage) "assistant"
              then match msg_tool_calls lastMessage with Some tcs => tcs | None => [] end
              else [] in
            if String.eqb (msg_role lastMessage) "user"
               || String.eqb (msg_role lastMessage) "tool"
               || (0 <? length pendingToolCalls)%nat
            then respond l w session lastMessage pendingToolCalls
            else (Ok tt, (l, w))
        end
  end.

(** The loop of [start()]: at most [n] rounds of [while (this.isRunning)],
    in which an exception of [tick] is caught and logged. *)
Fixpoint run (n : nat) (l : loop) (w : world) : loop * world :=
  match n with
  | O => (l, w)
  | S k =>
      if isRunning l then let '(_, (l', w')) := tick l w in run k l' w'
      else (l, w)
  end.

End Tick.

Arguments world : clear implicits.

End AgentLoop.

(** ** The single-shot loop of the CLI (cli.mjs)

    [runLoop] merges the choices of a response as [AgentLoop.tick] does,
    and keeps the reason of the last choice that has one (lines 398-416). *)

Module CliRunLoop.

Definition merge_step (acc : string * list ToolCall * string) (choice : AgentLoop.Choice)
  : string * list ToolCall * string :=
  let '(content, tool_calls, finishReason) := acc in
  let content' :=
    match AgentLoop.ch_content choice with
    | Some c => if Js.nonempty c then content ++ c else content
    | None => content
    end in
  let tool_calls' :=
    match AgentLoop.ch_tool_calls choice with
    | Some tcs => (tool_calls ++ tcs)%list
    | None => tool_calls
    end in
  let finishReason' :=
    match AgentLoop.ch_finish_reason choice with
    | Some r =>
        if String.eqb r "tool_calls" then "tool_calls"
        else if Js.nonempty r then r else finishReason
    | None => finishReason
    end in
  (content', tool_calls', finishReason').

Definition merge (choices : list AgentLoop.Choice) : string * list ToolCall * string :=
  fold_left merge_step choices ("", [], "stop").

End CliRunLoop.

(** ** The specification's words

    Definitions that follow the text of the specification, to be compared
    with the code above. *)

Module Stated.

(** The table of the session lifecycle manager: action, from-set, to. *)
Definition session_table : list (string * list string * string) :=
  [ ("start", ["pending"], "running");
    ("complete", ["running"], "success");
    ("fail", ["running"], "error");
    ("pause", ["pending"; "running"], "paused");
    ("resume", ["paused"], "pending");
    ("stop", ["pending"; "running"; "paused"], "stopped");
    ("run", ["stopped"], "running");
    ("retry", ["success"; "error"], "pending") ].

(** The merged reason: [tool_calls] if any choice had that reason, else
    the reason of the last choice. *)
Definition merged_finish_reason (choices : list AgentLoop.Choice) : option string :=
  if existsb (fun c => bool_decide (AgentLoop.ch_finish_reason c = Some "tool_calls")) choices
  then Some "tool_calls"
  else match List.last (map Some choices) None with
       | Some c => AgentLoop.ch_finish_reason c
       | None => None
       end.

Section Allowlist.
Variable RegExp : string -> string -> option (string -> bool).

(** A rule resolves to deny, or to approve, for a command it matches. *)
Definition rule_denies (command : string) (rule : string * Allowlist.RuleValue) : Prop :=
  Allowlist.matchesPattern RegExp command (fst rule) = true
  /\ match snd rule with
     | Allowlist.RBool false | Allowlist.RObj (Some false) _ => True
     | _ => False
     end.

Definition rule_approves (command : string) (rule : string * Allowlist.RuleValue) : Prop :=
  Allowlist.matchesPattern RegExp command (fst rule) = true
  /\ match snd rule with
     | Allowlist.RBool true | Allowlist.RObj (Some true) _ => True
     | _ => False
     end.

Definition has_matchCommandLine (rule : string * Allowlist.RuleValue) : Prop :=
  match snd rule with
  | Allowlist.RObj _ true => True
  | _ => False
  end.

(** "A command line is approved iff (a) no matching rule resolves to deny,
    and (b) either the full line matches an approve rule with
    matchCommandLine:true, or every parsed sub-command is approved by some
    rule." *)
Definition approved (allowlist : Allowlist.t) (commandLine : string) : Prop :=
  (forall rule command,
      In rule allowlist ->
      command = commandLine \/ In command (Allowlist.parseCommandLine commandLine) ->
      ~ rule_denies command rule)
  /\ ((exists rule, In rule allowlist /\ rule_approves commandLine rule
                    /\ has_matchCommandLine rule)
      \/ (forall command, In command (Allowlist.parseCommandLine commandLine) ->
          exists rule, In rule allowlist /\ rule_approves command rule)).

End Allowlist.

(** The longest [__]-concatenation of leading argv tokens that is a
    registered name: the first token glued to [k] further tokens, for the
    greatest such [k] of at least one. *)
Fixpoint glue (cmd : string) (tokens : list string) : string :=
  match tokens with
  | [] => cmd
  | t :: rest => glue (cmd ++ "__" ++ t) rest
  end.

Definition is_longest_concatenation (registered : string -> bool) (cmd : string)
           (args : list string) (k : nat) : Prop :=
  (1 <= k <= length args)%nat
  /\ registered (glue cmd (firstn k args)) = true
  /\ forall j, (k < j <= length args)%nat -> registered (glue cmd (firstn j args)) = false.

End Stated.

(** * The vocabulary of the properties, and the scenarios *)

(** ** Records on disk *)

Section StoreVocabulary.
Context {V : Type}.
Implicit Types (c : YamlCollection.collection V) (d : YamlCollection.disk V).

(** The file [get] reads for an id, if any. *)
Definition read_path c d (id : string) : option string :=
  let fallback :=
    if YamlCollection.exists_file d (id ++ ".yml") then Some (id ++ ".yml")
    else if YamlCollection.exists_file d (id ++ ".yaml") then Some (id ++ ".yaml")
    else None in
  match YamlCollection.filePaths c !! id with
  | Some cachedPath => if Js.nonempty cachedPath then Some cachedPath else fallback
  | None => fallback
  end.

(** The path of a record: the path the collection has cached for the id,
    or else [<id>.yml]. *)
Definition record_path c (id : string) : string :=
  match YamlCollection.filePaths c !! id with
  | Some cachedPath => cachedPath
  | None => id ++ ".yml"
  end.

(** A file name, as the entries of a directory are: not empty, not [.]
    or [..], and without [/] and without the character NUL. For a file
    name, [path.join(dir, name)] is the entry [name] of the directory. *)
Definition file_name (name : string) : bool :=
  Js.nonempty name
  && negb (String.eqb name ".") && negb (String.eqb name "..")
  && bool_decide (Js.indexOf1 name "/" = None)
  && bool_decide (Js.indexOf1 name (ascii_of_nat 0) = None).

(** No record of [ids] is written at [path]: neither its cached path nor
    its default path is [path]. *)
Definition other_paths c (ids : list string) (path : string) : Prop :=
  forall id', In id' ids ->
    id' ++ ".yml" <> path
    /\ forall p, YamlCollection.filePaths c !! id' = Some p -> p <> path.

(** The calls that read a collection. *)
Inductive read_op :=
| Get (id : string)
| GetAll
| LoadAll
| ListIds.

Definition read c (step : read_op * YamlCollection.disk V) : YamlCollection.collection V :=
  match fst step with
  | Get id => fst (YamlCollection.get c (snd step) id)
  | GetAll => fst (YamlCollection.getAll c (snd step))
  | LoadAll => YamlCollection.loadAll c (snd step)
  | ListIds => c
  end.

End StoreVocabulary.

(** The claim C8 in the words of the specification. *)
Definition delete_as_stated : Prop :=
  forall (V : Type) (T : Truthy V) (c : YamlCollection.collection V)
         (d : YamlCollection.disk V) (id : string) (now : Z),
    YamlCollection.exists_file d (id ++ ".yml") = true ->
    let '(c', returned) := YamlCollection.delete c id in
    returned = true
    /\ YamlCollection.items c' !! id = None
    /\ YamlCollection.exists_file
         (YamlCollection.sv_disk (snd (YamlCollection.save c' d now))) (id ++ ".yml")
       = false.

(** A directory that holds the one record [a.yml]. *)
Definition one_record : YamlCollection.disk JsVal.value :=
  {| YamlCollection.files :=
       {[ "a.yml" := {| YamlCollection.content := Some (JsVal.Str "x");
                        YamlCollection.mtimeMs := 1 |} ]};
     YamlCollection.locked := ∅ |}.

(** A collection that holds the record of [a.yml] after reading it, and a
    new record [b] that waits to be written. *)
Definition one_record_read : YamlCollection.collection JsVal.value :=
  YamlCollection.set (fst (YamlCollection.get YamlCollection.new one_record "a"))
                     "b" (JsVal.Str "y").

(** A collection with one record to write. *)
Definition one_change : YamlCollection.collection JsVal.value :=
  YamlCollection.set YamlCollection.new "a" (JsVal.Str "x").

Definition no_files : YamlCollection.disk JsVal.value :=
  {| YamlCollection.files := ∅; YamlCollection.locked := ∅ |}.

(** A directory that holds the one record [b.yml]. *)
Definition one_record_b : YamlCollection.disk JsVal.value :=
  {| YamlCollection.files :=
       {[ "b.yml" := {| YamlCollection.content := Some (JsVal.Str "y");
                        YamlCollection.mtimeMs := 1 |} ]};
     YamlCollection.locked := ∅ |}.

(** The claim C9 in the words of the specification: after one [save()],
    a further [save()] with nothing in between makes no file system
    call. *)
Definition save_as_stated : Prop :=
  forall (V : Type) (T : Truthy V) (c : YamlCollection.collection V)
         (d : YamlCollection.disk V) (now now' : Z),
    let first := snd (YamlCollection.save c d now) in
    YamlCollection.sv_ops
      (snd (YamlCollection.save (YamlCollection.sv_col first)
                                (YamlCollection.sv_disk first) now'))
    = [].

(** Two records to write, and a directory where [b.yml] cannot be
    written. *)
Definition two_changes : YamlCollection.collection JsVal.value :=
  YamlCollection.set (YamlCollection.set YamlCollection.new "a" (JsVal.Str "x"))
                     "b" (JsVal.Str "y").

Definition b_locked : YamlCollection.disk JsVal.value :=
  {| YamlCollection.files := ∅; YamlCollection.locked := {[ "b.yml" ]} |}.

(** ** The choices of a response *)

Definition content_of (c : AgentLoop.Choice) : string :=
  match AgentLoop.ch_content c with Some s => s | None => "" end.

Definition tool_calls_of (c : AgentLoop.Choice) : list ToolCall :=
  match AgentLoop.ch_tool_calls c with Some tcs => tcs | None => [] end.

Definition has_tool_calls_reason (c : AgentLoop.Choice) : bool :=
  bool_decide (AgentLoop.ch_finish_reason c = Some "tool_calls").

(** ** The agent loop on a final answer *)

(** Scenario S1: the template [echo], no tools, the model [xai:mock]; the
    user sends "Ping" and the provider answers with the one choice "Pong"
    of reason [stop]. *)
Module S1.

Definition ping : Message :=
  {| msg_role := "user"; msg_content := "Ping"; msg_tool_call_id := None;
     msg_name := None; msg_tool_calls := None; msg_timestamp := None;
     msg_finish_reason := None |}.

Definition pong (timestamp : string) : Message :=
  {| msg_role := "assistant"; msg_content := "Pong"; msg_tool_call_id := None;
     msg_name := None; msg_tool_calls := Some []; msg_timestamp := Some timestamp;
     msg_finish_reason := Some "stop" |}.

Definition session : Session :=
  {| metadata := {| md_status := Some SessionState.PENDING; md_lastTransition := None;
                    md_model := Some "xai:mock"; md_tools := []; md_usage := None;
                    md_deletedAt := None |};
     spec := {| system_prompt := Some "You are an echo."; messages := [ping] |} |}.

Definition world : AgentLoop.world unit :=
  {| AgentLoop.store :=
       {| SessionModel.col := YamlCollection.new;
          SessionModel.dsk :=
            {| YamlCollection.files :=
                 {[ "1.yml" := {| YamlCollection.content := Some session;
                                  YamlCollection.mtimeMs := 1000 |} ]};
               YamlCollection.locked := ∅ |};
          SessionModel.now := 2000;
          SessionModel.isoNow := "2026-01-01T00:00:02.000Z" |};
     AgentLoop.ext := tt |}.

Definition loop : AgentLoop.loop :=
  {| AgentLoop.sessionId := "1"; AgentLoop.isRunning := true;
     AgentLoop.provider := None; AgentLoop.toolMetadata := [];
     AgentLoop.attemptedPrompts := []; AgentLoop.systemPromptEvaluated := true |}.

Definition createChatCompletion (providerName : string) (request : AgentLoop.Request)
  : throws AgentLoop.Response :=
  Ok {| AgentLoop.choices :=
          [ {| AgentLoop.ch_content := Some "Pong"; AgentLoop.ch_tool_calls := None;
               AgentLoop.ch_finish_reason := Some "stop" |} ];
        AgentLoop.usage := JsVal.Undefined |}.

(** The session document in the directory, its status and its log. *)
Definition on_disk (w : AgentLoop.world unit) : option Session :=
  match YamlCollection.files (SessionModel.dsk (AgentLoop.store w)) !! "1.yml" with
  | Some f => YamlCollection.content f
  | None => None
  end.

Definition status_on_disk (w : AgentLoop.world unit) : option string :=
  match on_disk w with Some s => md_status (metadata s) | None => None end.

Definition log_on_disk (w : AgentLoop.world unit) : list Message :=
  match on_disk w with Some s => messages (spec s) | None => [] end.

Section Ticks.
Variable route : Bridge.tool_call -> AgentLoop.world unit
                 -> throws JsVal.value * AgentLoop.world unit.
Variable JSON_parse : string -> option JsVal.value.
Variable JSON_stringify : JsVal.value -> option string.

(** The world after the first tick, and the loop and the world after the
    second. *)
Definition started : AgentLoop.world unit :=
  snd (snd (AgentLoop.tick [] [] createChatCompletion route JSON_parse JSON_stringify
                           loop world)).

Definition answered : AgentLoop.loop * AgentLoop.world unit :=
  snd (AgentLoop.tick [] [] createChatCompletion route JSON_parse JSON_stringify
                      loop started).

End Ticks.

End S1.

(** ** The rules of an allowlist *)

Module AllowlistRules.

(** The rules [checkSingleCommand] looks at: every plain rule, and an
    object rule when its [matchCommandLine] agrees with the kind of the
    check (the full line, or a sub-command). *)
Definition applies (checkFullCommand : bool) (v : Allowlist.RuleValue) : bool :=
  match v with
  | Allowlist.RObj _ matchCommandLine => Bool.eqb matchCommandLine checkFullCommand
  | _ => true
  end.

(** What a rule resolves to: approve, deny, or neither. *)
Definition verdict (v : Allowlist.RuleValue) : option bool :=
  match v with
  | Allowlist.RBool b => Some b
  | Allowlist.RObj approve _ => approve
  | _ => None
  end.

(** The allowlists of the specification: every value is [true], [false],
    [null] or an object with a boolean [approve]. *)
Definition well_typed (v : Allowlist.RuleValue) : bool :=
  match v with
  | Allowlist.RBool _ | Allowlist.RNull | Allowlist.RObj (Some _) _ => true
  | _ => false
  end.

Section Engine.
Variable RegExp : string -> string -> option (string -> bool).

Definition resolves (b : bool) (checkFullCommand : bool) (command : string)
           (rule : string * Allowlist.RuleValue) : bool :=
  applies checkFullCommand (snd rule)
  && Allowlist.matchesPattern RegExp command (fst rule)
  && bool_decide (verdict (snd rule) = Some b).

Definition denies := resolves false.
Definition approves := resolves true.

(** The claim as amended: no applicable matching rule denies the full
    line or a sub-command, and either there are sub-commands and an
    applicable rule approves each of them, or an applicable rule approves
    the full line. *)
Definition approved (allowlist : Allowlist.t) (commandLine : string) : Prop :=
  (forall rule, In rule allowlist -> denies true commandLine rule = false)
  /\ (forall command rule,
         In command (Allowlist.parseCommandLine commandLine) ->
         In rule allowlist -> denies false command rule = false)
  /\ ((Allowlist.parseCommandLine commandLine <> []
       /\ forall command, In command (Allowlist.parseCommandLine commandLine) ->
                          exists rule, In rule allowlist /\ approves false command rule = true)
      \/ exists rule, In rule allowlist /\ approves true commandLine rule = true).

(** The checks of the sub-commands, as [checkCommand] collects them. *)
Definition sub_checks (allowlist : Allowlist.t) (subCommands : list string)
  : list (string * Allowlist.check) :=
  map (fun cmd => (cmd, Allowlist.checkSingleCommand RegExp cmd allowlist false)) subCommands.

End Engine.

End AllowlistRules.

(** ** Resumable tool calls *)

(** The claim C5 in the words of the specification: an invocation that
    returns RUNNING with a state keeps the entry of the tool call with
    that state, and an invocation that returns SUCCESS or FAILURE removes
    the entry. *)
Definition tool_call_state_as_stated : Prop :=
  forall (W : Type) (pluginsRegistry : PluginsRegistry)
         (dslRegistry : gmap string (Bridge.handler W))
         (TypeError_message : JsVal.value -> string -> string)
         (sendToHost : Bridge.tool_call -> Bridge.state W
                       -> throws JsVal.value * Bridge.state W)
         (isContainer : bool)
         (message : Bridge.tool_call) (ctx : Bridge.context) (s s' : Bridge.state W)
         (result : JsVal.value),
    Bridge.handleToolCall isContainer pluginsRegistry dslRegistry TypeError_message
                          sendToHost message ctx s
    = (Ok result, s') ->
    (JsVal.is_str (JsVal.get_opt result "status") ToolExecutionStatus.RUNNING = true ->
     exists entry,
       Bridge.toolCallStates s' !! Bridge.m_toolCallId message = Some entry
       /\ Bridge.e_state entry = JsVal.get_opt result "state")
    /\ (JsVal.is_str (JsVal.get_opt result "status") ToolExecutionStatus.SUCCESS = true
        \/ JsVal.is_str (JsVal.get_opt result "status") ToolExecutionStatus.FAILURE = true ->
        Bridge.toolCallStates s' !! Bridge.m_toolCallId message = None).

(** The entry a RUNNING result leaves: the returned state when it is
    truthy, the state of the entry otherwise. *)
Definition kept (entry : Bridge.ToolCallEntry) (result : JsVal.value) : Bridge.ToolCallEntry :=
  {| Bridge.e_status := "running";
     Bridge.e_state :=
       if JsVal.truthy_value (JsVal.get_opt result "state")
       then JsVal.get_opt result "state" else Bridge.e_state entry;
     Bridge.e_context := Bridge.e_context entry;
     Bridge.e_externalData := Bridge.e_externalData entry |}.

Definition approval (choice explanation : JsVal.value) : JsVal.value :=
  JsVal.Obj [("approvalReceived", JsVal.Bool true);
             ("choice", choice); ("explanation", explanation)].

(** The entry of a tool call when the bridge takes the call: the one the
    map holds, or the one the bridge makes, idle, with the empty object
    as its state and no external data. *)
Definition entry_at_call {W : Type} (message : Bridge.tool_call) (s : Bridge.state W)
  : Bridge.ToolCallEntry :=
  match Bridge.toolCallStates s !! Bridge.m_toolCallId message with
  | Some entry => entry
  | None =>
      {| Bridge.e_status := "idle";
         Bridge.e_state := JsVal.Obj [];
         Bridge.e_context := {| Bridge.tcc_sessionId := Bridge.m_sessionId message;
                                Bridge.tcc_toolCallId := Bridge.m_toolCallId message |};
         Bridge.e_externalData := JsVal.Undefined |}
  end.

(** The state of the process in which the handler starts: the map holds
    the entry of the call. *)
Definition state_at_call {W : Type} (message : Bridge.tool_call) (s : Bridge.state W)
  : Bridge.state W :=
  {| Bridge.toolCallStates :=
       <[Bridge.m_toolCallId message := entry_at_call message s]> (Bridge.toolCallStates s);
     Bridge.containerSocket := Bridge.containerSocket s;
     Bridge.currentLogLevel := Bridge.currentLogLevel s;
     Bridge.world := Bridge.world s |}.

(** The context a handler receives for a tool call: the session and the
    id of the call, a state, external data, and the process id of the
    caller. *)
Definition received (message : Bridge.tool_call) (state externalData procId : JsVal.value)
  : Bridge.context :=
  {| Bridge.ctx_sessionId := Bridge.m_sessionId message;
     Bridge.ctx_toolCallId := Some (Bridge.m_toolCallId message);
     Bridge.ctx_state := state;
     Bridge.ctx_externalData := externalData;
     Bridge.ctx_procId := procId |}.

(** An entry with other external data. *)
Definition with_externalData (entry : Bridge.ToolCallEntry) (data : JsVal.value)
  : Bridge.ToolCallEntry :=
  {| Bridge.e_status := Bridge.e_status entry;
     Bridge.e_state := Bridge.e_state entry;
     Bridge.e_context := Bridge.e_context entry;
     Bridge.e_externalData := data |}.

(** The FAILURE result of a tool. *)
Definition FAILURE_result (error : string) : JsVal.value :=
  JsVal.Obj [("status", JsVal.Str "failure"); ("error", JsVal.Str error)].

(** What [new Error(message)] is for the code that catches it. *)
Definition Error_object (message : string) : JsVal.value :=
  JsVal.Obj [("message", JsVal.Str message)].

(** A tool in two steps. Without a phase in its state it returns RUNNING
    with the phase it waits in; called again, it succeeds and hands back
    the state and the external data it received. *)
Definition resuming_tool : Bridge.handler unit :=
  fun _ ctx s =>
    {| Bridge.o_result :=
         Bridge.Returned
           (if JsVal.truthy_value (JsVal.get_opt (Bridge.ctx_state ctx) "phase")
            then JsVal.Obj [("status", JsVal.Str "success");
                            ("result", JsVal.Arr [Bridge.ctx_state ctx;
                                                  Bridge.ctx_externalData ctx])]
            else JsVal.Obj [("status", JsVal.Str "running");
                            ("state", JsVal.Obj [("phase", JsVal.Str "awaiting_approval")])]);
       Bridge.o_state := s;
       Bridge.o_logs := [] |}.

(** A wording of the engine's message for a property read on [undefined]
    or [null]. *)
Definition engine_TypeError (v : JsVal.value) (k : string) : string :=
  Text.of_value v ++ " is not an object (reading '" ++ k ++ "')".

(** A tool that waits and hands back the empty text as its state. *)
Definition waiting_tool : Bridge.handler unit :=
  fun _ _ s =>
    {| Bridge.o_result :=
         Bridge.Returned (JsVal.Obj [("status", JsVal.Str ToolExecutionStatus.RUNNING);
                        ("state", JsVal.Str "")]);
       Bridge.o_state := s;
       Bridge.o_logs := [] |}.

Definition child_process : Bridge.state unit :=
  {| Bridge.toolCallStates := ∅;
     Bridge.containerSocket := Some []; Bridge.currentLogLevel := "info";
     Bridge.world := tt |}.

Definition call (toolCallId toolName : string) : Bridge.tool_call :=
  {| Bridge.m_toolCallId := toolCallId; Bridge.m_toolName := toolName;
     Bridge.m_args := JsVal.Obj []; Bridge.m_sessionId := JsVal.Str "1" |}.

Definition no_context : Bridge.context :=
  {| Bridge.ctx_sessionId := JsVal.Str "1"; Bridge.ctx_toolCallId := None;
     Bridge.ctx_state := JsVal.Undefined; Bridge.ctx_externalData := JsVal.Undefined;
     Bridge.ctx_procId := JsVal.Undefined |}.

Definition host_unreachable (message : Bridge.tool_call) (s : Bridge.state unit)
  : throws JsVal.value * Bridge.state unit :=
  (Throw "Error" "Not connected to host", s).

Definition created_entry : Bridge.ToolCallEntry :=
  {| Bridge.e_status := ToolExecutionStatus.IDLE;
     Bridge.e_state := JsVal.Obj [];
     Bridge.e_context := {| Bridge.tcc_sessionId := JsVal.Str "1";
                            Bridge.tcc_toolCallId := "call_1" |};
     Bridge.e_externalData := JsVal.Undefined |}.

(** In the child, a tool that requires the host is sent to the host; the
    entry the child has made for the call stays when the host answers
    SUCCESS. *)
Definition host_tool : Tool :=
  {| tool_type := "function";
     tool_function := {| fn_name := "fs__directory__list"; fn_description := "";
                         fn_parameters := JsVal.Obj [] |};
     tool_metadata := Some {| tm_help := None; tm_alias := None; tm_humanOnly := None;
                              tm_requiresHostExecution := Some true;
                              tm_localCommand := None |} |}.

Definition host_answers (message : Bridge.tool_call) (s : Bridge.state unit)
  : throws JsVal.value * Bridge.state unit :=
  (Ok (JsVal.Obj [("status", JsVal.Str ToolExecutionStatus.SUCCESS);
                  ("result", JsVal.Str "listing")]), s).

(** ** The shell tool under the unattended policy *)

(** The command line of an invocation, its phase, and the allowlist in
    force: that of the session when there is one. *)
Definition command_of (args : Shell.shell_args) : string :=
  match args with
  | Shell.ShellArgv tokens => Js.join " " tokens
  | Shell.ShellObject c => c
  end.

Definition phase_of (ctx : Bridge.context) : JsVal.value :=
  JsVal.or (JsVal.get_opt (JsVal.or (Bridge.ctx_state ctx) (JsVal.Obj [])) "phase")
           (JsVal.Str "initial").

Definition effective_allowlist (loadAllowlist : Allowlist.t)
           (sessionAllowlist : option Allowlist.t) : Allowlist.t :=
  match sessionAllowlist with
  | Some al => al
  | None => loadAllowlist
  end.

(** The keys of an allowlist whose value is [true], in the order of the
    allowlist. *)
Fixpoint true_keys (allowlist : Allowlist.t) : list string :=
  match allowlist with
  | [] => []
  | (key, Allowlist.RBool true) :: rest => key :: true_keys rest
  | _ :: rest => true_keys rest
  end.

(** The part of the message that lists the commands the session allows:
    nothing without a session allowlist or without a key of value [true],
    and otherwise these keys, separated by a comma and a space. *)
Definition allowed_part (sessionAllowlist : option Allowlist.t) : string :=
  match sessionAllowlist with
  | Some allowlist =>
      match true_keys allowlist with
      | [] => ""
      | key :: keys => " Allowed commands: " ++ Js.join ", " (key :: keys) ++ "."
      end
  | None => ""
  end.

(** Scenario S3: the allowlist denies [rm] and the agent asks for
    [rm -rf /] under the unattended policy. The process state records what
    the collaborators are asked to do. *)
Module S3.

Definition allowlist : Allowlist.t := [("ls", Allowlist.RBool true); ("rm", Allowlist.RBool false)].

(** The allowlist of a session: two commands are allowed, one is denied,
    one entry is [null] and one is an object. *)
Definition session_allowlist : Allowlist.t :=
  [("ls", Allowlist.RBool true); ("rm", Allowlist.RBool false);
   ("git", Allowlist.RNull); ("cat", Allowlist.RBool true);
   ("make", Allowlist.RObj (Some true) false)].

Definition executeCommand (command : JsVal.value) (trace : list string)
  : JsVal.value * list string :=
  (JsVal.Obj [("status", JsVal.Str ToolExecutionStatus.SUCCESS); ("result", JsVal.Str "")],
   (trace ++ [("exec " ++ Text.of_value command)%string])%list).

Definition route (request : Shell.approval_request) (ctx : Bridge.context)
           (trace : list string) : throws JsVal.value * list string :=
  (Ok (JsVal.Obj [("success", JsVal.Bool true)]), (trace ++ ["approval_request"])%list).

Definition ctx : Bridge.context :=
  {| Bridge.ctx_sessionId := JsVal.Str "1"; Bridge.ctx_toolCallId := Some "call_1";
     Bridge.ctx_state := JsVal.Obj []; Bridge.ctx_externalData := JsVal.Undefined;
     Bridge.ctx_procId := JsVal.Undefined |}.

End S3.

(** ** Command resolution *)

(** The tools whose alias the first step of [resolveCommand] tries: those
    of every plugin in registration order, or those of the first plugin
    alone when the first token is a registered name. *)
Fixpoint scanned_tools (plugins : PluginsRegistry) (first_only : bool) : list Tool :=
  match plugins with
  | [] => []
  | (_, plugin) :: rest =>
      match definition plugin with
      | None => scanned_tools rest first_only
      | Some def => if first_only then def else (def ++ scanned_tools rest first_only)%list
      end
  end.

(** Every tool of the catalog, in registration order. *)
Definition all_tools (plugins : PluginsRegistry) : list Tool := scanned_tools plugins false.

(** The first [__]-concatenation that is registered: the first token glued
    to [k] further tokens, for the least such [k] of at least one. *)
Definition is_first_concatenation (registered : string -> bool) (cmd : string)
           (args : list string) (k : nat) : Prop :=
  (1 <= k <= length args)%nat
  /\ registered (Stated.glue cmd (firstn k args)) = true
  /\ forall j, (1 <= j < k)%nat -> registered (Stated.glue cmd (firstn j args)) = false.

(** The alias of a tool matches an argv with a result: the tool has an
    alias function, and for the argv the function returns an object with
    a name that is not empty. *)
Definition alias_matches (argv : list string) (tool : Tool) (result : AliasResult) : Prop :=
  exists metadata alias,
    tool_metadata tool = Some metadata
    /\ tm_alias metadata = Some alias
    /\ alias argv = Some result
    /\ al_name result <> "".

(** The first alias match among tools taken in their order: the match of
    a tool before which no tool has a match. *)
Definition first_alias_match (tools : list Tool) (argv : list string)
           (result : AliasResult) : Prop :=
  exists before tool after,
    tools = (before ++ tool :: after)%list
    /\ alias_matches argv tool result
    /\ forall earlier r, In earlier before -> ~ alias_matches argv earlier r.

Definition no_alias_match (tools : list Tool) (argv : list string) : Prop :=
  forall tool r, In tool tools -> ~ alias_matches argv tool r.

(** A name is registered. *)
Definition registered_in {H : Type} (dslRegistry : gmap string H) (name : string) : bool :=
  bool_decide (is_Some (dslRegistry !! name)).

(** The claim C7 in the words of the specification. *)
Definition resolution_as_stated : Prop :=
  forall (H : Type) (pluginsRegistry : PluginsRegistry) (dslRegistry : gmap string H)
         (cmd : string) (args : list string),
    let r := Bridge.resolveParsed pluginsRegistry dslRegistry cmd args in
    (forall result,
        first_alias_match (all_tools pluginsRegistry) (cmd :: args) result ->
        JsVal.holds_BigInt (args_value (al_args result)) = false ->
        Bridge.r_cmd r = al_name result /\ Bridge.r_args r = al_args result)
    /\ (no_alias_match (all_tools pluginsRegistry) (cmd :: args) ->
        registered_in dslRegistry cmd = false ->
        forall k, Stated.is_longest_concatenation (registered_in dslRegistry) cmd args k ->
                  Bridge.r_cmd r = Stated.glue cmd (firstn k args)
                  /\ Bridge.r_args r = ArgsArray (skipn k args)).

(** A registered first token ends the search for an alias after the first
    plugin: the alias of a later plugin is not found. *)
Definition later_alias : Tool :=
  {| tool_type := "function";
     tool_function := {| fn_name := "session__list"; fn_description := "";
                         fn_parameters := JsVal.Obj [] |};
     tool_metadata :=
       Some {| tm_help := None;
               tm_alias := Some (fun argv =>
                                   match argv with
                                   | "ls" :: _ =>
                                       Some {| al_name := "session__list";
                                               al_args := ArgsOther (JsVal.Obj []) |}
                                   | _ => None
                                   end);
               tm_humanOnly := None; tm_requiresHostExecution := None;
               tm_localCommand := None |} |}.

(** ** Commands forwarded from the host *)

Section HandlerResults.
Context {W : Type}.

(** The statuses [handleCommand] knows, and a result that has none of
    them. *)
Definition known_statuses : list string := ["success"; "failure"; "error"].

Definition no_known_status (result : JsVal.value) : Prop :=
  forall status, In status known_statuses -> JsVal.get_opt result "status" <> JsVal.Str status.

(** The [procId] of a command: that of the message when it is truthy,
    else that of the context. *)
Definition procId_of (message : Bridge.command) (procId0 : JsVal.value) : JsVal.value :=
  if JsVal.truthy_value (Bridge.c_procId message) then Bridge.c_procId message else procId0.

(** The context the [fromHost] branch hands to the handler. *)
Definition handler_context (message : Bridge.command) (toolDef : option Tool)
           (sessionId : Z) (procId0 : JsVal.value) : Bridge.context :=
  {| Bridge.ctx_sessionId := JsVal.Num (if localCommand toolDef then 0%Z else sessionId);
     Bridge.ctx_toolCallId := None;
     Bridge.ctx_state := JsVal.Undefined;
     Bridge.ctx_externalData := JsVal.Undefined;
     Bridge.ctx_procId := procId_of message procId0 |}.

(** [JSON.stringify] as the engine has it on the values of the model: it
    throws for the values that hold a BigInt, and for no other. *)
Definition stringify_of_engine (JSON_stringify : JsVal.value -> throws string) : Prop :=
  forall v, JsVal.holds_BigInt v = false <-> exists text, JSON_stringify v = Ok text.

(** A command as the host sends it: its [procId] has a text, and its
    [messageId], which came as JSON, holds no BigInt; nor do the
    arguments [args] it resolves to, which [resolveCommand] traces with
    [JSON.stringify]. *)
Definition well_formed (message : Bridge.command) (procId0 : JsVal.value) (args : CmdArgs)
  : Prop :=
  Text.printable (procId_of message procId0) = true
  /\ JsVal.holds_BigInt (Bridge.c_messageId message) = false
  /\ JsVal.holds_BigInt (args_value args) = false.

Definition double_quote : string := String (ascii_of_nat 34) "".

Definition line_feed : string := String (ascii_of_nat 10) "".

(** The log output captured while the handler of [cmd] ran: the line
    with which [handleCommand] announces the handler, which it logs at
    the level [debug], the lowest, and so only when that is the log level
    of the process; then the messages of the log events of the handler;
    one message per line. *)
Definition output_of (s : Bridge.state W) (cmd : string) (o : Bridge.outcome W) : string :=
  Js.join line_feed
    ((if String.eqb (Bridge.currentLogLevel s) "debug"
      then ["[handleCommand] Executing handler for " ++ double_quote ++ cmd ++ double_quote]
      else [])
       ++ map snd (Bridge.o_logs o)).

(** The socket to the host after the process has written a response to
    it, when the process has one. *)
Definition socket_after (s : Bridge.state W) (response : Bridge.command_response)
  : option (list Bridge.command_response) :=
  match Bridge.containerSocket s with
  | Some written => Some (written ++ [response])%list
  | None => None
  end.

End HandlerResults.

(** The claim C10 in its own words: the response to a result without a
    known status has [success] false and the captured output, or the
    default text, as its content. *)
Definition no_status_as_stated : Prop :=
  forall (W : Type) (pluginsRegistry : PluginsRegistry)
         (dslRegistry : gmap string (Bridge.handler W))
         (parseDSL : string -> option (string * list string))
         (JSON_stringify : JsVal.value -> throws string)
         (message : Bridge.command) (sessionId : Z) (procId0 : JsVal.value)
         (s : Bridge.state W) (cmd : string) (args : list string)
         (h : Bridge.handler W) (result : JsVal.value),
    let resolved := Bridge.resolveParsed pluginsRegistry dslRegistry cmd args in
    let o := h (args_value (Bridge.r_args resolved))
               (handler_context message (Bridge.r_toolDef resolved) sessionId procId0) s in
    let output := output_of s (Bridge.r_cmd resolved) o in
    stringify_of_engine JSON_stringify ->
    well_formed message procId0 (Bridge.r_args resolved) ->
    Bridge.c_fromHost message = true ->
    parseDSL (Bridge.c_command message) = Some (cmd, args) ->
    dslRegistry !! Bridge.r_cmd resolved = Some h ->
    Bridge.o_result o = Bridge.Returned result ->
    no_known_status result ->
    exists response s',
      Bridge.handleCommand pluginsRegistry dslRegistry parseDSL JSON_stringify
                           message sessionId procId0 s
      = (Bridge.CmdResponse response, s')
      /\ Bridge.cr_success response = false
      /\ Bridge.cr_result response
         = JsVal.Str (if Js.nonempty output then output
                      else "Tool execution failed: No status returned").

(** A child with four handlers: [noop] returns [undefined] and logs
    nothing; [chat] returns a plain text after it logged two lines;
    [count] returns a BigInt; [fail] throws an error. *)
Module Forwarded.

Definition noop : Bridge.handler unit :=
  fun _ _ s => {| Bridge.o_result := Bridge.Returned JsVal.Undefined; Bridge.o_state := s;
                  Bridge.o_logs := [] |}.

Definition chat : Bridge.handler unit :=
  fun _ _ s => {| Bridge.o_result := Bridge.Returned (JsVal.Str "done"); Bridge.o_state := s;
                  Bridge.o_logs := [("info", "hello"); ("warn", "bye")] |}.

Definition count : Bridge.handler unit :=
  fun _ _ s => {| Bridge.o_result := Bridge.Returned (JsVal.BigInt 1); Bridge.o_state := s;
                  Bridge.o_logs := [("info", "counting")] |}.

Definition fail : Bridge.handler unit :=
  fun _ _ s => {| Bridge.o_result := Bridge.Thrown (Error_object "boom"); Bridge.o_state := s;
                  Bridge.o_logs := [] |}.

Definition dslRegistry : gmap string (Bridge.handler unit) :=
  {[ "noop" := noop; "chat" := chat; "count" := count; "fail" := fail ]}.

(** A command line of one word. *)
Definition parseDSL (line : string) : option (string * list string) := Some (line, []).

(** [JSON.stringify] throws for a BigInt, wherever the value holds it;
    the text it returns otherwise is of no account here. *)
Definition JSON_stringify (v : JsVal.value) : throws string :=
  if JsVal.holds_BigInt v then Throw "TypeError" "JSON.stringify cannot serialize BigInt."
  else Ok "".

Definition message (line : string) : Bridge.command :=
  {| Bridge.c_command := line; Bridge.c_waitForResponse := true;
     Bridge.c_procId := JsVal.Undefined; Bridge.c_fromHost := true;
     Bridge.c_messageId := JsVal.Num 7 |}.

Definition child : Bridge.state unit :=
  {| Bridge.toolCallStates := ∅; Bridge.containerSocket := Some [];
     Bridge.currentLogLevel := "info"; Bridge.world := tt |}.

(** The child at the log level [debug], and without a socket. *)
Definition child_debug : Bridge.state unit :=
  {| Bridge.toolCallStates := ∅; Bridge.containerSocket := None;
     Bridge.currentLogLevel := "debug"; Bridge.world := tt |}.

End Forwarded.

(** * More of the code, and the vocabulary of its properties *)

(** ** Command lines *)

(** An ASCII character that is no part of a shell operator ([|], [&],
    [;]) and opens no substitution ([$], the backquote, [<], [>]). *)
Definition plain_char (c : ascii) : bool :=
  (nat_of_ascii c <? 128)%nat
  && negb (existsb (Ascii.eqb c) ["|"; "&"; ";"; "$"; "`"; "<"; ">"]%char).

(** The operators at which [parseCommandLine] splits. *)
Definition operators : list string := ["||"; "&&"; ";"; "|"].

(** Commands chained by operators: [first op1 next1 op2 next2 ...]. *)
Fixpoint pipeline (first : string) (rest : list (string * string)) : string :=
  match rest with
  | [] => first
  | (op, next) :: rest' => first ++ op ++ pipeline next rest'
  end.

(** An allowlist without its [null] entries. *)
Definition without_null (allowlist : Allowlist.t) : Allowlist.t :=
  List.filter (fun rule => match snd rule with Allowlist.RNull => false | _ => true end)
              allowlist.

(** ** White space *)

(** A character of the ASCII range starts no white space of two or
    three bytes, and is no second or third byte of one. *)
Definition narrow (c : ascii) : Prop := (nat_of_ascii c <? 128)%nat = true.

(** The white space of one byte, and the encodings of the white space of
    more than one. *)
Definition narrow_spaces : list ascii :=
  map ascii_of_nat [9; 10; 11; 12; 13; 32]%nat.

Definition bytes (l : list nat) : string :=
  fold_right (fun n s => String (ascii_of_nat n) s) "" l.

Definition wide_spaces : list string :=
  map bytes
      [ [194; 160]; [225; 154; 128];
        [226; 128; 128]; [226; 128; 129]; [226; 128; 130]; [226; 128; 131];
        [226; 128; 132]; [226; 128; 133]; [226; 128; 134]; [226; 128; 135];
        [226; 128; 136]; [226; 128; 137]; [226; 128; 138];
        [226; 128; 168]; [226; 128; 169]; [226; 128; 175];
        [226; 129; 159]; [227; 128; 128]; [239; 187; 191] ]%nat.

(** A text made of white space only: TAB, LF, VT, FF, CR, SPACE, and
    U+00A0, U+1680, U+2000 to U+200A, U+2028, U+2029, U+202F, U+205F,
    U+3000 and U+FEFF in UTF-8. *)
Inductive white_space : string -> Prop :=
| white_empty : white_space ""
| white_narrow (c : ascii) (s : string) :
    In c narrow_spaces -> white_space s -> white_space (String c s)
| white_wide (w s : string) :
    In w wide_spaces -> white_space s -> white_space (w ++ s).

(** ** Tools that end at once *)

(** A tool that succeeds with a result, and a tool that throws. *)
Definition succeeding_tool : Bridge.handler unit :=
  fun _ _ s =>
    {| Bridge.o_result :=
         Bridge.Returned (JsVal.Obj [("status", JsVal.Str ToolExecutionStatus.SUCCESS);
                        ("result", JsVal.Str "ok")]);
       Bridge.o_state := s;
       Bridge.o_logs := [] |}.

Definition throwing_tool : Bridge.handler unit :=
  fun _ _ s =>
    {| Bridge.o_result := Bridge.Thrown (Error_object "boom"); Bridge.o_state := s;
       Bridge.o_logs := [] |}.

Definition two_tools : gmap string (Bridge.handler unit) :=
  {[ "ok" := succeeding_tool; "boom" := throwing_tool ]}.

(** Tools that throw what is no error: [undefined], and an object whose
    message is an object with a property [toString] and so has no
    text. *)
Definition throwing_undefined : Bridge.handler unit :=
  fun _ _ s =>
    {| Bridge.o_result := Bridge.Thrown JsVal.Undefined; Bridge.o_state := s;
       Bridge.o_logs := [] |}.

Definition no_text : JsVal.value :=
  JsVal.Obj [("message", JsVal.Obj [("toString", JsVal.Num 1)])].

Definition throwing_no_text : Bridge.handler unit :=
  fun _ _ s =>
    {| Bridge.o_result := Bridge.Thrown no_text; Bridge.o_state := s;
       Bridge.o_logs := [] |}.

Definition odd_tools : gmap string (Bridge.handler unit) :=
  {[ "ok" := succeeding_tool; "boom" := throwing_tool;
     "undefined" := throwing_undefined; "odd" := throwing_no_text ]}.

(** The tool of a given name. *)
Definition named (toolName : string) (tool : Tool) : bool :=
  String.eqb (fn_name (tool_function tool)) toolName.

(** ** The agent loop *)

(** The tool as it is offered to the model: without its metadata. *)
Definition clean (tool : Tool) : AgentLoop.CleanTool :=
  {| AgentLoop.ct_type := tool_type tool; AgentLoop.ct_function := tool_function tool |}.

(** The test of the loop over the tools: the tool is in the list of the
    session when the session has one, and it is not for humans only. *)
Definition offered (sessionTools : list ToolItem) (humanOnlyTools : list string)
           (tool : Tool) : bool :=
  let toolName := fn_name (tool_function tool) in
  let allowed := AgentLoop.allowedTools sessionTools in
  negb ((0 <? length allowed)%nat && negb (Js.includes allowed toolName))
  && negb (AgentLoop.is_humanOnly tool || Js.includes humanOnlyTools toolName).

(** A tool of the catalog: a tool of the definition of a registered
    plugin. *)
Definition in_catalog (plugins : PluginsRegistry) (tool : Tool) : Prop :=
  exists name plugin def,
    In (name, plugin) plugins /\ definition plugin = Some def /\ In tool def.

(** A tool is for humans only by its own metadata: it has metadata whose
    [humanOnly] is true. *)
Definition marked_humanOnly (tool : Tool) : Prop :=
  exists m, tool_metadata tool = Some m /\ tm_humanOnly m = Some true.

(** The tool list of a session names a tool: an item of the list is the
    name, or an object whose key is the name. *)
Definition names_tool (sessionTools : list ToolItem) (name : string) : Prop :=
  In (ToolName name) sessionTools
  \/ exists options, In (ToolWithOptions name options) sessionTools.

(** A catalog of two plugins and five tools, one of them for humans only
    by its metadata, and the tool list of a session that names four
    tools, one of them with options. *)
Definition tool_named (name : string) (metadata : option ToolMetadata) : Tool :=
  {| tool_type := "function";
     tool_function := {| fn_name := name; fn_description := "";
                         fn_parameters := JsVal.Obj [] |};
     tool_metadata := metadata |}.

Definition for_humans : ToolMetadata :=
  {| tm_help := None; tm_alias := None; tm_humanOnly := Some true;
     tm_requiresHostExecution := None; tm_localCommand := None |}.

Definition for_all : ToolMetadata :=
  {| tm_help := Some "fs read <path>"; tm_alias := None; tm_humanOnly := Some false;
     tm_requiresHostExecution := None; tm_localCommand := None |}.

Definition small_catalog : PluginsRegistry :=
  [("fs", {| definition := Some [tool_named "fs__read" (Some for_all);
                                 tool_named "fs__write" None;
                                 tool_named "fs__stat" None] |});
   ("none", {| definition := None |});
   ("human", {| definition := Some [tool_named "human__ask" (Some for_humans);
                                    tool_named "human__log" None] |})].

Definition small_session : list ToolItem :=
  [ToolName "human__ask"; ToolName "human__log";
   ToolWithOptions "fs__read" (OptObject (Some "host_danger") None);
   ToolName "fs__write"].

(** The key under which a prompt of the session is remembered. *)
Definition promptKey (l : AgentLoop.loop) (session : Session) : string :=
  AgentLoop.sessionId l ++ ":" ++ Text.of_nat (length (messages (spec session))).

(** A provider that is down. *)
Definition provider_down (providerName : string) (request : AgentLoop.Request)
  : throws AgentLoop.Response :=
  Throw "Error" "connect ECONNREFUSED".

(** A bridge that routes nothing. *)
Definition no_route (message : Bridge.tool_call) (w : AgentLoop.world unit)
  : throws JsVal.value * AgentLoop.world unit :=
  (Throw "Error" "Not connected to host", w).

(** The session of scenario S1 with another status, and the world whose
    directory holds it as [1.yml]. *)
Definition with_status (session : Session) (status : string) : Session :=
  {| metadata := {| md_status := Some status;
                    md_lastTransition := md_lastTransition (metadata session);
                    md_model := md_model (metadata session);
                    md_tools := md_tools (metadata session);
                    md_usage := md_usage (metadata session);
                    md_deletedAt := md_deletedAt (metadata session) |};
     spec := spec session |}.

Definition world_of (session : Session) : AgentLoop.world unit :=
  {| AgentLoop.store :=
       {| SessionModel.col := YamlCollection.new;
          SessionModel.dsk :=
            {| YamlCollection.files :=
                 {[ "1.yml" := {| YamlCollection.content := Some session;
                                  YamlCollection.mtimeMs := 1000 |} ]};
               YamlCollection.locked := ∅ |};
          SessionModel.now := 2000;
          SessionModel.isoNow := "2026-01-01T00:00:02.000Z" |};
     AgentLoop.ext := tt |}.

(** ** The command language (common/utils.mjs) *)

Module Utils.

Definition is_quote (c : ascii) : bool :=
  (nat_of_ascii c =? 34)%nat || Ascii.eqb c "'".

(** The last character of a text, [s[s.length - 1]]. *)
Definition last_char (s : string) : option ascii :=
  match Js.rev_string "" s with
  | String c _ => Some c
  | EmptyString => None
  end.

(** The loop from the end of the line towards its start that looks for
    the opener of the trailing structure. [before] holds the characters
    still to visit, the nearest first, so that its head is [trimmed[i]]
    and the head of its tail is [trimmed[i-1]]; [taken] is
    [trimmed.slice(i + 1)]. The result is [trimmed.slice(0, i)] and
    [trimmed.slice(i)] for the index [i] at which the loop breaks. *)
Fixpoint scan_back (closeChar openChar : ascii) (depth : Z) (quoteChar : option ascii)
         (taken : string) (before : string) : option (string * string) :=
  match before with
  | EmptyString => None
  | String char rest =>
      let unescaped :=
        match rest with
        | String previous _ => negb (Ascii.eqb previous "\")
        | EmptyString => true
        end in
      let quoteChar' :=
        if is_quote char && unescaped then
          match quoteChar with
          | None => Some char
          | Some q => if Ascii.eqb char q then None else Some q
          end
        else quoteChar in
      let taken' := String char taken in
      match quoteChar' with
      | Some _ => scan_back closeChar openChar depth quoteChar' taken' rest
      | None =>
          let depth' :=
            if Ascii.eqb char closeChar then (depth + 1)%Z
            else if Ascii.eqb char openChar then (depth - 1)%Z
            else depth in
          if (depth' =? 0)%Z then Some (Js.rev_string "" rest, taken')
          else scan_back closeChar openChar depth' None taken' rest
      end
  end.

(** The loop over the main part: the tokens between spaces; a quoted
    stretch stays in its token, quotes included, and a backslash takes the
    next character with it. *)
Fixpoint tokens (quoteChar : option ascii) (current : string) (args : list string)
         (mainPart : string) : list string :=
  match mainPart with
  | EmptyString => if Js.nonempty current then (args ++ [current])%list else args
  | String char rest =>
      let open_or_close :=
        is_quote char
        && match quoteChar with
           | None => true
           | Some q => Ascii.eqb char q
           end in
      let plain :=
        if open_or_close then
          tokens (match quoteChar with None => Some char | Some _ => None end)
                 (current ++ String char "") args rest
        else if Ascii.eqb char " " && negb (bool_decide (is_Some quoteChar)) then
          (if Js.nonempty current then tokens quoteChar "" (args ++ [current])%list rest
           else tokens quoteChar current args rest)
        else tokens quoteChar (current ++ String char "") args rest in
      if Ascii.eqb char "\" then
        match rest with
        | String next rest' =>
            tokens quoteChar (current ++ String char (String next "")) args rest'
        | EmptyString => plain
        end
      else plain
  end.

(** [Utils.parseDSL(commandString)]: the command and its arguments, or
    [None] for [null]. *)
Definition parseDSL (commandString : string) : option (string * list string) :=
  let trimmed := Js.trim commandString in
  let whole := (trimmed, @None string) in
  let '(mainPart, trailingArg) :=
    match last_char trimmed with
    | Some lastChar =>
        if Ascii.eqb lastChar "}" || Ascii.eqb lastChar "]" then
          let openChar := if Ascii.eqb lastChar "}" then "{"%char else "["%char in
          match scan_back lastChar openChar 0 None "" (Js.rev_string "" trimmed) with
          | Some (head, trailing) => (Js.trim head, Some trailing)
          | None => whole
          end
        else whole
    | None => whole
    end in
  let args :=
    (tokens None "" [] mainPart
     ++ match trailingArg with
        | Some t => if Js.nonempty t then [t] else []
        | None => []
        end)%list in
  match args with
  | [] => None
  | command :: rest => Some (command, rest)
  end.

End Utils.

(** A character of a plain word of a command line: an ASCII character
    that is no white space, no quote, no backslash and closes no
    structure. *)
Definition word_char (c : ascii) : bool :=
  (nat_of_ascii c <? 128)%nat
  && negb (Js.is_space c) && negb (Utils.is_quote c) && negb (Ascii.eqb c "\")
  && negb (Ascii.eqb c "}") && negb (Ascii.eqb c "]").

Definition word (w : string) : Prop :=
  Allowlist.all_chars word_char w = true /\ w <> "".

(** A quoted text and a structure in flow syntax, as they are written on
    a command line. *)
Definition quoted_text (q : ascii) (text : string) : string :=
  String q (text ++ String q "").

Definition structure (openChar closeChar : ascii) (body : string) : string :=
  String openChar (body ++ String closeChar "").

(** ** The catalog of the shell plugin (plugins/shell/index.mjs, [definition]) *)

Module ShellPlugin.

(** [args[i]], [undefined] past the end. *)
Definition arg (args : list string) (i : nat) : JsVal.value :=
  match nth_error args i with
  | Some a => JsVal.Str a
  | None => JsVal.Undefined
  end.

(** [args[i] === text] *)
Definition arg_is (args : list string) (i : nat) (text : string) : bool :=
  match nth_error args i with
  | Some a => String.eqb a text
  | None => false
  end.

(** [/^(exec|execute)$/.test(args[1])] *)
Definition is_exec (args : list string) : bool :=
  arg_is args 1 "exec" || arg_is args 1 "execute".

Definition string_property (description : string) : JsVal.value :=
  JsVal.Obj [("type", JsVal.Str "string"); ("description", JsVal.Str description)].

Definition parameters (properties : list (string * JsVal.value)) (required : list string)
  : JsVal.value :=
  JsVal.Obj ([("type", JsVal.Str "object"); ("properties", JsVal.Obj properties)]
             ++ match required with
                | [] => []
                | _ => [("required", JsVal.Arr (map JsVal.Str required))]
                end).

Definition tool (name description : string) (params : JsVal.value) (help : string)
           (alias : list string -> option AliasResult) : Tool :=
  {| tool_type := "function";
     tool_function := {| fn_name := name; fn_description := description;
                         fn_parameters := params |};
     tool_metadata := Some {| tm_help := Some help; tm_alias := Some alias;
                              tm_humanOnly := None; tm_requiresHostExecution := None;
                              tm_localCommand := None |} |}.

Definition id_only (args : list string) : CmdArgs :=
  ArgsOther (JsVal.Obj [("id", arg args 2)]).

Definition definition : list Tool :=
  [ tool "shell__execute"
         "Execute a shell command (requires human approval for dangerous commands)."
         (parameters [("command", string_property "The command to execute.")] ["command"])
         "shell exec <command>"
         (fun args =>
            if arg_is args 0 "shell" && is_exec args
            then Some {| al_name := "shell__execute";
                         al_args := ArgsOther (JsVal.Obj
                                      [("command", JsVal.Str (Js.join " " (skipn 2 args)))]) |}
            else None);
    tool "shell__pty__create"
         "Create a new persistent pseudo-terminal session."
         (parameters [("id", string_property "Optional ID for the PTY session.")] [])
         "pty create [id]"
         (fun args =>
            if arg_is args 0 "pty" && arg_is args 1 "create"
            then Some {| al_name := "shell__pty__create"; al_args := id_only args |}
            else None);
    tool "shell__pty__execute"
         "Send text to an existing PTY session."
         (parameters [("id", string_property "The ID of the PTY session.");
                      ("text", string_property "The text to send.")] ["id"; "text"])
         "pty exec <id> <text>"
         (fun args =>
            if arg_is args 0 "pty" && is_exec args
            then Some {| al_name := "shell__pty__execute";
                         al_args := ArgsOther (JsVal.Obj
                                      [("id", arg args 2);
                                       ("text", JsVal.Str (Js.join " " (skipn 3 args)))]) |}
            else None);
    tool "shell__pty__read"
         "Read output from a PTY session buffer."
         (parameters [("id", string_property "The ID of the PTY session.")] ["id"])
         "pty read <id>"
         (fun args =>
            if arg_is args 0 "pty" && arg_is args 1 "read"
            then Some {| al_name := "shell__pty__read"; al_args := id_only args |}
            else None);
    tool "shell__pty__snapshot"
         "Get a snapshot of the PTY screen without advancing the read pointer."
         (parameters [("id", string_property "The ID of the PTY session.")] ["id"])
         "pty snap <id>"
         (fun args =>
            if arg_is args 0 "pty" && (arg_is args 1 "snap" || arg_is args 1 "snapshot")
            then Some {| al_name := "shell__pty__snapshot"; al_args := id_only args |}
            else None);
    tool "shell__pty__list"
         "List all active PTY sessions."
         (parameters [] [])
         "pty list"
         (fun args =>
            if arg_is args 0 "pty" && (arg_is args 1 "list" || arg_is args 1 "ls")
            then Some {| al_name := "shell__pty__list"; al_args := ArgsOther (JsVal.Obj []) |}
            else None);
    tool "shell__pty__delete"
         "Close a PTY session and release its resources."
         (parameters [("id", string_property "The ID of the PTY session.")] ["id"])
         "pty delete <id>"
         (fun args =>
            if arg_is args 0 "pty"
               && (arg_is args 1 "delete" || arg_is args 1 "close" || arg_is args 1 "rm")
            then Some {| al_name := "shell__pty__delete"; al_args := id_only args |}
            else None) ].

(** The names [registerTools] puts in the registry of handlers. *)
Definition registered : list string :=
  ["shell__execute"; "shell__pty__create"; "shell__pty__execute"; "shell__pty__read";
   "shell__pty__snapshot"; "shell__pty__list"; "shell__pty__delete"].

End ShellPlugin.

Definition shell_plugin : Plugin := {| definition := Some ShellPlugin.definition |}.

(** A registry of handlers that holds one handler for each name of the
    shell plugin. *)
Definition shell_handlers : gmap string (Bridge.handler unit) :=
  list_to_map (map (fun name => (name, succeeding_tool)) ShellPlugin.registered).

(** The message that answers a tool call. *)
Definition answers (toolCalls : list ToolCall) (m : Message) : Prop :=
  msg_role m = "tool"
  /\ exists toolCall,
       In toolCall toolCalls
       /\ msg_tool_call_id m = Some (tc_id toolCall)
       /\ msg_name m = Some (tc_name toolCall).

(** ** Program names and paths in a command *)

(** A character of a path: an ASCII character that is no white space, no
    quote and no backslash; a character of a program name is moreover no
    slash. *)
Definition path_char (c : ascii) : bool :=
  (nat_of_ascii c <? 128)%nat
  && negb (Js.is_space c) && negb (Allowlist.is_quote c) && negb (Ascii.eqb c "\").

Definition name_char (c : ascii) : bool := path_char c && negb (Ascii.eqb c "/").

Definition program_name (name : string) : Prop :=
  Allowlist.all_chars name_char name = true /\ name <> "".

(** What follows the program in a command: nothing, or white space and
    the arguments. *)
Definition arguments_tail (tail : string) : Prop :=
  tail = "" \/ exists c rest, tail = String c rest /\ Js.is_space c = true.

(** ** Records that change behind the cache *)

(** The directory of [one_record] after [a.yml] was rewritten within the
    same millisecond. *)
Definition one_record_rewritten : YamlCollection.disk JsVal.value :=
  {| YamlCollection.files :=
       {[ "a.yml" := {| YamlCollection.content := Some (JsVal.Str "z");
                        YamlCollection.mtimeMs := 1 |} ]};
     YamlCollection.locked := ∅ |}.

(** ** Sessions marked as deleted *)

(** The world of scenario S1 as a store of sessions. *)
Definition S1_store : SessionModel.store := AgentLoop.store S1.world.

(** * Properties *)

(** ** The FSM primitive and the session table *)

Lemma sessionFSM_parsed :
  sessionFSM =
    [ ("pause", {| FSM.from := ["pending"; "running"]; FSM.to := Some "paused" |});
      ("resume", {| FSM.from := ["paused"]; FSM.to := Some "pending" |});
      ("retry", {| FSM.from := ["success"; "error"]; FSM.to := Some "pending" |});
      ("stop", {| FSM.from := ["pending"; "running"; "paused"]; FSM.to := Some "stopped" |});
      ("run", {| FSM.from := ["stopped"]; FSM.to := Some "running" |});
      ("start", {| FSM.from := ["pending"]; FSM.to := Some "running" |});
      ("complete", {| FSM.from := ["running"]; FSM.to := Some "success" |});
      ("fail", {| FSM.from := ["running"]; FSM.to := Some "error" |}) ].
Proof. vm_compute. reflexivity. Qed.

Lemma includes_In (l : list string) (x : string) :
  Js.includes l x = true <-> In x l.
Proof.
  unfold Js.includes. rewrite existsb_exists. split.
  - intros [y [Hy Heq]]. apply String.eqb_eq in Heq. now subst.
  - intros Hin. exists x. split; [exact Hin | apply String.eqb_refl].
Qed.

Lemma map_get_In (m : FSM.t) (a : string) (r : FSM.rule) :
  FSM.map_get m a = Some r -> In (a, r) m.
Proof.
  induction m as [| [a0 r0] m IH]; simpl; [discriminate |].
  destruct (String.eqb_spec a0 a) as [-> | Hne].
  - intros [= ->]. now left.
  - intros Hget. right. now apply IH.
Qed.

Lemma In_map_get (m : FSM.t) (a : string) (r : FSM.rule) :
  List.NoDup (map fst m) -> In (a, r) m -> FSM.map_get m a = Some r.
Proof.
  induction m as [| [a0 r0] m IH]; simpl; [intros _ [] |].
  intros Hnd [Heq | Hin].
  - injection Heq as -> ->. now rewrite String.eqb_refl.
  - inversion Hnd as [| ? ? Hnotin Hnd']; subst.
    destruct (String.eqb_spec a0 a) as [-> | Hne].
    + exfalso. apply Hnotin. apply (in_map fst) in Hin. exact Hin.
    + now apply IH.
Qed.

Lemma transition_success (fsm : FSM.t) (s a : string) :
  FSM.success (FSM.transition fsm s a) = true <->
  exists r, FSM.map_get fsm a = Some r /\ In s (FSM.from r).
Proof.
  unfold FSM.transition.
  destruct (FSM.map_get fsm a) as [r |] eqn:Hget.
  - destruct (Js.includes (FSM.from r) s) eqn:Hinc; simpl.
    + split; [intros _ | reflexivity]. exists r. split; [reflexivity |].
      now apply includes_In.
    + split; [discriminate |]. intros [r' [[= <-] Hin]].
      apply includes_In in Hin. congruence.
  - simpl. split; [discriminate |]. intros [r [Hr _]]. discriminate.
Qed.

Lemma validActions_In (fsm : FSM.t) (s a : string) :
  In a (FSM.validActions fsm s) <->
  exists r, In (a, r) fsm /\ In s (FSM.from r).
Proof.
  unfold FSM.validActions. rewrite in_map_iff. split.
  - intros [[a' r] [Heq Hin]]. simpl in Heq. subst a'.
    apply filter_In in Hin as [Hin Hinc]. exists r. split; [exact Hin |].
    now apply includes_In.
  - intros [r [Hin Hs]]. exists (a, r). split; [reflexivity |].
    apply filter_In. split; [exact Hin |]. now apply includes_In.
Qed.

Lemma sessionFSM_keys : List.NoDup (map fst sessionFSM).
Proof.
  rewrite sessionFSM_parsed. simpl.
  repeat (constructor; [simpl; intuition discriminate |]). constructor.
Qed.

(** The parsed table of the code and the table of the specification hold
    the same rules. *)
Lemma sessionFSM_table (a : string) (r : FSM.rule) :
  In (a, r) sessionFSM <->
  exists froms to, r = {| FSM.from := froms; FSM.to := Some to |}
                   /\ In (a, froms, to) Stated.session_table.
Proof.
  rewrite sessionFSM_parsed. unfold Stated.session_table. simpl. split.
  - intros H.
    repeat (destruct H as [H | H];
            [injection H as <- <-; eexists; eexists; split; [reflexivity | tauto] |]).
    contradiction.
  - intros [froms [to [-> H]]].
    repeat (destruct H as [H | H]; [injection H as <- <- <-; tauto |]).
    contradiction.
Qed.

(** ** The collection store: reading *)

Section StoreReading.
Context {V : Type} `{Truthy V}.
Implicit Types (c : YamlCollection.collection V) (d : YamlCollection.disk V).

Lemma loadFile_cases c d id name :
  YamlCollection._loadFile c d id name = c
  \/ YamlCollection.filePaths (YamlCollection._loadFile c d id name) !! id = Some name.
Proof.
  unfold YamlCollection._loadFile.
  destruct (YamlCollection.files d !! name) as [f |]; [| now left].
  destruct (YamlCollection.mtimeMs f >? _)%Z.
  - destruct (YamlCollection.content f); [right | now left].
    simpl. apply lookup_insert_eq.
  - right. simpl. apply lookup_insert_eq.
Qed.

Lemma loadFile_twice c d id name :
  YamlCollection._loadFile (YamlCollection._loadFile c d id name) d id name
  = YamlCollection._loadFile c d id name.
Proof.
  unfold YamlCollection._loadFile.
  destruct (YamlCollection.files d !! name) as [f |]; [| reflexivity].
  destruct (YamlCollection.mtimeMs f >? default 0%Z (YamlCollection.lastReadTs c !! id))%Z
    eqn:Hnew.
  - destruct (YamlCollection.content f) as [v |] eqn:Hv.
    + simpl. rewrite lookup_insert_eq. simpl.
      replace (YamlCollection.mtimeMs f >? YamlCollection.mtimeMs f)%Z with false
        by (symmetry; rewrite Z.gtb_ltb; apply Z.ltb_irrefl).
      now rewrite insert_insert_eq.
    + rewrite Hnew. reflexivity.
  - simpl. rewrite Hnew. now rewrite insert_insert_eq.
Qed.

Lemma nonempty_yml id : Js.nonempty (id ++ ".yml") = true.
Proof. now destruct id. Qed.

Lemma nonempty_yaml id : Js.nonempty (id ++ ".yaml") = true.
Proof. now destruct id. Qed.

Lemma get_read_path c d id :
  YamlCollection.get c d id
  = match read_path c d id with
    | Some name =>
        (YamlCollection._loadFile c d id name,
         YamlCollection.items (YamlCollection._loadFile c d id name) !! id)
    | None => (c, None)
    end.
Proof.
  unfold YamlCollection.get, read_path.
  destruct (YamlCollection.filePaths c !! id) as [cachedPath |];
    [destruct (Js.nonempty cachedPath) |];
    try reflexivity;
    destruct (YamlCollection.exists_file d (id ++ ".yml")); try reflexivity;
    destruct (YamlCollection.exists_file d (id ++ ".yaml")); reflexivity.
Qed.

Lemma read_path_nonempty c d id name :
  read_path c d id = Some name -> Js.nonempty name = true.
Proof.
  unfold read_path.
  assert (Hfb : forall o,
    (if YamlCollection.exists_file d (id ++ ".yml") then Some (id ++ ".yml")
     else if YamlCollection.exists_file d (id ++ ".yaml") then Some (id ++ ".yaml")
     else None) = o -> o = Some name -> Js.nonempty name = true).
  { intros o <-.
    destruct (YamlCollection.exists_file d (id ++ ".yml")).
    - intros [= <-]. apply nonempty_yml.
    - destruct (YamlCollection.exists_file d (id ++ ".yaml")); [| discriminate].
      intros [= <-]. apply nonempty_yaml. }
  destruct (YamlCollection.filePaths c !! id) as [cachedPath |].
  - destruct (Js.nonempty cachedPath) eqn:Hne.
    + now intros [= <-].
    + intros Heq. now apply (Hfb _ eq_refl).
  - intros Heq. now apply (Hfb _ eq_refl).
Qed.

(** Reading a document twice in a row, with the directory as it is, gives
    the same document and leaves the cache as the first read left it. *)
Lemma get_idempotent c d id :
  YamlCollection.get (fst (YamlCollection.get c d id)) d id = YamlCollection.get c d id.
Proof.
  rewrite (get_read_path c d id).
  destruct (read_path c d id) as [name |] eqn:Hpath.
  - simpl. destruct (loadFile_cases c d id name) as [Hsame | Hcached].
    + rewrite Hsame. rewrite get_read_path, Hpath, Hsame. reflexivity.
    + rewrite get_read_path. unfold read_path at 1.
      rewrite Hcached, (read_path_nonempty _ _ _ _ Hpath), loadFile_twice. reflexivity.
  - simpl. rewrite get_read_path, Hpath. reflexivity.
Qed.

End StoreReading.

(** ** Session transitions *)

Lemma load_idempotent (st : SessionModel.store) (id : string) :
  SessionModel.load (fst (SessionModel.load st id)) id = SessionModel.load st id.
Proof.
  unfold SessionModel.load.
  pose proof (get_idempotent (SessionModel.col st) (SessionModel.dsk st) id) as Hget.
  destruct (YamlCollection.get (SessionModel.col st) (SessionModel.dsk st) id) as [c v].
  simpl in *. rewrite Hget. reflexivity.
Qed.

Lemma load_disk (st : SessionModel.store) (id : string) :
  SessionModel.dsk (fst (SessionModel.load st id)) = SessionModel.dsk st.
Proof.
  unfold SessionModel.load.
  now destruct (YamlCollection.get (SessionModel.col st) (SessionModel.dsk st) id).
Qed.

(** A transition the FSM rejects is reported with the error of the FSM and
    writes nothing: the directory is as before and the session read next
    is the one the transition examined. *)
Lemma transition_rejected (st : SessionModel.store) (id a : string) (session : Session) :
  snd (SessionModel.load (SessionModel.loadAll st) id) = Some session ->
  FSM.success (FSM.transition sessionFSM (SessionModel.status_or_pending session) a) = false ->
  exists st',
    SessionModel.transition st id a
    = (Ok {| SessionModel.success := false;
             SessionModel.oldState := Some (SessionModel.status_or_pending session);
             SessionModel.newState := None;
             SessionModel.error :=
               FSM.error (FSM.transition sessionFSM
                            (SessionModel.status_or_pending session) a) |}, st')
    /\ SessionModel.dsk st' = SessionModel.dsk st
    /\ SessionModel.load st' id = (st', Some session).
Proof.
  intros Hload Hfail.
  unfold SessionModel.transition.
  pose proof (load_idempotent (SessionModel.loadAll st) id) as Hidem.
  pose proof (load_disk (SessionModel.loadAll st) id) as Hdisk.
  destruct (SessionModel.load (SessionModel.loadAll st) id) as [s2 found] eqn:Hl.
  simpl in Hload, Hidem, Hdisk. subst found.
  rewrite Hfail. simpl. exists s2. split; [reflexivity |]. split; [| exact Hidem].
  rewrite Hdisk. reflexivity.
Qed.

Lemma sessionFSM_get (a : string) (r : FSM.rule) :
  FSM.map_get sessionFSM a = Some r <->
  exists froms to, r = {| FSM.from := froms; FSM.to := Some to |}
                   /\ In (a, froms, to) Stated.session_table.
Proof.
  rewrite <- sessionFSM_table. split.
  - apply map_get_In.
  - apply In_map_get, sessionFSM_keys.
Qed.

(** C3. For every state [s] and action [a], the transition of the session
    FSM succeeds exactly when [a] is an action of the table of the
    specification and [s] is in its from-set, which is exactly when [a] is
    among [validActions s]; on success [to] is the to-state of the table;
    on failure the error lists the from-set of the table for [a] (an
    action that is not in the table is reported as unknown); and a session
    transition that the FSM rejects returns that error and writes nothing:
    the directory is unchanged and the session read next is the one that
    was examined, with its status [s]. *)
Theorem session_transition_table (s a : string) :
  let r := FSM.transition sessionFSM s a in
  (FSM.success r = true <->
   exists froms to, In (a, froms, to) Stated.session_table /\ In s froms)
  /\ (FSM.success r = true <-> In a (FSM.validActions sessionFSM s))
  /\ (forall froms to,
         In (a, froms, to) Stated.session_table ->
         (In s froms -> FSM.success r = true /\ FSM.res_to r = Some to)
         /\ (~ In s froms ->
             FSM.success r = false
             /\ FSM.error r = Some ("Cannot " ++ a ++ " from '" ++ s ++ "'. Valid: "
                                    ++ Js.join ", " froms)))
  /\ ((forall froms to, ~ In (a, froms, to) Stated.session_table) ->
      FSM.success r = false /\ FSM.error r = Some ("Unknown action: " ++ a))
  /\ (forall st id session,
         snd (SessionModel.load (SessionModel.loadAll st) id) = Some session ->
         SessionModel.status_or_pending session = s ->
         FSM.success r = false ->
         exists st',
           SessionModel.transition st id a
           = (Ok {| SessionModel.success := false;
                    SessionModel.oldState := Some s;
                    SessionModel.newState := None;
                    SessionModel.error := FSM.error r |}, st')
           /\ SessionModel.dsk st' = SessionModel.dsk st
           /\ SessionModel.load st' id = (st', Some session)).
Proof.
  intros r. repeat split.
  - intros Hs. apply transition_success in Hs as [rule [Hget Hin]].
    apply sessionFSM_get in Hget as [froms [to [-> Hrow]]]. now exists froms, to.
  - intros [froms [to [Hrow Hin]]]. apply transition_success.
    exists {| FSM.from := froms; FSM.to := Some to |}. split; [| exact Hin].
    apply sessionFSM_get. now exists froms, to.
  - intros Hs. apply transition_success in Hs as [rule [Hget Hin]].
    apply validActions_In. exists rule. split; [| exact Hin]. now apply map_get_In.
  - intros Hin. apply validActions_In in Hin as [rule [Hin Hs]].
    apply transition_success. exists rule. split; [| exact Hs].
    now apply In_map_get; [apply sessionFSM_keys |].
  - assert (Hget : FSM.map_get sessionFSM a
                   = Some {| FSM.from := froms; FSM.to := Some to |})
      by (apply sessionFSM_get; now exists froms, to).
    apply includes_In in H0. subst r. unfold FSM.transition.
    rewrite Hget. simpl. now rewrite H0.
  - assert (Hget : FSM.map_get sessionFSM a
                   = Some {| FSM.from := froms; FSM.to := Some to |})
      by (apply sessionFSM_get; now exists froms, to).
    apply includes_In in H0. subst r. unfold FSM.transition.
    rewrite Hget. simpl. now rewrite H0.
  - assert (Hget : FSM.map_get sessionFSM a
                   = Some {| FSM.from := froms; FSM.to := Some to |})
      by (apply sessionFSM_get; now exists froms, to).
    subst r. unfold FSM.transition. rewrite Hget. simpl.
    destruct (Js.includes froms s) eqn:Hinc; [| reflexivity].
    apply includes_In in Hinc. contradiction.
  - assert (Hget : FSM.map_get sessionFSM a
                   = Some {| FSM.from := froms; FSM.to := Some to |})
      by (apply sessionFSM_get; now exists froms, to).
    subst r. unfold FSM.transition. rewrite Hget. simpl.
    destruct (Js.includes froms s) eqn:Hinc; [| reflexivity].
    apply includes_In in Hinc. contradiction.
  - subst r. unfold FSM.transition.
    destruct (FSM.map_get sessionFSM a) as [rule |] eqn:Hget; [| reflexivity].
    apply sessionFSM_get in Hget as [froms [to [_ Hrow]]]. now apply H in Hrow.
  - subst r. unfold FSM.transition.
    destruct (FSM.map_get sessionFSM a) as [rule |] eqn:Hget; [| reflexivity].
    apply sessionFSM_get in Hget as [froms [to [_ Hrow]]]. now apply H in Hrow.
  - intros st id session Hload <- Hfail. now apply transition_rejected.
Qed.

Lemma session_transition_table_witness :
  In "running" ["running"]
  /\ FSM.success (FSM.transition sessionFSM "running" "complete") = true
  /\ FSM.res_to (FSM.transition sessionFSM "running" "complete") = Some "success".
Proof.
  assert (Hrow : In ("complete", ["running"], "success") Stated.session_table)
    by (unfold Stated.session_table; simpl; tauto).
  assert (Hin : In "running" ["running"]) by (simpl; tauto).
  split; [exact Hin |].
  exact (proj1 (proj1 (proj2 (proj2 (session_transition_table "running" "complete")))
                  ["running"] "success" Hrow) Hin).
Defined.

(** ** The merge of the choices *)

Lemma append_nil_r (s : string) : s ++ "" = s.
Proof.
  induction s as [| c s IH]; [reflexivity |].
  change (String c (s ++ "") = String c s). now rewrite IH.
Qed.

Lemma append_assoc (a b c : string) : (a ++ b) ++ c = a ++ (b ++ c).
Proof.
  induction a as [| x a IH]; [reflexivity |].
  change (String x ((a ++ b) ++ c) = String x (a ++ (b ++ c))). now rewrite IH.
Qed.

Lemma merge_step_eq (content : string) (tool_calls : list ToolCall) (reason : string)
      (c : AgentLoop.Choice) :
  AgentLoop.merge_step (content, tool_calls, reason) c
  = (content ++ content_of c, (tool_calls ++ tool_calls_of c)%list,
     if has_tool_calls_reason c then "tool_calls" else reason).
Proof.
  unfold AgentLoop.merge_step, content_of, tool_calls_of, has_tool_calls_reason.
  destruct c as [[[| x s] |] [[| tc tcs] |] [r |]]; simpl;
    repeat match goal with
           | |- context [String.eqb ?a ?b] => destruct (String.eqb_spec a b); subst
           | |- context [bool_decide ?P] => case_bool_decide
           end;
    rewrite ?append_nil_r, ?app_nil_r; try reflexivity; try congruence.
Qed.

Lemma merge_fold (choices : list AgentLoop.Choice) (content : string)
      (tool_calls : list ToolCall) (reason : string) :
  fold_left AgentLoop.merge_step choices (content, tool_calls, reason)
  = (content ++ String.concat "" (map content_of choices),
     (tool_calls ++ concat (map tool_calls_of choices))%list,
     if existsb has_tool_calls_reason choices then "tool_calls" else reason).
Proof.
  revert content tool_calls reason.
  induction choices as [| c choices IH]; intros content tool_calls reason.
  - simpl. now rewrite append_nil_r, app_nil_r.
  - cbn [fold_left]. rewrite merge_step_eq, IH.
    rewrite append_assoc, <- app_assoc. f_equal; [f_equal |].
    + f_equal. destruct choices; [cbn; now rewrite append_nil_r | reflexivity].
    + simpl. destruct (has_tool_calls_reason c); simpl; [| reflexivity].
      now destruct (existsb has_tool_calls_reason choices).
Qed.

(** The merged message has the contents of the choices, in order, for
    content, and their tool calls, in order, for tool calls; its reason is
    [tool_calls] if a choice has that reason and [stop] otherwise. *)
Lemma merge_spec (choices : list AgentLoop.Choice) :
  AgentLoop.merge choices
  = (String.concat "" (map content_of choices),
     concat (map tool_calls_of choices),
     if existsb has_tool_calls_reason choices then "tool_calls" else "stop").
Proof. unfold AgentLoop.merge. now rewrite merge_fold. Qed.

(** C2. The merge of the agent loop concatenates the contents and the
    tool calls of the choices in order, but its reason is never the one of
    the last choice: for every response in which no choice has the reason
    [tool_calls] and whose last choice has a reason other than [stop], the
    merged reason is [stop], where the specification, and the merge of
    the CLI loop, give the reason of the last choice. *)
Theorem merge_loses_last_finish_reason (choices : list AgentLoop.Choice) (r : string) :
  Stated.merged_finish_reason choices = Some r ->
  r <> "tool_calls" ->
  r <> "stop" ->
  AgentLoop.merge choices
  = (String.concat "" (map content_of choices), concat (map tool_calls_of choices), "stop")
  /\ snd (AgentLoop.merge choices) <> r.
Proof.
  intros Hstated Htool_calls Hstop. rewrite merge_spec.
  unfold Stated.merged_finish_reason in Hstated.
  change (existsb _ choices) with (existsb has_tool_calls_reason choices) in Hstated.
  destruct (existsb has_tool_calls_reason choices).
  - injection Hstated as <-. contradiction.
  - split; [reflexivity |]. cbn [snd]. congruence.
Qed.

(** The response whose only choice has the content "partial answer" and
    the reason [length]. *)
Lemma merge_loses_last_finish_reason_witness :
  let choices :=
    [ {| AgentLoop.ch_content := Some "partial answer";
         AgentLoop.ch_tool_calls := None;
         AgentLoop.ch_finish_reason := Some "length" |} ] in
  Stated.merged_finish_reason choices = Some "length"
  /\ CliRunLoop.merge choices = ("partial answer", [], "length")
  /\ AgentLoop.merge choices = ("partial answer", [], "stop").
Proof.
  intros choices. split; [reflexivity |]. split; [reflexivity |].
  exact (proj1 (merge_loses_last_finish_reason choices "length" eq_refl
                  ltac:(discriminate) ltac:(discriminate))).
Defined.

(** ** The agent loop on a final answer *)

Section FinalAnswer.
Context {E : Type}.
Variable pluginsRegistry : PluginsRegistry.
Variable humanOnlyTools : list string.
Variable createChatCompletion : string -> AgentLoop.Request -> throws AgentLoop.Response.
Variable route : Bridge.tool_call -> AgentLoop.world E -> throws JsVal.value * AgentLoop.world E.
Variable JSON_parse : string -> option JsVal.value.
Variable JSON_stringify : JsVal.value -> option string.

(** The branch without tool calls never returns: it throws when the
    session cannot be saved and, once it is saved, on the reference to
    [finishReason]. The loop keeps running and nothing but the save has
    touched the store. *)
Lemma final_branch_throws (l : AgentLoop.loop) (w : AgentLoop.world E)
      (session : Session) (combined : Message) :
  exists name message,
    AgentLoop.final_branch l w session combined
    = (Throw name message,
       (l, snd (AgentLoop.save_session w (AgentLoop.sessionId l)
                  (push_message session combined))))
    /\ (fst (AgentLoop.save_session w (AgentLoop.sessionId l)
               (push_message session combined)) = Ok tt ->
        name = "ReferenceError" /\ message = "finishReason is not defined").
Proof.
  unfold AgentLoop.final_branch.
  destruct (AgentLoop.save_session w (AgentLoop.sessionId l) (push_message session combined))
    as [[[] | n m] w1].
  - exists "ReferenceError", "finishReason is not defined". split; [reflexivity | tauto].
  - exists n, m. split; [reflexivity | discriminate].
Qed.

(** A loop that is running and whose tick leaves it and the world as they
    are runs for ever. *)
Lemma run_fixed (l : AgentLoop.loop) (w : AgentLoop.world E) (r : throws unit) :
  AgentLoop.isRunning l = true ->
  AgentLoop.tick pluginsRegistry humanOnlyTools createChatCompletion route
                 JSON_parse JSON_stringify l w = (r, (l, w)) ->
  forall n, AgentLoop.run pluginsRegistry humanOnlyTools createChatCompletion route
                          JSON_parse JSON_stringify n l w = (l, w).
Proof.
  intros Hrun Htick n. induction n as [| n IH]; [reflexivity |].
  simpl. rewrite Hrun, Htick. exact IH.
Qed.

End FinalAnswer.

Section S1Run.
Variable route : Bridge.tool_call -> AgentLoop.world unit
                 -> throws JsVal.value * AgentLoop.world unit.
Variable JSON_parse : string -> option JsVal.value.
Variable JSON_stringify : JsVal.value -> option string.

Local Abbreviation tick :=
  (AgentLoop.tick [] [] S1.createChatCompletion route JSON_parse JSON_stringify).
Local Abbreviation run :=
  (AgentLoop.run [] [] S1.createChatCompletion route JSON_parse JSON_stringify).
Local Abbreviation S1_started := (S1.started route JSON_parse JSON_stringify).
Local Abbreviation S1_answered := (S1.answered route JSON_parse JSON_stringify).

Lemma S1_first_tick : tick S1.loop S1.world = (Ok tt, (S1.loop, S1_started)).
Proof. vm_compute. reflexivity. Qed.

Lemma S1_started_status : S1.status_on_disk S1_started = Some SessionState.RUNNING.
Proof. vm_compute. reflexivity. Qed.

Lemma S1_second_tick :
  tick S1.loop S1_started
  = (Throw "ReferenceError" "finishReason is not defined", S1_answered).
Proof. vm_compute. reflexivity. Qed.

Lemma S1_later_ticks :
  tick (fst S1_answered) (snd S1_answered) = (Ok tt, (fst S1_answered, snd S1_answered)).
Proof. vm_compute. reflexivity. Qed.

Lemma S1_still_running : AgentLoop.isRunning (fst S1_answered) = true.
Proof. vm_compute. reflexivity. Qed.

Lemma S1_status : S1.status_on_disk (snd S1_answered) = Some SessionState.RUNNING.
Proof. vm_compute. reflexivity. Qed.

Lemma S1_log :
  S1.log_on_disk (snd S1_answered) = [S1.ping; S1.pong "2026-01-01T00:00:02.000Z"].
Proof. vm_compute. reflexivity. Qed.

Lemma S1_run_fixed (n : nat) :
  run n (fst S1_answered) (snd S1_answered) = S1_answered.
Proof.
  rewrite (run_fixed _ _ _ _ _ _ _ _ (Ok tt) S1_still_running S1_later_ticks n).
  symmetry. apply surjective_pairing.
Qed.

(** C1. For every loop, world, session and merged message, the branch of
    the tick for a message without tool calls ends with an exception and
    leaves the loop as it is: it never makes the transition [complete] and
    never clears [isRunning]. In particular, in scenario S1 and whatever
    the bridge does: the first tick starts the pending session; the second
    asks the provider, appends the answer "Pong" to the log and saves it,
    and then throws a ReferenceError on [finishReason] instead of making
    the transition [complete]; from then on every tick returns without a
    change, so that after any number of rounds the loop is still running
    and the session is still RUNNING. *)
Theorem tick_final_answer_never_completes :
  (forall (l : AgentLoop.loop) (w : AgentLoop.world unit) (session : Session)
          (combined : Message),
      exists name message,
        AgentLoop.final_branch l w session combined
        = (Throw name message,
           (l, snd (AgentLoop.save_session w (AgentLoop.sessionId l)
                      (push_message session combined)))))
  /\ tick S1.loop S1.world = (Ok tt, (S1.loop, S1_started))
  /\ S1.status_on_disk S1_started = Some SessionState.RUNNING
  /\ tick S1.loop S1_started
     = (Throw "ReferenceError" "finishReason is not defined", S1_answered)
  /\ S1.log_on_disk (snd S1_answered) = [S1.ping; S1.pong "2026-01-01T00:00:02.000Z"]
  /\ forall n,
       AgentLoop.isRunning (fst (run n (fst S1_answered) (snd S1_answered))) = true
       /\ S1.status_on_disk (snd (run n (fst S1_answered) (snd S1_answered)))
          = Some SessionState.RUNNING
       /\ S1.log_on_disk (snd (run n (fst S1_answered) (snd S1_answered)))
          = [S1.ping; S1.pong "2026-01-01T00:00:02.000Z"].
Proof.
  split.
  { intros l w session combined.
    destruct (final_branch_throws l w session combined) as [name [message [Hthrows _]]].
    now exists name, message. }
  split; [exact S1_first_tick |].
  split; [exact S1_started_status |].
  split; [exact S1_second_tick |].
  split; [exact S1_log |].
  intros n. rewrite (S1_run_fixed n).
  split; [exact S1_still_running |].
  split; [exact S1_status | exact S1_log].
Qed.

End S1Run.

(** ** The allowlist check *)

Section AllowlistCheck.
Variable RegExp : string -> string -> option (string -> bool).
Import AllowlistRules.

Local Abbreviation sub_checks := (AllowlistRules.sub_checks RegExp).

Lemma check_loop_step (command : string) (full : bool) (pattern : string)
      (value : Allowlist.RuleValue) (rest : Allowlist.t)
      (approved : option bool) (matchedRule : option string) :
  Allowlist.check_loop RegExp command full ((pattern, value) :: rest) approved matchedRule
  = if applies full value && Allowlist.matchesPattern RegExp command pattern then
      match value with
      | Allowlist.RNull =>
          Allowlist.check_loop RegExp command full rest approved (Some pattern)
      | _ =>
          match verdict value with
          | Some false => (Some false, Some pattern)
          | other => Allowlist.check_loop RegExp command full rest other (Some pattern)
          end
      end
    else Allowlist.check_loop RegExp command full rest approved matchedRule.
Proof.
  cbn [Allowlist.check_loop].
  destruct value as [[|] | | [[|] |] m |]; cbn [applies verdict];
    try (destruct full, m; cbn [andb orb negb Bool.eqb]);
    try (destruct (Allowlist.matchesPattern RegExp command pattern));
    reflexivity.
Qed.

(** The loop ends on [false] exactly when an applicable matching rule
    denies, and then names such a rule. *)
Lemma check_loop_denied (command : string) (full : bool) (entries : Allowlist.t) :
  forall approved matchedRule,
    approved <> Some false ->
    let r := Allowlist.check_loop RegExp command full entries approved matchedRule in
    (fst r = Some false <-> existsb (denies RegExp full command) entries = true)
    /\ (fst r = Some false ->
        exists rule, In rule entries /\ denies RegExp full command rule = true
                     /\ snd r = Some (fst rule)).
Proof.
  induction entries as [| [pattern value] rest IH]; intros approved matchedRule Hnf.
  - simpl. split; [split; [intros; congruence | discriminate] | intros; congruence].
  - cbv zeta. rewrite check_loop_step. cbn [existsb].
    unfold denies at 1 3, resolves. cbn [fst snd].
    destruct (applies full value && Allowlist.matchesPattern RegExp command pattern) eqn:Hm.
    + destruct value as [[|] | | [[|] |] m |]; cbn [verdict];
        try (rewrite bool_decide_eq_false_2 by discriminate;
             cbn [andb orb];
             match goal with
             | |- context [Allowlist.check_loop _ _ _ _ ?a ?m] =>
                 destruct (IH a m ltac:(first [exact Hnf | discriminate])) as [IH1 IH2]
             end;
             split; [exact IH1 |];
             intros Hr; destruct (IH2 Hr) as [rule [Hin Hd]];
             exists rule; split; [now right | exact Hd]).
      * rewrite bool_decide_eq_true_2 by reflexivity. cbn [andb orb fst snd].
        split; [tauto |]. intros _. exists (pattern, Allowlist.RBool false).
        split; [now left |]. split; [| reflexivity].
        unfold denies, resolves. cbn [fst snd verdict]. rewrite Hm.
        now rewrite bool_decide_eq_true_2.
      * rewrite bool_decide_eq_true_2 by reflexivity. cbn [andb orb fst snd].
        split; [tauto |]. intros _. exists (pattern, Allowlist.RObj (Some false) m).
        split; [now left |]. split; [| reflexivity].
        unfold denies, resolves. cbn [fst snd verdict]. rewrite Hm.
        now rewrite bool_decide_eq_true_2.
    + cbn [andb orb].
      destruct (IH approved matchedRule Hnf) as [IH1 IH2].
      split; [exact IH1 |].
      intros Hr. destruct (IH2 Hr) as [rule [Hin Hd]].
      exists rule. split; [now right | exact Hd].
Qed.

(** On an allowlist of the specification, without a denying rule, the
    loop ends on [true] exactly when it started on [true] or an applicable
    matching rule approves. *)
Lemma check_loop_approved (command : string) (full : bool) (entries : Allowlist.t) :
  forall approved matchedRule,
    approved <> Some false ->
    forallb (fun rule => well_typed (snd rule)) entries = true ->
    existsb (denies RegExp full command) entries = false ->
    (fst (Allowlist.check_loop RegExp command full entries approved matchedRule) = Some true
     <-> approved = Some true \/ existsb (approves RegExp full command) entries = true).
Proof.
  induction entries as [| [pattern value] rest IH]; intros approved matchedRule Hnf Hwt Hnd.
  - simpl. split; [tauto | intros [H | H]; [exact H | discriminate]].
  - rewrite check_loop_step. cbn [existsb forallb] in *.
    apply andb_prop in Hwt as [Hwv Hwt]. apply orb_false_elim in Hnd as [Hdv Hnd].
    unfold approves at 1, resolves. unfold denies, resolves in Hdv. cbn [fst snd] in *.
    destruct (applies full value && Allowlist.matchesPattern RegExp command pattern) eqn:Hm.
    + destruct value as [[|] | | [[|] |] m |]; cbn [verdict well_typed] in *;
        try discriminate;
        try (rewrite bool_decide_eq_true_2 in Hdv by reflexivity; discriminate).
      * rewrite bool_decide_eq_true_2 by reflexivity. cbn [andb orb].
        rewrite (IH (Some true) (Some pattern)) by (first [discriminate | assumption]).
        tauto.
      * rewrite bool_decide_eq_false_2 by discriminate. cbn [andb orb].
        now apply IH.
      * rewrite bool_decide_eq_true_2 by reflexivity. cbn [andb orb].
        rewrite (IH (Some true) (Some pattern)) by (first [discriminate | assumption]).
        tauto.
    + cbn [andb orb]. now apply IH.
Qed.

Lemma existsb_false {A : Type} (f : A -> bool) (l : list A) :
  existsb f l = false <-> forall x, In x l -> f x = false.
Proof.
  split.
  - intros Hex x Hin. destruct (f x) eqn:Hfx; [| reflexivity].
    assert (existsb f l = true) by (apply existsb_exists; eauto). congruence.
  - intros Hall. destruct (existsb f l) eqn:Hex; [| reflexivity].
    apply existsb_exists in Hex as [x [Hin Hfx]]. rewrite (Hall x Hin) in Hfx. discriminate.
Qed.

(** [checkSingleCommand]: denied, and approved. *)
Lemma single_denied (command : string) (allowlist : Allowlist.t) (full : bool) :
  let c := Allowlist.checkSingleCommand RegExp command allowlist full in
  (Allowlist.denied c = true <-> existsb (denies RegExp full command) allowlist = true)
  /\ (Allowlist.denied c = true ->
      Allowlist.approved c = false
      /\ exists rule, In rule allowlist /\ denies RegExp full command rule = true
                      /\ Allowlist.reason c = "Denied by rule: " ++ fst rule).
Proof.
  unfold Allowlist.checkSingleCommand.
  destruct (check_loop_denied command full allowlist None None ltac:(discriminate))
    as [Hiff Hrule].
  destruct (Allowlist.check_loop RegExp command full allowlist None None)
    as [[[|] |] matchedRule]; cbn [fst snd Allowlist.denied Allowlist.approved
                                    Allowlist.reason] in *.
  - split; [split; [discriminate | intros He; apply Hiff in He; discriminate] | discriminate].
  - split; [split; [intros _; now apply Hiff | reflexivity] |].
    intros _. split; [reflexivity |].
    destruct (Hrule eq_refl) as [rule [Hin [Hd Hm]]]. subst matchedRule.
    exists rule. repeat split; assumption.
  - split; [split; [discriminate | intros He; apply Hiff in He; discriminate] | discriminate].
Qed.

Lemma single_approved (command : string) (allowlist : Allowlist.t) (full : bool) :
  forallb (fun rule => well_typed (snd rule)) allowlist = true ->
  existsb (denies RegExp full command) allowlist = false ->
  (Allowlist.approved (Allowlist.checkSingleCommand RegExp command allowlist full) = true
   <-> existsb (approves RegExp full command) allowlist = true).
Proof.
  intros Hwt Hnd. unfold Allowlist.checkSingleCommand.
  pose proof (check_loop_approved command full allowlist None None
                ltac:(discriminate) Hwt Hnd) as Hiff.
  destruct (Allowlist.check_loop RegExp command full allowlist None None)
    as [[[|] |] matchedRule]; cbn [fst Allowlist.approved] in *.
  - split; [intros _; destruct Hiff as [Hiff _]; destruct (Hiff eq_refl); congruence
           | reflexivity].
  - split; [discriminate | intros He]. destruct Hiff as [_ Hiff].
    specialize (Hiff (or_intror He)). discriminate.
  - split; [discriminate | intros He]. destruct Hiff as [_ Hiff].
    specialize (Hiff (or_intror He)). discriminate.
Qed.

Lemma single_not_denied (command : string) (allowlist : Allowlist.t) (full : bool) :
  Allowlist.denied (Allowlist.checkSingleCommand RegExp command allowlist full) = false
  <-> forall rule, In rule allowlist -> denies RegExp full command rule = false.
Proof.
  rewrite <- existsb_false.
  destruct (single_denied command allowlist full) as [Hiff _].
  destruct (Allowlist.denied _), (existsb _ _); try tauto.
  - destruct Hiff as [Hiff _]. specialize (Hiff eq_refl). discriminate.
  - destruct Hiff as [_ Hiff]. specialize (Hiff eq_refl). discriminate.
Qed.

Lemma subs_not_denied (allowlist : Allowlist.t) (subCommands : list string) :
  existsb (fun c => Allowlist.denied (snd c)) (sub_checks allowlist subCommands) = false
  <-> forall command rule,
      In command subCommands -> In rule allowlist ->
      denies RegExp false command rule = false.
Proof.
  rewrite existsb_false. unfold sub_checks. split.
  - intros Hall command rule Hc Hr.
    assert (Hd : Allowlist.denied
                   (Allowlist.checkSingleCommand RegExp command allowlist false) = false).
    { apply (Hall (command, _)). apply in_map_iff. now exists command. }
    now apply (proj1 (single_not_denied command allowlist false) Hd).
  - intros Hall [cmd c] Hin. apply in_map_iff in Hin as [command [[= <- <-] Hc]].
    cbn [snd]. apply single_not_denied. intros rule Hr. now apply Hall.
Qed.

Lemma subs_approved (allowlist : Allowlist.t) (subCommands : list string) :
  forallb (fun rule => well_typed (snd rule)) allowlist = true ->
  (forall command rule,
      In command subCommands -> In rule allowlist ->
      denies RegExp false command rule = false) ->
  (forallb (fun c => Allowlist.approved (snd c)) (sub_checks allowlist subCommands) = true
   <-> forall command, In command subCommands ->
       exists rule, In rule allowlist /\ approves RegExp false command rule = true).
Proof.
  intros Hwt Hnd. rewrite forallb_forall. unfold sub_checks. split.
  - intros Hall command Hc.
    assert (Ha : Allowlist.approved
                   (Allowlist.checkSingleCommand RegExp command allowlist false) = true).
    { apply (Hall (command, _)). apply in_map_iff. now exists command. }
    apply single_approved in Ha; [| exact Hwt | apply existsb_false; intros r Hr; now apply Hnd].
    apply existsb_exists in Ha. exact Ha.
  - intros Hall [cmd c] Hin. apply in_map_iff in Hin as [command [[= <- <-] Hc]].
    cbn [snd]. apply single_approved;
      [exact Hwt | apply existsb_false; intros r Hr; now apply Hnd |].
    apply existsb_exists. now apply Hall.
Qed.

Lemma find_of_existsb {A : Type} (f : A -> bool) (l : list A) :
  existsb f l = true -> exists x, find f l = Some x /\ In x l /\ f x = true.
Proof.
  induction l as [| a l IH]; simpl; [discriminate |].
  destruct (f a) eqn:Hfa.
  - intros _. exists a. tauto.
  - simpl. intros Hex. destruct (IH Hex) as [x [Hfind [Hin Hfx]]]. exists x. tauto.
Qed.

(** What [checkCommand] approves and what it rejects, see C4 below. *)
Lemma checkCommand_rules (commandLine : string) (allowlist : Allowlist.t) :
  (forallb (fun rule => well_typed (snd rule)) allowlist = true ->
   (Allowlist.cc_approved (Allowlist.checkCommand RegExp commandLine allowlist) = true
    <-> AllowlistRules.approved RegExp allowlist commandLine))
  /\ ((exists rule, In rule allowlist
         /\ (denies RegExp true commandLine rule = true
             \/ exists command, In command (Allowlist.parseCommandLine commandLine)
                                /\ denies RegExp false command rule = true)) ->
      Allowlist.cc_approved (Allowlist.checkCommand RegExp commandLine allowlist) = false
      /\ exists rule,
           In rule allowlist
           /\ (denies RegExp true commandLine rule = true
               \/ exists command, In command (Allowlist.parseCommandLine commandLine)
                                  /\ denies RegExp false command rule = true)
           /\ Allowlist.cc_reason (Allowlist.checkCommand RegExp commandLine allowlist)
              = "Command denied: Denied by rule: " ++ fst rule).
Proof.
  unfold Allowlist.checkCommand. cbn [Allowlist.cc_approved Allowlist.cc_reason].
  fold (sub_checks allowlist (Allowlist.parseCommandLine commandLine)).
  set (subs := Allowlist.parseCommandLine commandLine).
  pose proof (single_not_denied commandLine allowlist true) as Hline_nd.
  pose proof (subs_not_denied allowlist subs) as Hsubs_nd.
  pose proof (single_denied commandLine allowlist true) as Hline_d. cbv zeta in Hline_d.
  set (full := Allowlist.checkSingleCommand RegExp commandLine allowlist true) in *.
  split.
  - intros Hwt. unfold AllowlistRules.approved. fold subs.
    pose proof (single_approved commandLine allowlist true Hwt) as Hline_a.
    fold full in Hline_a.
    pose proof (subs_approved allowlist subs Hwt) as Hsubs_a.
    split.
    + intros Happ. apply andb_prop in Happ as [Hnd Hok].
      apply negb_true_iff, orb_false_elim in Hnd as [Hfull Hsubs].
      pose proof (proj1 Hline_nd Hfull) as Hfull'. pose proof (proj1 Hsubs_nd Hsubs) as Hsubs'.
      clear Hfull Hsubs. rename Hfull' into Hfull. rename Hsubs' into Hsubs.
      split; [exact Hfull |]. split; [exact Hsubs |].
      apply orb_prop in Hok as [Hall | Hline].
      * left. apply andb_prop in Hall as [Hlen Hall].
        split.
        -- intros Hnil. unfold sub_checks in Hlen. rewrite Hnil in Hlen. discriminate.
        -- now apply (proj1 (Hsubs_a Hsubs)).
      * right. apply (proj1 (Hline_a (proj2 (existsb_false _ _) Hfull))) in Hline.
        now apply existsb_exists in Hline.
    + intros [Hfull [Hsubs Hok]].
      apply andb_true_intro. split.
      * apply negb_true_iff, orb_false_intro;
          [now apply (proj2 Hline_nd) | now apply (proj2 Hsubs_nd)].
      * apply orb_true_intro. destruct Hok as [[Hne Hall] | Hline].
        -- left. apply andb_true_intro. split.
           ++ unfold sub_checks. rewrite length_map.
              destruct subs; [contradiction | reflexivity].
           ++ now apply (proj2 (Hsubs_a Hsubs)).
        -- right. apply (proj2 (Hline_a (proj2 (existsb_false _ _) Hfull))).
           now apply existsb_exists.
  - intros [rule [Hin Hdeny]].
    assert (Hany : Allowlist.denied full
                   || existsb (fun c => Allowlist.denied (snd c)) (sub_checks allowlist subs)
                   = true).
    { destruct Hdeny as [Hline | [command [Hc Hsub]]].
      - apply orb_true_intro. left. apply (proj1 Hline_d).
        apply existsb_exists. now exists rule.
      - apply orb_true_intro. right. apply existsb_exists.
        exists (command, Allowlist.checkSingleCommand RegExp command allowlist false).
        split; [unfold sub_checks; apply in_map_iff; now exists command |].
        cbn [snd]. apply (proj1 (single_denied command allowlist false)).
        apply existsb_exists. now exists rule. }
    rewrite Hany. cbn [negb andb]. split; [reflexivity |].
    destruct (Allowlist.denied full) eqn:Hfull.
    + destruct (proj2 Hline_d eq_refl) as [_ [rule' [Hin' [Hd' Hreason]]]].
      exists rule'. split; [exact Hin' |]. split; [now left |].
      now rewrite Hreason.
    + cbn [orb] in Hany. apply find_of_existsb in Hany as [[cmd c] [Hfind [Hc Hd]]].
      rewrite Hfind. cbn [option_map snd] in *.
      unfold sub_checks in Hc. apply in_map_iff in Hc as [command [[= <- <-] Hc]].
      destruct (proj2 (single_denied command allowlist false) Hd)
        as [_ [rule' [Hin' [Hd' Hreason]]]].
      exists rule'. split; [exact Hin' |]. split; [right; now exists command |].
      now rewrite Hreason.
Qed.

(** C4, as amended. On an allowlist whose values are [true], [false],
    [null] or an object with a boolean [approve], [checkCommand]
    approves a command line exactly when no applicable matching rule
    denies the full line or a sub-command, and either there is a
    sub-command and every sub-command is approved by an applicable rule,
    or the full line is approved by an applicable rule; the rules
    applicable to the full line are the plain rules and the object rules
    with [matchCommandLine], those applicable to a sub-command the plain
    rules and the object rules without it. On any allowlist, a denying
    rule makes the check reject the line with the reason "Command denied:
    Denied by rule: " followed by the pattern of a denying rule. *)
Theorem checkCommand_approved (commandLine : string) (allowlist : Allowlist.t) :
  (forallb (fun rule => well_typed (snd rule)) allowlist = true ->
   (Allowlist.cc_approved (Allowlist.checkCommand RegExp commandLine allowlist) = true
    <-> AllowlistRules.approved RegExp allowlist commandLine))
  /\ ((exists rule, In rule allowlist
         /\ (denies RegExp true commandLine rule = true
             \/ exists command, In command (Allowlist.parseCommandLine commandLine)
                                /\ denies RegExp false command rule = true)) ->
      Allowlist.cc_approved (Allowlist.checkCommand RegExp commandLine allowlist) = false
      /\ exists rule,
           In rule allowlist
           /\ (denies RegExp true commandLine rule = true
               \/ exists command, In command (Allowlist.parseCommandLine commandLine)
                                  /\ denies RegExp false command rule = true)
           /\ Allowlist.cc_reason (Allowlist.checkCommand RegExp commandLine allowlist)
              = "Command denied: Denied by rule: " ++ fst rule).
Proof. exact (checkCommand_rules commandLine allowlist). Qed.

End AllowlistCheck.

(** The claim C4 as stated fails: with the one rule [echo: true], the line
    "echo hi; foo" is approved by the code, because the plain rule matches
    the full line, although no rule approves the sub-command "foo" and no
    rule has [matchCommandLine]. *)
Lemma checkCommand_approved_counterexample :
  ~ (forall RegExp allowlist commandLine,
        Allowlist.cc_approved (Allowlist.checkCommand RegExp commandLine allowlist) = true
        <-> Stated.approved RegExp allowlist commandLine).
Proof.
  intros Hclaim.
  destruct (Hclaim (fun _ _ => None) [("echo", Allowlist.RBool true)] "echo hi; foo")
    as [Hcode _].
  destruct (Hcode eq_refl) as [_ [[rule [Hin [_ Hline]]] | Hsubs]].
  - destruct Hin as [<- | []]. exact Hline.
  - destruct (Hsubs "foo") as [rule [Hin [Hmatch _]]].
    + vm_compute. tauto.
    + destruct Hin as [<- | []]. vm_compute in Hmatch. discriminate.
Qed.

(** An allowlist with a [null] entry that matches the first sub-command
    after the rule that approves it: the entry changes nothing, and the
    line is approved because each of its sub-commands is. *)
Lemma checkCommand_approved_witness :
  let allowlist :=
    [("echo", Allowlist.RBool true); ("echo hi", Allowlist.RNull);
     ("rm", Allowlist.RBool false)] in
  forallb (fun rule => AllowlistRules.well_typed (snd rule)) allowlist = true
  /\ Allowlist.parseCommandLine "echo hi | echo ho" = ["echo hi"; "echo ho"]
  /\ Allowlist.matchesPattern (fun _ _ => None) "echo hi" "echo hi" = true
  /\ Allowlist.cc_approved
       (Allowlist.checkCommand (fun _ _ => None) "echo hi | echo ho" allowlist) = true.
Proof.
  intros allowlist.
  split; [reflexivity |]. split; [reflexivity |]. split; [reflexivity |].
  apply (proj1 (checkCommand_approved (fun _ _ => None) "echo hi | echo ho" allowlist)
           eq_refl).
  split; [| split].
  - intros rule [<- | [<- | [<- | []]]]; vm_compute; reflexivity.
  - intros command rule Hc [<- | [<- | [<- | []]]];
      vm_compute in Hc; destruct Hc as [<- | [<- | []]]; vm_compute; reflexivity.
  - left. split; [discriminate |].
    intros command Hc. exists ("echo", Allowlist.RBool true).
    split; [now left |].
    vm_compute in Hc. destruct Hc as [<- | [<- | []]]; vm_compute; reflexivity.
Defined.

(** ** Resumable tool calls *)

(** The claim C5 as stated fails: the tool [wait] returns RUNNING with the
    empty text as its state (a falsy value), and the entry keeps the state
    it had, the empty object. *)
Lemma tool_call_state_counterexample : ~ tool_call_state_as_stated.
Proof.
  intros Hclaim.
  assert (Hcall :
    Bridge.handleToolCall true [] {[ "wait" := waiting_tool ]} engine_TypeError
                          host_unreachable (call "call_1" "wait") no_context child_process
    = (Ok (JsVal.Obj [("status", JsVal.Str ToolExecutionStatus.RUNNING);
                      ("state", JsVal.Str "")]),
       snd (Bridge.handleToolCall true [] {[ "wait" := waiting_tool ]} engine_TypeError
                                  host_unreachable (call "call_1" "wait") no_context
                                  child_process)))
    by (vm_compute; reflexivity).
  destruct (Hclaim unit [] _ _ _ _ _ _ _ _ _ Hcall) as [Hrunning _].
  destruct (Hrunning eq_refl) as [entry [Hentry Hstate]].
  vm_compute in Hentry. injection Hentry as <-. discriminate.
Qed.

(** Two more ways in which an entry outlives a terminal result, which the
    amended claim does not cover: a tool call for a name that is not
    registered returns FAILURE and leaves the entry it has just made; and
    in the child a tool that requires the host is sent to the host, whose
    answer does not touch the entry of the child. *)
Lemma unregistered_tool_keeps_entry :
  let out :=
    Bridge.handleToolCall true [] (∅ : gmap string (Bridge.handler unit)) engine_TypeError
                          host_unreachable (call "call_1" "nope") no_context child_process in
  fst out = Ok (FAILURE_result "Tool nope not found")
  /\ is_Some (Bridge.toolCallStates (snd out) !! "call_1").
Proof. split; [reflexivity |]. vm_compute. eexists. reflexivity. Qed.

Section ToolCalls.
Context {W : Type}.
Variable isContainer : bool.
Variable pluginsRegistry : PluginsRegistry.
Variable dslRegistry : gmap string (Bridge.handler W).
Variable TypeError_message : JsVal.value -> string -> string.
Variable sendToHost : Bridge.tool_call -> Bridge.state W -> throws JsVal.value * Bridge.state W.
Variable session_transition : JsVal.value -> string -> W -> W.

Local Abbreviation handleToolCall :=
  (Bridge.handleToolCall isContainer pluginsRegistry dslRegistry TypeError_message sendToHost).

Lemma get_or_create_at_call (message : Bridge.tool_call) (s : Bridge.state W) :
  Bridge.get_or_create message s = (entry_at_call message s, state_at_call message s).
Proof.
  unfold Bridge.get_or_create, entry_at_call, state_at_call.
  destruct (Bridge.toolCallStates s !! Bridge.m_toolCallId message) as [entry |] eqn:Hentry.
  - unfold entry_at_call. rewrite Hentry, (insert_id _ _ _ Hentry).
    destruct s; reflexivity.
  - unfold entry_at_call. rewrite Hentry. reflexivity.
Qed.

(** What a local execution of a registered tool comes to: the handler is
    run on the context made of the entry, and the bridge completes the
    call. *)
Lemma handleToolCall_local (message : Bridge.tool_call) (ctx : Bridge.context)
      (s : Bridge.state W) (h : Bridge.handler W) :
  isContainer
  && requiresHostExecution (Bridge.findToolDefinition pluginsRegistry
                              (Bridge.m_toolName message)) = false ->
  dslRegistry !! Bridge.m_toolName message = Some h ->
  let entry := entry_at_call message s in
  let context :=
    received message (Bridge.e_state entry) (Bridge.e_externalData entry)
             (Bridge.ctx_procId ctx) in
  handleToolCall message ctx s
  = Bridge.complete_tool_call TypeError_message context
      (h (Bridge.m_args message) context (state_at_call message s)).
Proof.
  intros Hlocal Hh. unfold Bridge.handleToolCall, Bridge.executeToolLocally.
  rewrite get_or_create_at_call.
  unfold Bridge.handler in *. rewrite Hlocal, Hh. reflexivity.
Qed.

(** C5, as amended. A tool call that is executed in the process, for a
    registered tool. The handler receives the state and the external data
    of the entry of the call. When it returns a result of status RUNNING
    and has left the entry in place, the call returns the result and the
    entry stays, with the status RUNNING and with the returned state if
    that state is truthy, otherwise with the state the entry had; the
    next invocation of the same call, whatever external data the entry
    holds by then, runs the handler on exactly the state of the entry and
    on that external data; and an approval response, in the child, puts
    its data in the entry and leaves the state alone. When the handler
    returns anything else, the entry is removed, and the call returns the
    result unless it is [undefined] or [null]. When the handler throws,
    the entry is removed, and the call returns FAILURE with the message
    of the thrown value; it throws a [TypeError] itself when that value
    is [undefined] or [null], or when its message has no text. *)
Theorem tool_call_state_kept (message : Bridge.tool_call) (ctx : Bridge.context)
        (s : Bridge.state W) (h : Bridge.handler W) :
  let id := Bridge.m_toolCallId message in
  let entry0 := entry_at_call message s in
  let o := h (Bridge.m_args message)
             (received message (Bridge.e_state entry0) (Bridge.e_externalData entry0)
                       (Bridge.ctx_procId ctx))
             (state_at_call message s) in
  isContainer
  && requiresHostExecution (Bridge.findToolDefinition pluginsRegistry
                              (Bridge.m_toolName message)) = false ->
  dslRegistry !! Bridge.m_toolName message = Some h ->
  (forall result entry,
      Bridge.o_result o = Bridge.Returned result ->
      JsVal.get_opt result "status" = JsVal.Str "running" ->
      Bridge.toolCallStates (Bridge.o_state o) !! id = Some entry ->
      exists s',
        handleToolCall message ctx s = (Ok result, s')
        /\ Bridge.toolCallStates s' !! id = Some (kept entry result)
        /\ (forall ctx' s2 data,
               Bridge.toolCallStates s2 !! id
               = Some (with_externalData (kept entry result) data) ->
               let next :=
                 received message (Bridge.e_state (kept entry result)) data
                          (Bridge.ctx_procId ctx') in
               handleToolCall message ctx' s2
               = Bridge.complete_tool_call TypeError_message next
                   (h (Bridge.m_args message) next s2))
        /\ (forall choice explanation,
               isContainer = true ->
               Bridge.toolCallStates
                 (Bridge.handleApprovalResponse isContainer session_transition id
                    choice explanation s') !! id
               = Some (with_externalData (kept entry result)
                                         (approval choice explanation))))
  /\ (forall result,
         Bridge.o_result o = Bridge.Returned result ->
         JsVal.get_opt result "status" <> JsVal.Str "running" ->
         exists outcome s',
           handleToolCall message ctx s = (outcome, s')
           /\ Bridge.toolCallStates s' !! id = None
           /\ (result <> JsVal.Undefined -> result <> JsVal.Null -> outcome = Ok result)
           /\ (result = JsVal.Undefined \/ result = JsVal.Null ->
               outcome = Ok (FAILURE_result ("Tool execution error: "
                                             ++ TypeError_message result "status"))))
  /\ (forall e,
         Bridge.o_result o = Bridge.Thrown e ->
         exists outcome s',
           handleToolCall message ctx s = (outcome, s')
           /\ Bridge.toolCallStates s' !! id = None
           /\ (forall text,
                  JsVal.get_opt e "message" = JsVal.Str text ->
                  outcome = Ok (FAILURE_result ("Tool execution error: " ++ text)))
           /\ (e <> JsVal.Undefined -> e <> JsVal.Null ->
               Text.printable (JsVal.get_opt e "message") = true ->
               outcome = Ok (FAILURE_result
                               ("Tool execution error: "
                                ++ Text.of_value (JsVal.get_opt e "message"))))
           /\ (e = JsVal.Undefined \/ e = JsVal.Null ->
               outcome = Throw "TypeError" (TypeError_message e "message"))
           /\ (Text.printable (JsVal.get_opt e "message") = false ->
               exists text, outcome = Throw "TypeError" text)).
Proof.
  intros id entry0 o Hlocal Hh.
  pose proof (handleToolCall_local message ctx s h Hlocal Hh) as Hcall.
  cbn zeta in Hcall. fold entry0 in Hcall. fold o in Hcall.
  assert (Hdeleted : forall s1 : Bridge.state W,
             Bridge.toolCallStates
               (Bridge.delete_entry s1 (Bridge.ctx_toolCallId
                  (received message (Bridge.e_state entry0) (Bridge.e_externalData entry0)
                            (Bridge.ctx_procId ctx)))) !! id = None).
  { intros s1. cbn [received Bridge.ctx_toolCallId Bridge.delete_entry
                      Bridge.with_toolCallStates Bridge.toolCallStates].
    apply lookup_delete_eq. }
  split; [| split].
  - intros result entry Hresult Hrunning Hentry.
    assert (Hobj : exists fields, result = JsVal.Obj fields).
    { destruct result; try discriminate. eauto. }
    destruct Hobj as [fields ->].
    unfold Bridge.complete_tool_call in Hcall. rewrite Hresult, Hrunning in Hcall.
    cbn [JsVal.is_str ToolExecutionStatus.RUNNING] in Hcall.
    rewrite String.eqb_refl in Hcall.
    cbn [received Bridge.ctx_toolCallId] in Hcall. fold id in Hcall. rewrite Hentry in Hcall.
    assert (Hkept : {| Bridge.e_status := ToolExecutionStatus.RUNNING;
                       Bridge.e_state :=
                         JsVal.or (JsVal.get_opt (JsVal.Obj fields) "state")
                                  (Bridge.e_state entry);
                       Bridge.e_context := Bridge.e_context entry;
                       Bridge.e_externalData := Bridge.e_externalData entry |}
                    = kept entry (JsVal.Obj fields)) by reflexivity.
    rewrite Hkept in Hcall.
    eexists. split; [exact Hcall |]. split; [| split].
    + cbn [Bridge.with_toolCallStates Bridge.toolCallStates].
      apply lookup_insert_eq.
    + intros ctx' s2 data Hs2 next.
      rewrite (handleToolCall_local message ctx' s2 h Hlocal Hh). cbn zeta.
      assert (Hentry2 : entry_at_call message s2
                        = with_externalData (kept entry (JsVal.Obj fields)) data).
      { unfold entry_at_call. fold id. now rewrite Hs2. }
      assert (Hstate2 : state_at_call message s2 = s2).
      { unfold state_at_call. rewrite Hentry2. fold id.
        rewrite (insert_id _ _ _ Hs2). destruct s2; reflexivity. }
      rewrite Hentry2, Hstate2. reflexivity.
    + intros choice explanation Hchild.
      unfold Bridge.handleApprovalResponse. rewrite Hchild.
      cbn [negb Bridge.with_toolCallStates Bridge.toolCallStates].
      rewrite lookup_insert_eq. cbn [Bridge.toolCallStates].
      rewrite lookup_insert_eq. reflexivity.
  - intros result Hresult Hother.
    unfold Bridge.complete_tool_call in Hcall. rewrite Hresult in Hcall.
    assert (Hnot : JsVal.is_str (JsVal.get_opt result "status") ToolExecutionStatus.RUNNING
                   = false).
    { destruct (JsVal.get_opt result "status") as [| | | | | status | |] eqn:Hstatus;
        try reflexivity.
      cbn [JsVal.is_str]. destruct (String.eqb_spec status ToolExecutionStatus.RUNNING) as [-> |];
        [| reflexivity].
      exfalso. now apply Hother. }
    destruct result as [| | b | n | big | text | elements | fields];
      try rewrite Hnot in Hcall;
      (eexists; eexists; split; [exact Hcall |]; split; [apply Hdeleted |]; split;
       [intros Hu Hn; try reflexivity; try (now exfalso; apply Hu);
        try (now exfalso; apply Hn)
       | intros [Heq | Heq]; try discriminate Heq; reflexivity]).
  - intros e Hthrown.
    unfold Bridge.complete_tool_call in Hcall. rewrite Hthrown in Hcall.
    unfold Text.template in Hcall.
    destruct (Text.printable (JsVal.get_opt e "message")) eqn:Hprintable;
      destruct e as [| | b | n | big | text | elements | fields];
      try discriminate Hprintable;
      (eexists; eexists; split; [exact Hcall |]; split; [apply Hdeleted |];
       split; [intros text' Hmessage; cbn [JsVal.get_opt] in Hmessage, Hprintable |- *;
               try discriminate Hmessage; rewrite Hmessage in *;
               try discriminate Hprintable; reflexivity |];
       split; [intros Hu Hn Hp; try discriminate Hp; try reflexivity;
               try (now exfalso; apply Hu); try (now exfalso; apply Hn) |];
       split; [intros [Heq | Heq]; try discriminate Heq; reflexivity |];
       intros Hp; try discriminate Hp; eauto).
Qed.

End ToolCalls.

(** The tool [ask] in the child: the first call returns RUNNING and the
    entry keeps the phase; called again, the tool receives that state,
    with no external data when none was put there, and with the approval
    when the response of the human arrived in between. *)
Lemma tool_call_state_kept_witness :
  let registry : gmap string (Bridge.handler unit) := {[ "ask" := resuming_tool ]} in
  let handleToolCall :=
    Bridge.handleToolCall true [] registry engine_TypeError host_unreachable in
  let waiting := JsVal.Obj [("phase", JsVal.Str "awaiting_approval")] in
  let result := JsVal.Obj [("status", JsVal.Str "running"); ("state", waiting)] in
  let entry :=
    {| Bridge.e_status := "running"; Bridge.e_state := waiting;
       Bridge.e_context := {| Bridge.tcc_sessionId := JsVal.Str "1";
                              Bridge.tcc_toolCallId := "call_1" |};
       Bridge.e_externalData := JsVal.Undefined |} in
  let answer := approval (JsVal.Str "APPROVE") JsVal.Undefined in
  exists s',
    handleToolCall (call "call_1" "ask") no_context child_process = (Ok result, s')
    /\ Bridge.toolCallStates s' !! "call_1" = Some entry
    /\ fst (handleToolCall (call "call_1" "ask") no_context s')
       = Ok (JsVal.Obj [("status", JsVal.Str "success");
                        ("result", JsVal.Arr [waiting; JsVal.Undefined])])
    /\ Bridge.toolCallStates (snd (handleToolCall (call "call_1" "ask") no_context s'))
         !! "call_1" = None
    /\ fst (handleToolCall (call "call_1" "ask") no_context
              (Bridge.handleApprovalResponse true (fun _ _ w => w) "call_1"
                 (JsVal.Str "APPROVE") JsVal.Undefined s'))
       = Ok (JsVal.Obj [("status", JsVal.Str "success");
                        ("result", JsVal.Arr [waiting; answer])]).
Proof.
  intros registry handleToolCall waiting result entry answer.
  assert (Hh : registry !! Bridge.m_toolName (call "call_1" "ask") = Some resuming_tool)
    by (vm_compute; reflexivity).
  destruct (tool_call_state_kept true [] registry engine_TypeError host_unreachable
              (fun _ _ w => w) (call "call_1" "ask") no_context child_process
              resuming_tool eq_refl Hh) as [Hrunning _].
  destruct (Hrunning result created_entry eq_refl eq_refl ltac:(vm_compute; reflexivity))
    as [s' [Hcall [Hentry [Hnext Hanswer]]]].
  exists s'. split; [exact Hcall |]. split; [exact Hentry |].
  assert (Hplain := Hnext no_context s' JsVal.Undefined Hentry).
  assert (Hanswered :=
            Hnext no_context _ answer (Hanswer (JsVal.Str "APPROVE") JsVal.Undefined eq_refl)).
  cbn zeta in Hplain, Hanswered.
  change (Bridge.m_toolCallId (call "call_1" "ask")) with "call_1" in *.
  subst handleToolCall. cbn beta.
  rewrite Hplain, Hanswered. split; [reflexivity |]. split; [| reflexivity].
  apply lookup_delete_eq.
Defined.

Lemma forwarded_tool_keeps_entry :
  let out :=
    Bridge.handleToolCall true [("fs", {| definition := Some [host_tool] |})]
                          (∅ : gmap string (Bridge.handler unit)) engine_TypeError host_answers
                          (call "call_1" "fs__directory__list") no_context child_process in
  fst out = Ok (JsVal.Obj [("status", JsVal.Str ToolExecutionStatus.SUCCESS);
                           ("result", JsVal.Str "listing")])
  /\ Bridge.toolCallStates (snd out) !! "call_1" = Some created_entry.
Proof. split; vm_compute; reflexivity. Qed.

(** ** The shell tool under the unattended policy *)

Section Unattended.
Context {S : Type}.
Variable RegExp : string -> string -> option (string -> bool).
Variable loadAllowlist : Allowlist.t.
Variable sessionAllowlist : option Allowlist.t.
Variable executeCommand : JsVal.value -> S -> JsVal.value * S.
Variable approvals : S -> list Shell.Approval.
Variable route : Shell.approval_request -> Bridge.context -> S -> throws JsVal.value * S.

Lemma allowedCommands_true_keys (allowlist : Allowlist.t) :
  Shell.allowedCommands allowlist = true_keys allowlist.
Proof.
  unfold Shell.allowedCommands.
  induction allowlist as [| [key value] rest IH]; [reflexivity |].
  cbn [List.filter map true_keys snd fst].
  destruct value as [[|] | | approve matchCommandLine |]; cbn [map fst]; now rewrite IH.
Qed.


End Unattended.


(** ** Command resolution *)

(** The claim C7 as stated fails: with [shell__exec] and [shell__exec__foo]
    both registered, [shell exec foo] resolves to [shell__exec] with the
    argument [foo], the first hit, and not to the longest name. *)
Lemma resolution_counterexample : ~ resolution_as_stated.
Proof.
  intros Hclaim.
  destruct (Hclaim unit [] {[ "shell__exec" := tt; "shell__exec__foo" := tt ]}
                   "shell" ["exec"; "foo"]) as [_ Hlongest].
  destruct (Hlongest ltac:(intros tool r []) ltac:(vm_compute; reflexivity) 2) as [Hcmd _].
  - split; [simpl; lia |]. split; [vm_compute; reflexivity |].
    intros j Hj. simpl in Hj. lia.
  - vm_compute in Hcmd. discriminate.
Qed.

Section Resolution.
Context {H : Type}.
Variable pluginsRegistry : PluginsRegistry.
Variable dslRegistry : gmap string H.

Local Abbreviation has := (registered_in dslRegistry).

Lemma first_alias_app (l1 l2 : list Tool) (allParts : list string) :
  Bridge.first_alias (l1 ++ l2) allParts
  = match Bridge.first_alias l1 allParts with
    | Some r => Some r
    | None => Bridge.first_alias l2 allParts
    end.
Proof.
  induction l1 as [| tool l1 IH]; [reflexivity |].
  cbn [Bridge.first_alias app].
  destruct (tool_metadata tool) as [m |]; [| exact IH].
  destruct (tm_alias m) as [alias |]; [| exact IH].
  destruct (alias allParts) as [r |]; [| exact IH].
  destruct (Js.nonempty (al_name r)); [reflexivity | exact IH].
Qed.

Lemma nonempty_spec (s : string) : Js.nonempty s = true <-> s <> "".
Proof. destruct s; cbn; split; congruence. Qed.

(** The loop over the tools finds the first alias match, and finds none
    exactly when there is none. *)
Lemma first_alias_none (tools : list Tool) (argv : list string) :
  Bridge.first_alias tools argv = None <-> no_alias_match tools argv.
Proof.
  unfold no_alias_match. induction tools as [| tool tools IH].
  - split; [intros _ tool r [] | reflexivity].
  - cbn [Bridge.first_alias]. split.
    + intros Hnone t r [<- | Hin] [m [alias [Hm [Ha [Hr Hname]]]]].
      * rewrite Hm, Ha, Hr in Hnone. apply nonempty_spec in Hname.
        rewrite Hname in Hnone. discriminate.
      * assert (Hrest : Bridge.first_alias tools argv = None).
        { destruct (tool_metadata tool) as [m' |]; [| exact Hnone].
          destruct (tm_alias m') as [alias' |]; [| exact Hnone].
          destruct (alias' argv) as [r' |]; [| exact Hnone].
          destruct (Js.nonempty (al_name r')); [discriminate | exact Hnone]. }
        apply (proj1 IH Hrest t r Hin). now exists m, alias.
    + intros Hno.
      assert (Hrest : Bridge.first_alias tools argv = None).
      { apply IH. intros t r Hin. apply Hno. now right. }
      destruct (tool_metadata tool) as [m |] eqn:Hm; [| exact Hrest].
      destruct (tm_alias m) as [alias |] eqn:Ha; [| exact Hrest].
      destruct (alias argv) as [r |] eqn:Hr; [| exact Hrest].
      destruct (Js.nonempty (al_name r)) eqn:Hname; [| exact Hrest].
      exfalso. apply (Hno tool r (or_introl eq_refl)).
      exists m, alias. repeat split; try assumption. now apply nonempty_spec.
Qed.

Lemma first_alias_found (tools : list Tool) (argv : list string) (result : AliasResult) :
  first_alias_match tools argv result -> Bridge.first_alias tools argv = Some result.
Proof.
  intros [before [tool [after [-> [[m [alias [Hm [Ha [Hr Hname]]]]] Hearlier]]]]].
  rewrite first_alias_app.
  rewrite (proj2 (first_alias_none before argv)) by exact Hearlier.
  cbn [Bridge.first_alias]. rewrite Hm, Ha, Hr.
  apply nonempty_spec in Hname. now rewrite Hname.
Qed.

Lemma alias_loop_scanned (plugins : PluginsRegistry) (allParts : list string)
      (cmd : string) (args : CmdArgs) :
  Bridge.alias_loop plugins has allParts cmd args
  = match Bridge.first_alias (scanned_tools plugins (has cmd)) allParts with
    | Some r => (al_name r, al_args r)
    | None => (cmd, args)
    end.
Proof.
  induction plugins as [| [name plugin] rest IH]; [reflexivity |].
  cbn [Bridge.alias_loop scanned_tools].
  destruct (definition plugin) as [def |]; [| exact IH].
 
  destruct (has cmd) eqn:Hreg.
  - destruct (Bridge.first_alias def allParts); reflexivity.
  - rewrite first_alias_app.
    destruct (Bridge.first_alias def allParts); [reflexivity | exact IH].
Qed.

Lemma underscore_loop_first (args : list string) :
  forall cmd k,
    is_first_concatenation has cmd args k ->
    Bridge.underscore_loop has cmd args
    = Some (Stated.glue cmd (firstn k args), skipn k args).
Proof.
  induction args as [| t rest IH]; intros cmd k [[Hk1 Hk2] [Hreg Hfirst]].
  - simpl in Hk2. lia.
  - cbn [Bridge.underscore_loop].
    destruct k as [| k]; [lia |].
    destruct k as [| k].
    + change (has (cmd ++ "__" ++ t) = true) in Hreg. rewrite Hreg. reflexivity.
    + assert (Hone : has (cmd ++ "__" ++ t) = false)
        by (apply (Hfirst 1%nat); lia).
      rewrite Hone. rewrite (IH (cmd ++ "__" ++ t) (S k)); [reflexivity |].
      split; [simpl in Hk2; lia |]. split; [exact Hreg |].
      intros j Hj. apply (Hfirst (S j)). lia.
Qed.

Lemma underscore_loop_none (args : list string) :
  forall cmd,
    (forall j, (1 <= j <= length args)%nat ->
               has (Stated.glue cmd (firstn j args)) = false) ->
    Bridge.underscore_loop has cmd args = None.
Proof.
  induction args as [| t rest IH]; intros cmd Hnone; [reflexivity |].
  cbn [Bridge.underscore_loop].
  assert (Hone : has (cmd ++ "__" ++ t) = false)
    by (apply (Hnone 1%nat); simpl; lia).
  rewrite Hone. apply IH. intros j Hj. apply (Hnone (S j)). simpl. lia.
Qed.

(** C7, as amended. Resolution is a function of the argv and the catalog.
    It takes the first alias match in registration order among the tools
    it scans, every tool when the first token is not a registered name and
    the tools of the first plugin alone when it is, and keeps the name and
    the arguments of that alias, which hold no BigInt, when the name is
    registered. When no
    alias matched and the first token is not a registered name, it
    resolves to the first [__]-concatenation of the first token and one or
    more further tokens that is registered, the shortest one, with the
    remaining tokens as arguments; and when there is none, the command is
    the first token and is reported as not found. *)
Theorem resolveParsed_first_hit (cmd : string) (args : list string) :
  let r := Bridge.resolveParsed pluginsRegistry dslRegistry cmd args in
  let scanned := scanned_tools pluginsRegistry (has cmd) in
  (forall result,
      first_alias_match scanned (cmd :: args) result ->
      JsVal.holds_BigInt (args_value (al_args result)) = false ->
      has (al_name result) = true ->
      Bridge.r_cmd r = al_name result /\ Bridge.r_args r = al_args result
      /\ Bridge.r_error r = None)
  /\ (no_alias_match scanned (cmd :: args) ->
      has cmd = false ->
      (forall k, is_first_concatenation has cmd args k ->
                 Bridge.r_cmd r = Stated.glue cmd (firstn k args)
                 /\ Bridge.r_args r = ArgsArray (skipn k args)
                 /\ Bridge.r_error r = None)
      /\ ((forall j, (1 <= j <= length args)%nat ->
                     has (Stated.glue cmd (firstn j args)) = false) ->
          Bridge.r_cmd r = cmd /\ Bridge.r_args r = ArgsArray args
          /\ Bridge.r_error r = Some ("Command not found: " ++ cmd))).
Proof.
  intros r scanned. subst r. unfold Bridge.resolveParsed.
  change (Bridge.has dslRegistry) with (registered_in dslRegistry).
  rewrite alias_loop_scanned. fold scanned.
  assert (Herr : forall c, has c = true ->
            match dslRegistry !! c with
            | Some _ => None
            | None => Some ("Command not found: " ++ c)
            end = None).
  { intros c Hc. unfold registered_in in Hc. apply bool_decide_eq_true in Hc as [h Hc].
    now rewrite Hc. }
  assert (Hnot : forall c, has c = false ->
            match dslRegistry !! c with
            | Some _ => None
            | None => Some ("Command not found: " ++ c)
            end = Some ("Command not found: " ++ c)).
  { intros c Hc. unfold registered_in in Hc. apply bool_decide_eq_false in Hc.
    destruct (dslRegistry !! c) eqn:Hl; [| reflexivity].
    exfalso. apply Hc. eauto. }
  split.
  - intros result Halias _ Hreg. rewrite (first_alias_found _ _ _ Halias).
    destruct (al_args result) as [tokens | v] eqn:Hargs.
    + rewrite Hreg.
      cbn [negb andb Bridge.r_cmd Bridge.r_args Bridge.r_error].
      rewrite Herr by exact Hreg. repeat split; reflexivity.
    + cbn [Bridge.r_cmd Bridge.r_args Bridge.r_error].
      rewrite Herr by exact Hreg. repeat split; reflexivity.
  - intros Hnone Hcmd. rewrite (proj2 (first_alias_none _ _) Hnone).
    rewrite Hcmd. cbn [negb andb]. split.
    + intros k Hk. pose proof Hk as [[Hk1 Hk2] [Hreg _]].
      destruct args as [| t rest]; [simpl in Hk2; lia |].
      cbn [length Nat.ltb Nat.leb]. rewrite (underscore_loop_first _ _ _ Hk).
      cbn [Bridge.r_cmd Bridge.r_args Bridge.r_error].
      rewrite Herr by exact Hreg. tauto.
    + intros Hno. destruct args as [| t rest].
      * cbn [length Nat.ltb Nat.leb Bridge.r_cmd Bridge.r_args Bridge.r_error].
        rewrite Hnot by exact Hcmd. tauto.
      * cbn [length Nat.ltb Nat.leb]. rewrite (underscore_loop_none _ _ Hno).
        cbn [Bridge.r_cmd Bridge.r_args Bridge.r_error].
        rewrite Hnot by exact Hcmd. tauto.
Qed.

End Resolution.

(** A registered first token ends the search for an alias after the first
    plugin: the alias of a later plugin, the first match among all the
    tools, is not found. *)
Lemma registered_token_hides_later_alias :
  let plugins := [("core", {| definition := Some [] |});
                  ("agent", {| definition := Some [later_alias] |})] in
  let registry : gmap string unit := {[ "ls" := tt; "session__list" := tt ]} in
  first_alias_match (all_tools plugins) ["ls"]
    {| al_name := "session__list"; al_args := ArgsOther (JsVal.Obj []) |}
  /\ Bridge.r_cmd (Bridge.resolveParsed plugins registry "ls" []) = "ls".
Proof.
  split; [| vm_compute; reflexivity].
  exists [], later_alias, []. split; [reflexivity |]. split.
  - eexists _, _. repeat split; try reflexivity. discriminate.
  - intros earlier r [].
Qed.

(** The catalog of the shell plugin and the line [pty list]: the aliases
    of the five tools before [shell__pty__list] do not match, the alias
    of that tool does, and its name is registered. *)
Lemma resolveParsed_first_hit_witness :
  let r := Bridge.resolveParsed [("shell", shell_plugin)] shell_handlers "pty" ["list"] in
  first_alias_match (scanned_tools [("shell", shell_plugin)]
                                   (registered_in shell_handlers "pty"))
                    ["pty"; "list"]
                    {| al_name := "shell__pty__list"; al_args := ArgsOther (JsVal.Obj []) |}
  /\ Bridge.r_cmd r = "shell__pty__list"
  /\ Bridge.r_args r = ArgsOther (JsVal.Obj [])
  /\ Bridge.r_error r = None.
Proof.
  intros r.
  assert (Hmatch :
    first_alias_match (scanned_tools [("shell", shell_plugin)]
                                     (registered_in shell_handlers "pty"))
                      ["pty"; "list"]
                      {| al_name := "shell__pty__list";
                         al_args := ArgsOther (JsVal.Obj []) |}).
  { exists (firstn 5 ShellPlugin.definition), (nth 5 ShellPlugin.definition later_alias),
      (skipn 6 ShellPlugin.definition).
    split; [reflexivity |]. split.
    - eexists _, _. split; [reflexivity |]. split; [reflexivity |].
      split; [reflexivity | discriminate].
    - intros earlier result Hin [metadata [alias [Hmetadata [Halias [Hresult _]]]]].
      cbn [firstn ShellPlugin.definition In] in Hin.
      repeat (destruct Hin as [<- | Hin];
              [cbn in Hmetadata; injection Hmetadata as <-;
               cbn in Halias; injection Halias as <-;
               vm_compute in Hresult; discriminate |]).
      destruct Hin. }
  split; [exact Hmatch |].
  exact (proj1 (resolveParsed_first_hit [("shell", shell_plugin)] shell_handlers
                  "pty" ["list"]) _ Hmatch eq_refl ltac:(vm_compute; reflexivity)).
Defined.

(** ** Deleting and saving records *)

(** The claim C8 fails of the code: a collection that has not read
    [a.yml] yet answers [false] to [delete("a")], and changes nothing. *)
Lemma delete_counterexample : ~ delete_as_stated.
Proof.
  intros Hclaim.
  pose proof (Hclaim JsVal.value _ YamlCollection.new one_record "a" 0%Z) as Hdel.
  assert (Hfile : YamlCollection.exists_file one_record ("a" ++ ".yml") = true)
    by (vm_compute; reflexivity).
  specialize (Hdel Hfile).
  assert (Hret : YamlCollection.delete (V := JsVal.value) YamlCollection.new "a"
                 = (YamlCollection.new, false))
    by (vm_compute; reflexivity).
  rewrite Hret in Hdel. destruct Hdel as [Hdel _]. discriminate.
Qed.

Section StoreWriting.
Context {V : Type} `{Truthy V}.
Implicit Types (c : YamlCollection.collection V) (d : YamlCollection.disk V).
Implicit Types (s : YamlCollection.saving V).

Lemma getFilePath_other c (ids : list string) (path id' : string) :
  other_paths c ids path -> In id' ids -> YamlCollection._getFilePath c id' <> path.
Proof.
  intros Hother Hin. destruct (Hother id' Hin) as [Hdefault Hcached].
  unfold YamlCollection._getFilePath.
  destruct (YamlCollection.filePaths c !! id') as [p |] eqn:Hp; [now apply Hcached | exact Hdefault].
Qed.

Lemma unlinkSync_unlocked d (name : string) :
  YamlCollection.locked d = ∅ ->
  YamlCollection.unlinkSync d name
  = Ok {| YamlCollection.files := base.delete name (YamlCollection.files d);
          YamlCollection.locked := YamlCollection.locked d |}.
Proof.
  intros Hfree. unfold YamlCollection.unlinkSync. rewrite Hfree.
  rewrite bool_decide_eq_false_2 by set_solver. reflexivity.
Qed.

Lemma writeYaml_unlocked d (now : Z) (name : string) (data : V) :
  YamlCollection.locked d = ∅ ->
  YamlCollection.writeYaml d now name data
  = Ok {| YamlCollection.files :=
            <[name := {| YamlCollection.content := Some data;
                         YamlCollection.mtimeMs := now |}]> (YamlCollection.files d);
          YamlCollection.locked := YamlCollection.locked d |}.
Proof.
  intros Hfree. unfold YamlCollection.writeYaml. rewrite Hfree.
  rewrite bool_decide_eq_false_2 by set_solver. reflexivity.
Qed.

(** The first loop of [save] returns when no file is locked; it only
    removes files and cached paths, and leaves no file at the path of a
    deleted id. *)
Lemma save_deleted_returns (ids : list string) :
  forall s,
    YamlCollection.locked (YamlCollection.sv_disk s) = ∅ ->
    exists s',
      YamlCollection.save_deleted ids s = (Ok s', s')
      /\ YamlCollection.locked (YamlCollection.sv_disk s') = ∅
      /\ YamlCollection.dirty (YamlCollection.sv_col s')
         = YamlCollection.dirty (YamlCollection.sv_col s)
      /\ YamlCollection.items (YamlCollection.sv_col s')
         = YamlCollection.items (YamlCollection.sv_col s)
      /\ (forall k p, YamlCollection.filePaths (YamlCollection.sv_col s') !! k = Some p ->
                      YamlCollection.filePaths (YamlCollection.sv_col s) !! k = Some p)
      /\ (forall name, YamlCollection.files (YamlCollection.sv_disk s) !! name = None ->
                       YamlCollection.files (YamlCollection.sv_disk s') !! name = None)
      /\ (forall id, In id ids ->
                     YamlCollection.files (YamlCollection.sv_disk s')
                       !! YamlCollection._getFilePath (YamlCollection.sv_col s) id = None).
Proof.
  induction ids as [| id0 rest IH]; intros s Hfree.
  - exists s. cbn [YamlCollection.save_deleted]. repeat split; auto.
    intros id [].
  - cbn [YamlCollection.save_deleted].
    set (c := YamlCollection.sv_col s).
    set (filePath := YamlCollection._getFilePath c id0).
    assert (Hstep : exists d1 ops1,
               (if YamlCollection.exists_file (YamlCollection.sv_disk s) filePath
                then match YamlCollection.unlinkSync (YamlCollection.sv_disk s) filePath with
                     | Ok d' => Ok (d', (YamlCollection.sv_ops s ++ [YamlCollection.Unlink filePath])%list)
                     | Throw n m => Throw n m
                     end
                else Ok (YamlCollection.sv_disk s, YamlCollection.sv_ops s)) = Ok (d1, ops1)
               /\ YamlCollection.locked d1 = ∅
               /\ YamlCollection.files d1 !! filePath = None
               /\ (forall name, YamlCollection.files (YamlCollection.sv_disk s) !! name = None ->
                                YamlCollection.files d1 !! name = None)).
    { unfold YamlCollection.exists_file. case_bool_decide as Hex.
      - rewrite (unlinkSync_unlocked _ _ Hfree). eexists _, _. split; [reflexivity |].
        cbn [YamlCollection.files YamlCollection.locked].
        split; [exact Hfree |]. split; [apply lookup_delete_eq |].
        intros name Hname. rewrite lookup_delete. case_decide; [reflexivity | exact Hname].
      - eexists _, _. split; [reflexivity |]. split; [exact Hfree |].
        split; [now apply eq_None_not_Some | auto]. }
    destruct Hstep as [d1 [ops1 [Hstep [Hfree1 [Hgone Hkeep]]]]]. rewrite Hstep.
    set (s1 := {| YamlCollection.sv_col := _; YamlCollection.sv_disk := d1;
                  YamlCollection.sv_ops := ops1 |}).
    destruct (IH s1 Hfree1) as [s' [Hrun [Hfree' [Hdirty [Hitems [Hpaths [Hkeep' Hids]]]]]]].
    exists s'. split; [exact Hrun |]. split; [exact Hfree' |].
    split; [exact Hdirty |]. split; [exact Hitems |]. split; [| split].
    + intros k p Hk. apply Hpaths in Hk. cbn in Hk.
      rewrite lookup_delete in Hk. case_decide; [discriminate | exact Hk].
    + intros name Hname. apply Hkeep'. cbn. now apply Hkeep.
    + intros id Hin. destruct (decide (id = id0)) as [-> | Hne].
      * apply Hkeep'. exact Hgone.
      * destruct Hin as [Heq | Hin]; [congruence |].
        specialize (Hids id Hin). unfold YamlCollection._getFilePath in Hids |- *.
        cbn in Hids. rewrite lookup_delete_ne in Hids by congruence. exact Hids.
Qed.

(** The second loop of [save] returns when no file is locked, and writes
    at the paths of the dirty records only. *)
Lemma save_dirty_returns (now : Z) (ids : list string) :
  forall s,
    YamlCollection.locked (YamlCollection.sv_disk s) = ∅ ->
    exists s',
      YamlCollection.save_dirty now ids s = (Ok s', s')
      /\ forall path,
          other_paths (YamlCollection.sv_col s) ids path ->
          YamlCollection.files (YamlCollection.sv_disk s) !! path = None ->
          YamlCollection.files (YamlCollection.sv_disk s') !! path = None.
Proof.
  induction ids as [| id0 rest IH]; intros s Hfree.
  - exists s. split; [reflexivity | auto].
  - cbn [YamlCollection.save_dirty].
    assert (Hrest : forall path,
               other_paths (YamlCollection.sv_col s) (id0 :: rest) path ->
               other_paths (YamlCollection.sv_col s) rest path).
    { intros path Hother id' Hin. apply Hother. now right. }
    destruct (YamlCollection.items (YamlCollection.sv_col s) !! id0) as [data |].
    2:{ destruct (IH s Hfree) as [s' [Hrun Hpath]]. exists s'. split; [exact Hrun |].
        intros path Hother. apply Hpath. now apply Hrest. }
    destruct (truthy data).
    2:{ destruct (IH s Hfree) as [s' [Hrun Hpath]]. exists s'. split; [exact Hrun |].
        intros path Hother. apply Hpath. now apply Hrest. }
    rewrite (writeYaml_unlocked _ _ _ _ Hfree).
    set (filePath := YamlCollection._getFilePath (YamlCollection.sv_col s) id0).
    set (s1 := {| YamlCollection.sv_col := _; YamlCollection.sv_disk := _;
                  YamlCollection.sv_ops := _ |}).
    destruct (IH s1 Hfree) as [s' [Hrun Hpath]]. exists s'. split; [exact Hrun |].
    intros path Hother Hnone.
    assert (Hwritten : filePath <> path)
      by (apply (getFilePath_other _ (id0 :: rest)); [exact Hother | now left]).
    apply Hpath.
    + intros id' Hin. destruct (Hother id' (or_intror Hin)) as [Hdefault Hcached].
      split; [exact Hdefault |]. intros p Hp. cbn in Hp.
      rewrite lookup_insert in Hp. case_decide.
      * injection Hp as <-. exact Hwritten.
      * now apply Hcached.
    + cbn. rewrite lookup_insert_ne by exact Hwritten. exact Hnone.
Qed.

(** [save] returns when no file is locked. *)
Lemma save_returns c d (now : Z) :
  YamlCollection.locked d = ∅ -> fst (YamlCollection.save c d now) = Ok tt.
Proof.
  intros Hfree. unfold YamlCollection.save.
  destruct (YamlCollection.hasChanges c); cbn [negb]; [| reflexivity].
  destruct (save_deleted_returns (YamlCollection.deleted c)
              {| YamlCollection.sv_col := c; YamlCollection.sv_disk := d;
                 YamlCollection.sv_ops := [] |} Hfree)
    as [s1 [Hrun1 [Hfree1 _]]].
  rewrite Hrun1.
  destruct (save_dirty_returns now
              (YamlCollection.dirty (YamlCollection.with_deleted (YamlCollection.sv_col s1) []))
              {| YamlCollection.sv_col := YamlCollection.with_deleted (YamlCollection.sv_col s1) [];
                 YamlCollection.sv_disk := YamlCollection.sv_disk s1;
                 YamlCollection.sv_ops := YamlCollection.sv_ops s1 |} Hfree1)
    as [s3 [Hrun3 _]].
  cbn [YamlCollection.sv_col] in *. rewrite Hrun3. reflexivity.
Qed.

Lemma set_add_In (x : string) (l : list string) : In x (YamlCollection.set_add x l).
Proof.
  unfold YamlCollection.set_add. destruct (Js.includes l x) eqn:Hin.
  - now apply includes_In.
  - apply in_or_app. right. now left.
Qed.

Lemma set_delete_In (x y : string) (l : list string) :
  In y (YamlCollection.set_delete x l) -> In y l /\ y <> x.
Proof.
  unfold YamlCollection.set_delete. intros Hin. apply filter_In in Hin as [Hin Hne].
  split; [exact Hin |]. intros ->. now rewrite String.eqb_refl in Hne.
Qed.

(** Where [delete] does what is expected of it. For every id the
    collection holds a record or a cached path of, [delete(id)] returns
    true and removes the record from the in-memory view at once; and the
    next [save()], when no file is locked, returns and leaves no file at
    the path of the record, its cached path or else [<id>.yml], provided
    no other record that waits to be written has that path. *)
Theorem delete_cached c d (id : string) (now : Z) :
  let path := YamlCollection._getFilePath c id in
  is_Some (YamlCollection.items c !! id) \/ is_Some (YamlCollection.filePaths c !! id) ->
  YamlCollection.locked d = ∅ ->
  (forall id', In id' (YamlCollection.dirty c) -> id' <> id ->
               id' ++ ".yml" <> path
               /\ forall p, YamlCollection.filePaths c !! id' = Some p -> p <> path) ->
  exists c',
    YamlCollection.delete c id = (c', true)
    /\ YamlCollection.items c' !! id = None
    /\ exists s,
        YamlCollection.save c' d now = (Ok tt, s)
        /\ YamlCollection.files (YamlCollection.sv_disk s) !! path = None.
Proof.
  intros path Hheld Hfree Hothers. unfold YamlCollection.delete.
  assert (Hguard : bool_decide (is_Some (YamlCollection.items c !! id))
                   || bool_decide (is_Some (YamlCollection.filePaths c !! id)) = true).
  { apply orb_true_iff. destruct Hheld as [Hitem | Hpath];
      [left | right]; now apply bool_decide_eq_true. }
  rewrite Hguard. eexists. split; [reflexivity |].
  split; [cbn; apply lookup_delete_eq |].
  set (c' := {| YamlCollection.items := _ |}).
  unfold YamlCollection.save. cbn [YamlCollection.hasChanges c' negb].
  destruct (save_deleted_returns (YamlCollection.deleted c')
              {| YamlCollection.sv_col := c'; YamlCollection.sv_disk := d;
                 YamlCollection.sv_ops := [] |} Hfree)
    as [s1 [Hrun1 [Hfree1 [Hdirty [_ [Hpaths [_ Hgone]]]]]]].
  rewrite Hrun1.
  destruct (save_dirty_returns now
              (YamlCollection.dirty (YamlCollection.with_deleted (YamlCollection.sv_col s1) []))
              {| YamlCollection.sv_col := YamlCollection.with_deleted (YamlCollection.sv_col s1) [];
                 YamlCollection.sv_disk := YamlCollection.sv_disk s1;
                 YamlCollection.sv_ops := YamlCollection.sv_ops s1 |} Hfree1)
    as [s3 [Hrun3 Hkept]].
  cbn [YamlCollection.sv_col] in Hrun3 |- *. rewrite Hrun3.
  eexists. split; [reflexivity |]. cbn [YamlCollection.sv_disk].
  apply Hkept.
  - intros id' Hin. cbn in Hin. rewrite Hdirty in Hin. cbn in Hin.
    apply set_delete_In in Hin as [Hin Hne].
    destruct (Hothers id' Hin Hne) as [Hdefault Hcached].
    split; [exact Hdefault |]. intros p Hp. cbn in Hp. apply Hpaths in Hp.
    now apply Hcached.
  - cbn [YamlCollection.sv_disk]. apply (Hgone id). cbn. apply set_add_In.
Qed.

(** Reading a readable record caches its path, so that it can be deleted. *)
Lemma get_then_delete c d (id : string) (f : YamlCollection.file V) (v : V) :
  YamlCollection.filePaths c !! id = None ->
  YamlCollection.files d !! (id ++ ".yml") = Some f ->
  YamlCollection.content f = Some v ->
  snd (YamlCollection.delete (fst (YamlCollection.get c d id)) id) = true.
Proof.
  intros Hfresh Hfile Hcontent. unfold YamlCollection.get. rewrite Hfresh.
  unfold YamlCollection.exists_file. rewrite Hfile.
  rewrite bool_decide_eq_true_2 by eauto. cbn [fst].
  unfold YamlCollection.delete.
  destruct (loadFile_cases c d id (id ++ ".yml")) as [Hsame | Hcached].
  - exfalso. unfold YamlCollection._loadFile in Hsame. rewrite Hfile, Hcontent in Hsame.
    destruct (YamlCollection.mtimeMs f >? _)%Z;
      apply (f_equal (fun x => YamlCollection.filePaths x !! id)) in Hsame;
      cbn in Hsame; rewrite lookup_insert_eq in Hsame; congruence.
  - rewrite Hcached. rewrite (bool_decide_eq_true_2 (is_Some (Some _))) by eauto.
    rewrite orb_true_r. reflexivity.
Qed.

Lemma loadFile_hasChanges c d (id name : string) :
  YamlCollection.hasChanges (YamlCollection._loadFile c d id name)
  = YamlCollection.hasChanges c.
Proof.
  unfold YamlCollection._loadFile.
  destruct (YamlCollection.files d !! name) as [f |]; [| reflexivity].
  destruct (YamlCollection.mtimeMs f >? _)%Z; [| reflexivity].
  destruct (YamlCollection.content f); reflexivity.
Qed.

Lemma get_hasChanges c d (id : string) :
  YamlCollection.hasChanges (fst (YamlCollection.get c d id))
  = YamlCollection.hasChanges c.
Proof.
  unfold YamlCollection.get.
  repeat match goal with
         | |- context [match ?x with _ => _ end] => destruct x
         end; cbn [fst]; try apply loadFile_hasChanges; reflexivity.
Qed.

Lemma getAll_hasChanges c d :
  YamlCollection.hasChanges (fst (YamlCollection.getAll c d))
  = YamlCollection.hasChanges c.
Proof.
  unfold YamlCollection.getAll.
  match goal with |- context [fold_left ?F _ _] => set (step := F) end.
  assert (Hstep : forall acc results f,
             YamlCollection.hasChanges (fst (step (acc, results) f))
             = YamlCollection.hasChanges acc).
  { intros acc results f. unfold step.
    destruct (YamlCollection.items _ !! _); cbn [fst]; apply loadFile_hasChanges. }
  generalize (@nil V) as results. revert c.
  induction (YamlCollection._scanFiles d) as [| f rest IH]; intros c results;
    [reflexivity |].
  cbn [fold_left].
  destruct (step (c, results) f) as [acc' results'] eqn:Hs. rewrite IH.
  pose proof (Hstep c results f) as Hc. rewrite Hs in Hc. exact Hc.
Qed.

Lemma loadAll_hasChanges c d :
  YamlCollection.hasChanges (YamlCollection.loadAll c d) = false.
Proof.
  unfold YamlCollection.loadAll.
  set (c0 := {| YamlCollection.items := _ |}).
  assert (Hloaded : forall l acc,
             YamlCollection.hasChanges
               (fold_left (fun acc f => YamlCollection._loadFile acc d (YamlCollection.id_of_file f) f)
                          l acc)
             = YamlCollection.hasChanges acc).
  { induction l as [| f l IH]; intros acc; [reflexivity |].
    cbn [fold_left]. rewrite IH. apply loadFile_hasChanges. }
  assert (Hforgot : forall current l acc,
             YamlCollection.hasChanges
               (fold_left (fun (acc : YamlCollection.collection V) id =>
                             if Js.includes current id then acc
                             else YamlCollection.forget acc id) l acc)
             = YamlCollection.hasChanges acc).
  { intros current. induction l as [| id l IH]; intros acc; [reflexivity |].
    cbn [fold_left]. rewrite IH. destruct (Js.includes current id); reflexivity. }
  rewrite Hforgot, Hloaded. reflexivity.
Qed.

Lemma read_hasChanges c (step : read_op * YamlCollection.disk V) :
  YamlCollection.hasChanges c = false ->
  YamlCollection.hasChanges (read c step) = false.
Proof.
  intros Hclean. unfold read. destruct (fst step).
  - now rewrite get_hasChanges.
  - now rewrite getAll_hasChanges.
  - apply loadAll_hasChanges.
  - exact Hclean.
Qed.

Lemma save_clears c d (now : Z) (s : YamlCollection.saving V) :
  YamlCollection.save c d now = (Ok tt, s) ->
  YamlCollection.hasChanges (YamlCollection.sv_col s) = false.
Proof.
  unfold YamlCollection.save.
  destruct (YamlCollection.hasChanges c) eqn:Hchanges; cbn [negb].
  - destruct (YamlCollection.save_deleted _ _) as [[s1 | n m] s1'];
      [| discriminate].
    destruct (YamlCollection.save_dirty _ _ _) as [[s3 | n m] s3'];
      [| discriminate].
    intros [= <-]. reflexivity.
  - intros [= <-]. exact Hchanges.
Qed.

(** [delete] on ids the collection holds nothing of, one after the
    other. *)
Lemma delete_nothing_held c (ids : list string) :
  YamlCollection.items c = ∅ ->
  YamlCollection.filePaths c = ∅ ->
  fold_left (fun acc id => fst (YamlCollection.delete acc id)) ids c = c.
Proof.
  intros Hitems Hpaths. induction ids as [| id ids IH]; [reflexivity |].
  cbn [fold_left]. unfold YamlCollection.delete at 2.
  rewrite Hitems, Hpaths, !lookup_empty.
  rewrite !bool_decide_eq_false_2 by (intros [x Hx]; discriminate).
  exact IH.
Qed.

(** C8. [delete] misses the records the collection has not read. For
    every id the collection holds neither a record nor a path of, as of
    every record file it has not read yet, [delete(id)] returns false and
    changes nothing, whatever the directory holds; the next [save()] of
    a collection with no other change makes no file system call and
    leaves the directory as it is. So [clean()], which deletes every id
    that [list()] gives and saves, removes no file of a collection that
    has read none. *)
Theorem delete_misses_unread_record c d (id : string) (now : Z) :
  YamlCollection.items c !! id = None ->
  YamlCollection.filePaths c !! id = None ->
  YamlCollection.delete c id = (c, false)
  /\ (YamlCollection.hasChanges c = false ->
      YamlCollection.save (fst (YamlCollection.delete c id)) d now
      = (Ok tt, {| YamlCollection.sv_col := c; YamlCollection.sv_disk := d;
                   YamlCollection.sv_ops := [] |}))
  /\ (YamlCollection.items c = ∅ -> YamlCollection.filePaths c = ∅ ->
      YamlCollection.hasChanges c = false ->
      CoreTools.clean_collection c d now
      = (Ok tt, {| YamlCollection.sv_col := c; YamlCollection.sv_disk := d;
                   YamlCollection.sv_ops := [] |})).
Proof.
  intros Hitem Hpath.
  assert (Hdelete : YamlCollection.delete c id = (c, false)).
  { unfold YamlCollection.delete. rewrite Hitem, Hpath.
    rewrite !bool_decide_eq_false_2 by (intros [x Hx]; discriminate). reflexivity. }
  split; [exact Hdelete |]. split.
  - intros Hchanges. rewrite Hdelete. cbn [fst]. unfold YamlCollection.save.
    rewrite Hchanges. reflexivity.
  - intros Hitems Hpaths Hchanges. unfold CoreTools.clean_collection.
    rewrite (delete_nothing_held c _ Hitems Hpaths). unfold YamlCollection.save.
    rewrite Hchanges. reflexivity.
Qed.


End StoreWriting.

Lemma delete_cached_witness :
  is_Some (YamlCollection.items one_record_read !! "a")
  /\ YamlCollection.locked one_record = ∅
  /\ YamlCollection.dirty one_record_read = ["b"]
  /\ exists c',
      YamlCollection.delete one_record_read "a" = (c', true)
      /\ YamlCollection.items c' !! "a" = None
      /\ exists s,
          YamlCollection.save c' one_record 2 = (Ok tt, s)
          /\ YamlCollection.files (YamlCollection.sv_disk s) !! "a.yml" = None.
Proof.
  assert (Hheld : is_Some (YamlCollection.items one_record_read !! "a")).
  { exists (JsVal.Str "x"). vm_compute. reflexivity. }
  assert (Hpath : YamlCollection._getFilePath one_record_read "a" = "a.yml")
    by (vm_compute; reflexivity).
  assert (Hothers :
            forall id', In id' (YamlCollection.dirty one_record_read) -> id' <> "a" ->
                        id' ++ ".yml" <> YamlCollection._getFilePath one_record_read "a"
                        /\ forall p, YamlCollection.filePaths one_record_read !! id' = Some p ->
                                     p <> YamlCollection._getFilePath one_record_read "a").
  { intros id' Hin _. vm_compute in Hin. destruct Hin as [<- | []].
    rewrite Hpath. split; [discriminate |].
    intros p Hp. vm_compute in Hp. discriminate. }
  split; [exact Hheld |]. split; [reflexivity |]. split; [reflexivity |].
  rewrite <- Hpath.
  exact (delete_cached one_record_read one_record "a" 2%Z (or_introl Hheld) eq_refl Hothers).
Defined.

(** The record file [a.yml] is in the directory, [list()] gives its id
    and [get] reads it; a new collection still answers [false] to
    [delete("a")], and neither its next [save()] nor [clean()] removes
    the file. *)
Lemma delete_misses_unread_record_witness :
  let unchanged :=
    (Ok tt, {| YamlCollection.sv_col := YamlCollection.new;
               YamlCollection.sv_disk := one_record; YamlCollection.sv_ops := [] |}) in
  YamlCollection.exists_file one_record "a.yml" = true
  /\ YamlCollection.list one_record = ["a"]
  /\ snd (YamlCollection.get YamlCollection.new one_record "a") = Some (JsVal.Str "x")
  /\ YamlCollection.delete (V := JsVal.value) YamlCollection.new "a"
     = (YamlCollection.new, false)
  /\ YamlCollection.save (fst (YamlCollection.delete YamlCollection.new "a")) one_record 2
     = unchanged
  /\ CoreTools.clean_collection YamlCollection.new one_record 2 = unchanged.
Proof.
  intros unchanged.
  split; [vm_compute; reflexivity |]. split; [vm_compute; reflexivity |].
  split; [vm_compute; reflexivity |].
  destruct (delete_misses_unread_record YamlCollection.new one_record "a" 2%Z
              (lookup_empty _) (lookup_empty _)) as [Hdelete [Hsave Hclean]].
  split; [exact Hdelete |]. split; [exact (Hsave eq_refl) |].
  exact (Hclean eq_refl eq_refl eq_refl).
Defined.



(** ** Commands forwarded from the host *)

(** A trace at the level [debug] is let through when [debug] is the log
    level, and then only. *)
Lemma shouldLog_debug (current : string) :
  Bridge.shouldLog current "debug" = String.eqb current "debug".
Proof.
  unfold Bridge.shouldLog, Bridge.LOG_LEVELS. cbn [String.eqb Ascii.eqb Bool.eqb].
  repeat match goal with
         | |- context [String.eqb current ?b] => destruct (String.eqb current b)
         end; reflexivity.
Qed.

Lemma captured_output {W : Type} (s : Bridge.state W) (cmd : string) (o : Bridge.outcome W) :
  Js.join (String (ascii_of_nat 10) "")
          ((if Bridge.shouldLog (Bridge.currentLogLevel s) "debug"
            then ["[handleCommand] Executing handler for " ++ Bridge.quoted cmd]
            else []) ++ map snd (Bridge.o_logs o))
  = output_of s cmd o.
Proof. unfold output_of. now rewrite shouldLog_debug. Qed.

Lemma holds_field (fields : list (string * JsVal.value)) (k : string) :
  JsVal.holds_BigInt (JsVal.Obj fields) = false ->
  JsVal.holds_BigInt (JsVal.field fields k) = false.
Proof.
  cbn [JsVal.holds_BigInt]. induction fields as [| [k' v] fields IH]; [reflexivity |].
  cbn [existsb snd JsVal.field]. intros Hnone. apply orb_false_elim in Hnone as [Hv Hrest].
  destruct (String.eqb k' k); [exact Hv | now apply IH].
Qed.

Lemma holds_get_opt (v : JsVal.value) (k : string) :
  JsVal.holds_BigInt v = false -> JsVal.holds_BigInt (JsVal.get_opt v k) = false.
Proof.
  destruct v; try reflexivity. cbn [JsVal.get_opt]. apply holds_field.
Qed.

Lemma holds_or (a b : JsVal.value) :
  JsVal.holds_BigInt a = false -> JsVal.holds_BigInt b = false ->
  JsVal.holds_BigInt (JsVal.or a b) = false.
Proof. unfold JsVal.or. now destruct (JsVal.truthy_value a). Qed.

Lemma Forwarded_stringify : stringify_of_engine Forwarded.JSON_stringify.
Proof.
  intros v. unfold Forwarded.JSON_stringify. destruct (JsVal.holds_BigInt v).
  - split; [discriminate | intros [text [=]]].
  - split; [eauto | reflexivity].
Qed.

(** The claim C10 as stated fails: the handler [count] returns a BigInt,
    for which [JSON.stringify] throws when the trace of the result is
    made, before the status is looked at; the response then carries the
    message of that error and no content, although a line was logged. *)
Lemma no_status_counterexample : ~ no_status_as_stated.
Proof.
  intros Hclaim.
  destruct (Hclaim unit [] Forwarded.dslRegistry Forwarded.parseDSL Forwarded.JSON_stringify
                   (Forwarded.message "count") 3%Z JsVal.Undefined Forwarded.child
                   "count" [] Forwarded.count (JsVal.BigInt 1)
                   Forwarded_stringify ltac:(repeat split; vm_compute; reflexivity)
                   eq_refl eq_refl ltac:(vm_compute; reflexivity) eq_refl)
    as [response [s' [Hcall [_ Hcontent]]]].
  - intros status _. discriminate.
  - vm_compute in Hcall. injection Hcall as <- _. discriminate Hcontent.
Qed.

Section FromHost.
Context {W : Type}.
Variable pluginsRegistry : PluginsRegistry.
Variable dslRegistry : gmap string (Bridge.handler W).
Variable parseDSL : string -> option (string * list string).
Variable JSON_stringify : JsVal.value -> throws string.

Lemma resolved_error (cmd : string) (args : list string) (h : Bridge.handler W) :
  let resolved := Bridge.resolveParsed pluginsRegistry dslRegistry cmd args in
  dslRegistry !! Bridge.r_cmd resolved = Some h -> Bridge.r_error resolved = None.
Proof.
  intros resolved Hhandler. subst resolved. unfold Bridge.resolveParsed in *.
  destruct (Bridge.alias_loop _ _ _ _ _) as [cmd1 args1].
  destruct (match args1 with ArgsArray _ => _ | ArgsOther _ => _ end) as [cmd2 args2].
  cbn [Bridge.r_error Bridge.r_cmd] in *. unfold Bridge.handler in *.
  now rewrite Hhandler.
Qed.

(** What [handleCommand] comes to for a command of the host that resolves
    to a handler. *)
Lemma handleCommand_fromHost (message : Bridge.command) (sessionId : Z)
      (procId0 : JsVal.value) (s : Bridge.state W)
      (cmd : string) (args : list string) (h : Bridge.handler W) :
  let resolved := Bridge.resolveParsed pluginsRegistry dslRegistry cmd args in
  Text.printable (procId_of message procId0) = true ->
  Bridge.c_fromHost message = true ->
  parseDSL (Bridge.c_command message) = Some (cmd, args) ->
  dslRegistry !! Bridge.r_cmd resolved = Some h ->
  Bridge.handleCommand pluginsRegistry dslRegistry parseDSL JSON_stringify
                       message sessionId procId0 s
  = match Bridge.execute_fromHost dslRegistry JSON_stringify message
            (Bridge.r_cmd resolved) (Bridge.r_args resolved)
            (if localCommand (Bridge.r_toolDef resolved) then 0%Z else sessionId)
            (procId_of message procId0) s with
    | (Some response, s') => (Bridge.CmdResponse response, s')
    | (None, s') => (Bridge.CmdUnanswered, s')
    end.
Proof.
  intros resolved Hprintable HfromHost Hparsed Hhandler.
  unfold Bridge.handleCommand, Bridge.resolveCommand, Text.template.
  fold (procId_of message procId0). rewrite Hprintable, Hparsed.
  pose proof (resolved_error cmd args h Hhandler) as Herror. cbn zeta in Herror.
  fold resolved in Herror. fold resolved. rewrite Herror, HfromHost.
  rewrite !andb_false_r. reflexivity.
Qed.

(** Writing a response to the socket, when the process has one. *)
Lemma write_socket_after (s1 : Bridge.state W) (response : Bridge.command_response) :
  Bridge.containerSocket (Bridge.write_socket s1 response) = socket_after s1 response
  /\ Bridge.toolCallStates (Bridge.write_socket s1 response) = Bridge.toolCallStates s1
  /\ Bridge.world (Bridge.write_socket s1 response) = Bridge.world s1.
Proof.
  unfold Bridge.write_socket, socket_after.
  destruct (Bridge.containerSocket s1) eqn:Hsock; repeat split; try reflexivity; exact Hsock.
Qed.

Lemma send_returns (s1 : Bridge.state W) (response : Bridge.command_response)
      (object : JsVal.value) :
  stringify_of_engine JSON_stringify ->
  JsVal.holds_BigInt object = false \/ Bridge.containerSocket s1 = None ->
  exists s',
    Bridge.send JSON_stringify s1 response object = Ok s'
    /\ Bridge.containerSocket s' = socket_after s1 response
    /\ Bridge.toolCallStates s' = Bridge.toolCallStates s1
    /\ Bridge.world s' = Bridge.world s1.
Proof.
  intros Hengine Hcase. unfold Bridge.send.
  destruct (Bridge.containerSocket s1) as [written |] eqn:Hsock.
  - destruct Hcase as [Hnone | [=]]. apply Hengine in Hnone as [text ->].
    exists (Bridge.write_socket s1 response). split; [reflexivity |].
    apply write_socket_after.
  - exists s1. split; [reflexivity |]. unfold socket_after. rewrite Hsock. tauto.
Qed.

Lemma send_throws (s1 : Bridge.state W) (response : Bridge.command_response)
      (object : JsVal.value) :
  stringify_of_engine JSON_stringify ->
  JsVal.holds_BigInt object = true ->
  Bridge.containerSocket s1 <> None ->
  exists name text, Bridge.send JSON_stringify s1 response object = Throw name text.
Proof.
  intros Hengine Hholds Hsock. unfold Bridge.send.
  destruct (Bridge.containerSocket s1) as [written |]; [| now elim Hsock].
  destruct (JSON_stringify object) as [text | name text] eqn:Hjson; [| eauto].
  assert (Hnone : JsVal.holds_BigInt object = false) by (apply Hengine; eauto).
  congruence.
Qed.

(** The [catch] of the [fromHost] branch answers when the message it
    caught has a text and, if the process has a socket, holds no
    BigInt; otherwise it gives no answer and writes nothing. *)
Lemma answer_caught_answers (message : Bridge.command) (s1 : Bridge.state W)
      (message_of_e : JsVal.value) :
  stringify_of_engine JSON_stringify ->
  JsVal.holds_BigInt (Bridge.c_messageId message) = false ->
  Text.printable message_of_e = true ->
  JsVal.holds_BigInt message_of_e = false \/ Bridge.containerSocket s1 = None ->
  exists s',
    Bridge.answer_caught JSON_stringify message s1 message_of_e
    = (Some {| Bridge.cr_messageId := Bridge.c_messageId message;
               Bridge.cr_success := false; Bridge.cr_result := JsVal.Undefined;
               Bridge.cr_error := message_of_e; Bridge.cr_type := "command_response" |},
       s')
    /\ Bridge.containerSocket s'
       = socket_after s1 {| Bridge.cr_messageId := Bridge.c_messageId message;
                            Bridge.cr_success := false; Bridge.cr_result := JsVal.Undefined;
                            Bridge.cr_error := message_of_e;
                            Bridge.cr_type := "command_response" |}
    /\ Bridge.toolCallStates s' = Bridge.toolCallStates s1
    /\ Bridge.world s' = Bridge.world s1.
Proof.
  intros Hengine Hid Hprintable Hcase. unfold Bridge.answer_caught. rewrite Hprintable.
  match goal with
  | |- context [Bridge.send _ _ ?r ?obj] =>
      destruct (send_returns s1 r obj Hengine) as [s' [Hsend Hafter]]
  end.
  { destruct Hcase as [Hnone | Hsock]; [left | now right].
    cbn [JsVal.holds_BigInt existsb snd]. now rewrite Hid, Hnone. }
  rewrite Hsend. exists s'. split; [reflexivity | exact Hafter].
Qed.

Lemma answer_caught_silent (message : Bridge.command) (s1 : Bridge.state W)
      (message_of_e : JsVal.value) :
  stringify_of_engine JSON_stringify ->
  Text.printable message_of_e = false
  \/ (JsVal.holds_BigInt message_of_e = true /\ Bridge.containerSocket s1 <> None) ->
  Bridge.answer_caught JSON_stringify message s1 message_of_e = (None, s1).
Proof.
  intros Hengine Hcase. unfold Bridge.answer_caught.
  destruct (Text.printable message_of_e); [| reflexivity].
  destruct Hcase as [[=] | [Hholds Hsock]].
  match goal with
  | |- context [Bridge.send _ _ ?r ?obj] =>
      destruct (send_throws s1 r obj Hengine) as [name [text Hsend]]
  end.
  { cbn [JsVal.holds_BigInt existsb snd]. rewrite Hholds. now rewrite !orb_true_r. }
  { exact Hsock. }
  now rewrite Hsend.
Qed.

(** C10, as amended. A command sent by the host ([fromHost] true) that
    resolves to a handler whose result has a status that is neither
    [success] nor [failure] or [error], a plain value or [undefined] for
    instance, is answered with one [command_response] of [success] false,
    which is also what the process writes to its socket to the host.
    When the result holds no BigInt, so that [JSON.stringify] returns for
    it, the content of the response is the captured log output, the
    messages of the log events joined by line feeds, or, when that is
    empty, the text [Tool execution failed: No status returned]. When the
    result holds a BigInt, [JSON.stringify] throws for it, and the
    response has no content and carries the message of that error. The
    command is one the host sends: its [procId] has a text and its
    [messageId] holds no BigInt, nor do the arguments it resolves
    to. *)
Theorem handleCommand_no_status (message : Bridge.command) (sessionId : Z)
        (procId0 : JsVal.value) (s : Bridge.state W)
        (cmd : string) (args : list string) (h : Bridge.handler W)
        (result : JsVal.value) :
  let resolved := Bridge.resolveParsed pluginsRegistry dslRegistry cmd args in
  let o := h (args_value (Bridge.r_args resolved))
             (handler_context message (Bridge.r_toolDef resolved) sessionId procId0) s in
  let output := output_of s (Bridge.r_cmd resolved) o in
  stringify_of_engine JSON_stringify ->
  well_formed message procId0 (Bridge.r_args resolved) ->
  Bridge.c_fromHost message = true ->
  parseDSL (Bridge.c_command message) = Some (cmd, args) ->
  dslRegistry !! Bridge.r_cmd resolved = Some h ->
  Bridge.o_result o = Bridge.Returned result ->
  no_known_status result ->
  exists response s',
    Bridge.handleCommand pluginsRegistry dslRegistry parseDSL JSON_stringify
                         message sessionId procId0 s
    = (Bridge.CmdResponse response, s')
    /\ Bridge.containerSocket s' = socket_after (Bridge.o_state o) response
    /\ Bridge.toolCallStates s' = Bridge.toolCallStates (Bridge.o_state o)
    /\ Bridge.world s' = Bridge.world (Bridge.o_state o)
    /\ Bridge.cr_messageId response = Bridge.c_messageId message
    /\ Bridge.cr_type response = "command_response"
    /\ Bridge.cr_success response = false
    /\ (JsVal.holds_BigInt result = false ->
        Bridge.cr_result response
        = JsVal.Str (if Js.nonempty output then output
                     else "Tool execution failed: No status returned")
        /\ Bridge.cr_error response = JsVal.get_opt result "error")
    /\ (JsVal.holds_BigInt result = true ->
        exists name text,
          JSON_stringify result = Throw name text
          /\ Bridge.cr_result response = JsVal.Undefined
          /\ Bridge.cr_error response = JsVal.Str text).
Proof.
  intros resolved o output Hengine [Hprintable [Hid _]] HfromHost Hparsed Hhandler Hresult
         Hstatus.
  rewrite (handleCommand_fromHost message sessionId procId0 s cmd args h
             Hprintable HfromHost Hparsed Hhandler).
  fold resolved. unfold Bridge.execute_fromHost. unfold Bridge.handler in *.
  rewrite Hhandler.
  fold (handler_context message (Bridge.r_toolDef resolved) sessionId procId0).
  fold o. rewrite Hresult.
  assert (Hnone : forall status,
             In status known_statuses ->
             JsVal.is_str (JsVal.get_opt result "status") status = false).
  { intros status Hin. specialize (Hstatus status Hin).
    destruct (JsVal.get_opt result "status") as [| | | | | text | |]; try reflexivity.
    cbn [JsVal.is_str]. destruct (String.eqb_spec text status) as [-> |]; [| reflexivity].
    now exfalso. }
  destruct (JSON_stringify result) as [text | name text] eqn:Hjson.
  - assert (Hplain : JsVal.holds_BigInt result = false) by (apply Hengine; eauto).
    change ToolExecutionStatus.SUCCESS with "success".
    change ToolExecutionStatus.FAILURE with "failure".
    rewrite (Hnone "success"), (Hnone "failure"), (Hnone "error")
      by (cbn; tauto).
    cbn [orb].
    match goal with
    | |- context [Bridge.send _ _ ?r ?obj] =>
        destruct (send_returns (Bridge.o_state o) r obj Hengine)
          as [s' [Hsend [Hsocket [Hstates Hworld]]]]
    end.
    { left. cbn [JsVal.holds_BigInt existsb snd]. rewrite Hid.
      rewrite (holds_get_opt result "error" Hplain).
      rewrite holds_or by reflexivity. reflexivity. }
    rewrite Hsend. eexists _, s'. split; [reflexivity |].
    split; [exact Hsocket |]. split; [exact Hstates |]. split; [exact Hworld |].
    cbn [Bridge.cr_messageId Bridge.cr_success Bridge.cr_result Bridge.cr_error
           Bridge.cr_type].
    repeat (split; [reflexivity |]). split.
    + intros _. split; [| reflexivity].
      rewrite captured_output. fold output.
      unfold JsVal.or. cbn [JsVal.truthy_value].
      destruct (Js.nonempty output); reflexivity.
    + intros Hholds. congruence.
  - assert (Hholds : JsVal.holds_BigInt result = true).
    { destruct (JsVal.holds_BigInt result) eqn:Hh; [reflexivity |].
      apply Hengine in Hh as [text' Hok]. congruence. }
    destruct (answer_caught_answers message (Bridge.o_state o) (JsVal.Str text)
                Hengine Hid eq_refl (or_introl eq_refl))
      as [s' [Hcaught [Hsocket [Hstates Hworld]]]].
    rewrite Hcaught. eexists _, s'. split; [reflexivity |].
    split; [exact Hsocket |]. split; [exact Hstates |]. split; [exact Hworld |].
    cbn [Bridge.cr_messageId Bridge.cr_success Bridge.cr_result Bridge.cr_error
           Bridge.cr_type].
    repeat (split; [reflexivity |]). split.
    + intros Hplain. congruence.
    + intros _. exists name, text. repeat split; reflexivity.
Qed.

End FromHost.

(** The handler [chat] in a child at the log level [info]: the line of
    [handleCommand] is not let through, the two lines of the handler are
    the content of the response, and the response is what the socket
    holds. At the log level [debug] the line of [handleCommand] comes
    first; that child has no socket. *)
Lemma handleCommand_no_status_witness :
  let response content :=
    {| Bridge.cr_messageId := JsVal.Num 7; Bridge.cr_success := false;
       Bridge.cr_result := JsVal.Str content;
       Bridge.cr_error := JsVal.Undefined; Bridge.cr_type := "command_response" |} in
  let handleCommand :=
    Bridge.handleCommand [] Forwarded.dslRegistry Forwarded.parseDSL Forwarded.JSON_stringify
                         (Forwarded.message "chat") 3 JsVal.Undefined in
  (exists s',
      handleCommand Forwarded.child
      = (Bridge.CmdResponse (response ("hello" ++ line_feed ++ "bye")), s')
      /\ Bridge.containerSocket s'
         = Some [response ("hello" ++ line_feed ++ "bye")])
  /\ handleCommand Forwarded.child_debug
     = (Bridge.CmdResponse
          (response ("[handleCommand] Executing handler for " ++ double_quote ++ "chat"
                     ++ double_quote ++ line_feed ++ "hello" ++ line_feed ++ "bye")),
        Forwarded.child_debug).
Proof.
  intros response handleCommand.
  assert (Hhandler : Forwarded.dslRegistry
                     !! Bridge.r_cmd (Bridge.resolveParsed [] Forwarded.dslRegistry "chat" [])
                     = Some Forwarded.chat)
    by (vm_compute; reflexivity).
  assert (Hstatus : no_known_status (JsVal.Str "done")).
  { intros status _. discriminate. }
  assert (Hrecord : forall (answer : Bridge.command_response) content,
             Bridge.cr_messageId answer = JsVal.Num 7 ->
             Bridge.cr_type answer = "command_response" ->
             Bridge.cr_success answer = false ->
             Bridge.cr_result answer = JsVal.Str content ->
             Bridge.cr_error answer = JsVal.Undefined ->
             answer = response content).
  { intros [id success result error type] content. cbn. intros -> -> -> -> ->. reflexivity. }
  split.
  - destruct (handleCommand_no_status [] Forwarded.dslRegistry Forwarded.parseDSL
                Forwarded.JSON_stringify (Forwarded.message "chat") 3%Z
                JsVal.Undefined Forwarded.child "chat" [] Forwarded.chat (JsVal.Str "done")
                Forwarded_stringify ltac:(repeat split; vm_compute; reflexivity)
                eq_refl eq_refl Hhandler eq_refl Hstatus)
      as [answer [s' [Hcall [Hsocket [_ [_ [Hid [Htype [Hsuccess [Hreturns _]]]]]]]]]].
    destruct (Hreturns eq_refl) as [Hcontent Herror].
    rewrite (Hrecord answer _ Hid Htype Hsuccess Hcontent Herror) in Hcall, Hsocket.
    exists s'. split; [exact Hcall |]. rewrite Hsocket. reflexivity.
  - destruct (handleCommand_no_status [] Forwarded.dslRegistry Forwarded.parseDSL
                Forwarded.JSON_stringify (Forwarded.message "chat") 3%Z
                JsVal.Undefined Forwarded.child_debug "chat" [] Forwarded.chat
                (JsVal.Str "done")
                Forwarded_stringify ltac:(repeat split; vm_compute; reflexivity)
                eq_refl eq_refl Hhandler eq_refl Hstatus)
      as [answer [s' [Hcall [Hsocket [Hstates [Hworld [Hid [Htype [Hsuccess
                                                                    [Hreturns _]]]]]]]]]].
    destruct (Hreturns eq_refl) as [Hcontent Herror].
    rewrite (Hrecord answer _ Hid Htype Hsuccess Hcontent Herror) in Hcall.
    assert (Hstate : snd (handleCommand Forwarded.child_debug) = Forwarded.child_debug)
      by (vm_compute; reflexivity).
    subst handleCommand. cbn beta in Hstate |- *. rewrite Hcall in Hstate |- *.
    cbn [snd] in Hstate. now rewrite Hstate.
Defined.

(** * Further properties of the code *)

(** ** The collection store: set, delete and save together *)

Section StoreChanges.
Context {V : Type} `{Truthy V}.
Implicit Types (c : YamlCollection.collection V) (d : YamlCollection.disk V).
Implicit Types (s : YamlCollection.saving V).

Lemma includes_nil (x : string) : Js.includes [] x = false.
Proof. reflexivity. Qed.

Lemma set_pending c (id : string) (data : V) :
  (YamlCollection.dirty c = [] \/ YamlCollection.dirty c = [id]) ->
  (YamlCollection.deleted c = [] \/ YamlCollection.deleted c = [id]) ->
  YamlCollection.dirty (YamlCollection.set c id data) = [id]
  /\ YamlCollection.deleted (YamlCollection.set c id data) = [].
Proof.
  intros Hdirty Hdeleted. cbn [YamlCollection.set YamlCollection.dirty YamlCollection.deleted].
  unfold YamlCollection.set_add, YamlCollection.set_delete, Js.includes. split.
  - destruct Hdirty as [-> | ->]; cbn [existsb app]; [reflexivity |].
    rewrite String.eqb_refl. reflexivity.
  - destruct Hdeleted as [-> | ->]; cbn [List.filter]; [reflexivity |].
    rewrite String.eqb_refl. reflexivity.
Qed.

(** What [save] does for a collection whose one pending change is the
    record [id] to write. *)
Lemma save_one_dirty c d (id : string) (data : V) (now : Z) :
  YamlCollection.hasChanges c = true ->
  YamlCollection.dirty c = [id] ->
  YamlCollection.deleted c = [] ->
  YamlCollection.items c !! id = Some data ->
  truthy data = true ->
  YamlCollection._getFilePath c id ∉ YamlCollection.locked d ->
  YamlCollection.save c d now
  = (Ok tt,
     {| YamlCollection.sv_col :=
          {| YamlCollection.items := YamlCollection.items c;
             YamlCollection.filePaths :=
               <[id := YamlCollection._getFilePath c id]> (YamlCollection.filePaths c);
             YamlCollection.lastReadTs := YamlCollection.lastReadTs c;
             YamlCollection.dirty := []; YamlCollection.deleted := [];
             YamlCollection.hasChanges := false |};
        YamlCollection.sv_disk :=
          {| YamlCollection.files :=
               <[YamlCollection._getFilePath c id :=
                   {| YamlCollection.content := Some data; YamlCollection.mtimeMs := now |}]>
                 (YamlCollection.files d);
             YamlCollection.locked := YamlCollection.locked d |};
        YamlCollection.sv_ops :=
          [YamlCollection.WriteFile (YamlCollection._getFilePath c id) data] |}).
Proof.
  intros Hchanges Hdirty Hdeleted Hitem Htruthy Hfree.
  assert (Hsame : YamlCollection.with_deleted c [] = c).
  { destruct c. cbn in Hdeleted. subst. reflexivity. }
  unfold YamlCollection.save. rewrite Hchanges, Hdeleted.
  cbn [negb YamlCollection.save_deleted YamlCollection.sv_col YamlCollection.sv_disk
         YamlCollection.sv_ops].
  rewrite Hsame, Hdirty.
  cbn [YamlCollection.save_dirty YamlCollection.sv_col YamlCollection.sv_disk
         YamlCollection.sv_ops].
  rewrite Hitem, Htruthy. unfold YamlCollection.writeYaml.
  rewrite bool_decide_eq_false_2 by exact Hfree.
  cbn [YamlCollection.save_dirty YamlCollection.sv_col YamlCollection.sv_disk
         YamlCollection.sv_ops YamlCollection.saved YamlCollection.items
         YamlCollection.filePaths YamlCollection.lastReadTs YamlCollection.deleted app].
  rewrite Hdeleted. reflexivity.
Qed.



Lemma with_deleted_same c :
  YamlCollection.deleted c = [] -> YamlCollection.with_deleted c [] = c.
Proof. intros Hdeleted. destruct c. cbn in Hdeleted. subst. reflexivity. Qed.

(** The calls of the first loop of [save]: it only unlinks, and only at
    the path of an id marked as deleted. *)
Lemma save_deleted_ops (ids : list string) :
  forall s r s',
    YamlCollection.save_deleted ids s = (r, s') ->
    YamlCollection.items (YamlCollection.sv_col s')
    = YamlCollection.items (YamlCollection.sv_col s)
    /\ YamlCollection.dirty (YamlCollection.sv_col s')
       = YamlCollection.dirty (YamlCollection.sv_col s)
    /\ (forall k p, YamlCollection.filePaths (YamlCollection.sv_col s') !! k = Some p ->
                    YamlCollection.filePaths (YamlCollection.sv_col s) !! k = Some p)
    /\ forall op, In op (YamlCollection.sv_ops s') ->
         In op (YamlCollection.sv_ops s)
         \/ exists id name,
             In id ids /\ op = YamlCollection.Unlink name
             /\ (name = id ++ ".yml"
                 \/ YamlCollection.filePaths (YamlCollection.sv_col s) !! id = Some name).
Proof.
  induction ids as [| id0 rest IH]; intros s r s' Hrun.
  - cbn in Hrun. injection Hrun as _ <-. repeat split; auto.
  - cbn [YamlCollection.save_deleted] in Hrun.
    set (path := YamlCollection._getFilePath (YamlCollection.sv_col s) id0) in *.
    assert (Hpath : path = id0 ++ ".yml"
                    \/ YamlCollection.filePaths (YamlCollection.sv_col s) !! id0 = Some path).
    { subst path. unfold YamlCollection._getFilePath.
      destruct (YamlCollection.filePaths (YamlCollection.sv_col s) !! id0); auto. }
    destruct (if YamlCollection.exists_file (YamlCollection.sv_disk s) path
              then match YamlCollection.unlinkSync (YamlCollection.sv_disk s) path with
                   | Ok d' => Ok (d', (YamlCollection.sv_ops s ++ [YamlCollection.Unlink path])%list)
                   | Throw n m => Throw n m
                   end
              else Ok (YamlCollection.sv_disk s, YamlCollection.sv_ops s))
      as [[d1 ops1] | n m] eqn:Hstep.
    2:{ injection Hrun as _ <-. repeat split; auto. }
    assert (Hops1 : forall op, In op ops1 ->
              In op (YamlCollection.sv_ops s) \/ op = YamlCollection.Unlink path).
    { destruct (YamlCollection.exists_file (YamlCollection.sv_disk s) path).
      - destruct (YamlCollection.unlinkSync (YamlCollection.sv_disk s) path);
          [| discriminate].
        injection Hstep as _ <-. intros op Hop. apply in_app_or in Hop as [Hop | [<- | []]]; auto.
      - injection Hstep as _ <-. auto. }
    apply IH in Hrun as [Hitems [Hdirty [Hpaths Hops]]].
    cbn [YamlCollection.sv_col YamlCollection.sv_ops YamlCollection.items
           YamlCollection.dirty YamlCollection.filePaths] in *.
    assert (Hkept : forall k p, base.delete id0 (YamlCollection.filePaths (YamlCollection.sv_col s)) !! k = Some p ->
                                YamlCollection.filePaths (YamlCollection.sv_col s) !! k = Some p).
    { intros k p Hk. rewrite lookup_delete in Hk. case_decide; [discriminate | exact Hk]. }
    split; [exact Hitems |]. split; [exact Hdirty |]. split; [auto |].
    intros op Hop. apply Hops in Hop as [Hop | [id [name [Hin [-> Hname]]]]].
    + apply Hops1 in Hop as [Hop | ->]; [now left |].
      right. exists id0, path. split; [now left |]. split; [reflexivity | exact Hpath].
    + right. exists id, name. split; [now right |]. split; [reflexivity |].
      destruct Hname as [Hname | Hname]; [now left | right; now apply Hkept].
Qed.

(** The calls of the second loop of [save]: it only writes, and only the
    truthy document of an id marked as dirty. *)
Lemma save_dirty_ops (now : Z) (ids : list string) :
  forall s r s',
    YamlCollection.save_dirty now ids s = (r, s') ->
    YamlCollection.items (YamlCollection.sv_col s')
    = YamlCollection.items (YamlCollection.sv_col s)
    /\ forall op, In op (YamlCollection.sv_ops s') ->
         In op (YamlCollection.sv_ops s)
         \/ exists id name data,
             In id ids /\ op = YamlCollection.WriteFile name data
             /\ YamlCollection.items (YamlCollection.sv_col s) !! id = Some data
             /\ truthy data = true.
Proof.
  induction ids as [| id0 rest IH]; intros s r s' Hrun.
  - cbn in Hrun. injection Hrun as _ <-. split; auto.
  - cbn [YamlCollection.save_dirty] in Hrun.
    assert (Hrest : YamlCollection.save_dirty now rest s = (r, s') ->
              YamlCollection.items (YamlCollection.sv_col s')
              = YamlCollection.items (YamlCollection.sv_col s)
              /\ forall op, In op (YamlCollection.sv_ops s') ->
                   In op (YamlCollection.sv_ops s)
                   \/ exists id name data,
                       In id (id0 :: rest) /\ op = YamlCollection.WriteFile name data
                       /\ YamlCollection.items (YamlCollection.sv_col s) !! id = Some data
                       /\ truthy data = true).
    { intros Hskip. apply IH in Hskip as [Hitems Hops]. split; [exact Hitems |].
      intros op Hop. apply Hops in Hop as [Hop | [id [name [data [Hin Hop]]]]]; [now left |].
      right. exists id, name, data. split; [now right | exact Hop]. }
    destruct (YamlCollection.items (YamlCollection.sv_col s) !! id0) as [data0 |] eqn:Hitem;
      [| now apply Hrest].
    destruct (truthy data0) eqn:Htruthy; [| now apply Hrest].
    destruct (YamlCollection.writeYaml _ _ _ _) as [d1 | n m].
    2:{ injection Hrun as _ <-. split; auto. }
    apply IH in Hrun as [Hitems Hops].
    cbn [YamlCollection.sv_col YamlCollection.sv_ops YamlCollection.items] in *.
    split; [exact Hitems |].
    intros op Hop. apply Hops in Hop as [Hop | [id [name [data [Hin Hop]]]]].
    + apply in_app_or in Hop as [Hop | [<- | []]]; [now left |].
      right. exists id0, (YamlCollection._getFilePath (YamlCollection.sv_col s) id0), data0.
      split; [now left |]. auto.
    + right. exists id, name, data. split; [now right | exact Hop].
Qed.

(** X2. [save()] touches only what [set] and [delete] have marked: every
    document it writes is the truthy document of an id in [dirty], so a
    falsy document is never written, and every file it unlinks is at the
    cached path, or else at [<id>.yml], of an id in [deleted]. This holds
    whether [save()] returns or throws. *)
Theorem save_touches_pending_only c d (now : Z) :
  let ops := YamlCollection.sv_ops (snd (YamlCollection.save c d now)) in
  (forall name data,
      In (YamlCollection.WriteFile name data) ops ->
      truthy data = true
      /\ exists id, In id (YamlCollection.dirty c) /\ YamlCollection.items c !! id = Some data)
  /\ (forall name,
         In (YamlCollection.Unlink name) ops ->
         exists id, In id (YamlCollection.deleted c)
                    /\ (name = id ++ ".yml" \/ YamlCollection.filePaths c !! id = Some name)).
Proof.
  intros ops. subst ops. unfold YamlCollection.save.
  destruct (YamlCollection.hasChanges c); cbn [negb].
  2:{ cbn [snd YamlCollection.sv_ops]. split; [intros name data [] | intros name []]. }
  destruct (YamlCollection.save_deleted (YamlCollection.deleted c) _) as [r1 s1] eqn:Hrun1.
  apply save_deleted_ops in Hrun1 as [Hitems1 [Hdirty1 [_ Hops1]]].
  cbn [YamlCollection.sv_col YamlCollection.sv_ops] in *.
  assert (Hfirst : forall op, In op (YamlCollection.sv_ops s1) ->
            exists id name, In id (YamlCollection.deleted c) /\ op = YamlCollection.Unlink name
                            /\ (name = id ++ ".yml"
                                \/ YamlCollection.filePaths c !! id = Some name)).
  { intros op Hop. apply Hops1 in Hop as [[] | Hop]. exact Hop. }
  destruct r1 as [s1' | n m].
  2:{ cbn [snd]. split.
      - intros name data Hop. apply Hfirst in Hop as [id [name' [_ [Hop _]]]]. discriminate.
      - intros name Hop. apply Hfirst in Hop as [id [name' [Hin [[= <-] Hname]]]]. eauto. }
  destruct (YamlCollection.save_dirty now _ _) as [r3 s3] eqn:Hrun3.
  apply save_dirty_ops in Hrun3 as [Hitems3 Hops3].
  cbn [YamlCollection.sv_col YamlCollection.sv_ops YamlCollection.with_deleted
         YamlCollection.items YamlCollection.dirty] in *.
  assert (Hall : forall op, In op (YamlCollection.sv_ops s3) ->
            (exists id name, In id (YamlCollection.deleted c) /\ op = YamlCollection.Unlink name
                             /\ (name = id ++ ".yml"
                                 \/ YamlCollection.filePaths c !! id = Some name))
            \/ exists id name data,
                In id (YamlCollection.dirty c) /\ op = YamlCollection.WriteFile name data
                /\ YamlCollection.items c !! id = Some data /\ truthy data = true).
  { intros op Hop. apply Hops3 in Hop as [Hop | [id [name [data [Hin [-> [Hitem Htruthy]]]]]]].
    - left. now apply Hfirst.
    - right. exists id, name, data. rewrite <- Hdirty1, <- Hitems1. auto. }
  assert (Hops : YamlCollection.sv_ops
                   (snd (match r3 with
                         | Ok _ => (Ok tt, {| YamlCollection.sv_col := YamlCollection.saved (YamlCollection.sv_col s3);
                                              YamlCollection.sv_disk := YamlCollection.sv_disk s3;
                                              YamlCollection.sv_ops := YamlCollection.sv_ops s3 |})
                         | Throw n m => (Throw n m, s3)
                         end))
                 = YamlCollection.sv_ops s3)
    by (destruct r3; reflexivity).
  rewrite Hops. split.
  - intros name data Hop.
    apply Hall in Hop as [[id [name' [_ [Hop _]]]] | [id [name' [data' [Hin [[= <- <-] [Hitem Htruthy]]]]]]];
      [discriminate |].
    split; [exact Htruthy | eauto].
  - intros name Hop.
    apply Hall in Hop as [[id [name' [Hin [[= <-] Hname]]]] | [id [name' [data' [_ [Hop _]]]]]];
      [eauto | discriminate].
Qed.

(** X3. The last of [set] and [delete] wins. On a collection without
    pending changes: [set] then [delete] of the same id makes the next
    [save()] write nothing and leave no file at the path of the record;
    [delete] then [set] makes it write the document and unlink nothing. *)
Theorem last_change_wins c d (id : string) (data : V) (now : Z) :
  let path := YamlCollection._getFilePath c id in
  YamlCollection.dirty c = [] ->
  YamlCollection.deleted c = [] ->
  truthy data = true ->
  path ∉ YamlCollection.locked d ->
  (snd (YamlCollection.delete (YamlCollection.set c id data) id) = true
   /\ exists s,
       YamlCollection.save (fst (YamlCollection.delete (YamlCollection.set c id data) id)) d now
       = (Ok tt, s)
       /\ (forall name v, ~ In (YamlCollection.WriteFile name v) (YamlCollection.sv_ops s))
       /\ YamlCollection.files (YamlCollection.sv_disk s) !! path = None
       /\ YamlCollection.items (YamlCollection.sv_col s) !! id = None)
  /\ exists s,
      YamlCollection.save (YamlCollection.set (fst (YamlCollection.delete c id)) id data) d now
      = (Ok tt, s)
      /\ YamlCollection.sv_ops s = [YamlCollection.WriteFile path data]
      /\ YamlCollection.files (YamlCollection.sv_disk s) !! path
         = Some {| YamlCollection.content := Some data; YamlCollection.mtimeMs := now |}.
Proof.
  intros path Hdirty Hdeleted Htruthy Hfree. split.
  - unfold YamlCollection.delete at 1 2.
    cbn [YamlCollection.set YamlCollection.items YamlCollection.filePaths
           YamlCollection.dirty YamlCollection.deleted].
    rewrite lookup_insert_eq. rewrite (bool_decide_eq_true_2 (is_Some (Some data))) by eauto.
    cbn [orb fst snd]. split; [reflexivity |].
    rewrite Hdirty, Hdeleted.
    unfold YamlCollection.set_add, YamlCollection.set_delete, Js.includes.
    cbn [existsb app List.filter]. rewrite String.eqb_refl. cbn [negb List.filter existsb app].
    unfold YamlCollection.save.
    cbn [YamlCollection.hasChanges negb YamlCollection.deleted YamlCollection.save_deleted
           YamlCollection.sv_col YamlCollection.sv_disk YamlCollection.sv_ops].
    change (YamlCollection._getFilePath _ id) with path.
    unfold YamlCollection.unlinkSync. rewrite bool_decide_eq_false_2 by exact Hfree.
    unfold YamlCollection.exists_file. case_bool_decide as Hexists.
    + cbn [YamlCollection.save_dirty YamlCollection.sv_col YamlCollection.sv_disk
             YamlCollection.sv_ops YamlCollection.with_deleted YamlCollection.dirty].
      eexists. split; [reflexivity |].
      cbn [YamlCollection.sv_ops YamlCollection.sv_disk YamlCollection.sv_col
             YamlCollection.files YamlCollection.saved YamlCollection.items app].
      split; [| split].
      * intros name v [Hop | []]. discriminate.
      * apply lookup_delete_eq.
      * apply lookup_delete_eq.
    + cbn [YamlCollection.save_dirty YamlCollection.sv_col YamlCollection.sv_disk
             YamlCollection.sv_ops YamlCollection.with_deleted YamlCollection.dirty].
      eexists. split; [reflexivity |].
      cbn [YamlCollection.sv_ops YamlCollection.sv_disk YamlCollection.sv_col
             YamlCollection.files YamlCollection.saved YamlCollection.items].
      split; [| split].
      * intros name v [].
      * now apply eq_None_not_Some.
      * apply lookup_delete_eq.
  - set (c1 := fst (YamlCollection.delete c id)).
    assert (Hc1 : YamlCollection.filePaths c1 = YamlCollection.filePaths c
                  /\ YamlCollection.dirty c1 = []
                  /\ (YamlCollection.deleted c1 = [] \/ YamlCollection.deleted c1 = [id])).
    { subst c1. unfold YamlCollection.delete.
      destruct (_ || _); cbn [fst YamlCollection.filePaths YamlCollection.dirty
                                 YamlCollection.deleted].
      - rewrite Hdirty, Hdeleted. split; [reflexivity |]. split; [reflexivity |]. now right.
      - split; [reflexivity |]. split; [exact Hdirty |]. now left. }
    destruct Hc1 as [Hpaths [Hd1 Hx1]].
    destruct (set_pending c1 id data (or_introl Hd1) Hx1) as [Hd Hx].
    assert (Hsame : YamlCollection._getFilePath (YamlCollection.set c1 id data) id = path).
    { subst path. unfold YamlCollection._getFilePath.
      cbn [YamlCollection.set YamlCollection.filePaths]. now rewrite Hpaths. }
    assert (Hitem : YamlCollection.items (YamlCollection.set c1 id data) !! id = Some data)
      by (cbn; apply lookup_insert_eq).
    eexists. split.
    { apply (save_one_dirty (YamlCollection.set c1 id data) d id data now eq_refl Hd Hx
               Hitem Htruthy). rewrite Hsame. exact Hfree. }
    rewrite Hsame. cbn [YamlCollection.sv_ops YamlCollection.sv_disk YamlCollection.files].
    split; [reflexivity | apply lookup_insert_eq].
Qed.

Lemma loadFile_pending c d (id name : string) :
  YamlCollection.dirty (YamlCollection._loadFile c d id name) = YamlCollection.dirty c
  /\ YamlCollection.deleted (YamlCollection._loadFile c d id name) = YamlCollection.deleted c.
Proof.
  unfold YamlCollection._loadFile.
  destruct (YamlCollection.files d !! name) as [f |]; [| now split].
  destruct (YamlCollection.mtimeMs f >? _)%Z; [| now split].
  destruct (YamlCollection.content f); now split.
Qed.

Lemma get_pending c d (id : string) :
  YamlCollection.dirty (fst (YamlCollection.get c d id)) = YamlCollection.dirty c
  /\ YamlCollection.deleted (fst (YamlCollection.get c d id)) = YamlCollection.deleted c.
Proof.
  rewrite get_read_path. destruct (read_path c d id); cbn [fst];
    [apply loadFile_pending | now split].
Qed.

Lemma loadAll_pending c d :
  YamlCollection.dirty (YamlCollection.loadAll c d) = []
  /\ YamlCollection.deleted (YamlCollection.loadAll c d) = [].
Proof.
  unfold YamlCollection.loadAll.
  set (c0 := {| YamlCollection.items := _ |}).
  assert (Hloaded : forall l acc,
             YamlCollection.dirty
               (fold_left (fun acc f => YamlCollection._loadFile acc d (YamlCollection.id_of_file f) f)
                          l acc)
             = YamlCollection.dirty acc
             /\ YamlCollection.deleted
                  (fold_left (fun acc f => YamlCollection._loadFile acc d (YamlCollection.id_of_file f) f)
                             l acc)
                = YamlCollection.deleted acc).
  { induction l as [| f l IH]; intros acc; [now split |].
    cbn [fold_left]. destruct (IH (YamlCollection._loadFile acc d (YamlCollection.id_of_file f) f))
      as [-> ->]. apply loadFile_pending. }
  assert (Hforgot : forall current l acc,
             YamlCollection.dirty
               (fold_left (fun (acc : YamlCollection.collection V) id =>
                             if Js.includes current id then acc
                             else YamlCollection.forget acc id) l acc)
             = YamlCollection.dirty acc
             /\ YamlCollection.deleted
                  (fold_left (fun (acc : YamlCollection.collection V) id =>
                                if Js.includes current id then acc
                                else YamlCollection.forget acc id) l acc)
                = YamlCollection.deleted acc).
  { intros current. induction l as [| id l IH]; intros acc; [now split |].
    cbn [fold_left].
    destruct (IH (if Js.includes current id then acc else YamlCollection.forget acc id))
      as [-> ->].
    destruct (Js.includes current id); now split. }
  match goal with
  | |- YamlCollection.dirty (fold_left _ ?l ?acc) = _ /\ _ =>
      destruct (Hforgot (map YamlCollection.id_of_file (YamlCollection._scanFiles d)) l acc)
        as [-> ->]
  end.
  destruct (Hloaded (YamlCollection._scanFiles d) c0) as [-> ->]. now split.
Qed.

(** X4. [loadAll()] forgets every pending change: after it nothing is
    marked as dirty or deleted, and a [save()] that follows makes no file
    system call and leaves any directory as it is. *)
Theorem loadAll_discards_changes c d (d' : YamlCollection.disk V) (now : Z) :
  YamlCollection.dirty (YamlCollection.loadAll c d) = []
  /\ YamlCollection.deleted (YamlCollection.loadAll c d) = []
  /\ YamlCollection.save (YamlCollection.loadAll c d) d' now
     = (Ok tt, {| YamlCollection.sv_col := YamlCollection.loadAll c d;
                  YamlCollection.sv_disk := d'; YamlCollection.sv_ops := [] |}).
Proof.
  destruct (loadAll_pending c d) as [Hdirty Hdeleted].
  split; [exact Hdirty |]. split; [exact Hdeleted |].
  unfold YamlCollection.save. rewrite loadAll_hasChanges. reflexivity.
Qed.

End StoreChanges.


Lemma last_change_wins_witness :
  exists s,
    YamlCollection.save
      (YamlCollection.set (fst (YamlCollection.delete YamlCollection.new "a")) "a"
         (JsVal.Str "x")) no_files 1
    = (Ok tt, s)
    /\ YamlCollection.sv_ops s = [YamlCollection.WriteFile "a.yml" (JsVal.Str "x")].
Proof.
  assert (Hpath : YamlCollection._getFilePath (V := JsVal.value) YamlCollection.new "a" = "a.yml")
    by (vm_compute; reflexivity).
  assert (Hfree : YamlCollection._getFilePath (V := JsVal.value) YamlCollection.new "a"
                  ∉ YamlCollection.locked no_files)
    by (rewrite Hpath; apply not_elem_of_empty).
  destruct (last_change_wins YamlCollection.new no_files "a" (JsVal.Str "x") 1%Z
              eq_refl eq_refl eq_refl Hfree)
    as [_ [s [Hsave [Hops _]]]].
  exists s. split; [exact Hsave |]. rewrite Hpath in Hops. exact Hops.
Defined.

(** ** The collection store: reading and listing *)

Section StoreListing.
Context {V : Type}.
Implicit Types (c : YamlCollection.collection V) (d : YamlCollection.disk V).

(** X5. Reading a record twice in a row, with the directory as it is,
    gives the same document, and the second read leaves the cache as the
    first one left it. *)
Theorem get_twice c d (id : string) :
  YamlCollection.get (fst (YamlCollection.get c d id)) d id = YamlCollection.get c d id.
Proof. exact (get_idempotent c d id). Qed.

Lemma rev_string_acc (s acc : string) :
  Js.rev_string acc s = Js.rev_string "" s ++ acc.
Proof.
  revert acc. induction s as [| ch s IH]; intros acc; [reflexivity |].
  cbn [Js.rev_string]. rewrite (IH (String ch acc)), (IH (String ch "")).
  rewrite append_assoc. reflexivity.
Qed.

Lemma rev_string_app (a b : string) :
  Js.rev_string "" (a ++ b) = Js.rev_string "" b ++ Js.rev_string "" a.
Proof.
  induction a as [| ch a IH].
  - change ("" ++ b) with b. cbn [Js.rev_string]. now rewrite append_nil_r.
  - change (String ch a ++ b) with (String ch (a ++ b)). cbn [Js.rev_string].
    rewrite (rev_string_acc (a ++ b)), (rev_string_acc a), IH, append_assoc. reflexivity.
Qed.

Lemma startsWith_app (p s : string) : Js.startsWith (p ++ s) p = true.
Proof.
  induction p as [| ch p IH]; [now destruct s |].
  change (String ch p ++ s) with (String ch (p ++ s)). cbn [Js.startsWith].
  now rewrite Ascii.eqb_refl.
Qed.

Lemma endsWith_app (a b : string) : Js.endsWith (a ++ b) b = true.
Proof. unfold Js.endsWith. rewrite rev_string_app. apply startsWith_app. Qed.

Lemma length_append (a b : string) :
  String.length (a ++ b) = (String.length a + String.length b)%nat.
Proof.
  induction a as [| ch a IH]; [reflexivity |].
  change (String ch a ++ b) with (String ch (a ++ b)). cbn [String.length]. now rewrite IH.
Qed.

Lemma substring_prefix (a b : string) :
  String.substring 0 (String.length a) (a ++ b) = a.
Proof.
  induction a as [| ch a IH]; [now destruct b |].
  change (String ch a ++ b) with (String ch (a ++ b)). cbn [String.length String.substring].
  now rewrite IH.
Qed.

Lemma strip_last_app (a b : string) :
  YamlCollection.strip_last (String.length b) (a ++ b) = a.
Proof.
  unfold YamlCollection.strip_last. rewrite length_append.
  replace (String.length a + String.length b - String.length b)%nat with (String.length a)
    by lia.
  apply substring_prefix.
Qed.

Lemma id_of_yml (id : string) :
  id <> "" -> YamlCollection.id_of_file (id ++ ".yml") = id.
Proof.
  intros Hid. unfold YamlCollection.id_of_file.
  rewrite endsWith_app, length_append.
  assert (Hlen : (4 <? String.length id + String.length ".yml")%nat = true).
  { apply Nat.ltb_lt. destruct id; [contradiction | cbn; lia]. }
  rewrite Hlen. apply (strip_last_app id ".yml").
Qed.

Lemma id_of_yaml (id : string) :
  id <> "" -> YamlCollection.id_of_file (id ++ ".yaml") = id.
Proof.
  intros Hid. unfold YamlCollection.id_of_file.
  assert (Hyml : Js.endsWith (id ++ ".yaml") ".yml" = false).
  { unfold Js.endsWith. rewrite rev_string_app. reflexivity. }
  rewrite Hyml, endsWith_app, length_append.
  assert (Hlen : (5 <? String.length id + String.length ".yaml")%nat = true).
  { apply Nat.ltb_lt. destruct id; [contradiction | cbn; lia]. }
  rewrite Hlen. apply (strip_last_app id ".yaml").
Qed.

Lemma scanFiles_In d (name : string) :
  In name (YamlCollection._scanFiles d)
  <-> is_Some (YamlCollection.files d !! name)
      /\ (Js.endsWith name ".yml" = true \/ Js.endsWith name ".yaml" = true).
Proof.
  unfold YamlCollection._scanFiles. rewrite filter_In, orb_true_iff.
  rewrite in_map_iff. split.
  - intros [[[k f] [<- Hin]] Hext]. split; [| exact Hext].
    apply list_elem_of_In, elem_of_map_to_list in Hin. cbn. eauto.
  - intros [[f Hf] Hext]. split; [| exact Hext].
    exists (name, f). split; [reflexivity |].
    now apply list_elem_of_In, elem_of_map_to_list.
Qed.

(** X6. [list()] gives exactly the ids of the record files of the
    directory: a file [<id>.yml] or [<id>.yaml] with a non-empty [id] is
    listed under [id], and every id listed is the name, without its
    extension, of a file of the directory that ends in [.yml] or
    [.yaml]. *)
Theorem list_record_files d :
  (forall id, id <> "" ->
     is_Some (YamlCollection.files d !! (id ++ ".yml"))
     \/ is_Some (YamlCollection.files d !! (id ++ ".yaml")) ->
     In id (YamlCollection.list d))
  /\ (forall id, In id (YamlCollection.list d) ->
        exists name,
          is_Some (YamlCollection.files d !! name)
          /\ (Js.endsWith name ".yml" = true \/ Js.endsWith name ".yaml" = true)
          /\ YamlCollection.id_of_file name = id).
Proof.
  unfold YamlCollection.list. split.
  - intros id Hid [Hfile | Hfile]; apply in_map_iff.
    + exists (id ++ ".yml"). split; [now apply id_of_yml |].
      apply scanFiles_In. split; [exact Hfile | left; apply endsWith_app].
    + exists (id ++ ".yaml"). split; [now apply id_of_yaml |].
      apply scanFiles_In. split; [exact Hfile | right; apply endsWith_app].
  - intros id Hin. apply in_map_iff in Hin as [name [<- Hin]].
    apply scanFiles_In in Hin as [Hfile Hext]. now exists name.
Qed.

End StoreListing.

(** ** The FSM primitive on any table *)

Lemma map_set_keys (m : FSM.t) (a : string) (r : FSM.rule) :
  map fst (FSM.map_set m a r)
  = if Js.includes (map fst m) a then map fst m else (map fst m ++ [a])%list.
Proof.
  induction m as [| [a0 r0] m IH]; [reflexivity |].
  cbn [FSM.map_set map fst]. unfold Js.includes in *. cbn [existsb].
  destruct (String.eqb_spec a0 a) as [-> | Hne].
  - rewrite String.eqb_refl. reflexivity.
  - rewrite (proj2 (String.eqb_neq a a0)) by congruence.
    cbn [orb map fst]. rewrite IH.
    now destruct (existsb (String.eqb a) (map fst m)).
Qed.

Lemma NoDup_snoc (l : list string) (a : string) :
  List.NoDup l -> ~ In a l -> List.NoDup (l ++ [a]).
Proof.
  induction l as [| x l IH]; intros Hnd Hnotin.
  - repeat constructor. intros [].
  - inversion Hnd as [| ? ? Hx Hnd']; subst. cbn [app]. constructor.
    + intros Hin. apply in_app_or in Hin as [Hin | [<- | []]]; [contradiction |].
      apply Hnotin. now left.
    + apply IH; [exact Hnd' |]. intros Hin. apply Hnotin. now right.
Qed.

Lemma map_set_NoDup (m : FSM.t) (a : string) (r : FSM.rule) :
  List.NoDup (map fst m) -> List.NoDup (map fst (FSM.map_set m a r)).
Proof.
  intros Hnd. rewrite map_set_keys.
  destruct (Js.includes (map fst m) a) eqn:Hin; [exact Hnd |].
  apply NoDup_snoc; [exact Hnd |].
  intros Hk. apply includes_In in Hk. congruence.
Qed.

Lemma new_keys (transitions : list (string * string)) :
  List.NoDup (map fst (FSM.new transitions))
  /\ forall a, In a (map fst (FSM.new transitions)) -> In a (map fst transitions).
Proof.
  unfold FSM.new.
  assert (Hfold : forall ts (m : FSM.t),
             List.NoDup (map fst m) ->
             List.NoDup
               (map fst (fold_left (fun m '(action, r) => FSM.map_set m action (FSM.parse_rule r))
                                   ts m))
             /\ forall a,
                 In a (map fst (fold_left
                                  (fun m '(action, r) => FSM.map_set m action (FSM.parse_rule r))
                                  ts m)) ->
                 In a (map fst m) \/ In a (map fst ts)).
  { induction ts as [| [action rule] ts IH]; intros m Hnd; [split; auto |].
    cbn [fold_left].
    destruct (IH (FSM.map_set m action (FSM.parse_rule rule))
                 (map_set_NoDup m action _ Hnd)) as [Hkeys Hsub].
    split; [exact Hkeys |]. intros a Ha. apply Hsub in Ha as [Ha | Ha].
    - rewrite map_set_keys in Ha.
      destruct (Js.includes (map fst m) action); [now left |].
      apply in_app_or in Ha as [Ha | [<- | []]]; [now left | right; now left].
    - right. now right. }
  destruct (Hfold transitions [] (List.NoDup_nil _)) as [Hkeys Hsub].
  split; [exact Hkeys |]. intros a Ha. now destruct (Hsub a Ha) as [[] |].
Qed.

Lemma NoDup_filter_keys (m : FSM.t) (f : string * FSM.rule -> bool) :
  List.NoDup (map fst m) -> List.NoDup (map fst (List.filter f m)).
Proof.
  induction m as [| e m IH]; [intros _; constructor |].
  cbn [map List.filter]. intros Hnd. inversion Hnd as [| ? ? Hnotin Hnd']; subst.
  destruct (f e); [| now apply IH].
  cbn [map]. constructor; [| now apply IH].
  intros Hin. apply Hnotin. apply in_map_iff in Hin as [e' [<- Hin]].
  apply filter_In in Hin as [Hin _]. now apply in_map.
Qed.

(** X7. For an FSM built from any table of rules, [transition] and
    [validActions] agree: the transition of an action from a state
    succeeds exactly when [validActions] of that state lists the action;
    the list names every action at most once, and only actions of the
    table. *)
Theorem fsm_transition_validActions (transitions : list (string * string)) (s a : string) :
  let fsm := FSM.new transitions in
  (FSM.success (FSM.transition fsm s a) = true <-> In a (FSM.validActions fsm s))
  /\ List.NoDup (FSM.validActions fsm s)
  /\ (In a (FSM.validActions fsm s) -> In a (map fst transitions)).
Proof.
  intros fsm. destruct (new_keys transitions) as [Hkeys Hsub]. fold fsm in Hkeys, Hsub.
  split; [| split].
  - rewrite transition_success, validActions_In. split.
    + intros [r [Hget Hin]]. exists r. split; [now apply map_get_In | exact Hin].
    + intros [r [Hin Hs]]. exists r. split; [now apply In_map_get | exact Hs].
  - unfold FSM.validActions. now apply NoDup_filter_keys.
  - intros Hin. apply validActions_In in Hin as [r [Hin _]].
    apply Hsub. now apply (in_map fst) in Hin.
Qed.

(** ** Session transitions that succeed *)

(** X8. A transition the FSM accepts is persisted. When the session file
    can be written, [SessionModel.transition] returns success with the old
    and the new state, makes the session file hold the session with the
    new status and the record of the transition (action, from, to and
    time), leaves every other file as it is, and the session read next is
    that session. *)
Theorem transition_persists (st : SessionModel.store) (id a : string) (session : Session) :
  let s := SessionModel.status_or_pending session in
  let r := FSM.transition sessionFSM s a in
  let path := YamlCollection._getFilePath
                (SessionModel.col (fst (SessionModel.load (SessionModel.loadAll st) id))) id in
  let session' :=
    set_status session (FSM.res_to r)
      {| tr_action := a; tr_from := s; tr_to := FSM.res_to r;
         tr_timestamp := SessionModel.isoNow st |} in
  snd (SessionModel.load (SessionModel.loadAll st) id) = Some session ->
  FSM.success r = true ->
  path ∉ YamlCollection.locked (SessionModel.dsk st) ->
  Js.nonempty path = true ->
  exists st',
    SessionModel.transition st id a
    = (Ok {| SessionModel.success := true; SessionModel.oldState := Some s;
             SessionModel.newState := FSM.res_to r; SessionModel.error := None |}, st')
    /\ YamlCollection.files (SessionModel.dsk st') !! path
       = Some {| YamlCollection.content := Some session';
                 YamlCollection.mtimeMs := SessionModel.now st |}
    /\ (forall name, name <> path ->
          YamlCollection.files (SessionModel.dsk st') !! name
          = YamlCollection.files (SessionModel.dsk st) !! name)
    /\ snd (SessionModel.load st' id) = Some session'.
Proof.
  intros s r path session' Hload Hsuccess Hfree Hpath.
  unfold SessionModel.transition.
  pose proof (load_disk (SessionModel.loadAll st) id) as Hdisk.
  assert (Hpending : YamlCollection.dirty
                       (SessionModel.col (fst (SessionModel.load (SessionModel.loadAll st) id)))
                     = []
                     /\ YamlCollection.deleted
                          (SessionModel.col (fst (SessionModel.load (SessionModel.loadAll st) id)))
                        = []).
  { unfold SessionModel.load, SessionModel.loadAll. cbn [SessionModel.col SessionModel.dsk
                                                           SessionModel.with_col].
    pose proof (get_pending (YamlCollection.loadAll (SessionModel.col st) (SessionModel.dsk st))
                            (SessionModel.dsk st) id) as [Hd Hx].
    destruct (YamlCollection.get _ _ id) as [c v]. cbn [fst SessionModel.col SessionModel.with_col] in *.
    rewrite Hd, Hx. apply loadAll_pending. }
  assert (Hclock : SessionModel.now (fst (SessionModel.load (SessionModel.loadAll st) id))
                   = SessionModel.now st
                   /\ SessionModel.isoNow (fst (SessionModel.load (SessionModel.loadAll st) id))
                      = SessionModel.isoNow st).
  { unfold SessionModel.load, SessionModel.loadAll.
    destruct (YamlCollection.get _ _ id) as [c v]. now split. }
  destruct (SessionModel.load (SessionModel.loadAll st) id) as [s2 found] eqn:Hl.
  cbn [fst snd] in *. subst found. destruct Hpending as [Hdirty Hdeleted].
  destruct Hclock as [Hnow Hiso]. cbn [SessionModel.loadAll SessionModel.dsk] in Hdisk.
  fold s. fold r. rewrite Hsuccess. cbn [negb]. rewrite Hiso.
  assert (Hfrom : FSM.res_from r = s).
  { subst r. unfold FSM.transition. destruct (FSM.map_get sessionFSM a); [| reflexivity].
    now destruct (negb _). }
  rewrite Hfrom. fold session'.
  set (c2 := YamlCollection.set (SessionModel.col s2) id session').
  destruct (set_pending (SessionModel.col s2) id session' (or_introl Hdirty)
              (or_introl Hdeleted)) as [Hd Hx].
  assert (Hitem : YamlCollection.items c2 !! id = Some session')
    by (subst c2; cbn; apply lookup_insert_eq).
  assert (Hfree2 : YamlCollection._getFilePath c2 id ∉ YamlCollection.locked (SessionModel.dsk s2)).
  { rewrite Hdisk. exact Hfree. }
  pose proof (save_one_dirty c2 (SessionModel.dsk s2) id session' (SessionModel.now s2)
                eq_refl Hd Hx Hitem eq_refl Hfree2) as Hsave.
  change (YamlCollection._getFilePath c2 id) with path in Hsave.
  unfold SessionModel.save, SessionModel.collection_save.
  cbn [SessionModel.with_col SessionModel.col SessionModel.dsk SessionModel.now
         SessionModel.isoNow].
  fold c2. rewrite Hsave.
  cbn [YamlCollection.sv_col YamlCollection.sv_disk SessionModel.col SessionModel.dsk
         SessionModel.now SessionModel.isoNow].
  unfold YamlCollection.save at 1. cbn [YamlCollection.hasChanges negb].
  cbn [YamlCollection.sv_col YamlCollection.sv_disk].
  eexists. split; [reflexivity |].
  cbn [SessionModel.dsk YamlCollection.files].
  split; [rewrite Hnow; apply lookup_insert_eq |].
  split; [intros name Hname; rewrite Hdisk; apply lookup_insert_ne; congruence |].
  unfold SessionModel.load. cbn [SessionModel.col SessionModel.dsk].
  unfold YamlCollection.get. cbn [YamlCollection.filePaths].
  rewrite lookup_insert_eq, Hpath.
  unfold YamlCollection._loadFile. cbn [YamlCollection.files].
  rewrite lookup_insert_eq. cbn [YamlCollection.mtimeMs YamlCollection.content].
  destruct (SessionModel.now s2 >? _)%Z;
    cbn [snd SessionModel.with_col YamlCollection.items]; subst c2;
    cbn [YamlCollection.set YamlCollection.items]; apply lookup_insert_eq.
Qed.

Lemma transition_persists_witness :
  exists st',
    SessionModel.transition (AgentLoop.store S1.world) "1" "start"
    = (Ok {| SessionModel.success := true; SessionModel.oldState := Some "pending";
             SessionModel.newState := Some "running"; SessionModel.error := None |}, st')
    /\ snd (SessionModel.load st' "1")
       = Some (set_status S1.session (Some "running")
                 {| tr_action := "start"; tr_from := "pending"; tr_to := Some "running";
                    tr_timestamp := "2026-01-01T00:00:02.000Z" |}).
Proof.
  assert (Hload : snd (SessionModel.load (SessionModel.loadAll (AgentLoop.store S1.world)) "1")
                  = Some S1.session)
    by (vm_compute; reflexivity).
  assert (Hpath : YamlCollection._getFilePath
                    (SessionModel.col
                       (fst (SessionModel.load (SessionModel.loadAll (AgentLoop.store S1.world))
                               "1"))) "1" = "1.yml")
    by (vm_compute; reflexivity).
  assert (Hfree : YamlCollection._getFilePath
                    (SessionModel.col
                       (fst (SessionModel.load (SessionModel.loadAll (AgentLoop.store S1.world))
                               "1"))) "1"
                  ∉ YamlCollection.locked (SessionModel.dsk (AgentLoop.store S1.world)))
    by (rewrite Hpath; apply not_elem_of_empty).
  assert (Hname : Js.nonempty
                    (YamlCollection._getFilePath
                       (SessionModel.col
                          (fst (SessionModel.load
                                  (SessionModel.loadAll (AgentLoop.store S1.world)) "1"))) "1")
                  = true)
    by (rewrite Hpath; reflexivity).
  destruct (transition_persists (AgentLoop.store S1.world) "1" "start" S1.session
              Hload ltac:(vm_compute; reflexivity) Hfree Hname)
    as [st' [Htransition [_ [_ Hnext]]]].
  exists st'. split; [exact Htransition | exact Hnext].
Defined.

(** ** The allowlist: rules that do not count, and the split at operators *)

Section AllowlistMore.
Variable RegExp : string -> string -> option (string -> bool).

Lemma existsb_map_checks {A B : Type} (f : B -> bool) (g : A -> B) (l : list A) :
  existsb f (map g l) = existsb (fun x => f (g x)) l.
Proof. induction l as [| x l IH]; [reflexivity |]. cbn. now rewrite IH. Qed.

Lemma forallb_map_checks {A B : Type} (f : B -> bool) (g : A -> B) (l : list A) :
  forallb f (map g l) = forallb (fun x => f (g x)) l.
Proof. induction l as [| x l IH]; [reflexivity |]. cbn. now rewrite IH. Qed.

(** The verdict of [checkCommand] as a function of the verdicts of the
    single checks. *)
Lemma checkCommand_approved_eq (commandLine : string) (allowlist : Allowlist.t) :
  Allowlist.cc_approved (Allowlist.checkCommand RegExp commandLine allowlist)
  = negb (Allowlist.denied (Allowlist.checkSingleCommand RegExp commandLine allowlist true)
          || existsb (fun cmd => Allowlist.denied
                                   (Allowlist.checkSingleCommand RegExp cmd allowlist false))
                     (Allowlist.parseCommandLine commandLine))
    && ((0 <? length (Allowlist.parseCommandLine commandLine))%nat
        && forallb (fun cmd => Allowlist.approved
                                 (Allowlist.checkSingleCommand RegExp cmd allowlist false))
                   (Allowlist.parseCommandLine commandLine)
        || Allowlist.approved (Allowlist.checkSingleCommand RegExp commandLine allowlist true)).
Proof.
  unfold Allowlist.checkCommand. cbn [Allowlist.cc_approved].
  rewrite existsb_map_checks, forallb_map_checks, length_map. reflexivity.
Qed.

Lemma check_loop_without_null (command : string) (full : bool) (entries : Allowlist.t) :
  forall approved matchedRule matchedRule',
    fst (Allowlist.check_loop RegExp command full entries approved matchedRule)
    = fst (Allowlist.check_loop RegExp command full (without_null entries) approved
             matchedRule').
Proof.
  induction entries as [| [pattern value] rest IH]; intros approved matchedRule matchedRule';
    [reflexivity |].
  rewrite check_loop_step. unfold without_null. cbn [List.filter snd].
  fold (without_null rest).
  destruct value as [b | | approve m |]; cbn [AllowlistRules.verdict].
  - rewrite check_loop_step. cbn [AllowlistRules.verdict].
    destruct (_ && _); [| apply IH]. destruct b; [apply IH | reflexivity].
  - destruct (_ && _); apply IH.
  - rewrite check_loop_step. cbn [AllowlistRules.verdict].
    destruct (_ && _); [| apply IH]. destruct approve as [[|] |]; try apply IH. reflexivity.
  - rewrite check_loop_step. cbn [AllowlistRules.verdict].
    destruct (_ && _); apply IH.
Qed.

Lemma single_without_null (command : string) (allowlist : Allowlist.t) (full : bool) :
  Allowlist.approved (Allowlist.checkSingleCommand RegExp command allowlist full)
  = Allowlist.approved (Allowlist.checkSingleCommand RegExp command (without_null allowlist) full)
  /\ Allowlist.denied (Allowlist.checkSingleCommand RegExp command allowlist full)
     = Allowlist.denied (Allowlist.checkSingleCommand RegExp command (without_null allowlist) full).
Proof.
  unfold Allowlist.checkSingleCommand.
  pose proof (check_loop_without_null command full allowlist None None None) as Hfst.
  destruct (Allowlist.check_loop RegExp command full allowlist None None) as [a m].
  destruct (Allowlist.check_loop RegExp command full (without_null allowlist) None None)
    as [a' m'].
  cbn [fst] in Hfst. subst a'. now split.
Qed.

(** X9. Entries of the allowlist whose value is [null] do not count: the
    single check of any command, and the verdict of [checkCommand] on any
    command line, are those of the allowlist without its [null]
    entries. *)
Theorem null_rules_do_not_count (commandLine : string) (allowlist : Allowlist.t) :
  (forall command full,
      Allowlist.approved (Allowlist.checkSingleCommand RegExp command allowlist full)
      = Allowlist.approved
          (Allowlist.checkSingleCommand RegExp command (without_null allowlist) full)
      /\ Allowlist.denied (Allowlist.checkSingleCommand RegExp command allowlist full)
         = Allowlist.denied
             (Allowlist.checkSingleCommand RegExp command (without_null allowlist) full))
  /\ Allowlist.cc_approved (Allowlist.checkCommand RegExp commandLine allowlist)
     = Allowlist.cc_approved (Allowlist.checkCommand RegExp commandLine (without_null allowlist)).
Proof.
  split; [intros command full; apply single_without_null |].
  rewrite !checkCommand_approved_eq.
  destruct (single_without_null commandLine allowlist true) as [-> ->].
  f_equal; [f_equal; f_equal | f_equal; f_equal].
  - induction (Allowlist.parseCommandLine commandLine) as [| cmd l IH]; [reflexivity |].
    cbn [existsb]. destruct (single_without_null cmd allowlist false) as [_ ->].
    now rewrite IH.
  - induction (Allowlist.parseCommandLine commandLine) as [| cmd l IH]; [reflexivity |].
    cbn [forallb]. destruct (single_without_null cmd allowlist false) as [-> _].
    now rewrite IH.
Qed.

Lemma check_loop_never_approves (command : string) (full : bool) (entries : Allowlist.t) :
  (forall rule, In rule entries -> AllowlistRules.verdict (snd rule) <> Some true) ->
  forall approved matchedRule,
    approved <> Some true ->
    fst (Allowlist.check_loop RegExp command full entries approved matchedRule) <> Some true.
Proof.
  induction entries as [| [pattern value] rest IH]; intros Hrules approved matchedRule Hnot;
    [exact Hnot |].
  assert (Hvalue : AllowlistRules.verdict value <> Some true)
    by (apply (Hrules (pattern, value)); now left).
  assert (Hrest : forall rule, In rule rest -> AllowlistRules.verdict (snd rule) <> Some true)
    by (intros rule Hin; apply Hrules; now right).
  rewrite check_loop_step.
  destruct (_ && _); [| now apply IH].
  destruct value as [b | | approve m |]; cbn [AllowlistRules.verdict] in *.
  - destruct b; [congruence | cbn; discriminate].
  - now apply IH.
  - destruct approve as [[|] |]; [congruence | cbn; discriminate | now apply IH].
  - now apply IH.
Qed.

(** X10. No approval without an approving rule: when no entry of the
    allowlist has the value [true] or [approve: true], [checkCommand]
    approves no command line, whatever the patterns match. The empty
    allowlist is the first case. *)
Theorem no_approval_without_approving_rule (commandLine : string) (allowlist : Allowlist.t) :
  (forall rule, In rule allowlist -> AllowlistRules.verdict (snd rule) <> Some true) ->
  Allowlist.cc_approved (Allowlist.checkCommand RegExp commandLine allowlist) = false.
Proof.
  intros Hrules.
  assert (Hsingle : forall command full,
            Allowlist.approved (Allowlist.checkSingleCommand RegExp command allowlist full)
            = false).
  { intros command full. unfold Allowlist.checkSingleCommand.
    pose proof (check_loop_never_approves command full allowlist Hrules None None
                  ltac:(discriminate)) as Hnot.
    destruct (Allowlist.check_loop RegExp command full allowlist None None) as [[[|] |] m];
      cbn [fst Allowlist.approved] in *; congruence. }
  rewrite checkCommand_approved_eq, Hsingle.
  destruct (Allowlist.parseCommandLine commandLine) as [| cmd l].
  - cbn. apply andb_false_r.
  - cbn [forallb]. rewrite Hsingle. cbn. apply andb_false_r.
Qed.

End AllowlistMore.

Lemma no_approval_without_approving_rule_witness :
  Allowlist.cc_approved
    (Allowlist.checkCommand (fun _ _ => None) "rm -rf /"
       [("rm", Allowlist.RBool false); ("ls", Allowlist.RNull)]) = false.
Proof.
  apply no_approval_without_approving_rule.
  intros rule [<- | [<- | []]]; discriminate.
Defined.

(** *** parseCommandLine at the operators *)

Lemma all_chars_app (p : ascii -> bool) (a b : string) :
  Allowlist.all_chars p (a ++ b) = Allowlist.all_chars p a && Allowlist.all_chars p b.
Proof.
  induction a as [| ch a IH]; [reflexivity |].
  change (String ch a ++ b) with (String ch (a ++ b)). cbn [Allowlist.all_chars].
  rewrite IH. now rewrite andb_assoc.
Qed.

(** A text without [$], backquote, [<] and [>] holds no substitution. *)
Lemma inline_matches_none (open : string) (close : ascii) (first : ascii) (tail : string) :
  open = String first tail ->
  forall s skip,
    Allowlist.all_chars (fun c => negb (Ascii.eqb c first)) s = true ->
    Allowlist.inline_matches open close skip s = [].
Proof.
  intros ->. induction s as [| ch s IH]; intros skip Hs; [reflexivity |].
  cbn [Allowlist.all_chars] in Hs. apply andb_prop in Hs as [Hch Hs].
  cbn [Allowlist.inline_matches]. destruct skip as [| k]; [| now apply IH].
  cbn [Js.startsWith]. apply negb_true_iff in Hch. rewrite Hch. now apply IH.
Qed.

Lemma plain_not (c first : ascii) :
  In first ["|"; "&"; ";"; "$"; "`"; "<"; ">"]%char ->
  plain_char c = true -> Ascii.eqb c first = false.
Proof.
  unfold plain_char. intros Hin Hplain. apply andb_prop in Hplain as [_ Hplain].
  apply negb_true_iff in Hplain.
  destruct (Ascii.eqb c first) eqn:Heq; [| reflexivity].
  assert (existsb (Ascii.eqb c) ["|"; "&"; ";"; "$"; "`"; "<"; ">"]%char = true)
    by (apply existsb_exists; eauto).
  congruence.
Qed.

Lemma split_operators_plain (p : string) :
  Allowlist.all_chars plain_char p = true ->
  forall cur t,
    Allowlist.split_operators 0 cur (p ++ t) = Allowlist.split_operators 0 (cur ++ p) t.
Proof.
  induction p as [| ch p IH]; intros Hp cur t.
  - now rewrite append_nil_r.
  - cbn [Allowlist.all_chars] in Hp. apply andb_prop in Hp as [Hch Hp].
    change (String ch p ++ t) with (String ch (p ++ t)).
    cbn [Allowlist.split_operators Js.startsWith].
    rewrite (plain_not ch "|"%char), (plain_not ch "&"%char), (plain_not ch ";"%char);
      try exact Hch; try (cbn; tauto).
    cbn [orb]. rewrite IH by exact Hp. rewrite append_assoc. reflexivity.
Qed.

Lemma split_operators_operator (op : string) (ch : ascii) (t cur : string) :
  In op operators ->
  plain_char ch = true ->
  Allowlist.split_operators 0 cur (op ++ String ch t)
  = cur :: Allowlist.split_operators 0 "" (String ch t).
Proof.
  intros Hop Hch.
  pose proof (plain_not ch "|"%char ltac:(cbn; tauto) Hch) as Hbar.
  destruct Hop as [<- | [<- | [<- | [<- | []]]]]; try reflexivity.
  change ("|" ++ String ch t) with (String "|" (String ch t)).
  cbn [Allowlist.split_operators Js.startsWith].
  rewrite Hbar. reflexivity.
Qed.

Lemma trim_head (p : string) :
  Js.trim p <> "" -> exists ch rest, p = String ch rest.
Proof. destruct p as [| ch rest]; [intros Hne; now elim Hne | eauto]. Qed.

(** X11. [parseCommandLine] splits a command line at the operators [||],
    [&&], [;] and [|]: for commands that hold no operator character and
    no substitution and are not blank, chained by any of these operators,
    the sub-commands are the commands, trimmed, in order; in particular a
    command alone is its own single sub-command. *)
Theorem parseCommandLine_pipeline (first : string) (rest : list (string * string)) :
  Forall (fun p => Allowlist.all_chars plain_char p = true /\ Js.trim p <> "")
         (first :: map snd rest) ->
  Forall (fun op => In op operators) (map fst rest) ->
  Allowlist.parseCommandLine (pipeline first rest) = map Js.trim (first :: map snd rest).
Proof.
  intros Hpieces Hops.
  assert (Hsplit : forall rest first cur,
             Forall (fun p => Allowlist.all_chars plain_char p = true /\ Js.trim p <> "")
                    (first :: map snd rest) ->
             Forall (fun op => In op operators) (map fst rest) ->
             Allowlist.split_operators 0 cur (pipeline first rest)
             = (cur ++ first) :: map snd rest).
  { clear. induction rest as [| [op next] rest IH]; intros first cur Hpieces Hops.
    - cbn [pipeline map]. inversion Hpieces as [| ? ? [Hplain _] _]; subst.
      rewrite <- (append_nil_r first) at 1. rewrite split_operators_plain by exact Hplain.
      reflexivity.
    - cbn [pipeline map fst snd] in *.
      inversion Hpieces as [| ? ? [Hplain _] Hrest]; subst.
      inversion Hops as [| ? ? Hop Hops']; subst.
      rewrite split_operators_plain by exact Hplain.
      inversion Hrest as [| ? ? [Hnext Hblank] _]; subst.
      destruct (trim_head next Hblank) as [ch [tail ->]].
      assert (Hch : plain_char ch = true)
        by (cbn [Allowlist.all_chars] in Hnext; now apply andb_prop in Hnext as [Hch _]).
      assert (Hshape : exists t, pipeline (String ch tail) rest = String ch t).
      { destruct rest as [| [op' next'] rest']; cbn [pipeline]; eauto. }
      destruct Hshape as [t Ht]. rewrite Ht.
      rewrite split_operators_operator by assumption. rewrite <- Ht.
      rewrite (IH (String ch tail) "" Hrest Hops'). reflexivity. }
  assert (Hline : forall c, In c ["$"; "`"; "<"; ">"]%char ->
            Allowlist.all_chars (fun x => negb (Ascii.eqb x c)) (pipeline first rest) = true).
  { intros c Hc. revert first Hpieces Hops.
    induction rest as [| [op next] rest IH]; intros first Hpieces Hops.
    - cbn [pipeline]. inversion Hpieces as [| ? ? [Hplain _] _]; subst.
      clear - Hplain Hc. induction first as [| ch first IH]; [reflexivity |].
      cbn [Allowlist.all_chars] in *. apply andb_prop in Hplain as [Hch Hplain].
      rewrite (plain_not ch c) by (try exact Hch; cbn in *; tauto). cbn [negb andb].
      now apply IH.
    - cbn [pipeline map fst snd] in *.
      inversion Hpieces as [| ? ? [Hplain _] Hrest]; subst.
      inversion Hops as [| ? ? Hop Hops']; subst.
      rewrite !all_chars_app. rewrite (IH next Hrest Hops'), andb_true_r.
      apply andb_true_intro. split.
      + clear - Hplain Hc. induction first as [| ch first IH]; [reflexivity |].
        cbn [Allowlist.all_chars] in *. apply andb_prop in Hplain as [Hch Hplain].
        rewrite (plain_not ch c) by (try exact Hch; cbn in *; tauto). cbn [negb andb].
        now apply IH.
      + destruct Hc as [<- | [<- | [<- | [<- | []]]]];
          destruct Hop as [<- | [<- | [<- | [<- | []]]]]; reflexivity. }
  unfold Allowlist.parseCommandLine.
  rewrite (inline_matches_none "$(" ")" "$" "(" eq_refl) by (apply Hline; cbn; tauto).
  rewrite (inline_matches_none "`" "`" "`" "" eq_refl) by (apply Hline; cbn; tauto).
  rewrite (inline_matches_none "<(" ")" "<" "(" eq_refl) by (apply Hline; cbn; tauto).
  rewrite (inline_matches_none ">(" ")" ">" "(" eq_refl) by (apply Hline; cbn; tauto).
  cbn [app]. change (map Js.trim []) with (@nil string). cbn [app].
  rewrite (Hsplit rest first "" Hpieces Hops).
  change ("" ++ first) with first.
  generalize dependent (first :: map snd rest). clear.
  intros pieces Hpieces. induction Hpieces as [| p l [_ Hblank] _ IH]; [reflexivity |].
  cbn [map List.filter]. destruct (Js.trim p) eqn:Htrim; [contradiction |].
  cbn [Js.nonempty]. now rewrite IH.
Qed.

Lemma parseCommandLine_pipeline_witness :
  Allowlist.parseCommandLine "cd /tmp && ls -la | wc -l; echo done"
  = ["cd /tmp"; "ls -la"; "wc -l"; "echo done"].
Proof.
  apply (parseCommandLine_pipeline "cd /tmp "
           [("&&", " ls -la "); ("|", " wc -l"); (";", " echo done")]).
  - repeat constructor; discriminate.
  - repeat constructor; cbn; tauto.
Defined.

(** ** The bridge: tool calls that fail, the catalog, answers to the host *)

Section ToolCallFailures.
Context {W : Type}.
Variable isContainer : bool.
Variable pluginsRegistry : PluginsRegistry.
Variable dslRegistry : gmap string (Bridge.handler W).
Variable TypeError_message : JsVal.value -> string -> string.
Variable sendToHost : Bridge.tool_call -> Bridge.state W -> throws JsVal.value * Bridge.state W.

Lemma get_or_create_entry (message : Bridge.tool_call) (s : Bridge.state W) :
  Bridge.toolCallStates (snd (Bridge.get_or_create message s)) !! Bridge.m_toolCallId message
  = Some (fst (Bridge.get_or_create message s)).
Proof.
  unfold Bridge.get_or_create.
  destruct (Bridge.toolCallStates s !! Bridge.m_toolCallId message) as [entry |] eqn:Hentry.
  - exact Hentry.
  - cbn [fst snd Bridge.with_toolCallStates Bridge.toolCallStates].
    apply lookup_insert_eq.
Qed.

(** X12. The failures of a tool call executed in the process. For a name
    that is not registered the result is the FAILURE [Tool <name> not
    found], and the entry of the call stays in the map of tool call
    states. The call itself throws exactly when the handler throws
    [undefined] or [null], or a value whose message has no text: the
    [catch] block reads the message of what it caught and puts it in a
    template literal. When the handler throws any other value, the
    result is the FAILURE [Tool execution error: ] followed by the
    message of that value, the entry of the call is removed, and the
    bridge leaves every other entry as the handler left it. *)
Theorem local_tool_call_failures (message : Bridge.tool_call) (ctx : Bridge.context)
        (s : Bridge.state W) :
  let id := Bridge.m_toolCallId message in
  let entry := entry_at_call message s in
  let s1 := state_at_call message s in
  let call_context :=
    received message (Bridge.e_state entry) (Bridge.e_externalData entry)
             (Bridge.ctx_procId ctx) in
  let handleToolCall :=
    Bridge.handleToolCall isContainer pluginsRegistry dslRegistry TypeError_message
                          sendToHost in
  isContainer
  && requiresHostExecution (Bridge.findToolDefinition pluginsRegistry
                              (Bridge.m_toolName message)) = false ->
  (dslRegistry !! Bridge.m_toolName message = None ->
   handleToolCall message ctx s
   = (Ok (JsVal.Obj [("status", JsVal.Str "failure");
                     ("error", JsVal.Str ("Tool " ++ Bridge.m_toolName message
                                          ++ " not found"))]), s1)
   /\ Bridge.toolCallStates s1 !! id = Some entry)
  /\ ((exists name text s', handleToolCall message ctx s = (Throw name text, s'))
      <-> exists h e,
            dslRegistry !! Bridge.m_toolName message = Some h
            /\ Bridge.o_result (h (Bridge.m_args message) call_context s1) = Bridge.Thrown e
            /\ (e = JsVal.Undefined \/ e = JsVal.Null
                \/ Text.printable (JsVal.get_opt e "message") = false))
  /\ (forall h e,
         dslRegistry !! Bridge.m_toolName message = Some h ->
         Bridge.o_result (h (Bridge.m_args message) call_context s1) = Bridge.Thrown e ->
         e <> JsVal.Undefined -> e <> JsVal.Null ->
         Text.printable (JsVal.get_opt e "message") = true ->
         exists s',
           handleToolCall message ctx s
           = (Ok (JsVal.Obj [("status", JsVal.Str "failure");
                             ("error", JsVal.Str ("Tool execution error: "
                                                  ++ Text.of_value (JsVal.get_opt e "message")))]),
              s')
           /\ (forall text,
                  JsVal.get_opt e "message" = JsVal.Str text ->
                  handleToolCall message ctx s
                  = (Ok (JsVal.Obj [("status", JsVal.Str "failure");
                                    ("error", JsVal.Str ("Tool execution error: " ++ text))]),
                     s'))
           /\ Bridge.toolCallStates s' !! id = None
           /\ forall id', id' <> id ->
                Bridge.toolCallStates s' !! id'
                = Bridge.toolCallStates
                    (Bridge.o_state (h (Bridge.m_args message) call_context s1)) !! id').
Proof.
  intros id entry s1 call_context handleToolCall Hlocal.
  pose proof (get_or_create_entry message s) as Hentry.
  subst handleToolCall. unfold Bridge.handleToolCall, Bridge.executeToolLocally.
  rewrite get_or_create_at_call in *. cbn [fst snd] in Hentry.
  fold id in Hentry. fold entry in Hentry |- *. fold s1 in Hentry |- *.
  rewrite Hlocal. unfold Bridge.handler in *.
  change (Bridge.tool_context message ctx entry) with call_context.
  split; [| split].
  - intros Hnone. rewrite Hnone. split; [reflexivity | exact Hentry].
  - destruct (dslRegistry !! Bridge.m_toolName message) as [h |] eqn:Hh.
    + unfold Bridge.complete_tool_call.
      destruct (Bridge.o_result (h (Bridge.m_args message) call_context s1))
        as [result | e] eqn:Hresult.
      * split.
        -- intros [name [text [s' Hthrow]]]. exfalso.
           unfold call_context, received, Text.template in Hthrow.
           cbn [Bridge.ctx_toolCallId Text.printable] in Hthrow.
           destruct result; try discriminate Hthrow;
             repeat match type of Hthrow with
                    | context [if ?b then _ else _] => destruct b
                    | context [match ?m !! ?k with Some _ => _ | None => _ end] =>
                        destruct (m !! k)
                    end;
             discriminate Hthrow.
        -- intros [h' [e [Hh' [Hthrown _]]]]. injection Hh' as <-.
           rewrite Hresult in Hthrown. discriminate Hthrown.
      * unfold Text.template. split.
        -- intros [name [text [s' Hthrow]]]. exists h, e.
           split; [reflexivity |]. split; [exact Hresult |].
           destruct (Text.printable (JsVal.get_opt e "message")); [| tauto].
           destruct e; try discriminate Hthrow; tauto.
        -- intros [h' [e' [Hh' [Hthrown Hcase]]]]. injection Hh' as <-.
           rewrite Hresult in Hthrown. injection Hthrown as <-.
           destruct Hcase as [-> | [-> | Hprintable]];
             [eexists _, _, _; reflexivity | eexists _, _, _; reflexivity |].
           rewrite Hprintable. destruct e; eexists _, _, _; reflexivity.
    + split.
      * intros [name [text [s' Hthrow]]]. discriminate Hthrow.
      * intros [h [e [Hh' _]]]. discriminate Hh'.
  - intros h e Hh Hthrow Hu Hn Hprintable. rewrite Hh.
    unfold Bridge.complete_tool_call. rewrite Hthrow.
    assert (Hcaught : forall A (a b : A),
               match e with
               | JsVal.Undefined | JsVal.Null => a
               | _ => b
               end = b).
    { intros A a b. destruct e; try reflexivity; [now exfalso; apply Hu | now exfalso; apply Hn]. }
    rewrite Hcaught. unfold Text.template. rewrite Hprintable.
    eexists. split; [reflexivity |].
    split; [intros text ->; reflexivity |].
    unfold call_context, received.
    cbn [Bridge.ctx_toolCallId Bridge.delete_entry
           Bridge.with_toolCallStates Bridge.toolCallStates].
    split; [apply lookup_delete_eq |].
    intros id' Hne. apply lookup_delete_ne. intros Heq. apply Hne. now rewrite <- Heq.
Qed.

End ToolCallFailures.

(** In the child, the tool [boom] throws an error, of which the call
    returns the message in a FAILURE; the tool [odd] throws a value whose
    message has no text, and the call throws. *)
Lemma local_tool_call_failures_witness :
  (exists s',
      Bridge.handleToolCall true [] odd_tools engine_TypeError host_unreachable
                            (call "call_1" "boom") no_context child_process
      = (Ok (JsVal.Obj [("status", JsVal.Str "failure");
                        ("error", JsVal.Str "Tool execution error: boom")]), s')
      /\ Bridge.toolCallStates s' !! "call_1" = None)
  /\ exists name text s',
      Bridge.handleToolCall true [] odd_tools engine_TypeError host_unreachable
                            (call "call_1" "odd") no_context child_process
      = (Throw name text, s').
Proof.
  split.
  - assert (Hh : odd_tools !! Bridge.m_toolName (call "call_1" "boom") = Some throwing_tool)
      by (vm_compute; reflexivity).
    destruct (local_tool_call_failures true [] odd_tools engine_TypeError host_unreachable
                (call "call_1" "boom") no_context child_process eq_refl)
      as [_ [_ Hthrows]].
    destruct (Hthrows throwing_tool (Error_object "boom") Hh eq_refl
                ltac:(discriminate) ltac:(discriminate) eq_refl)
      as [s' [_ [Hcall [Hgone _]]]].
    exists s'. split; [exact (Hcall "boom" eq_refl) | exact Hgone].
  - assert (Hh : odd_tools !! Bridge.m_toolName (call "call_1" "odd")
                 = Some throwing_no_text)
      by (vm_compute; reflexivity).
    destruct (local_tool_call_failures true [] odd_tools engine_TypeError host_unreachable
                (call "call_1" "odd") no_context child_process eq_refl)
      as [_ [Hthrows _]].
    apply Hthrows. exists throwing_no_text, no_text.
    split; [exact Hh |]. split; [reflexivity |]. right. right. reflexivity.
Defined.

Lemma find_app_first {A : Type} (f : A -> bool) (l1 l2 : list A) :
  find f (l1 ++ l2)%list = match find f l1 with Some x => Some x | None => find f l2 end.
Proof.
  induction l1 as [| x l1 IH]; [reflexivity |]. cbn [app find].
  destruct (f x); [reflexivity | exact IH].
Qed.

Lemma findToolDefinition_find (plugins : PluginsRegistry) (toolName : string) :
  Bridge.findToolDefinition plugins toolName = find (named toolName) (all_tools plugins).
Proof.
  unfold all_tools. induction plugins as [| [name plugin] rest IH]; [reflexivity |].
  cbn [Bridge.findToolDefinition scanned_tools].
  destruct (definition plugin) as [def |]; [| exact IH].
  rewrite find_app_first. fold (named toolName).
  destruct (find (named toolName) def); [reflexivity | exact IH].
Qed.

(** X13. [findToolDefinition] gives the first tool of that name in the
    catalog, the tools of every plugin in registration order: the tool it
    finds has the name asked for and no tool before it has; it finds none
    exactly when no tool of the catalog has the name. *)
Theorem findToolDefinition_first (plugins : PluginsRegistry) (toolName : string) :
  (forall tool,
      Bridge.findToolDefinition plugins toolName = Some tool ->
      fn_name (tool_function tool) = toolName
      /\ exists before after,
           all_tools plugins = (before ++ tool :: after)%list
           /\ forall t, In t before -> fn_name (tool_function t) <> toolName)
  /\ (Bridge.findToolDefinition plugins toolName = None <->
      forall t, In t (all_tools plugins) -> fn_name (tool_function t) <> toolName).
Proof.
  rewrite findToolDefinition_find. generalize (all_tools plugins) as tools.
  intros tools. split.
  - induction tools as [| t tools IH]; intros tool Hfind; [discriminate |].
    cbn [find] in Hfind. destruct (named toolName t) eqn:Hnamed.
    + injection Hfind as <-. split; [now apply String.eqb_eq |].
      exists [], tools. split; [reflexivity | intros ? []].
    + destruct (IH tool Hfind) as [Hname [before [after [-> Hbefore]]]].
      split; [exact Hname |]. exists (t :: before), after. split; [reflexivity |].
      intros t' [<- | Hin]; [now apply String.eqb_neq | now apply Hbefore].
  - split.
    + intros Hnone t Hin Hname.
      pose proof (find_none _ _ Hnone t Hin) as Hfalse.
      unfold named in Hfalse. rewrite Hname, String.eqb_refl in Hfalse. discriminate.
    + intros Hall. destruct (find (named toolName) tools) as [t |] eqn:Hfind;
        [| reflexivity].
      apply find_some in Hfind as [Hin Hnamed]. apply String.eqb_eq in Hnamed.
      now elim (Hall t Hin).
Qed.

Ltac plain_object Hid Hparts :=
  left; cbn [JsVal.holds_BigInt existsb snd]; unfold JsVal.or;
  repeat match goal with
         | |- context [if JsVal.truthy_value ?a then _ else _] =>
             destruct (JsVal.truthy_value a)
         end;
  rewrite ?Hid, ?Hparts; reflexivity.

Section FromHostAnswers.
Context {W : Type}.
Variable pluginsRegistry : PluginsRegistry.
Variable dslRegistry : gmap string (Bridge.handler W).
Variable parseDSL : string -> option (string * list string).
Variable JSON_stringify : JsVal.value -> throws string.

Lemma is_str_eq (v : JsVal.value) (text : string) :
  JsVal.is_str v text = true <-> v = JsVal.Str text.
Proof.
  destruct v; cbn [JsVal.is_str]; try (split; discriminate).
  split.
  - intros Heq. apply String.eqb_eq in Heq. now subst.
  - intros [= ->]. apply String.eqb_refl.
Qed.

(** X14. A command of the host that resolves to a handler is answered at
    most once. It is not answered when the [catch] block of the branch
    throws in its turn: when the handler throws [undefined] or [null],
    of which the block reads the message; when it throws a value whose
    message has no text, which the block puts in a template literal; and
    when it throws a value whose message holds a BigInt and the process
    has a socket, for which the block calls [JSON.stringify]. Then
    nothing is written to the socket and the promise of [handleCommand]
    stays pending. In every other case [handleCommand] builds one
    [command_response] that bears the [messageId] of the command, and the
    socket to the host, when the process has one, holds that response
    after what it held when the handler ended. The response reports
    success exactly when the handler returned a result of status
    [success] that [JSON.stringify] accepts, and then carries the
    [result] of the handler or, when that is falsy, the captured log
    output; when the handler throws, the response carries the message of
    the thrown value as its [error]. The command is one the host sends:
    its [procId] has a text, and neither its [messageId] nor the
    arguments it resolves to hold a BigInt. *)
Theorem handleCommand_answers_host (message : Bridge.command) (sessionId : Z)
        (procId0 : JsVal.value) (s : Bridge.state W)
        (cmd : string) (args : list string) (h : Bridge.handler W) :
  let resolved := Bridge.resolveParsed pluginsRegistry dslRegistry cmd args in
  let o := h (args_value (Bridge.r_args resolved))
             (handler_context message (Bridge.r_toolDef resolved) sessionId procId0) s in
  let output := output_of s (Bridge.r_cmd resolved) o in
  let answer :=
    Bridge.handleCommand pluginsRegistry dslRegistry parseDSL JSON_stringify
                         message sessionId procId0 s in
  let catch_throws :=
    exists e,
      Bridge.o_result o = Bridge.Thrown e
      /\ (e = JsVal.Undefined \/ e = JsVal.Null
          \/ Text.printable (JsVal.get_opt e "message") = false
          \/ (JsVal.holds_BigInt (JsVal.get_opt e "message") = true
              /\ Bridge.containerSocket (Bridge.o_state o) <> None)) in
  stringify_of_engine JSON_stringify ->
  well_formed message procId0 (Bridge.r_args resolved) ->
  Bridge.c_fromHost message = true ->
  parseDSL (Bridge.c_command message) = Some (cmd, args) ->
  dslRegistry !! Bridge.r_cmd resolved = Some h ->
  (catch_throws -> answer = (Bridge.CmdUnanswered, Bridge.o_state o))
  /\ (~ catch_throws ->
      exists response s',
        answer = (Bridge.CmdResponse response, s')
        /\ Bridge.containerSocket s' = socket_after (Bridge.o_state o) response
        /\ Bridge.toolCallStates s' = Bridge.toolCallStates (Bridge.o_state o)
        /\ Bridge.world s' = Bridge.world (Bridge.o_state o)
        /\ Bridge.cr_messageId response = Bridge.c_messageId message
        /\ Bridge.cr_type response = "command_response"
        /\ (Bridge.cr_success response = true <->
            exists result,
              Bridge.o_result o = Bridge.Returned result
              /\ JsVal.holds_BigInt result = false
              /\ JsVal.get_opt result "status" = JsVal.Str "success")
        /\ (forall result,
               Bridge.o_result o = Bridge.Returned result ->
               JsVal.holds_BigInt result = false ->
               JsVal.get_opt result "status" = JsVal.Str "success" ->
               Bridge.cr_result response
               = if JsVal.truthy_value (JsVal.get_opt result "result")
                 then JsVal.get_opt result "result" else JsVal.Str output)
        /\ (forall e,
               Bridge.o_result o = Bridge.Thrown e ->
               Bridge.cr_error response = JsVal.get_opt e "message"
               /\ Bridge.cr_result response = JsVal.Undefined)).
Proof.
  intros resolved o output answer catch_throws Hengine [Hprintable [Hid _]]
         HfromHost Hparsed Hhandler.
  subst answer.
  rewrite (handleCommand_fromHost pluginsRegistry dslRegistry parseDSL JSON_stringify
             message sessionId procId0 s cmd args h Hprintable HfromHost Hparsed Hhandler).
  fold resolved. unfold Bridge.execute_fromHost. unfold Bridge.handler in *.
  rewrite Hhandler.
  fold (handler_context message (Bridge.r_toolDef resolved) sessionId procId0).
  fold o.
  split.
  - intros [e [Hthrown Hcase]]. rewrite Hthrown.
    destruct Hcase as [-> | [-> | Hcase]]; [reflexivity | reflexivity |].
    rewrite (answer_caught_silent JSON_stringify message (Bridge.o_state o)
               (JsVal.get_opt e "message") Hengine Hcase).
    destruct e; reflexivity.
  - intros Hanswered.
    assert (Hfields : forall response s',
               Bridge.containerSocket s' = socket_after (Bridge.o_state o) response
               /\ Bridge.toolCallStates s' = Bridge.toolCallStates (Bridge.o_state o)
               /\ Bridge.world s' = Bridge.world (Bridge.o_state o) ->
               Bridge.cr_messageId response = Bridge.c_messageId message ->
               Bridge.cr_type response = "command_response" ->
               (Bridge.cr_success response = true <->
                exists result,
                  Bridge.o_result o = Bridge.Returned result
                  /\ JsVal.holds_BigInt result = false
                  /\ JsVal.get_opt result "status" = JsVal.Str "success") ->
               (forall result,
                   Bridge.o_result o = Bridge.Returned result ->
                   JsVal.holds_BigInt result = false ->
                   JsVal.get_opt result "status" = JsVal.Str "success" ->
                   Bridge.cr_result response
                   = if JsVal.truthy_value (JsVal.get_opt result "result")
                     then JsVal.get_opt result "result" else JsVal.Str output) ->
               (forall e,
                   Bridge.o_result o = Bridge.Thrown e ->
                   Bridge.cr_error response = JsVal.get_opt e "message"
                   /\ Bridge.cr_result response = JsVal.Undefined) ->
               exists response' s'',
                 (Bridge.CmdResponse response, s') = (Bridge.CmdResponse response', s'')
                 /\ Bridge.containerSocket s'' = socket_after (Bridge.o_state o) response'
                 /\ Bridge.toolCallStates s'' = Bridge.toolCallStates (Bridge.o_state o)
                 /\ Bridge.world s'' = Bridge.world (Bridge.o_state o)
                 /\ Bridge.cr_messageId response' = Bridge.c_messageId message
                 /\ Bridge.cr_type response' = "command_response"
                 /\ (Bridge.cr_success response' = true <->
                     exists result,
                       Bridge.o_result o = Bridge.Returned result
                       /\ JsVal.holds_BigInt result = false
                       /\ JsVal.get_opt result "status" = JsVal.Str "success")
                 /\ (forall result,
                        Bridge.o_result o = Bridge.Returned result ->
                        JsVal.holds_BigInt result = false ->
                        JsVal.get_opt result "status" = JsVal.Str "success" ->
                        Bridge.cr_result response'
                        = if JsVal.truthy_value (JsVal.get_opt result "result")
                          then JsVal.get_opt result "result" else JsVal.Str output)
                 /\ (forall e,
                        Bridge.o_result o = Bridge.Thrown e ->
                        Bridge.cr_error response' = JsVal.get_opt e "message"
                        /\ Bridge.cr_result response' = JsVal.Undefined)).
    { intros response s' [Hsocket [Hstates Hworld]] Hmid Htype Hsuccess Hcontent Hthrown.
      exists response, s'. tauto. }
    destruct (Bridge.o_result o) as [result | e] eqn:Hresult.
    + rewrite captured_output. fold output.
      destruct (JSON_stringify result) as [text | name text] eqn:Hjson.
      * assert (Hplain : JsVal.holds_BigInt result = false) by (apply Hengine; eauto).
        assert (Hparts : forall k, JsVal.holds_BigInt (JsVal.get_opt result k) = false)
          by (intros k; now apply holds_get_opt).
        change ToolExecutionStatus.SUCCESS with "success".
        rewrite orb_diag.
        destruct (JsVal.is_str (JsVal.get_opt result "status") "success") eqn:Hstatus.
        -- apply is_str_eq in Hstatus. cbv beta iota zeta.
           match goal with
           | |- context [Bridge.send _ _ ?r ?obj] =>
               destruct (send_returns JSON_stringify (Bridge.o_state o) r obj Hengine)
                 as [s' [Hsend Hafter]]; [plain_object Hid Hparts |]
           end.
           rewrite Hsend.
           apply Hfields; cbn [Bridge.cr_messageId Bridge.cr_type Bridge.cr_success
                                 Bridge.cr_result Bridge.cr_error];
             try reflexivity; try exact Hafter.
           ++ split; [| reflexivity]. intros _. exists result.
              split; [reflexivity |]. split; [exact Hplain | exact Hstatus].
           ++ intros result' [= <-] _ _. reflexivity.
           ++ intros e [=].
        -- assert (Hnot : JsVal.get_opt result "status" <> JsVal.Str "success").
           { intros Heq. apply is_str_eq in Heq. congruence. }
           destruct (JsVal.is_str (JsVal.get_opt result "status") ToolExecutionStatus.FAILURE
                     || JsVal.is_str (JsVal.get_opt result "status") "error");
             cbv beta iota zeta.
           all: match goal with
                | |- context [Bridge.send _ _ ?r ?obj] =>
                    destruct (send_returns JSON_stringify (Bridge.o_state o) r obj Hengine)
                      as [s' [Hsend Hafter]]; [plain_object Hid Hparts |]
                end.
           all: rewrite Hsend.
           all: apply Hfields; cbn [Bridge.cr_messageId Bridge.cr_type Bridge.cr_success
                                      Bridge.cr_result Bridge.cr_error];
             try reflexivity; try exact Hafter.
           all: try (split; [discriminate
                            | intros [result' [[= <-] [_ Hs]]]; now elim Hnot]).
           all: try (intros result' [= <-] _ Hs; now elim Hnot).
           all: intros e [=].
      * assert (Hholds : JsVal.holds_BigInt result = true).
        { destruct (JsVal.holds_BigInt result) eqn:Hh; [reflexivity |].
          apply Hengine in Hh as [text' Hok]. congruence. }
        destruct (answer_caught_answers JSON_stringify message (Bridge.o_state o)
                    (JsVal.Str text) Hengine Hid eq_refl (or_introl eq_refl))
          as [s' [Hcaught Hafter]].
        rewrite Hcaught.
        apply Hfields; cbn [Bridge.cr_messageId Bridge.cr_type Bridge.cr_success
                              Bridge.cr_result Bridge.cr_error];
          try reflexivity; try exact Hafter.
        -- split; [discriminate |].
           intros [result' [[= <-] [Hok _]]]. congruence.
        -- intros result' [= <-] Hok _. congruence.
        -- intros e [=].
    + assert (Hu : e <> JsVal.Undefined).
      { intros ->. apply Hanswered. exists JsVal.Undefined. tauto. }
      assert (Hn : e <> JsVal.Null).
      { intros ->. apply Hanswered. exists JsVal.Null. tauto. }
      assert (Htext : Text.printable (JsVal.get_opt e "message") = true).
      { destruct (Text.printable (JsVal.get_opt e "message")) eqn:Hp; [reflexivity |].
        exfalso. apply Hanswered. exists e. tauto. }
      assert (Hsendable : JsVal.holds_BigInt (JsVal.get_opt e "message") = false
                          \/ Bridge.containerSocket (Bridge.o_state o) = None).
      { destruct (JsVal.holds_BigInt (JsVal.get_opt e "message")) eqn:Hb; [| now left].
        destruct (Bridge.containerSocket (Bridge.o_state o)) eqn:Hsock; [| now right].
        exfalso. apply Hanswered. exists e. split; [reflexivity |].
        right. right. right.
        split; [first [exact Hb | reflexivity] | first [discriminate | now rewrite Hsock]]. }
      assert (Hcaught : forall A (a b : A),
                 match e with
                 | JsVal.Undefined | JsVal.Null => a
                 | _ => b
                 end = b).
      { intros A a b. destruct e; try reflexivity; [now elim Hu | now elim Hn]. }
      rewrite Hcaught.
      destruct (answer_caught_answers JSON_stringify message (Bridge.o_state o)
                  (JsVal.get_opt e "message") Hengine Hid Htext Hsendable)
        as [s' [Hanswer Hafter]].
      rewrite Hanswer.
      apply Hfields; cbn [Bridge.cr_messageId Bridge.cr_type Bridge.cr_success
                            Bridge.cr_result Bridge.cr_error];
        try reflexivity; try exact Hafter.
      * split; [discriminate | intros [result [[=] _]]].
      * intros result [=].
      * intros e' [= <-]. now split.
Qed.

End FromHostAnswers.

(** The handler [ok] answers with its result, which the socket then
    holds; the handler [undefined] throws [undefined]: the command is
    not answered, and the socket holds nothing. *)
Lemma handleCommand_answers_host_witness :
  let answered :=
    {| Bridge.cr_messageId := JsVal.Num 7; Bridge.cr_success := true;
       Bridge.cr_result := JsVal.Str "ok"; Bridge.cr_error := JsVal.Undefined;
       Bridge.cr_type := "command_response" |} in
  (exists s',
      Bridge.handleCommand [] odd_tools Forwarded.parseDSL Forwarded.JSON_stringify
                           (Forwarded.message "ok") 3 JsVal.Undefined Forwarded.child
      = (Bridge.CmdResponse answered, s')
      /\ Bridge.containerSocket s' = Some [answered])
  /\ Bridge.handleCommand [] odd_tools Forwarded.parseDSL Forwarded.JSON_stringify
                          (Forwarded.message "undefined") 3 JsVal.Undefined Forwarded.child
     = (Bridge.CmdUnanswered, Forwarded.child).
Proof.
  intros answered. split.
  - assert (Hhandler : odd_tools !! Bridge.r_cmd (Bridge.resolveParsed [] odd_tools "ok" [])
                       = Some succeeding_tool)
      by (vm_compute; reflexivity).
    destruct (handleCommand_answers_host [] odd_tools Forwarded.parseDSL
                Forwarded.JSON_stringify
                (Forwarded.message "ok") 3%Z JsVal.Undefined Forwarded.child "ok" []
                succeeding_tool Forwarded_stringify ltac:(repeat split; vm_compute; reflexivity)
                eq_refl eq_refl Hhandler) as [_ Hanswered].
    destruct Hanswered
      as [response [s' [Hcall [Hsocket [_ [_ [Hid [Htype [Hsuccess [Hresult _]]]]]]]]]].
    { intros [e [Hthrown _]]. discriminate Hthrown. }
    assert (Hok : Bridge.cr_success response = true).
    { apply Hsuccess. eexists. repeat split; reflexivity. }
    assert (Hcontent := Hresult _ eq_refl eq_refl eq_refl).
    assert (Herror : Bridge.cr_error response = JsVal.Undefined).
    { vm_compute in Hcall. injection Hcall as <- _. reflexivity. }
    assert (Hanswer : response = answered).
    { destruct response as [id success content error type].
      cbn [Bridge.cr_messageId Bridge.cr_success Bridge.cr_result Bridge.cr_error
             Bridge.cr_type] in *.
      subst. reflexivity. }
    exists s'. rewrite <- Hanswer. split; [exact Hcall |].
    rewrite Hsocket. reflexivity.
  - assert (Hhandler : odd_tools
                       !! Bridge.r_cmd (Bridge.resolveParsed [] odd_tools "undefined" [])
                       = Some throwing_undefined)
      by (vm_compute; reflexivity).
    destruct (handleCommand_answers_host [] odd_tools Forwarded.parseDSL
                Forwarded.JSON_stringify
                (Forwarded.message "undefined") 3%Z JsVal.Undefined Forwarded.child
                "undefined" [] throwing_undefined Forwarded_stringify ltac:(repeat split; vm_compute; reflexivity)
                eq_refl eq_refl Hhandler) as [Hsilent _].
    apply Hsilent. exists JsVal.Undefined. split; [reflexivity | now left].
Defined.

(** ** The shell tool: the round of an approval *)

Section ShellApproval.
Context {S : Type}.
Variable RegExp : string -> string -> option (string -> bool).
Variable loadAllowlist : Allowlist.t.
Variable sessionAllowlist : option Allowlist.t.
Variable unattended : JsVal.value.
Variable approvals : S -> list Shell.Approval.
Variable route : Shell.approval_request -> Bridge.context -> S -> throws JsVal.value * S.

Lemma find_no_answer (toolCallId sessionId : JsVal.value) (l : list Shell.Approval) :
  (forall a, In a l ->
             String.eqb (Shell.a_status a) "approve"
             || String.eqb (Shell.a_status a) "modify" = false) ->
  find (fun a => Shell.strict_eq (Shell.a_toolCallId a) toolCallId
                 && Shell.strict_eq (Shell.a_sessionId a) sessionId
                 && (String.eqb (Shell.a_status a) "approve"
                     || String.eqb (Shell.a_status a) "modify")) l = None.
Proof.
  intros Hnone. destruct (find _ l) as [a |] eqn:Hfind; [| reflexivity].
  apply find_some in Hfind as [Hin Htest]. rewrite (Hnone a Hin), andb_false_r in Htest.
  discriminate.
Qed.


(** X16. No execution without an approval. In a session, when the
    allowlist check does not approve the command, no approval of status
    [approve] is on record and the external data of the call bear no
    choice [APPROVE], the tool does not run the command, in whatever phase
    it is invoked: its result and the state it leaves do not depend on
    what executing a command would do. *)
Theorem executeShell_never_runs_unapproved
        (executeCommand executeCommand' : JsVal.value -> S -> JsVal.value * S)
        (args : Shell.shell_args) (ctx : Bridge.context) (s : S) :
  JsVal.truthy_value (Bridge.ctx_sessionId ctx) = true ->
  Allowlist.cc_approved
    (Allowlist.checkCommand RegExp (command_of args)
                            (effective_allowlist loadAllowlist sessionAllowlist)) = false ->
  (forall a, In a (approvals s) -> String.eqb (Shell.a_status a) "approve" = false) ->
  JsVal.is_str (JsVal.get_opt (JsVal.or (Bridge.ctx_externalData ctx) (JsVal.Obj []))
                              "choice") "APPROVE" = false ->
  Shell.executeShell RegExp loadAllowlist sessionAllowlist unattended executeCommand
                     approvals route args ctx s
  = Shell.executeShell RegExp loadAllowlist sessionAllowlist unattended executeCommand'
                       approvals route args ctx s.
Proof.
  intros Hsession Hcheck Hnone Hchoice. unfold Shell.executeShell.
  fold (command_of args). fold (effective_allowlist loadAllowlist sessionAllowlist).
  rewrite Hcheck, Hsession, Hchoice. cbn [negb orb].
  destruct (JsVal.is_str _ "initial"); [| reflexivity].
  destruct (JsVal.is_true unattended); [reflexivity |].
  destruct (if JsVal.truthy_value _ then find _ (approvals s) else None) as [a |] eqn:Hfind;
    [| reflexivity].
  match type of Hfind with
  | (if JsVal.truthy_value ?v then _ else _) = _ =>
      destruct (JsVal.truthy_value v); [| discriminate]
  end.
  apply find_some in Hfind as [Hin Htest].
  rewrite (Hnone a Hin) in Htest. cbn [orb] in Htest.
  apply andb_prop in Htest as [_ ->]. reflexivity.
Qed.

End ShellApproval.


Lemma executeShell_never_runs_unapproved_witness :
  Shell.executeShell (fun _ _ => None) S3.allowlist None (JsVal.Bool false)
                     S3.executeCommand (fun _ => []) S3.route
                     (Shell.ShellObject "rm -rf /") S3.ctx []
  = Shell.executeShell (fun _ _ => None) S3.allowlist None (JsVal.Bool false)
                       (fun _ trace => (JsVal.Undefined, trace)) (fun _ => []) S3.route
                       (Shell.ShellObject "rm -rf /") S3.ctx [].
Proof.
  refine (executeShell_never_runs_unapproved (fun _ _ => None) S3.allowlist None
            (JsVal.Bool false) (fun _ => []) S3.route S3.executeCommand
            (fun _ trace => (JsVal.Undefined, trace))
            (Shell.ShellObject "rm -rf /") S3.ctx [] eq_refl eq_refl _ eq_refl).
  intros a [].
Defined.

(** ** The agent loop: the tools offered, failed prompts, idle sessions *)

Lemma gather_tool_fold (sessionTools : list ToolItem) (humanOnlyTools : list string)
      (def : list Tool) :
  forall acc,
    fst (fold_left (AgentLoop.gather_tool sessionTools humanOnlyTools) def acc)
    = (fst acc ++ map clean (List.filter (offered sessionTools humanOnlyTools) def))%list.
Proof.
  induction def as [| tool def IH]; intros [tools metadata].
  - cbn. now rewrite app_nil_r.
  - cbn [fold_left List.filter]. rewrite IH. unfold AgentLoop.gather_tool, offered.
    destruct ((0 <? _)%nat && negb _); cbn [negb andb fst]; [reflexivity |].
    destruct (AgentLoop.is_humanOnly tool || _); cbn [negb fst]; [reflexivity |].
    cbn [map]. now rewrite <- app_assoc.
Qed.

Lemma gather_tools_filter (plugins : PluginsRegistry) (sessionTools : list ToolItem)
      (humanOnlyTools : list string) :
  fst (AgentLoop.gather_tools plugins sessionTools humanOnlyTools)
  = map clean (List.filter (offered sessionTools humanOnlyTools) (all_tools plugins)).
Proof.
  unfold AgentLoop.gather_tools, all_tools.
  change (map clean (List.filter (offered sessionTools humanOnlyTools)
                                 (scanned_tools plugins false)))
    with (fst (@nil AgentLoop.CleanTool, @nil (string * ToolMetadata))
          ++ map clean (List.filter (offered sessionTools humanOnlyTools)
                                    (scanned_tools plugins false)))%list.
  generalize (@nil AgentLoop.CleanTool, @nil (string * ToolMetadata)).
  induction plugins as [| [name plugin] rest IH]; intros acc.
  - cbn. now rewrite app_nil_r.
  - cbn [fold_left scanned_tools snd]. destruct (definition plugin) as [def |].
    + rewrite IH, gather_tool_fold, List.filter_app, map_app. now rewrite app_assoc.
    + apply IH.
Qed.

Lemma all_tools_catalog (plugins : PluginsRegistry) (tool : Tool) :
  In tool (all_tools plugins) <-> in_catalog plugins tool.
Proof.
  unfold all_tools, in_catalog. induction plugins as [| [name plugin] rest IH].
  - cbn. split; [intros [] | intros [n [pl [def [[] _]]]]].
  - cbn [scanned_tools]. destruct (definition plugin) as [def |] eqn:Hdef.
    + rewrite in_app_iff, IH. split.
      * intros [Hin | [n [pl [def' [Hin [Hd Ht]]]]]].
        -- exists name, plugin, def. split; [now left |]. now split.
        -- exists n, pl, def'. split; [now right |]. now split.
      * intros [n [pl [def' [[Heq | Hin] [Hd Ht]]]]].
        -- injection Heq as <- <-. left. congruence.
        -- right. exists n, pl, def'. now split.
    + rewrite IH. split.
      * intros [n [pl [def' [Hin [Hd Ht]]]]]. exists n, pl, def'. split; [now right |].
        now split.
      * intros [n [pl [def' [[Heq | Hin] [Hd Ht]]]]].
        -- injection Heq as <- <-. congruence.
        -- exists n, pl, def'. now split.
Qed.

Lemma is_humanOnly_marked (tool : Tool) :
  AgentLoop.is_humanOnly tool = false <-> ~ marked_humanOnly tool.
Proof.
  unfold AgentLoop.is_humanOnly, marked_humanOnly.
  destruct (tool_metadata tool) as [m |].
  - destruct (tm_humanOnly m) as [[|] |] eqn:Hm.
    + split; [discriminate |]. intros Hno. exfalso. apply Hno. now exists m.
    + split; [| reflexivity]. intros _ [m' [[= <-] Hm']]. congruence.
    + split; [| reflexivity]. intros _ [m' [[= <-] Hm']]. congruence.
  - split; [| reflexivity]. intros _ [m' [[=] _]].
Qed.

Lemma allowedTools_names (sessionTools : list ToolItem) (name : string) :
  In name (AgentLoop.allowedTools sessionTools) <-> names_tool sessionTools name.
Proof.
  unfold AgentLoop.allowedTools, names_tool. rewrite in_map_iff. split.
  - intros [[n | n o] [<- Hin]]; [now left | right; now exists o].
  - intros [Hin | [o Hin]]; [now exists (ToolName name) |].
    now exists (ToolWithOptions name o).
Qed.

(** X17. The tools the agent loop offers to the model are those of the
    catalog, each with its type and its function and without its
    metadata, that are not for humans only (neither by a [humanOnly] of
    their own metadata nor by the process-wide list) and that the tool
    list of the session names when the list is not empty: no other tool
    is offered and none of these is left out. *)
Theorem gather_tools_offered (plugins : PluginsRegistry) (sessionTools : list ToolItem)
        (humanOnlyTools : list string) (ct : AgentLoop.CleanTool) :
  In ct (fst (AgentLoop.gather_tools plugins sessionTools humanOnlyTools))
  <-> exists tool,
        in_catalog plugins tool
        /\ ct = {| AgentLoop.ct_type := tool_type tool;
                   AgentLoop.ct_function := tool_function tool |}
        /\ ~ marked_humanOnly tool
        /\ ~ In (fn_name (tool_function tool)) humanOnlyTools
        /\ (sessionTools <> [] -> names_tool sessionTools (fn_name (tool_function tool))).
Proof.
  rewrite gather_tools_filter, in_map_iff.
  assert (Hoffered : forall tool,
            offered sessionTools humanOnlyTools tool = true
            <-> ~ marked_humanOnly tool
                /\ ~ In (fn_name (tool_function tool)) humanOnlyTools
                /\ (sessionTools <> [] ->
                    names_tool sessionTools (fn_name (tool_function tool)))).
  { intros tool. rewrite <- is_humanOnly_marked, <- allowedTools_names.
    unfold offered. rewrite andb_true_iff, !negb_true_iff, orb_false_iff.
    rewrite <- (includes_In humanOnlyTools), <- (includes_In (AgentLoop.allowedTools _)).
    destruct (Js.includes humanOnlyTools _), (AgentLoop.is_humanOnly tool);
      try (split; [intros [_ [? ?]]; discriminate | intros [? [? _]]; congruence]).
    unfold AgentLoop.allowedTools at 1.
    destruct sessionTools as [| item items]; cbn [map length Nat.ltb Nat.leb andb].
    - split; [intros _ | tauto]. split; [reflexivity |]. split; [discriminate |].
      intros Hne. now elim Hne.
    - destruct (Js.includes _ _); cbn [negb].
      + split; [intros _ | tauto]. split; [reflexivity |]. split; [discriminate |].
        reflexivity.
      + split; [intros [[=] _] |]. intros [_ [_ Hin]].
        specialize (Hin ltac:(discriminate)). discriminate. }
  split.
  - intros [tool [<- Hin]]. apply filter_In in Hin as [Hin Hok].
    exists tool. split; [now apply all_tools_catalog |]. split; [reflexivity |].
    now apply Hoffered.
  - intros [tool [Hin [-> Hok]]]. exists tool. split; [reflexivity |].
    apply filter_In. split; [now apply all_tools_catalog | now apply Hoffered].
Qed.

(** Of the five tools of the small catalog, the session is offered
    [fs__read], which it names with options, and not [human__ask], which
    is for humans only by its metadata; [fs__write] is on the
    process-wide list and the session does not name [fs__stat]. *)
Lemma gather_tools_offered_witness :
  let offered_tools :=
    fst (AgentLoop.gather_tools small_catalog small_session ["fs__write"]) in
  let function_of name :=
    {| fn_name := name; fn_description := ""; fn_parameters := JsVal.Obj [] |} in
  In {| AgentLoop.ct_type := "function"; AgentLoop.ct_function := function_of "fs__read" |}
     offered_tools
  /\ ~ In {| AgentLoop.ct_type := "function";
             AgentLoop.ct_function := function_of "human__ask" |} offered_tools
  /\ offered_tools
     = [{| AgentLoop.ct_type := "function"; AgentLoop.ct_function := function_of "fs__read" |};
        {| AgentLoop.ct_type := "function";
           AgentLoop.ct_function := function_of "human__log" |}].
Proof.
  intros offered_tools function_of. split; [| split; [| vm_compute; reflexivity]].
  - apply (proj2 (gather_tools_offered small_catalog small_session ["fs__write"] _)).
    exists (tool_named "fs__read" (Some for_all)). split.
    { do 3 eexists. split; [left; reflexivity |]. split; [reflexivity | now left]. }
    split; [reflexivity |]. split.
    { intros [m [[= <-] Hm]]. discriminate. }
    split.
    { intros [Hin | []]. discriminate. }
    intros _. right. eexists. right. right. left. reflexivity.
  - intros Hin.
    apply (proj1 (gather_tools_offered small_catalog small_session ["fs__write"] _)) in Hin.
    destruct Hin as [tool [[name [plugin [def [Hplugin [Hdef Htool]]]]] [Hct [Hmarked _]]]].
    apply Hmarked. injection Hct as _ Hfunction.
    destruct Hplugin as [[= <- <-] | [[= <- <-] | [[= <- <-] | []]]];
      cbn in Hdef; try discriminate; injection Hdef as <-;
      repeat (destruct Htool as [<- | Htool]; [try discriminate |]);
      try destruct Htool.
    exists for_humans. split; reflexivity.
Defined.

(** *** parse of the model string *)

Lemma split_colon_plain (p : string) :
  Allowlist.all_chars (fun c => negb (Ascii.eqb c ":")) p = true ->
  forall cur t, Js.split_go ":" 0 cur (p ++ t) = Js.split_go ":" 0 (cur ++ p) t.
Proof.
  induction p as [| ch p IH]; intros Hp cur t.
  - now rewrite append_nil_r.
  - cbn [Allowlist.all_chars] in Hp. apply andb_prop in Hp as [Hch Hp].
    apply negb_true_iff in Hch.
    change (String ch p ++ t) with (String ch (p ++ t)).
    cbn [Js.split_go Js.startsWith]. rewrite Hch, IH by exact Hp.
    now rewrite append_assoc.
Qed.

Lemma startsWith_empty (s : string) : Js.startsWith s "" = true.
Proof. now destruct s. Qed.

Lemma split_go_cons (cur s : string) :
  exists piece rest, Js.split_go ":" 0 cur s = piece :: rest.
Proof.
  revert cur. induction s as [| ch s IH]; intros cur; [cbn; eauto |].
  cbn [Js.split_go Js.startsWith]. rewrite startsWith_empty.
  destruct (Ascii.eqb ch ":"); [| apply IH].
  eexists _, _. reflexivity.
Qed.

Lemma join_split_colon (s : string) :
  forall cur, Js.join ":" (Js.split_go ":" 0 cur s) = cur ++ s.
Proof.
  induction s as [| ch s IH]; intros cur.
  - cbn. now rewrite append_nil_r.
  - cbn [Js.split_go Js.startsWith]. rewrite startsWith_empty.
    destruct (Ascii.eqb_spec ch ":") as [-> | Hne].
    + cbn [String.length Nat.sub].
      destruct (split_go_cons "" s) as [piece [rest Hsplit]].
      pose proof (IH "") as Hjoin. rewrite Hsplit in *.
      change (Js.join ":" (cur :: piece :: rest))
        with (cur ++ ":" ++ Js.join ":" (piece :: rest)).
      rewrite Hjoin. reflexivity.
    + rewrite IH, append_assoc. reflexivity.
Qed.

Lemma split_no_colon (s : string) :
  Allowlist.all_chars (fun c => negb (Ascii.eqb c ":")) s = true ->
  forall cur, Js.split_go ":" 0 cur s = [cur ++ s].
Proof.
  intros Hs cur. rewrite <- (append_nil_r s) at 1.
  now rewrite split_colon_plain.
Qed.

(** X18. The model string of a session is split at its first colon: for a
    provider name without a colon, [provider:model] gives the provider and
    the model, and further colons stay in the model name, as in
    [ollama:qwen3:8b]; a string without a colon gives nothing. *)
Theorem parse_model_first_colon (providerName modelName : string) :
  Allowlist.all_chars (fun c => negb (Ascii.eqb c ":")) providerName = true ->
  AgentLoop.parse_model (providerName ++ ":" ++ modelName) = Some (providerName, modelName)
  /\ AgentLoop.parse_model providerName = None.
Proof.
  intros Hplain. unfold AgentLoop.parse_model, Js.split. split.
  - rewrite split_colon_plain by exact Hplain.
    change (":" ++ modelName) with (String ":" modelName).
    cbn [Js.split_go Js.startsWith Ascii.eqb Bool.eqb String.length Nat.sub append].
    rewrite startsWith_empty.
    destruct (split_go_cons "" modelName) as [piece [rest Hsplit]].
    pose proof (join_split_colon modelName "") as Hjoin. rewrite Hsplit in *.
    change ("" ++ providerName) with providerName. now rewrite Hjoin.
  - now rewrite split_no_colon.
Qed.

Lemma parse_model_first_colon_witness :
  AgentLoop.parse_model "ollama:qwen3:8b" = Some ("ollama", "qwen3:8b")
  /\ AgentLoop.parse_model "ollama" = None.
Proof. exact (parse_model_first_colon "ollama" "qwen3:8b" eq_refl). Defined.

Section Prompts.
Context {E : Type}.
Variable pluginsRegistry : PluginsRegistry.
Variable humanOnlyTools : list string.
Variable route : Bridge.tool_call -> AgentLoop.world E -> throws JsVal.value * AgentLoop.world E.
Variable JSON_parse : string -> option JsVal.value.
Variable JSON_stringify : JsVal.value -> option string.

(** X19. A prompt that failed is not tried again. This is about the part
    of the tick that answers a user or tool message, [respond], when no
    tool call is pending. When the provider throws on the prompt of a
    session, the tick throws that exception, leaves the session as it is
    and remembers the prompt under the session id and the number of
    messages; from then on, for the same session with as many messages,
    the tick skips the prompt and returns without calling the provider,
    whatever the provider would answer by now. *)
Theorem failed_prompt_not_retried
        (createChatCompletion createChatCompletion' :
           string -> AgentLoop.Request -> throws AgentLoop.Response)
        (l : AgentLoop.loop) (w : AgentLoop.world E) (session : Session)
        (lastMessage : Message) (modelStr providerName modelName name text : string) :
  md_model (metadata session) = Some modelStr ->
  AgentLoop.parse_model modelStr = Some (providerName, modelName) ->
  Js.includes (AgentLoop.attemptedPrompts l) (promptKey l session) = false ->
  (forall provider request, createChatCompletion provider request = Throw name text) ->
  exists l',
    AgentLoop.respond pluginsRegistry humanOnlyTools createChatCompletion route
                      JSON_parse JSON_stringify l w session lastMessage []
    = (Throw name text, (l', w))
    /\ In (promptKey l session) (AgentLoop.attemptedPrompts l')
    /\ forall w' session' lastMessage',
         md_model (metadata session') = Some modelStr ->
         md_tools (metadata session') = md_tools (metadata session) ->
         length (messages (spec session')) = length (messages (spec session)) ->
         AgentLoop.respond pluginsRegistry humanOnlyTools createChatCompletion' route
                           JSON_parse JSON_stringify l' w' session' lastMessage' []
         = (Ok tt, (l', w')).
Proof.
  intros Hmodel Hparse Hfresh Hdown.
  assert (Hnonempty : Js.nonempty modelStr = true).
  { destruct modelStr; [discriminate Hparse | reflexivity]. }
  unfold promptKey in *.
  destruct l as [id running provider toolMetadata attempted evaluated].
  cbn [AgentLoop.sessionId AgentLoop.attemptedPrompts] in *.
  unfold AgentLoop.respond. rewrite Hmodel, Hnonempty, Hparse. cbn [negb].
  destruct (AgentLoop.gather_tools pluginsRegistry (md_tools (metadata session))
              humanOnlyTools) as [tools metadata_map] eqn:Hgather.
  cbn [length Nat.ltb Nat.leb]. unfold AgentLoop.prompt_block.
  destruct provider as [p |];
    cbn [AgentLoop.sessionId AgentLoop.attemptedPrompts AgentLoop.with_toolMetadata
           AgentLoop.provider AgentLoop.with_provider AgentLoop.isRunning
           AgentLoop.toolMetadata AgentLoop.systemPromptEvaluated
           AgentLoop.with_attemptedPrompts].
  all: rewrite Hfresh, Hdown.
  all: eexists; split; [reflexivity |].
  all: cbn [AgentLoop.attemptedPrompts].
  all: split; [apply set_add_In |].
  all: intros w' session' lastMessage' Hmodel' Htools' Hlength.
  all: rewrite Hmodel', Hnonempty, Hparse, Htools', Hgather; cbn [negb].
  all: cbn [AgentLoop.sessionId AgentLoop.attemptedPrompts AgentLoop.with_toolMetadata
              AgentLoop.provider AgentLoop.with_provider AgentLoop.isRunning
              AgentLoop.toolMetadata AgentLoop.systemPromptEvaluated
              AgentLoop.with_attemptedPrompts].
  all: rewrite Hlength.
  all: rewrite (proj2 (includes_In _ _) (set_add_In _ attempted)).
  all: reflexivity.
Qed.

(** X20. A tick on a session that is paused, stopped or finished does
    nothing but read: it returns without a prompt and without a tool call,
    whatever the provider and the bridge are, the directory is as before,
    and the loop goes on for a paused session and ends ([isRunning] false)
    for a session that is stopped, successful or in error. *)
Theorem tick_idle (createChatCompletion : string -> AgentLoop.Request -> throws AgentLoop.Response)
        (l : AgentLoop.loop) (w : AgentLoop.world E) (session : Session) :
  let loaded :=
    SessionModel.load (SessionModel.loadAll (AgentLoop.store w)) (AgentLoop.sessionId l) in
  let status := md_status (metadata session) in
  snd loaded = Some session ->
  In status [Some SessionState.PAUSED; Some SessionState.STOPPED;
             Some SessionState.SUCCESS; Some SessionState.ERROR] ->
  AgentLoop.tick pluginsRegistry humanOnlyTools createChatCompletion route
                 JSON_parse JSON_stringify l w
  = (Ok tt, (if bool_decide (status = Some SessionState.PAUSED) then l
             else AgentLoop.with_isRunning l false,
             AgentLoop.with_store w (fst loaded)))
  /\ SessionModel.dsk (fst loaded) = SessionModel.dsk (AgentLoop.store w).
Proof.
  intros loaded status Hloaded Hstatus. split.
  - unfold AgentLoop.tick. fold loaded. destruct loaded as [s found] eqn:Hload.
    cbn [fst snd] in *. subst found. fold status.
    destruct Hstatus as [<- | [<- | [<- | [<- | []]]]]; reflexivity.
  - subst loaded. now rewrite load_disk.
Qed.

End Prompts.

Lemma failed_prompt_not_retried_witness :
  exists l',
    AgentLoop.respond [] [] provider_down no_route (fun _ => None) (fun _ => None)
                      S1.loop S1.world S1.session S1.ping []
    = (Throw "Error" "connect ECONNREFUSED", (l', S1.world))
    /\ AgentLoop.respond [] [] S1.createChatCompletion no_route (fun _ => None)
                         (fun _ => None) l' S1.world S1.session S1.ping []
       = (Ok tt, (l', S1.world)).
Proof.
  destruct (failed_prompt_not_retried [] [] no_route (fun _ => None) (fun _ => None)
              provider_down S1.createChatCompletion S1.loop S1.world S1.session S1.ping
              "xai:mock" "xai" "mock" "Error" "connect ECONNREFUSED"
              eq_refl eq_refl eq_refl (fun _ _ => eq_refl))
    as [l' [Hfirst [_ Hnext]]].
  exists l'. split; [exact Hfirst |].
  exact (Hnext S1.world S1.session S1.ping eq_refl eq_refl eq_refl).
Defined.

Lemma tick_idle_witness :
  AgentLoop.tick [] [] S1.createChatCompletion no_route (fun _ => None) (fun _ => None)
                 S1.loop (world_of (with_status S1.session SessionState.SUCCESS))
  = (Ok tt,
     (AgentLoop.with_isRunning S1.loop false,
      AgentLoop.with_store (world_of (with_status S1.session SessionState.SUCCESS))
        (fst (SessionModel.load
                (SessionModel.loadAll
                   (AgentLoop.store (world_of (with_status S1.session SessionState.SUCCESS))))
                "1")))).
Proof.
  assert (Hloaded :
    snd (SessionModel.load
           (SessionModel.loadAll
              (AgentLoop.store (world_of (with_status S1.session SessionState.SUCCESS))))
           (AgentLoop.sessionId S1.loop))
    = Some (with_status S1.session SessionState.SUCCESS))
    by (vm_compute; reflexivity).
  exact (proj1 (tick_idle [] [] no_route (fun _ => None) (fun _ => None)
                  S1.createChatCompletion S1.loop
                  (world_of (with_status S1.session SessionState.SUCCESS))
                  (with_status S1.session SessionState.SUCCESS) Hloaded
                  ltac:(cbn; tauto))).
Defined.

(** ** The command language *)

Lemma rev_string_involutive (s : string) : Js.rev_string "" (Js.rev_string "" s) = s.
Proof.
  induction s as [| ch s IH]; [reflexivity |].
  cbn [Js.rev_string]. rewrite (rev_string_acc s (String ch "")), rev_string_app, IH.
  reflexivity.
Qed.

Lemma all_chars_rev (p : ascii -> bool) (s : string) :
  Allowlist.all_chars p (Js.rev_string "" s) = Allowlist.all_chars p s.
Proof.
  induction s as [| ch s IH]; [reflexivity |].
  cbn [Js.rev_string]. rewrite (rev_string_acc s (String ch "")), all_chars_app, IH.
  cbn [Allowlist.all_chars]. rewrite andb_true_r. apply andb_comm.
Qed.

Lemma rev_string_nonempty (s : string) : s <> "" -> Js.rev_string "" s <> "".
Proof.
  intros Hne Hrev. apply Hne. rewrite <- (rev_string_involutive s), Hrev. reflexivity.
Qed.

Ltac not_equal x k :=
  replace (Nat.eqb x k) with false by (symmetry; apply Nat.eqb_neq; lia).

Lemma narrow_first (a b c : ascii) :
  narrow a -> Js.is_space2 a b = false /\ Js.is_space3 a b c = false.
Proof.
  unfold narrow, Js.is_space2, Js.is_space3. intros Ha. apply Nat.ltb_lt in Ha.
  cbv zeta.
  not_equal (nat_of_ascii a) 194%nat. not_equal (nat_of_ascii a) 225%nat.
  not_equal (nat_of_ascii a) 226%nat. not_equal (nat_of_ascii a) 227%nat.
  not_equal (nat_of_ascii a) 239%nat. split; reflexivity.
Qed.

Lemma narrow_second (a b c : ascii) :
  narrow b -> Js.is_space2 a b = false /\ Js.is_space3 a b c = false.
Proof.
  unfold narrow, Js.is_space2, Js.is_space3. intros Hb. apply Nat.ltb_lt in Hb.
  cbv zeta.
  not_equal (nat_of_ascii b) 160%nat. not_equal (nat_of_ascii b) 154%nat.
  not_equal (nat_of_ascii b) 128%nat. not_equal (nat_of_ascii b) 129%nat.
  not_equal (nat_of_ascii b) 187%nat.
  rewrite !andb_false_r. split; reflexivity.
Qed.

Lemma narrow_third (a b c : ascii) : narrow c -> Js.is_space3 a b c = false.
Proof.
  unfold narrow, Js.is_space3. intros Hc. apply Nat.ltb_lt in Hc.
  cbv zeta.
  not_equal (nat_of_ascii c) 128%nat. not_equal (nat_of_ascii c) 168%nat.
  not_equal (nat_of_ascii c) 169%nat. not_equal (nat_of_ascii c) 175%nat.
  not_equal (nat_of_ascii c) 159%nat. not_equal (nat_of_ascii c) 191%nat.
  replace (Nat.leb 128 (nat_of_ascii c)) with false
    by (symmetry; apply Nat.leb_gt; lia).
  rewrite !andb_false_r. reflexivity.
Qed.

Lemma trimStart_narrow (c : ascii) (r : string) :
  narrow c ->
  Js.trimStart (String c r) = if Js.is_space c then Js.trimStart r else String c r.
Proof.
  intros Hc. cbn [Js.trimStart]. destruct (Js.is_space c); [reflexivity |].
  destruct r as [| b r]; [reflexivity |].
  rewrite (proj1 (narrow_first c b b Hc)).
  destruct r as [| c' r]; [reflexivity |].
  now rewrite (proj2 (narrow_first c b c' Hc)).
Qed.

Lemma blank_narrow (c : ascii) (r : string) :
  narrow c -> Js.blank (String c r) = Js.is_space c && Js.blank r.
Proof.
  intros Hc. cbn [Js.blank]. destruct (Js.is_space c); [reflexivity |].
  destruct r as [| b r]; [reflexivity |].
  rewrite (proj1 (narrow_first c b b Hc)).
  destruct r as [| c' r]; [reflexivity |].
  now rewrite (proj2 (narrow_first c b c' Hc)).
Qed.

Lemma space_at_narrow (c : ascii) (r : string) :
  narrow c -> Js.space_at (String c r) = Js.is_space c.
Proof.
  intros Hc. unfold Js.space_at, Js.after_space. destruct (Js.is_space c); [reflexivity |].
  destruct r as [| b r]; [reflexivity |].
  rewrite (proj1 (narrow_first c b b Hc)).
  destruct r as [| c' r]; [reflexivity |].
  now rewrite (proj2 (narrow_first c b c' Hc)).
Qed.

(** A text that holds a character of the ASCII range that is no white
    space is not blank, and [trimEnd] leaves it as it is up to that
    character. *)
Lemma blank_inside (q : ascii) (rest : string) :
  narrow q -> Js.is_space q = false ->
  forall (n : nat) (x : string),
    (String.length x <= n)%nat -> Js.blank (x ++ String q rest) = false.
Proof.
  intros Hq Hspace. induction n as [| n IH]; intros x Hlen.
  - destruct x; [| simpl in Hlen; lia].
    change ("" ++ String q rest) with (String q rest). rewrite blank_narrow by exact Hq.
    now rewrite Hspace.
  - destruct x as [| a x].
    { change ("" ++ String q rest) with (String q rest). rewrite blank_narrow by exact Hq.
      now rewrite Hspace. }
    simpl in Hlen.
    change (String a x ++ String q rest) with (String a (x ++ String q rest)).
    cbn [Js.blank]. destruct (Js.is_space a); [apply IH; lia |].
    destruct x as [| b x].
    { change ("" ++ String q rest) with (String q rest). cbv beta iota.
      rewrite (proj1 (narrow_second a q q Hq)).
      destruct rest as [| c rest]; [reflexivity |].
      now rewrite (proj2 (narrow_second a q c Hq)). }
    simpl in Hlen.
    change (String b x ++ String q rest) with (String b (x ++ String q rest)).
    cbv beta iota. destruct (Js.is_space2 a b); [apply IH; lia |].
    destruct x as [| c x].
    { change ("" ++ String q rest) with (String q rest). cbv beta iota.
      now rewrite (narrow_third a b q Hq). }
    simpl in Hlen.
    change (String c x ++ String q rest) with (String c (x ++ String q rest)).
    cbv beta iota. destruct (Js.is_space3 a b c); [apply IH; lia | reflexivity].
Qed.

Lemma trimEnd_inside (q : ascii) (x rest : string) :
  narrow q -> Js.is_space q = false ->
  Js.trimEnd (x ++ String q rest) = x ++ String q (Js.trimEnd rest).
Proof.
  intros Hq Hspace. induction x as [| a x IH].
  - pose proof (blank_inside q rest Hq Hspace 0 "" (Nat.le_refl _)) as Hblank.
    change ("" ++ String q rest) with (String q rest) in *.
    cbn [Js.trimEnd]. now rewrite Hblank.
  - pose proof (blank_inside q rest Hq Hspace _ (String a x) (Nat.le_refl _)) as Hblank.
    change (String a x ++ String q rest) with (String a (x ++ String q rest)) in *.
    cbn [Js.trimEnd]. now rewrite Hblank, IH.
Qed.

Lemma trimEnd_last (q : ascii) (x : string) :
  narrow q -> Js.is_space q = false ->
  Js.trimEnd (x ++ String q "") = x ++ String q "".
Proof.
  intros Hq Hspace. now rewrite trimEnd_inside.
Qed.

Lemma rev_string_last (s : string) (c : ascii) (r : string) :
  Js.rev_string "" s = String c r -> s = Js.rev_string "" r ++ String c "".
Proof.
  intros Hrev. rewrite <- (rev_string_involutive s), Hrev. cbn [Js.rev_string].
  now rewrite (rev_string_acc r (String c "")).
Qed.

(** A text whose first and last characters are characters of the ASCII
    range and no white space is its own trim. *)
Lemma trim_edges (s : string) (c c' : ascii) (r r' : string) :
  s = String c r -> narrow c -> Js.is_space c = false ->
  Js.rev_string "" s = String c' r' -> narrow c' -> Js.is_space c' = false ->
  Js.trim s = s.
Proof.
  intros Hs Hn Hc Hrev Hn' Hc'. unfold Js.trim.
  assert (Hstart : Js.trimStart s = s).
  { rewrite Hs, trimStart_narrow by exact Hn. now rewrite Hc. }
  rewrite Hstart, (rev_string_last s c' r' Hrev).
  now apply trimEnd_last.
Qed.

Lemma trimStart_white (s : string) : white_space s -> Js.trimStart s = "".
Proof.
  induction 1 as [| c s Hc _ IH | w s Hw _ IH]; [reflexivity | |].
  - cbn [Js.trimStart].
    assert (Hspace : Js.is_space c = true).
    { repeat (destruct Hc as [<- | Hc]; [reflexivity |]). destruct Hc. }
    now rewrite Hspace.
  - repeat (destruct Hw as [<- | Hw]; [exact IH |]). destruct Hw.
Qed.

Lemma trim_white (s : string) : white_space s -> Js.trim s = "".
Proof.
  intros Hs. unfold Js.trim. now rewrite (trimStart_white s Hs).
Qed.

Lemma white_all_spaces (s : string) :
  Allowlist.all_chars Js.is_space s = true -> white_space s.
Proof.
  induction s as [| c s IH]; [constructor |].
  cbn [Allowlist.all_chars]. intros Hs. apply andb_prop in Hs as [Hc Hs].
  apply white_narrow; [| now apply IH].
  unfold Js.is_space in Hc. cbv zeta in Hc.
  rewrite <- (ascii_nat_embedding c).
  assert (Hcases : (nat_of_ascii c = 9 \/ nat_of_ascii c = 10 \/ nat_of_ascii c = 11
                    \/ nat_of_ascii c = 12 \/ nat_of_ascii c = 13
                    \/ nat_of_ascii c = 32)%nat).
  { apply orb_prop in Hc as [Hc | Hc].
    - apply andb_prop in Hc as [Hlo Hhi].
      apply Nat.leb_le in Hlo. apply Nat.leb_le in Hhi. lia.
    - apply Nat.eqb_eq in Hc. lia. }
  unfold narrow_spaces. cbn [map In].
  destruct Hcases as [-> | [-> | [-> | [-> | [-> | ->]]]]]; tauto.
Qed.

Lemma word_char_plain (c : ascii) :
  word_char c = true ->
  Js.is_space c = false /\ Utils.is_quote c = false /\ Ascii.eqb c "\" = false
  /\ Ascii.eqb c "}" = false /\ Ascii.eqb c "]" = false.
Proof.
  unfold word_char. rewrite !andb_true_iff, !negb_true_iff. tauto.
Qed.

Lemma word_char_narrow (c : ascii) : word_char c = true -> narrow c.
Proof.
  unfold word_char, narrow. rewrite !andb_true_iff. tauto.
Qed.

Lemma word_first (w : string) :
  word w -> exists c r, w = String c r /\ word_char c = true.
Proof.
  intros [Hall Hne]. destruct w as [| c r]; [now elim Hne |].
  cbn [Allowlist.all_chars] in Hall. apply andb_prop in Hall as [Hc _]. eauto.
Qed.

Lemma word_last (w : string) :
  word w -> exists c r, Js.rev_string "" w = String c r /\ word_char c = true.
Proof.
  intros [Hall Hne]. apply word_first. split.
  - now rewrite all_chars_rev.
  - now apply rev_string_nonempty.
Qed.

(** The shape of a line of words: it begins and it ends with a character of
    a word. *)
Lemma join_words_edges (w : string) (ws : list string) :
  Forall word (w :: ws) ->
  (exists c r, Js.join " " (w :: ws) = String c r /\ word_char c = true)
  /\ (exists c r, Js.rev_string "" (Js.join " " (w :: ws)) = String c r
                  /\ word_char c = true).
Proof.
  revert w. induction ws as [| w2 ws IH]; intros w Hwords.
  - inversion Hwords as [| ? ? Hw _]; subst. cbn [Js.join].
    split; [now apply word_first | now apply word_last].
  - inversion Hwords as [| ? ? Hw Hrest]; subst.
    change (Js.join " " (w :: w2 :: ws)) with (w ++ " " ++ Js.join " " (w2 :: ws)).
    split.
    + destruct (word_first w Hw) as [c [r [-> Hc]]]. exists c. eexists. split; [| exact Hc].
      reflexivity.
    + destruct (proj2 (IH w2 Hrest)) as [c [r [Hrev Hc]]].
      rewrite !rev_string_app, Hrev. exists c. eexists. split; [| exact Hc]. reflexivity.
Qed.

Lemma tokens_word (w : string) :
  Allowlist.all_chars word_char w = true ->
  forall current args rest,
    Utils.tokens None current args (w ++ rest) = Utils.tokens None (current ++ w) args rest.
Proof.
  induction w as [| ch w IH]; intros Hw current args rest.
  - now rewrite append_nil_r.
  - cbn [Allowlist.all_chars] in Hw. apply andb_prop in Hw as [Hch Hw].
    destruct (word_char_plain ch Hch) as [Hspace [Hquote [Hback _]]].
    assert (Hblank : Ascii.eqb ch " " = false).
    { destruct (Ascii.eqb_spec ch " ") as [-> |]; [discriminate Hspace | reflexivity]. }
    change (String ch w ++ rest) with (String ch (w ++ rest)).
    cbn [Utils.tokens]. rewrite Hback, Hquote, Hblank. cbn [andb].
    rewrite IH by exact Hw. now rewrite append_assoc.
Qed.

Lemma tokens_space (current : string) (args : list string) (rest : string) :
  current <> "" ->
  Utils.tokens None current args (" " ++ rest) = Utils.tokens None "" (args ++ [current]) rest.
Proof.
  intros Hne. change (" " ++ rest) with (String " " rest). cbn [Utils.tokens].
  destruct current; [now elim Hne | reflexivity].
Qed.

Lemma tokens_words (words : list string) :
  Forall word words ->
  forall args, Utils.tokens None "" args (Js.join " " words) = (args ++ words)%list.
Proof.
  induction words as [| w ws IH]; intros Hwords args.
  - cbn. now rewrite app_nil_r.
  - inversion Hwords as [| ? ? [Hall Hne] Hrest]; subst.
    destruct ws as [| w2 ws].
    + cbn [Js.join]. rewrite <- (append_nil_r w) at 1. rewrite tokens_word by exact Hall.
      cbn [Utils.tokens]. change ("" ++ w) with w.
      destruct w; [now elim Hne | reflexivity].
    + change (Js.join " " (w :: w2 :: ws)) with (w ++ " " ++ Js.join " " (w2 :: ws)).
      rewrite tokens_word by exact Hall. change ("" ++ w) with w.
      rewrite tokens_space by exact Hne. rewrite IH by exact Hrest.
      now rewrite <- app_assoc.
Qed.

Lemma parseDSL_line_of_words (command : string) (args : list string) :
  Forall word (command :: args) ->
  Utils.parseDSL (Js.join " " (command :: args)) = Some (command, args).
Proof.
  intros Hwords.
  destruct (join_words_edges command args Hwords)
    as [[c [r [Hfirst Hc]]] [c' [r' [Hlast Hc']]]].
  destruct (word_char_plain c Hc) as [Hspace _].
  destruct (word_char_plain c' Hc') as [Hspace' [_ [_ [Hbrace Hbracket]]]].
  unfold Utils.parseDSL.
  rewrite (trim_edges _ c c' r r' Hfirst (word_char_narrow c Hc) Hspace
             Hlast (word_char_narrow c' Hc') Hspace').
  unfold Utils.last_char. rewrite Hlast, Hbrace, Hbracket. cbn [orb].
  rewrite (tokens_words (command :: args) Hwords []). cbn [app].
  now rewrite app_nil_r.
Qed.

(** X21. A line of plain words separated by single spaces parses into
    these words: the first is the command and the others are its
    arguments, in order. A plain word is not empty and has no white space,
    no quote, no backslash and no closing brace or bracket. *)
Theorem parseDSL_words (command : string) (args : list string) :
  Forall word (command :: args) ->
  Utils.parseDSL (Js.join " " (command :: args)) = Some (command, args).
Proof. exact (parseDSL_line_of_words command args). Qed.

Lemma parseDSL_words_witness :
  Utils.parseDSL "shell exec cat /etc/hostname" = Some ("shell", ["exec"; "cat"; "/etc/hostname"]).
Proof.
  apply (parseDSL_words "shell" ["exec"; "cat"; "/etc/hostname"]).
  repeat constructor; discriminate.
Defined.

Lemma tokens_nonempty (n : nat) :
  forall mainPart quoteChar current args,
    (String.length mainPart <= n)%nat ->
    Forall (fun a => a <> "") args ->
    Forall (fun a => a <> "") (Utils.tokens quoteChar current args mainPart).
Proof.
  assert (Hpush : forall (current : string) (args : list string),
             Forall (fun a => a <> "") args -> current <> "" ->
             Forall (fun a => a <> "") (args ++ [current])).
  { intros current args Hargs Hne. apply Forall_app. split; [exact Hargs |].
    constructor; [exact Hne | constructor]. }
  induction n as [| n IH]; intros mainPart quoteChar current args Hlen Hargs.
  - destruct mainPart; [| cbn in Hlen; lia].
    cbn [Utils.tokens]. destruct current; cbn [Js.nonempty]; [exact Hargs |].
    apply Hpush; [exact Hargs | discriminate].
  - destruct mainPart as [| char rest].
    + cbn [Utils.tokens]. destruct current; cbn [Js.nonempty]; [exact Hargs |].
      apply Hpush; [exact Hargs | discriminate].
    + cbn [String.length] in Hlen.
      assert (Hplain : forall q cur a,
                 Forall (fun a => a <> "") a ->
                 Forall (fun a => a <> "") (Utils.tokens q cur a rest))
        by (intros q cur a Ha; apply IH; [lia | exact Ha]).
      cbn [Utils.tokens].
      assert (Hrest : Forall (fun a => a <> "")
                (if Utils.is_quote char
                    && match quoteChar with Some q => Ascii.eqb char q | None => true end
                 then Utils.tokens match quoteChar with Some _ => None | None => Some char end
                        (current ++ String char "") args rest
                 else if Ascii.eqb char " " && negb (bool_decide (is_Some quoteChar))
                 then (if Js.nonempty current
                       then Utils.tokens quoteChar "" (args ++ [current]) rest
                       else Utils.tokens quoteChar current args rest)
                 else Utils.tokens quoteChar (current ++ String char "") args rest)).
      { destruct (Utils.is_quote char && _); [now apply Hplain |].
        destruct (Ascii.eqb char " " && _); [| now apply Hplain].
        destruct current; cbn [Js.nonempty]; [now apply Hplain |].
        apply Hplain. apply Hpush; [exact Hargs | discriminate]. }
      destruct (Ascii.eqb char "\"); [| exact Hrest].
      destruct rest as [| next rest']; [exact Hrest |].
      apply IH; [cbn [String.length] in Hlen; lia | exact Hargs].
Qed.

(** X22. [parseDSL] gives no empty token: when it parses a line, the
    command is not the empty text and neither is any argument. *)
Theorem parseDSL_no_empty_token (line command : string) (args : list string) :
  Utils.parseDSL line = Some (command, args) ->
  command <> "" /\ Forall (fun a => a <> "") args.
Proof.
  unfold Utils.parseDSL. intros Hparse.
  destruct (match Utils.last_char (Js.trim line) with Some _ => _ | None => _ end)
    as [mainPart trailingArg].
  assert (Hall : Forall (fun a => a <> "")
                   (Utils.tokens None "" [] mainPart
                    ++ match trailingArg with
                       | Some t => if Js.nonempty t then [t] else []
                       | None => []
                       end)).
  { apply Forall_app. split.
    - apply (tokens_nonempty (String.length mainPart)); [lia | constructor].
    - destruct trailingArg as [[| ch t] |]; cbn [Js.nonempty]; repeat constructor.
      discriminate. }
  destruct (_ ++ _)%list as [| first others]; [discriminate |].
  injection Hparse as <- <-. now inversion Hall.
Qed.

Lemma parseDSL_no_empty_token_witness :
  "agent" <> "" /\ Forall (fun a => a <> "") ["new"; "{model: xai:grok}"].
Proof.
  apply (parseDSL_no_empty_token "  agent   new   {model: xai:grok} ").
  vm_compute. reflexivity.
Defined.

Section BlankCommands.
Context {W : Type}.
Variable pluginsRegistry : PluginsRegistry.
Variable dslRegistry : gmap string (Bridge.handler W).
Variable JSON_stringify : JsVal.value -> throws string.

(** X23. A command that is empty or all white space, the white space
    that [trim] removes (TAB, LF, VT, FF, CR, SPACE, the no-break space,
    the spaces U+1680, U+2000 to U+200A, U+202F, U+205F and U+3000, the
    separators U+2028 and U+2029, the byte order mark), is refused: the
    command language parses it to nothing, and [handleCommand], for a
    message whose [procId] has a text, answers with the error
    [Invalid command], runs no handler and leaves the state of the
    process as it is. *)
Theorem handleCommand_blank (message : Bridge.command) (sessionId : Z)
        (procId0 : JsVal.value) (s : Bridge.state W) :
  white_space (Bridge.c_command message) ->
  Text.printable (procId_of message procId0) = true ->
  Utils.parseDSL (Bridge.c_command message) = None
  /\ Bridge.handleCommand pluginsRegistry dslRegistry Utils.parseDSL JSON_stringify
                          message sessionId procId0 s
     = (Bridge.CmdError "Invalid command", s).
Proof.
  intros Hblank Hprintable.
  assert (Hparse : Utils.parseDSL (Bridge.c_command message) = None).
  { unfold Utils.parseDSL. rewrite (trim_white _ Hblank). reflexivity. }
  split; [exact Hparse |]. unfold Bridge.handleCommand, Text.template.
  fold (procId_of message procId0). now rewrite Hprintable, Hparse.
Qed.

End BlankCommands.

(** A command of a space, a tabulation, a no-break space, an em space and
    a byte order mark. *)
Lemma handleCommand_blank_witness :
  let line := " " ++ bytes [9] ++ bytes [194; 160] ++ bytes [226; 128; 131]
              ++ bytes [239; 187; 191] in
  white_space line
  /\ Bridge.handleCommand [] two_tools Utils.parseDSL Forwarded.JSON_stringify
                          (Forwarded.message line) 3 JsVal.Undefined Forwarded.child
     = (Bridge.CmdError "Invalid command", Forwarded.child).
Proof.
  intros line.
  assert (Hwhite : white_space line).
  { apply white_narrow; [cbn; tauto |].
    apply white_narrow; [cbn; tauto |].
    apply (white_wide (bytes [194; 160])); [cbn; tauto |].
    apply (white_wide (bytes [226; 128; 131])); [cbn; tauto |].
    apply (white_wide (bytes [239; 187; 191]) ""); [cbn; tauto |].
    constructor. }
  split; [exact Hwhite |].
  exact (proj2 (handleCommand_blank [] two_tools Forwarded.JSON_stringify
                  (Forwarded.message line) 3%Z JsVal.Undefined Forwarded.child Hwhite
                  eq_refl)).
Defined.

Lemma is_quote_narrow (q : ascii) : Utils.is_quote q = true -> narrow q.
Proof.
  unfold Utils.is_quote. intros Hq. apply orb_prop in Hq as [Hq | Hq].
  - apply Nat.eqb_eq in Hq. unfold narrow. now rewrite Hq.
  - apply Ascii.eqb_eq in Hq. subst q. reflexivity.
Qed.

Lemma is_quote_cases (q : ascii) :
  Utils.is_quote q = true ->
  Js.is_space q = false /\ Ascii.eqb q "\" = false /\ Ascii.eqb q "}" = false
  /\ Ascii.eqb q "]" = false /\ Ascii.eqb q " " = false.
Proof.
  unfold Utils.is_quote. intros Hq. apply orb_prop in Hq as [Hq | Hq].
  - apply Nat.eqb_eq in Hq.
    assert (Heq : q = ascii_of_nat 34) by (rewrite <- Hq; now rewrite ascii_nat_embedding).
    subst q. repeat split; reflexivity.
  - apply Ascii.eqb_eq in Hq. subst q. repeat split; reflexivity.
Qed.

(** A line that ends in a character that is no white space, after a line
    of words and a space. *)
Lemma trim_line_tail (command : string) (args : list string) (tail : string)
      (c : ascii) (r : string) :
  Forall word (command :: args) ->
  Js.rev_string "" tail = String c r -> narrow c -> Js.is_space c = false ->
  Js.trim (Js.join " " (command :: args) ++ " " ++ tail)
  = Js.join " " (command :: args) ++ " " ++ tail
  /\ Utils.last_char (Js.join " " (command :: args) ++ " " ++ tail) = Some c.
Proof.
  intros Hwords Htail Hnarrow Hc.
  destruct (join_words_edges command args Hwords) as [[c0 [r0 [Hfirst Hc0]]] _].
  destruct (word_char_plain c0 Hc0) as [Hspace _].
  assert (Hrev : Js.rev_string "" (Js.join " " (command :: args) ++ " " ++ tail)
                 = String c (r ++ Js.rev_string "" (Js.join " " (command :: args) ++ " "))).
  { rewrite <- append_assoc, rev_string_app, Htail. reflexivity. }
  split.
  - eapply trim_edges;
      [rewrite Hfirst; reflexivity | exact (word_char_narrow c0 Hc0) | exact Hspace
       | exact Hrev | exact Hnarrow | exact Hc].
  - unfold Utils.last_char. now rewrite Hrev.
Qed.

Lemma tokens_quoted (q : ascii) (text : string) :
  Allowlist.all_chars (fun c => negb (Ascii.eqb c q) && negb (Ascii.eqb c "\")) text = true ->
  forall current args rest,
    Utils.tokens (Some q) current args (text ++ rest)
    = Utils.tokens (Some q) (current ++ text) args rest.
Proof.
  induction text as [| ch text IH]; intros Htext current args rest.
  - now rewrite append_nil_r.
  - cbn [Allowlist.all_chars] in Htext. apply andb_prop in Htext as [Hch Htext].
    apply andb_prop in Hch as [Hq Hback]. apply negb_true_iff in Hq, Hback.
    change (String ch text ++ rest) with (String ch (text ++ rest)).
    cbn [Utils.tokens]. rewrite Hback, Hq.
    assert (Hin : bool_decide (is_Some (Some q)) = true)
      by (apply bool_decide_eq_true_2; eauto).
    rewrite Hin, !andb_false_r. rewrite IH by exact Htext. now rewrite append_assoc.
Qed.

(** X24. A quoted argument stays one argument and keeps its quotes: after
    a line of plain words, a text between two quotes of the same kind,
    with no such quote and no backslash inside but with spaces or quotes
    of the other kind if any, is the last argument, the two quotes
    included. *)
Theorem parseDSL_quoted_argument (command : string) (args : list string)
        (q : ascii) (text : string) :
  Forall word (command :: args) ->
  Utils.is_quote q = true ->
  Allowlist.all_chars (fun c => negb (Ascii.eqb c q) && negb (Ascii.eqb c "\")) text = true ->
  Utils.parseDSL (Js.join " " (command :: args) ++ " " ++ quoted_text q text)
  = Some (command, (args ++ [quoted_text q text])%list).
Proof.
  intros Hwords Hquote Htext.
  destruct (is_quote_cases q Hquote) as [Hspace [Hback [Hbrace [Hbracket Hblank]]]].
  assert (Hrev : Js.rev_string "" (quoted_text q text)
                 = String q (Js.rev_string "" text ++ String q "")).
  { unfold quoted_text. cbn [Js.rev_string].
    rewrite (rev_string_acc (text ++ String q "") (String q "")), rev_string_app.
    reflexivity. }
  destruct (trim_line_tail command args _ q _ Hwords Hrev (is_quote_narrow q Hquote) Hspace)
    as [Htrim Hlast].
  unfold Utils.parseDSL. rewrite Htrim, Hlast, Hbrace, Hbracket. cbn [orb].
  inversion Hwords as [| ? ? [Hall Hne] Hrest]; subst.
  assert (Htokens : Utils.tokens None "" []
                      (Js.join " " (command :: args) ++ " " ++ quoted_text q text)
                    = ((command :: args) ++ [quoted_text q text])%list).
  { assert (Hgeneral : forall words acc,
              Forall word words -> words <> [] ->
              Utils.tokens None "" acc (Js.join " " words ++ " " ++ quoted_text q text)
              = (acc ++ words ++ [quoted_text q text])%list).
    { induction words as [| w ws IHw]; intros acc Hws Hnonempty; [now elim Hnonempty |].
      inversion Hws as [| ? ? [Hw Hwne] Hws']; subst.
      destruct ws as [| w2 ws].
      - cbn [Js.join]. rewrite tokens_word by exact Hw. change ("" ++ w) with w.
        rewrite tokens_space by exact Hwne.
        unfold quoted_text. cbn [Utils.tokens]. rewrite Hback, Hquote. cbn [andb].
        change ("" ++ String q "") with (String q "").
        rewrite tokens_quoted by exact Htext.
        cbn [Utils.tokens]. rewrite Hback, Hquote, Ascii.eqb_refl. cbn [andb].
        cbn [Utils.tokens]. rewrite !append_assoc.
        change (String q "" ++ text ++ String q "") with (String q (text ++ String q "")).
        cbn [Js.nonempty]. now rewrite <- app_assoc.
      - change (Js.join " " (w :: w2 :: ws)) with (w ++ " " ++ Js.join " " (w2 :: ws)).
        rewrite !append_assoc. rewrite tokens_word by exact Hw. change ("" ++ w) with w.
        rewrite tokens_space by exact Hwne.
        rewrite IHw by (try exact Hws'; discriminate).
        now rewrite <- !app_assoc. }
    apply (Hgeneral (command :: args) []); [exact Hwords | discriminate]. }
  rewrite Htokens. cbn [app]. now rewrite app_nil_r.
Qed.

Lemma scan_back_plain (closeChar openChar : ascii) (body : string) :
  Allowlist.all_chars
    (fun c => negb (Utils.is_quote c) && negb (Ascii.eqb c openChar)
              && negb (Ascii.eqb c closeChar)) body = true ->
  forall depth taken rest,
    depth <> 0%Z ->
    Utils.scan_back closeChar openChar depth None taken (body ++ rest)
    = Utils.scan_back closeChar openChar depth None (Js.rev_string taken body) rest.
Proof.
  induction body as [| ch body IH]; intros Hbody depth taken rest Hdepth; [reflexivity |].
  cbn [Allowlist.all_chars] in Hbody. apply andb_prop in Hbody as [Hch Hbody].
  apply andb_prop in Hch as [Hch Hclose]. apply andb_prop in Hch as [Hquote Hopen].
  apply negb_true_iff in Hquote, Hopen, Hclose.
  change (String ch body ++ rest) with (String ch (body ++ rest)).
  cbn [Utils.scan_back Js.rev_string]. rewrite Hquote, Hclose, Hopen. cbn [andb].
  apply Z.eqb_neq in Hdepth as Hne. rewrite Hne. now apply IH.
Qed.

(** X25. A structure in flow syntax at the end of the line is one
    argument: after a line of plain words, a text between braces or
    between brackets, with no quote and no further brace or bracket of
    that kind inside but with spaces if any, is the last argument, kept
    as it is written. *)
Theorem parseDSL_trailing_structure (command : string) (args : list string)
        (openChar closeChar : ascii) (body : string) :
  Forall word (command :: args) ->
  (openChar, closeChar) = ("{", "}")%char \/ (openChar, closeChar) = ("[", "]")%char ->
  Allowlist.all_chars
    (fun c => negb (Utils.is_quote c) && negb (Ascii.eqb c openChar)
              && negb (Ascii.eqb c closeChar)) body = true ->
  Utils.parseDSL (Js.join " " (command :: args) ++ " " ++ structure openChar closeChar body)
  = Some (command, (args ++ [structure openChar closeChar body])%list).
Proof.
  intros Hwords Hkind Hbody.
  assert (Hbody_rev : Allowlist.all_chars
            (fun c => negb (Utils.is_quote c) && negb (Ascii.eqb c openChar)
                      && negb (Ascii.eqb c closeChar)) (Js.rev_string "" body) = true)
    by (now rewrite all_chars_rev).
  assert (Hrev : Js.rev_string "" (structure openChar closeChar body)
                 = String closeChar (Js.rev_string "" body ++ String openChar "")).
  { unfold structure. cbn [Js.rev_string].
    rewrite (rev_string_acc (body ++ String closeChar "") (String openChar "")),
      rev_string_app. reflexivity. }
  assert (Hnarrow : narrow closeChar)
    by (destruct Hkind as [[= -> ->] | [= -> ->]]; reflexivity).
  assert (Hfacts : Js.is_space closeChar = false
                   /\ Ascii.eqb closeChar "}" || Ascii.eqb closeChar "]" = true
                   /\ (if Ascii.eqb closeChar "}" then "{"%char else "["%char) = openChar
                   /\ Utils.is_quote closeChar = false /\ Utils.is_quote openChar = false
                   /\ Ascii.eqb openChar closeChar = false).
  { destruct Hkind as [[= -> ->] | [= -> ->]]; repeat split; reflexivity. }
  destruct Hfacts as [Hspace [Hlastchar [Hopen [Hq_close [Hq_open Hdistinct]]]]].
  destruct (trim_line_tail command args _ closeChar _ Hwords Hrev Hnarrow Hspace)
    as [Htrim Hlast].
  destruct (join_words_edges command args Hwords)
    as [[c [r [Hfirst Hc]]] [c' [r' [Hlastw Hc']]]].
  destruct (word_char_plain c Hc) as [Hcspace _].
  destruct (word_char_plain c' Hc') as [Hcspace' _].
  unfold Utils.parseDSL. rewrite Htrim, Hlast, Hlastchar, Hopen.
  rewrite <- append_assoc, rev_string_app, Hrev.
  change (String closeChar (Js.rev_string "" body ++ String openChar "")
          ++ Js.rev_string "" (Js.join " " (command :: args) ++ " "))
    with (String closeChar
            (((Js.rev_string "" body ++ String openChar "")
              ++ Js.rev_string "" (Js.join " " (command :: args) ++ " ")))).
  rewrite append_assoc.
  cbn [Utils.scan_back]. rewrite Hq_close, Ascii.eqb_refl. cbn [andb Z.add Z.eqb].
  rewrite scan_back_plain by (try exact Hbody_rev; discriminate).
  rewrite (rev_string_acc (Js.rev_string "" body)), rev_string_involutive.
  change (String openChar "" ++ Js.rev_string "" (Js.join " " (command :: args) ++ " "))
    with (String openChar (Js.rev_string "" (Js.join " " (command :: args) ++ " "))).
  cbn [Utils.scan_back]. rewrite Hq_open, Hdistinct, Ascii.eqb_refl.
  cbn [andb Z.sub Z.add Z.opp Z.eqb Z.pos_sub].
  rewrite rev_string_involutive.
  fold (structure openChar closeChar body).
  assert (Hhead : Js.trim (Js.join " " (command :: args) ++ " ")
                  = Js.join " " (command :: args)).
  { unfold Js.trim. rewrite Hfirst at 1.
    change (String c r ++ " ") with (String c (r ++ " ")).
    rewrite trimStart_narrow by exact (word_char_narrow c Hc).
    rewrite Hcspace. change (String c (r ++ " ")) with (String c r ++ " ").
    rewrite <- Hfirst. rewrite (rev_string_last _ c' r' Hlastw) at 1.
    rewrite append_assoc. change (String c' "" ++ " ") with (String c' " ").
    rewrite trimEnd_inside by (exact (word_char_narrow c' Hc') || exact Hcspace').
    change (Js.trimEnd " ") with "". symmetry. exact (rev_string_last _ c' r' Hlastw). }
  change (0 + 1 =? 0)%Z with false. change (0 + 1 - 1 =? 0)%Z with true. cbn iota.
  rewrite Hhead, (tokens_words (command :: args) Hwords []).
  unfold structure at 1. cbn [Js.nonempty app]. reflexivity.
Qed.

Lemma parseDSL_quoted_argument_witness :
  Utils.parseDSL "say 'hello  world'" = Some ("say", ["'hello  world'"]).
Proof.
  exact (parseDSL_quoted_argument "say" [] "'" "hello  world"
           ltac:(repeat constructor; discriminate) eq_refl eq_refl).
Defined.

Lemma parseDSL_trailing_structure_witness :
  Utils.parseDSL "agent new {model: xai:grok, turns: 3}"
  = Some ("agent", ["new"; "{model: xai:grok, turns: 3}"]).
Proof.
  exact (parseDSL_trailing_structure "agent" ["new"] "{" "}" "model: xai:grok, turns: 3"
           ltac:(repeat constructor; discriminate) (or_introl eq_refl) eq_refl).
Defined.

(** ** The aliases of the shell plugin *)

Lemma scanned_tools_app (l1 l2 : PluginsRegistry) :
  scanned_tools (l1 ++ l2)%list false = (scanned_tools l1 false ++ scanned_tools l2 false)%list.
Proof.
  induction l1 as [| [name plugin] l1 IH]; [reflexivity |].
  cbn [app scanned_tools]. destruct (definition plugin) as [def |]; [| exact IH].
  now rewrite IH, app_assoc.
Qed.

Section ShellAlias.
Context {W : Type}.
Variable dslRegistry : gmap string (Bridge.handler W).
Variable before after : PluginsRegistry.

(** X26. [shell exec <words>] on the command line runs the shell tool on
    the words. When the shell plugin is registered, no alias of a plugin
    registered before it answers for the line and [shell] itself is no
    registered name, the line of the plain words [shell], [exec] or
    [execute], and further words resolves to [shell__execute] and its
    handler, with the one named argument [command]: the further words
    joined by single spaces. *)
Theorem resolveCommand_shell_exec (verb : string) (words : list string)
        (h : Bridge.handler W) :
  let argv := "shell" :: verb :: words in
  verb = "exec" \/ verb = "execute" ->
  Forall word words ->
  Bridge.has dslRegistry "shell" = false ->
  Bridge.first_alias (all_tools before) argv = None ->
  dslRegistry !! "shell__execute" = Some h ->
  exists r,
    Bridge.resolveCommand (before ++ ("shell", shell_plugin) :: after)%list dslRegistry
                          Utils.parseDSL (Js.join " " argv) = Some r
    /\ Bridge.r_cmd r = "shell__execute"
    /\ Bridge.r_args r
       = ArgsOther (JsVal.Obj [("command", JsVal.Str (Js.join " " words))])
    /\ Bridge.r_handler r = Some h
    /\ Bridge.r_error r = None.
Proof.
  intros argv Hverb Hwords Hshell Hbefore Hh.
  assert (Hargv : Forall word argv).
  { subst argv. constructor; [split; [reflexivity | discriminate] |].
    constructor; [| exact Hwords].
    destruct Hverb as [-> | ->]; (split; [reflexivity | discriminate]). }
  unfold Bridge.resolveCommand. subst argv. rewrite (parseDSL_line_of_words _ _ Hargv).
  eexists. split; [reflexivity |].
  unfold Bridge.resolveParsed. rewrite alias_loop_scanned.
  change (registered_in dslRegistry "shell") with (Bridge.has dslRegistry "shell").
  rewrite Hshell.
  rewrite scanned_tools_app. fold (all_tools before). rewrite first_alias_app, Hbefore.
  cbn [scanned_tools shell_plugin definition]. rewrite first_alias_app.
  assert (Halias : Bridge.first_alias ShellPlugin.definition ("shell" :: verb :: words)
                   = Some {| al_name := "shell__execute";
                             al_args := ArgsOther
                                          (JsVal.Obj [("command",
                                                       JsVal.Str (Js.join " " words))]) |})
    by (destruct Hverb as [-> | ->]; reflexivity).
  rewrite Halias. cbn [al_name al_args Bridge.r_cmd Bridge.r_args Bridge.r_handler
                         Bridge.r_error].
  unfold Bridge.handler in *. rewrite Hh. repeat split; reflexivity.
Qed.

End ShellAlias.

Lemma resolveCommand_shell_exec_witness :
  exists r,
    Bridge.resolveCommand [("shell", shell_plugin)] shell_handlers Utils.parseDSL
                          "shell exec cat /etc/hostname" = Some r
    /\ Bridge.r_cmd r = "shell__execute"
    /\ Bridge.r_args r = ArgsOther (JsVal.Obj [("command", JsVal.Str "cat /etc/hostname")])
    /\ Bridge.r_handler r = Some succeeding_tool
    /\ Bridge.r_error r = None.
Proof.
  assert (Hh : shell_handlers !! "shell__execute" = Some succeeding_tool)
    by (vm_compute; reflexivity).
  assert (Hshell : Bridge.has shell_handlers "shell" = false) by (vm_compute; reflexivity).
  exact (resolveCommand_shell_exec shell_handlers [] [] "exec" ["cat"; "/etc/hostname"]
           succeeding_tool (or_introl eq_refl)
           ltac:(repeat constructor; discriminate) Hshell eq_refl Hh).
Defined.

(** ** The agent loop: the messages of the tool calls *)

Section ToolMessages.
Context {E : Type}.
Variable route : Bridge.tool_call -> AgentLoop.world E -> throws JsVal.value * AgentLoop.world E.
Variable JSON_parse : string -> option JsVal.value.
Variable JSON_stringify : JsVal.value -> option string.

Lemma refresh_metadata_spec (w : AgentLoop.world E) (id : string) (session : Session) :
  spec (snd (AgentLoop.refresh_metadata w id session)) = spec session.
Proof.
  unfold AgentLoop.refresh_metadata.
  destruct (SessionModel.load _ id) as [s [fresh |]]; reflexivity.
Qed.

Lemma run_tool_call_appends (id : string) (toolCall : ToolCall) (w : AgentLoop.world E)
      (session : Session) :
  let out := AgentLoop.run_tool_call route JSON_parse JSON_stringify id toolCall w session in
  exists added,
    messages (spec (snd (snd out))) = (messages (spec session) ++ added)%list
    /\ system_prompt (spec (snd (snd out))) = system_prompt (spec session)
    /\ Forall (answers [toolCall]) added
    /\ (length added <= 1)%nat.
Proof.
  assert (Hnone : exists added : list Message,
            messages (spec session) = (messages (spec session) ++ added)%list
            /\ system_prompt (spec session) = system_prompt (spec session)
            /\ Forall (answers [toolCall]) added /\ (length added <= 1)%nat).
  { exists []. rewrite app_nil_r. repeat split; [constructor | cbn; lia]. }
  unfold AgentLoop.run_tool_call.
  destruct (route _ w) as [routed w1].
  destruct (JsVal.get _ "status") as [status | n m]; [| exact Hnone].
  destruct (JsVal.is_str status ToolExecutionStatus.RUNNING); [exact Hnone |].
  destruct (if JsVal.is_str status ToolExecutionStatus.SUCCESS then _ else _)
    as [content |]; [| exact Hnone].
  pose proof (refresh_metadata_spec w1 id session) as Hspec.
  destruct (AgentLoop.refresh_metadata w1 id session) as [w2 session'].
  cbn [fst snd] in *. cbn [push_message spec messages system_prompt]. rewrite Hspec.
  eexists [_]. split; [reflexivity |]. split; [reflexivity |]. split; [| cbn; lia].
  constructor; [| constructor]. split; [reflexivity |].
  exists toolCall. split; [now left |]. split; reflexivity.
Qed.

(** X27. The loop over the tool calls of an assistant message only adds
    to the log of the session: the messages the session had stay, in
    their order, and the system prompt with them; what is added are
    messages of role [tool], each bearing the id and the name of one of
    the tool calls, and no more messages than there are tool calls,
    whether the loop ends or a tool call makes it throw. *)
Theorem run_tool_calls_appends (id : string) (toolCalls : list ToolCall)
        (w : AgentLoop.world E) (session : Session) :
  let out := AgentLoop.run_tool_calls route JSON_parse JSON_stringify id toolCalls w session in
  exists added,
    messages (spec (snd (snd out))) = (messages (spec session) ++ added)%list
    /\ system_prompt (spec (snd (snd out))) = system_prompt (spec session)
    /\ Forall (answers toolCalls) added
    /\ (length added <= length toolCalls)%nat.
Proof.
  revert w session. induction toolCalls as [| toolCall rest IH]; intros w session.
  - exists []. cbn. rewrite app_nil_r. repeat split; [constructor | lia].
  - cbn [AgentLoop.run_tool_calls].
    destruct (run_tool_call_appends id toolCall w session)
      as [added [Hmessages [Hprompt [Hanswers Hlength]]]].
    assert (Hweaken : forall l m, answers l m -> forall t, answers (t :: l) m).
    { intros l m [Hrole [call [Hin Hid]]] t. split; [exact Hrole |].
      exists call. split; [now right | exact Hid]. }
    assert (Hfirst : Forall (answers (toolCall :: rest)) added).
    { eapply List.Forall_impl; [| exact Hanswers].
      intros m [Hrole [call [[<- | []] Hid]]]. split; [exact Hrole |].
      exists toolCall. split; [now left | exact Hid]. }
    destruct (AgentLoop.run_tool_call route JSON_parse JSON_stringify id toolCall w session)
      as [[[] | n m] [w' session']]; cbn [fst snd] in *.
    + destruct (IH w' session') as [added' [Hmessages' [Hprompt' [Hanswers' Hlength']]]].
      exists (added ++ added')%list. rewrite Hmessages', Hmessages, Hprompt', Hprompt.
      split; [now rewrite app_assoc |]. split; [reflexivity |]. split.
      * apply Forall_app. split; [exact Hfirst |].
        eapply List.Forall_impl; [| exact Hanswers']. intros m Hm. now apply Hweaken.
      * rewrite length_app. cbn [length]. lia.
    + exists added. split; [exact Hmessages |]. split; [exact Hprompt |].
      split; [exact Hfirst | cbn [length]; lia].
Qed.

End ToolMessages.

(** ** The allowlist: rules that name a program *)

Lemma path_char_plain (c : ascii) :
  path_char c = true ->
  Js.is_space c = false /\ Allowlist.is_quote c = false /\ Ascii.eqb c "\" = false.
Proof. unfold path_char. rewrite !andb_true_iff, !negb_true_iff. tauto. Qed.

Lemma path_char_narrow (c : ascii) : path_char c = true -> narrow c.
Proof. unfold path_char, narrow. rewrite !andb_true_iff. tauto. Qed.

(** The first word of a path that is followed by nothing or by white
    space and more. *)
Lemma first_word_path (s tail : string) :
  Allowlist.all_chars path_char s = true ->
  arguments_tail tail ->
  Js.first_word (Js.trimEnd (s ++ tail)) = s.
Proof.
  intros Hs Htail. induction s as [| c s IH].
  - change ("" ++ tail) with tail.
    destruct Htail as [-> | [c [rest [-> Hc]]]]; [reflexivity |].
    cbn [Js.trimEnd]. destruct (Js.blank (String c rest)); [reflexivity |].
    cbn [Js.first_word]. unfold Js.space_at, Js.after_space. now rewrite Hc.
  - cbn [Allowlist.all_chars] in Hs. apply andb_prop in Hs as [Hc Hs].
    destruct (path_char_plain c Hc) as [Hspace _].
    change (String c s ++ tail) with ("" ++ String c (s ++ tail)).
    rewrite trimEnd_inside by (exact (path_char_narrow c Hc) || exact Hspace).
    change ("" ++ String c (Js.trimEnd (s ++ tail)))
      with (String c (Js.trimEnd (s ++ tail))).
    cbn [Js.first_word]. rewrite space_at_narrow by exact (path_char_narrow c Hc).
    now rewrite Hspace, IH.
Qed.

Lemma all_chars_weaken (p q : ascii -> bool) (s : string) :
  (forall c, p c = true -> q c = true) ->
  Allowlist.all_chars p s = true -> Allowlist.all_chars q s = true.
Proof.
  intros Hpq. induction s as [| c s IH]; [reflexivity |].
  cbn [Allowlist.all_chars]. intros Hs. apply andb_prop in Hs as [Hc Hs].
  now rewrite (Hpq c Hc), IH.
Qed.

Lemma backslashes_to_slashes_plain (s : string) :
  Allowlist.all_chars path_char s = true -> Allowlist.backslashes_to_slashes s = s.
Proof.
  induction s as [| c s IH]; [reflexivity |].
  cbn [Allowlist.all_chars]. intros Hs. apply andb_prop in Hs as [Hc Hs].
  destruct (path_char_plain c Hc) as [_ [_ Hback]].
  cbn [Allowlist.backslashes_to_slashes]. now rewrite Hback, IH.
Qed.

(** The base command of a command that begins with a path: the path, less
    a leading [./]. *)
Lemma getBaseCommand_path (s tail : string) (c : ascii) (r : string) :
  s = String c r ->
  Allowlist.all_chars path_char s = true ->
  arguments_tail tail ->
  Allowlist.getBaseCommand (s ++ tail) = Allowlist.strip_prefix "./" s.
Proof.
  intros -> Hs Htail.
  assert (Hc : path_char c = true)
    by (cbn [Allowlist.all_chars] in Hs; now apply andb_prop in Hs as [Hc _]).
  destruct (path_char_plain c Hc) as [Hspace [Hquote _]].
  assert (Hnonspace : Allowlist.all_chars (fun c => negb (Js.is_space c)) (String c r) = true).
  { apply (all_chars_weaken path_char); [| exact Hs].
    intros c0 Hc0. destruct (path_char_plain c0 Hc0) as [-> _]. reflexivity. }
  unfold Allowlist.getBaseCommand, Js.trim.
  change (String c r ++ tail) with (String c (r ++ tail)).
  rewrite trimStart_narrow by exact (path_char_narrow c Hc). rewrite Hspace.
  assert (Hword : Js.first_word (Js.trimEnd (String c (r ++ tail))) = String c r)
    by exact (first_word_path (String c r) tail Hs Htail).
  change (String c (r ++ tail)) with ("" ++ String c (r ++ tail)) in Hword |- *.
  rewrite trimEnd_inside in Hword |- * by (exact (path_char_narrow c Hc) || exact Hspace).
  change ("" ++ String c (Js.trimEnd (r ++ tail)))
    with (String c (Js.trimEnd (r ++ tail))) in Hword |- *.
  unfold Allowlist.unquote. rewrite Hquote.
  rewrite Hword.
  assert (Hstripped : Allowlist.all_chars path_char (Allowlist.strip_prefix "./" (String c r))
                      = true).
  { unfold Allowlist.strip_prefix. destruct (Js.startsWith (String c r) "./") eqn:Hstart;
      [| exact Hs].
    destruct r as [| c2 r]; [cbn in Hstart; destruct (Ascii.eqb c "."); discriminate |].
    cbn [String.length Allowlist.drop]. cbn [Allowlist.all_chars] in Hs.
    apply andb_prop in Hs as [_ Hs]. now apply andb_prop in Hs as [_ Hs]. }
  assert (Hnoback : Allowlist.strip_prefix ".\" (Allowlist.strip_prefix "./" (String c r))
                    = Allowlist.strip_prefix "./" (String c r)).
  { generalize dependent (Allowlist.strip_prefix "./" (String c r)). intros x Hx.
    unfold Allowlist.strip_prefix. destruct x as [| x1 [| x2 x]]; cbn [Js.startsWith].
    - reflexivity.
    - destruct (Ascii.eqb x1 "."); reflexivity.
    - cbn [Allowlist.all_chars] in Hx. apply andb_prop in Hx as [_ Hx].
      apply andb_prop in Hx as [Hx2 _]. destruct (path_char_plain x2 Hx2) as [_ [_ ->]].
      destruct (Ascii.eqb x1 "."); reflexivity. }
  rewrite Hnoback. now apply backslashes_to_slashes_plain.
Qed.

Lemma program_name_path (name : string) :
  program_name name ->
  Allowlist.all_chars path_char name = true
  /\ exists c r, name = String c r /\ Ascii.eqb c "/" = false
                 /\ Allowlist.strip_prefix "./" name = name.
Proof.
  intros [Hall Hne]. split.
  - apply (all_chars_weaken name_char); [| exact Hall].
    intros c Hc. unfold name_char in Hc. now apply andb_prop in Hc as [Hc _].
  - destruct name as [| c r]; [now elim Hne |]. exists c, r.
    cbn [Allowlist.all_chars] in Hall. apply andb_prop in Hall as [Hc Hr].
    unfold name_char in Hc. apply andb_prop in Hc as [_ Hslash].
    apply negb_true_iff in Hslash. split; [reflexivity |]. split; [exact Hslash |].
    unfold Allowlist.strip_prefix. destruct r as [| c2 r]; cbn [Js.startsWith].
    + destruct (Ascii.eqb c "."); reflexivity.
    + cbn [Allowlist.all_chars] in Hr. apply andb_prop in Hr as [Hc2 _].
      unfold name_char in Hc2. apply andb_prop in Hc2 as [_ Hslash2].
      apply negb_true_iff in Hslash2. rewrite Hslash2.
      destruct (Ascii.eqb c "."); reflexivity.
Qed.

Section ProgramRules.
Variable RegExp : string -> string -> option (string -> bool).

(** X28. A rule whose pattern is the bare name of a program applies to
    the program however it is invoked, and to more: the pattern matches
    every command that begins with the text of the name, so that the rule
    [rm] also matches [rmdir]; and it matches every command whose first
    word is a path that ends in a slash and the name, such as [/bin/rm]
    or [./rm], whatever the arguments. *)
Theorem matchesPattern_program (name path rest tail : string) :
  program_name name ->
  Allowlist.all_chars path_char path = true ->
  arguments_tail tail ->
  Allowlist.matchesPattern RegExp (name ++ rest) name = true
  /\ Allowlist.matchesPattern RegExp (path ++ "/" ++ name ++ tail) name = true.
Proof.
  intros Hname Hpath Htail.
  destruct (program_name_path name Hname) as [Hname_path [c [r [Heq [Hslash Hstrip]]]]].
  assert (Hregex : Allowlist.parseRegexPattern RegExp name = None).
  { unfold Allowlist.parseRegexPattern, Allowlist.regex_form. rewrite Heq.
    destruct c as [[] [] [] [] [] [] [] []]; try reflexivity.
    vm_compute in Hslash. discriminate. }
  unfold Allowlist.matchesPattern. rewrite Hregex. split.
  - now rewrite startsWith_app.
  - assert (Hbase_name : Allowlist.getBaseCommand name = name).
    { rewrite <- (append_nil_r name) at 1.
      rewrite (getBaseCommand_path name "" c r Heq Hname_path (or_introl eq_refl)).
      exact Hstrip. }
    rewrite Hbase_name.
    assert (Hwhole : Allowlist.all_chars path_char (path ++ "/" ++ name) = true)
      by (rewrite !all_chars_app, Hpath, Hname_path; reflexivity).
    assert (Hshape : exists c0 r0, path ++ "/" ++ name = String c0 r0)
      by (destruct path; cbn; eauto).
    destruct Hshape as [c0 [r0 Hshape]].
    replace (path ++ "/" ++ name ++ tail) with ((path ++ "/" ++ name) ++ tail)
      by (now rewrite !append_assoc).
    rewrite (getBaseCommand_path _ tail c0 r0 Hshape Hwhole Htail).
    assert (Hends : Allowlist.strip_prefix "./" (path ++ "/" ++ name) = name
                    \/ exists p, Allowlist.strip_prefix "./" (path ++ "/" ++ name)
                                 = p ++ "/" ++ name).
    { unfold Allowlist.strip_prefix.
      destruct (Js.startsWith (path ++ "/" ++ name) "./") eqn:Hstart;
        [| right; now exists path].
      destruct path as [| p1 [| p2 path]].
      - change ("" ++ "/" ++ name) with (String "/" name) in Hstart.
        cbn [Js.startsWith] in Hstart. vm_compute in Hstart. discriminate.
      - left. reflexivity.
      - right. exists path. reflexivity. }
    destruct Hends as [-> | [p ->]].
    + rewrite String.eqb_refl. now rewrite orb_true_r.
    + change (p ++ "/" ++ name) with (p ++ ("/" ++ name)). rewrite endsWith_app.
      now rewrite orb_true_r.
Qed.

End ProgramRules.

Lemma matchesPattern_program_witness :
  Allowlist.matchesPattern (fun _ _ => None) "rmdir build" "rm" = true
  /\ Allowlist.matchesPattern (fun _ _ => None) "/bin/rm -rf /" "rm" = true.
Proof.
  apply (matchesPattern_program (fun _ _ => None) "rm" "/bin" "dir build" " -rf /").
  - split; [reflexivity | discriminate].
  - reflexivity.
  - right. exists " "%char, "-rf /". split; reflexivity.
Defined.

(** ** The collection store: the cache and the files *)

Section StoreCache.
Context {V : Type}.
Implicit Types (c : YamlCollection.collection V) (d : YamlCollection.disk V).

(** X29. [get] serves a record from the cache unless its file is newer.
    For a record with a cached path: when the file is gone, or when its
    modification time is not later than the time of the last read, [get]
    returns the cached document, whatever the file holds by now; when the
    file is newer and can be read, [get] returns the document of the file
    and remembers its modification time. *)
Theorem get_cached_or_newer c d (id path : string) :
  let lastRead := default 0%Z (YamlCollection.lastReadTs c !! id) in
  YamlCollection.filePaths c !! id = Some path ->
  Js.nonempty path = true ->
  (YamlCollection.files d !! path = None ->
   YamlCollection.get c d id = (c, YamlCollection.items c !! id))
  /\ (forall f, YamlCollection.files d !! path = Some f ->
                (YamlCollection.mtimeMs f <= lastRead)%Z ->
                snd (YamlCollection.get c d id) = YamlCollection.items c !! id)
  /\ (forall f v, YamlCollection.files d !! path = Some f ->
                  (lastRead < YamlCollection.mtimeMs f)%Z ->
                  YamlCollection.content f = Some v ->
                  snd (YamlCollection.get c d id) = Some v
                  /\ YamlCollection.lastReadTs (fst (YamlCollection.get c d id)) !! id
                     = Some (YamlCollection.mtimeMs f)).
Proof.
  intros lastRead Hpath Hnonempty. unfold YamlCollection.get, YamlCollection._loadFile.
  rewrite Hpath, Hnonempty. fold lastRead. split; [| split].
  - intros ->. reflexivity.
  - intros f -> Hold.
    destruct (YamlCollection.mtimeMs f >? lastRead)%Z eqn:Hgt; [lia | reflexivity].
  - intros f v -> Hnew ->.
    destruct (YamlCollection.mtimeMs f >? lastRead)%Z eqn:Hgt; [| lia].
    cbn [fst snd YamlCollection.items YamlCollection.lastReadTs].
    split; apply lookup_insert_eq.
Qed.

End StoreCache.

Lemma get_cached_or_newer_witness :
  snd (YamlCollection.get (fst (YamlCollection.get YamlCollection.new one_record "a"))
                          one_record_rewritten "a")
  = Some (JsVal.Str "x").
Proof.
  assert (Hpath : YamlCollection.filePaths
                    (fst (YamlCollection.get YamlCollection.new one_record "a")) !! "a"
                  = Some "a.yml") by (vm_compute; reflexivity).
  assert (Hfile : YamlCollection.files one_record_rewritten !! "a.yml"
                  = Some {| YamlCollection.content := Some (JsVal.Str "z");
                            YamlCollection.mtimeMs := 1 |}) by (vm_compute; reflexivity).
  assert (Hitem : YamlCollection.items
                    (fst (YamlCollection.get YamlCollection.new one_record "a")) !! "a"
                  = Some (JsVal.Str "x")) by (vm_compute; reflexivity).
  destruct (get_cached_or_newer (fst (YamlCollection.get YamlCollection.new one_record "a"))
              one_record_rewritten "a" "a.yml" Hpath eq_refl) as [_ [Hold _]].
  rewrite <- Hitem. apply (Hold _ Hfile). vm_compute. discriminate.
Defined.

(** ** Sessions: deleting and listing *)

Section SoftDelete.
Implicit Types (c : YamlCollection.collection Session) (d : YamlCollection.disk Session).

(** Two caches agree on the record [id]. *)
Local Abbreviation agree c1 c id :=
  (YamlCollection.items c1 !! id = YamlCollection.items c !! id
   /\ YamlCollection.filePaths c1 !! id = YamlCollection.filePaths c !! id
   /\ YamlCollection.lastReadTs c1 !! id = YamlCollection.lastReadTs c !! id).

Lemma loadFile_other c d (id id' name : string) :
  id <> id' -> agree (YamlCollection._loadFile c d id' name) c id.
Proof.
  intros Hne. unfold YamlCollection._loadFile.
  destruct (YamlCollection.files d !! name) as [f |]; [| now repeat split].
  destruct (YamlCollection.mtimeMs f >? _)%Z.
  - destruct (YamlCollection.content f); [| now repeat split].
    cbn [YamlCollection.items YamlCollection.filePaths YamlCollection.lastReadTs].
    repeat split; apply lookup_insert_ne; congruence.
  - cbn [YamlCollection.items YamlCollection.filePaths YamlCollection.lastReadTs].
    repeat split; try reflexivity. apply lookup_insert_ne. congruence.
Qed.

Lemma get_other c d (id id' : string) :
  id <> id' -> agree (fst (YamlCollection.get c d id')) c id.
Proof.
  intros Hne. rewrite get_read_path. destruct (read_path c d id'); cbn [fst];
    [now apply loadFile_other | now repeat split].
Qed.

Lemma get_agree c1 c d (id : string) :
  agree c1 c id -> snd (YamlCollection.get c1 d id) = snd (YamlCollection.get c d id).
Proof.
  intros [Hitems [Hpaths Hts]]. rewrite !get_read_path.
  assert (Hread : read_path c1 d id = read_path c d id)
    by (unfold read_path; now rewrite Hpaths).
  rewrite Hread. destruct (read_path c d id) as [name |]; [| reflexivity].
  cbn [snd]. unfold YamlCollection._loadFile. rewrite Hts.
  destruct (YamlCollection.files d !! name) as [f |]; [| exact Hitems].
  destruct (YamlCollection.mtimeMs f >? _)%Z.
  - destruct (YamlCollection.content f); [| exact Hitems].
    cbn [YamlCollection.items]. now rewrite !lookup_insert_eq.
  - exact Hitems.
Qed.

Lemma load_other (s : SessionModel.store) (id id' : string) :
  id <> id' ->
  snd (SessionModel.load (fst (SessionModel.load s id')) id) = snd (SessionModel.load s id).
Proof.
  intros Hne. unfold SessionModel.load.
  pose proof (get_other (SessionModel.col s) (SessionModel.dsk s) id id' Hne) as Hagree.
  destruct (YamlCollection.get (SessionModel.col s) (SessionModel.dsk s) id') as [c' v'].
  cbn [fst SessionModel.with_col SessionModel.col SessionModel.dsk] in *.
  pose proof (get_agree c' (SessionModel.col s) (SessionModel.dsk s) id Hagree) as Hget.
  destruct (YamlCollection.get c' _ id), (YamlCollection.get (SessionModel.col s) _ id).
  exact Hget.
Qed.

Lemma list_filter_hides (id : string) (ids : list string) :
  forall s,
    SessionModel.is_deleted (snd (SessionModel.load s id)) = true ->
    ~ In id (snd (SessionModel.list_filter s ids)).
Proof.
  induction ids as [| id0 rest IH]; intros s Hdeleted; [intros [] |].
  cbn [SessionModel.list_filter].
  destruct (SessionModel.load s id0) as [s1 session] eqn:Hload.
  assert (Hnext : SessionModel.is_deleted (snd (SessionModel.load s1 id)) = true).
  { destruct (String.eqb_spec id id0) as [-> | Hne].
    - replace s1 with (fst (SessionModel.load s id0)) by now rewrite Hload.
      now rewrite load_idempotent.
    - replace s1 with (fst (SessionModel.load s id0)) by now rewrite Hload.
      now rewrite load_other. }
  specialize (IH s1 Hnext).
  destruct (SessionModel.list_filter s1 rest) as [s2 kept]. cbn [snd] in *.
  destruct (SessionModel.is_deleted session) eqn:Hsession; [exact IH |].
  intros [-> | Hin]; [| now apply IH].
  rewrite Hload in Hdeleted. cbn [snd] in Hdeleted. congruence.
Qed.

(** X30. Deleting a session marks it and hides it from the list. For a
    session that exists, with no other change pending and its file
    writable, [SessionModel.delete] returns true and keeps the file: the
    file then holds the session with [metadata.deletedAt] set to the time
    of the call, and every other file is as before. From then on
    [SessionModel.list()] leaves the session out, while every id listed
    before is still listed with [includeDeleted]. *)
Theorem delete_hides_session (st : SessionModel.store) (id : string) (session : Session) :
  let path := YamlCollection._getFilePath
                (SessionModel.col (fst (SessionModel.load st id))) id in
  let session' := set_deletedAt session (SessionModel.isoNow st) in
  snd (SessionModel.load st id) = Some session ->
  YamlCollection.dirty (SessionModel.col st) = [] ->
  YamlCollection.deleted (SessionModel.col st) = [] ->
  path ∉ YamlCollection.locked (SessionModel.dsk st) ->
  Js.nonempty path = true ->
  Js.nonempty (SessionModel.isoNow st) = true ->
  exists st',
    SessionModel.delete st id = (Ok true, st')
    /\ YamlCollection.files (SessionModel.dsk st') !! path
       = Some {| YamlCollection.content := Some session';
                 YamlCollection.mtimeMs := SessionModel.now st |}
    /\ (forall name, name <> path ->
          YamlCollection.files (SessionModel.dsk st') !! name
          = YamlCollection.files (SessionModel.dsk st) !! name)
    /\ ~ In id (snd (SessionModel.list st' false))
    /\ (forall id', In id' (YamlCollection.list (SessionModel.dsk st)) ->
                    In id' (snd (SessionModel.list st' true))).
Proof.
  intros path session' Hload Hdirty0 Hdeleted0 Hfree Hpath Hiso.
  unfold SessionModel.delete.
  pose proof (load_disk st id) as Hdisk.
  assert (Hpending : YamlCollection.dirty (SessionModel.col (fst (SessionModel.load st id)))
                     = []
                     /\ YamlCollection.deleted
                          (SessionModel.col (fst (SessionModel.load st id))) = []).
  { unfold SessionModel.load.
    pose proof (get_pending (SessionModel.col st) (SessionModel.dsk st) id) as [Hd Hx].
    destruct (YamlCollection.get _ _ id) as [c v].
    cbn [fst SessionModel.col SessionModel.with_col] in *. now rewrite Hd, Hx. }
  assert (Hclock : SessionModel.now (fst (SessionModel.load st id)) = SessionModel.now st
                   /\ SessionModel.isoNow (fst (SessionModel.load st id))
                      = SessionModel.isoNow st).
  { unfold SessionModel.load. destruct (YamlCollection.get _ _ id) as [c v]. now split. }
  destruct (SessionModel.load st id) as [s1 found] eqn:Hl.
  cbn [fst snd] in *. subst found. destruct Hpending as [Hdirty Hdeleted].
  destruct Hclock as [Hnow Hisonow]. rewrite Hisonow. fold session'.
  set (c2 := YamlCollection.set (SessionModel.col s1) id session').
  destruct (set_pending (SessionModel.col s1) id session' (or_introl Hdirty)
              (or_introl Hdeleted)) as [Hd Hx].
  assert (Hitem : YamlCollection.items c2 !! id = Some session')
    by (subst c2; cbn; apply lookup_insert_eq).
  assert (Hfree2 : YamlCollection._getFilePath c2 id
                   ∉ YamlCollection.locked (SessionModel.dsk s1))
    by (rewrite Hdisk; exact Hfree).
  pose proof (save_one_dirty c2 (SessionModel.dsk s1) id session' (SessionModel.now s1)
                eq_refl Hd Hx Hitem eq_refl Hfree2) as Hsave.
  change (YamlCollection._getFilePath c2 id) with path in Hsave.
  unfold SessionModel.save, SessionModel.collection_save.
  cbn [SessionModel.with_col SessionModel.col SessionModel.dsk SessionModel.now
         SessionModel.isoNow].
  fold c2. rewrite Hsave.
  cbn [YamlCollection.sv_col YamlCollection.sv_disk SessionModel.col SessionModel.dsk
         SessionModel.now SessionModel.isoNow].
  unfold YamlCollection.save at 1. cbn [YamlCollection.hasChanges negb].
  cbn [YamlCollection.sv_col YamlCollection.sv_disk].
  eexists. split; [reflexivity |].
  cbn [SessionModel.dsk YamlCollection.files].
  split; [rewrite Hnow; apply lookup_insert_eq |].
  split; [intros name Hname; rewrite Hdisk; apply lookup_insert_ne; congruence |].
  split.
  - unfold SessionModel.list. apply list_filter_hides.
    unfold SessionModel.load. cbn [SessionModel.col SessionModel.dsk].
    unfold YamlCollection.get. cbn [YamlCollection.filePaths].
    rewrite lookup_insert_eq, Hpath.
    unfold YamlCollection._loadFile. cbn [YamlCollection.files].
    rewrite lookup_insert_eq. cbn [YamlCollection.mtimeMs YamlCollection.content].
    assert (Hmarked : SessionModel.is_deleted (Some session') = true) by exact Hiso.
    destruct (SessionModel.now s1 >? _)%Z;
      cbn [snd SessionModel.with_col YamlCollection.items]; subst c2;
      cbn [YamlCollection.set YamlCollection.items]; rewrite lookup_insert_eq;
      exact Hmarked.
  - intros id' Hin. unfold SessionModel.list. cbn [snd SessionModel.dsk].
    unfold YamlCollection.list in *. apply in_map_iff in Hin as [name [Hname Hin]].
    apply in_map_iff. exists name. split; [exact Hname |].
    apply scanFiles_In in Hin as [Hfile Hext]. apply scanFiles_In.
    split; [| exact Hext]. cbn [YamlCollection.files].
    rewrite <- Hdisk in Hfile.
    destruct (String.eqb_spec name path) as [-> | Hne].
    + rewrite lookup_insert_eq. eauto.
    + rewrite lookup_insert_ne by congruence. exact Hfile.
Qed.

End SoftDelete.

Lemma delete_hides_session_witness :
  exists st',
    SessionModel.delete S1_store "1" = (Ok true, st')
    /\ ~ In "1" (snd (SessionModel.list st' false))
    /\ In "1" (snd (SessionModel.list st' true)).
Proof.
  assert (Hload : snd (SessionModel.load S1_store "1") = Some S1.session)
    by (vm_compute; reflexivity).
  assert (Hpath : YamlCollection._getFilePath
                    (SessionModel.col (fst (SessionModel.load S1_store "1"))) "1" = "1.yml")
    by (vm_compute; reflexivity).
  assert (Hfree : YamlCollection._getFilePath
                    (SessionModel.col (fst (SessionModel.load S1_store "1"))) "1"
                  ∉ YamlCollection.locked (SessionModel.dsk S1_store))
    by (rewrite Hpath; apply not_elem_of_empty).
  assert (Hname : Js.nonempty
                    (YamlCollection._getFilePath
                       (SessionModel.col (fst (SessionModel.load S1_store "1"))) "1") = true)
    by (rewrite Hpath; reflexivity).
  assert (Hlisted : In "1" (YamlCollection.list (SessionModel.dsk S1_store)))
    by (vm_compute; now left).
  destruct (delete_hides_session S1_store "1" S1.session Hload eq_refl eq_refl Hfree Hname
              eq_refl) as [st' [Hdelete [_ [_ [Hhidden Hkept]]]]].
  exists st'. split; [exact Hdelete |]. split; [exact Hhidden | exact (Hkept "1" Hlisted)].
Defined.
